(* ===== verification/_CoqProject ===== *)
-Q . S2P
Prelude.v
JsString.v
Html.v
Json.v
Storage.v
Catalog.v
BCTable.v
Paging.v
Sequences.v
EntryModel.v
Identifier.v
Export.v
EntryOps.v
SeqView.v
Publish.v
Pipeline.v
Stage1.v
CatalogSync.v
Reasons.v
Shell.v
Persist.v
Windows.v
FaceView.v
