(* ===== verification/Prelude.v ===== *)
(** * Verification of the Language Factory admin core

    This development models, in Rocq, the Language Factory admin
    application: a React front end under [src/src] and two Express back
    ends, [src/server.js] (JSON files) and [src/src/shared/server.js]
    (PostgreSQL).  An editor fills a catalog of paired values per reason
    (the "B/C" catalog), composes ordered paths of catalog keys
    ("sequences"), attaches text rows to the positions of a sequence in
    numbered blocks ("entry"), derives a deterministic identifier per row
    and publishes the (identifier, value) pairs into a store that
    archives superseded values.

    ** How the parts interact

    Data flows one way: Catalog -> Sequences -> Entry store -> Identifier
    composer -> Export -> Publish.  The pages of one reason share state
    only through localStorage, one JSON value per key ([LS_FOR] in
    [src/src/shared/storage.ts]): the catalog, the sequences, and the
    entry store [Record<seqKey, Block[]>] keyed by [path.join("|")].  The
    catalog is mirrored to [/stage1/bc:save] and read back by
    [/stage1/bc:get]; the Publish button of [ReasonDetail.tsx] calls
    [/stage1/reason:publish]; [/stage1/text:upsert] takes a batch of
    (identifier, value) pairs, which no page of the repository sends.  Several windows of one browser share the
    same localStorage; only the Sequences page listens to its [storage]
    event (for the catalog).

    ** Files, in dependency order

    - [Prelude] (this file): the scope [lf_scope] with the [let!]
      notation of the result monad ([res_bind] on [E + A]); the hint
      databases [lf] and [lf_rw]; the tactic [lf_simp]; the JavaScript
      array methods as list functions: [find_first] ([find]),
      [find_index] ([findIndex]), [sort_by_key] (the stable
      [Array.prototype.sort] with a numeric comparator) with its
      permutation, sortedness and stability lemmas, [sort_with] (the
      same sort with a boolean comparator), [first_min] (the
      linear scan equal to "find after sort"), [first_keys] (the key order
      of a JS [Map]); and [star], the reachability of a step relation,
      with [star_invariant] for invariants by rule induction.
    - [JsString]: the string operations of the code ([toLowerCase],
      [trim], [split], [join], [includes]) and [JSON.stringify]/[parse]
      on strings, with their round trips.
    - [Html] ([buildExcelHtml] of [utils.ts], imported by
      [EntryFace.tsx] and never called): the three replacements of
      [esc], proved equal to a one-pass escape whose output holds no
      [<] or [>] and decodes back to the text.
    - [Json]: JSON values ([json], with a nested induction principle),
      [JSON.stringify] ([stringify]) and [JSON.parse] ([json_parse], a
      recursive-descent parser with fuel); the round trip
      [json_parse_stringify_value], and [json_parse_fuel]: the fuel
      [2 * length + 1] is enough, so the parser is the unbounded one.
    - [Storage] ([storage.ts], [api.ts]): localStorage as a map with the
      browser's quota, [readJSON], [writeJSON], the [LS_FOR] keys,
      [apiJson] and the upload queue.  C30: the keys of different
      reasons (and of the application) never coincide, so a write to one
      reason's data leaves every other reading as before; further
      theorems: what [writeJSON] stores [readJSON] reads back, a write
      over the quota is silently lost, and the queue keeps its batches
      in order.
    - [Catalog] ([utils.ts], [BCEditor.tsx]): the catalog rows,
      [catalogMap], [bToken], [humanLabel], the table, [usedSet] and
      [updateVal]; theorems C8-C9: the global-uniqueness invariant and
      its preservation, and the rejection paths; further theorems show
      the no-match rule, the functional effect of an accepted edit, the
      C-key of a new row and a row holding one value in both columns.
    - [BCTable] ([BCEditor.tsx]'s [<tbody>]): each row of the numbered
      table (its key, the inputs' values, the [+ words] button on row 1
      only).  C10: an accepted edit typed into row [i] shows in row [i]
      and leaves every other row as it was.
    - [Paging] ([BCEditor.tsx]'s Start index and [pageRows] in JS
      numbers, as Rocq's primitive floats): C11: from [2^53] on (the
      input [1e16]) the [for] loop never ends, whatever the fuel; C12:
      on integer starts up to 10000 and the select's page sizes, the loop
      ends and returns the rows of the integer model [pageRows] of
      [Catalog] (checked by evaluation, with a fuel-monotonicity lemma);
      a further theorem shows that the start is never [NaN] and at least
      1.
    - [Sequences] ([Sequences.tsx], [pathsEqual]): the page state, its
      handlers and [seq_step], its transition relation; the palette
      filter; the CSV export/import.  C13: the invariant of reachable
      states; further theorems show the CSV round trip for dash-free keys,
      distinct paths on save, the failure of the round trip on the
      catalog's keys, the edit-save duplicate and that re-importing the
      page's own export changes nothing.
    - [EntryModel]: the [BlockRow] and [Block] records and the store type.
    - [Identifier] ([isFilledOutput], [headwordOverride], both [makeId]s):
      theorems C1-C2: the role of [dec], the equivalence of "sort then
      find" with the first-minimum scan; further theorems: the
      independence of the override from the exclusion flags, the hierarchy
      of identifiers, the preview/export difference, and the
      specification's two examples.
    - [Export] ([collectPairs], [previewRows]): C3: which rows are
      exported; further theorems show that the grouping loses and
      duplicates nothing (a permutation of the exportable rows), the
      preview's agreement up to order and a duplicate identifier.
    - [EntryOps]: the writers of the entry store ([quickAddWordsForRow],
      [toggleRowDb]), [seqModels], [composerText], [nextDecimal], and the
      unrouted [EntryPattern.tsx] editor as the step relation
      [Pattern.pattern_step].  C23-C25: the toggle is an involution,
      block numbers stay increasing, and, since the iterations share one
      store object, a path saved [n] times gets every word [n] times (one
      new block per word and copy, numbered on); further theorems: a quick-added block exports its
      headword, the editor's reachable states keep increasing block
      numbers, distinct paths get distinct store keys, [nextDecimal] is
      fresh.
    - [SeqView] ([Sequences.tsx] as rendered): the page's JSX as a
      record ([seq_view]: palette labels, chips, the buttons and their
      [disabled] conditions, the saved lines), a click on Save as the
      browser delivers it, and the Export CSV [data:] link with
      [encodeURIComponent] (the browser's function, modelled on bytes,
      with its percent-decoding round trip as a lemma).  C14: the
      downloaded file holds the CSV and re-imports to the same sequences;
      C16:
      the duplicate-steps alert is unreachable from the page; C17: the
      page names a path by [bToken] where the Entry pages (and the
      specification's [title]) use [humanLabel].
    - [Publish] ([src/server.js]): the [/stage1/text:upsert] handler over
      its two files, an abstract specification [SpecState] with the
      abstraction [abs], and the interface [TextStore]/[TextStoreLaws]
      (type classes) that the server instantiates.  C4-C7: the
      refinement of the specification's publish step by one-row
      requests, the one-row-per-identifier invariant, and the two effects
      of reading the file once per batch: every row of a batch is
      compared with the file before the request (C6, the archive), and
      only the last row's write survives (C7, for every batch); further
      theorems show two requests in sequence and idempotence.
    - [Pipeline]: the specification's export-then-publish round trip,
      proved once against the interface and instantiated for the server
      sent one pair per request, and the same export sent as one batch,
      which keeps only the last pair (no page sends either).
    - [Stage1] ([src/src/shared/server.js]): the PostgreSQL database as a
      record (reasons, the relations of schema [public] by name,
      [bc_catalogs]), the PL/pgSQL functions of [ensureCore] on it, and
      the five endpoints.  C18-C22: provisioning fails for every slug with
      a "-", is idempotent, and, names being truncated to 63 bytes,
      accepts every slug agreeing with a provisioned one on 51 characters
      without a table of its own (DDL keeps what exists: [keeps]); publishing
      refreshes the view (idempotently); [bc:save] then [bc:get]
      round-trips; a further theorem shows that publishing provisions an
      unknown slug.
    - [CatalogSync] ([BCEditor.tsx] with [Stage1]): the catalog editor's
      mount request to [bc:get], its debounced [saveServer] to
      [bc:save], [manualSave] and the localStorage mirror, as the events
      of one world (page, storage, database).  C34: once the mount
      request is settled, the server holds the page's catalog after
      every quiet period; C35: for every slug, storage, database and
      edit, an answer to the mount request arriving after the edit's
      save puts the old catalog back on the page with nothing pending,
      and the next save overwrites the edit at the server.
    - [Reasons] ([ReasonIndex.tsx]): the reason tree, search, pages, the
      page's own state as a step relation, the table's rows
      ([index_view]), [addNew] (which calls the [reason:create] of
      [Stage1]) and [deleteOne].  C37: the index never leaves page 1, so
      it shows at most (and only) the first 20 entries; C38: each row's
      title is indented by one dash per ancestor on a path of distinct
      reasons to the root; C39: the tree's unbounded recursion terminates within
      [length reasons + 1] levels (the fuel of [walk]) when ids are
      unique; C40: adding a reason with a multi-word title always fails
      at the server; a further theorem shows that deleting a reason hides
      its children.
    - [Shell] ([App.tsx], [ReasonDetail.tsx]): the reasons and the active
      reason with their storage, the page shown, the tabs and
      [publishReason].  C36: a reload shows the page that was shown.
    - [Persist] (the pages of a reason through localStorage): the JSON
      codecs of the entry store and of the saved paths, the Sequences
      page's mirror, [quickAddWordsForRow] with its reads and its write,
      the Entry page (mount, toggle with its writes, preview button, the
      block listing with its counts and buttons) and the Entry-Face page
      (mount, the "Export CSV" text).  C26: a quick-added headword
      reaches the CSV of Entry-Face through the storage; C27: the
      button of every listed row toggles exactly that row; C31: every
      reason's entry key keeps the type [Record<string, Block[]>]
      whatever the application writes; C32: the exported CSV reads back
      as the pairs of [collectPairs].
    - [FaceView] (the Entry-Face page after its mount): the joiner, the
      Copy and Download buttons and the Export CSV buttons, with the
      clipboard text and the downloaded files as effects, and a reader of
      the preview's lines ([read_block_line]).  C33: with a
      one-character joiner absent from the outputs, the downloaded
      preview reads back, line by line, to every block's number and
      truthy outputs.
    - [Windows] ([ReasonDetail.tsx] with the pages, in browser windows):
      a tab switch unmounts the page shown and mounts another (its reads
      and its mirror write); each page event is a handler with the list
      of its localStorage writes; several windows share localStorage; a
      B/C page left with its [bc:get] in flight or its save pending stays
      in the browser as an orphan whose continuations still run; and
      [br_step] is the step relation of the browser.  C28: in one window,
      over every run in which no B/C page was left with work pending, the
      page shown holds what localStorage holds for it; C15: leaving the
      B/C tab for the Sequences tab before the [bc:get] answer arrives
      lets the answer write the server's catalog to localStorage under
      the Sequences page, which keeps the catalog it read; C29: with two
      windows, a row click of one window's Entry page writes back the
      store read at its mount, losing what another window wrote meanwhile
      (a concrete run loses a quick-added block).

    ** Modelling choices

    Stateful code is explicit state passing: a handler maps the state and
    its arguments to the next state and its answer; a fallible handler
    returns a sum ([Stage1]) or an alert value next to the state.  React
    state updates are the updater functions themselves, and an effect
    that mirrors state to localStorage is a write after the update.
    Asynchronous code is a sequence of events of one world: a request
    answered by the server and its answer reaching the page are two
    events, and time is the argument of the events that depend on it
    (the 600 ms debounce).  localStorage is a map from keys to strings
    with a quota; the values are the [json] of [Json], and a page that
    uses a stored value as a typed object reads it through a decoder
    that gives [""] (or [null]) for a missing field.  Maps of the code
    are stdpp's [gmap] (JS objects keyed by strings, PostgreSQL name
    spaces) and arrays are lists, updated with [<[i:=x]>] where the code
    writes an existing index.  Strings are Rocq [string]s (8-bit
    characters); [toLowerCase] and [trim] are modelled on ASCII.
    The B/C editor's [start] and [perPage] are JS numbers, modelled as
    binary64 floats in [Paging] (with the kernel's float axioms, the
    specification of the primitive operations).
    Numbers used as block, token and decimal numbers are [nat]: the code
    only produces non-negative integers (except [parseInt] on a
    malformed input of the unrouted pattern editor); JSON numbers are
    the non-negative integers the application writes, and the parser
    refuses the others.  Every modelled function but three is structurally
    recursive over a list or a string, and the handlers are total
    functions, so every theorem about a result is about a result that
    exists.  Two exceptions have fuel proved enough: the tree walk of
    [ReasonIndex.tsx], which the code runs without a bound, gets
    [length reasons + 1] (C39), and [JSON.parse] gets
    [2 * length + 1] ([json_parse_fuel]).  The third, the [pageRows]
    loop on doubles, does not terminate from [2^53] on (C11: [None] for
    every fuel), and on the integer starts checked one more iteration
    than the page has rows is enough (C12).  PostgreSQL's behaviour that
    the code relies on is modelled as such: names truncated to 63 bytes,
    [IF NOT EXISTS], [quote_ident], one name space for tables, views and
    indexes, a failed statement aborting its transaction, and [nextval]
    surviving the abort.

    ** What is not modelled

    Rendering (JSX) other than the Entry page's listing, the reason
    index's rows, the Sequences page and the B/C editor's table, and
    [ui.tsx] (styles and thin
    wrappers of [button], [input] and [span]);
    [fetch] transport (requests reach the server in the order they are
    sent, and the server always answers); [Number] of the Start index's
    text (JS [ToNumber]), which [Paging] takes as the number it returns;
    the mechanics of file downloads and of the clipboard
    ([downloadBlob], [downloadTextFile]: a download is modelled as the
    file's name, text and type, a copy as the text);
    the number inputs of the unrouted [EntryPattern.tsx]
    ([parseInt(e.target.value || "0", 10)], which can store a negative
    number or [NaN] where the model's rows hold [nat]s: its [setRow] is
    modelled with the patch values themselves); [/health], the [pg]
    connection pool and the JSON text of [jsonb]
    columns; and [vite.config.js].  The [PLACEHOLDER] sentinel comes
    from a [constants] module that is not in the repository; it is a
    parameter of the definitions that use it. *)

From stdpp Require Export base list gmap strings.
From Stdlib Require Export Ascii Sorted.

Declare Scope lf_scope.
Delimit Scope lf_scope with lf.
Open Scope lf_scope.

Create HintDb lf discriminated.
Create Rewrite HintDb lf_rw.

(** ** JavaScript array methods *)

(** [Array.prototype.find] with a boolean predicate. *)
Fixpoint find_first {A} (p : A -> bool) (l : list A) : option A :=
  match l with
  | [] => None
  | x :: l' => if p x then Some x else find_first p l'
  end.

(** [Array.prototype.findIndex]; [-1] is [None]. *)
Fixpoint find_index {A} (p : A -> bool) (l : list A) : option nat :=
  match l with
  | [] => None
  | x :: l' => if p x then Some 0 else S <$> find_index p l'
  end.

(** [Array.prototype.sort((a, b) => key a - key b)]: ES2019 requires the
    sort to be stable, which the insertion sort below is (an element is
    placed before the first element whose key is not smaller). *)
Fixpoint ins_key {A} (key : A -> nat) (x : A) (l : list A) : list A :=
  match l with
  | [] => [x]
  | y :: l' => if key x <=? key y then x :: l else y :: ins_key key x l'
  end.

Fixpoint sort_by_key {A} (key : A -> nat) (l : list A) : list A :=
  match l with
  | [] => []
  | x :: l' => ins_key key x (sort_by_key key l')
  end.

(** [Array.prototype.sort] with a comparator given as [le a b], "[a] may
    stay before [b]": the same stable insertion. *)
Fixpoint ins_with {A} (le : A -> A -> bool) (x : A) (l : list A) : list A :=
  match l with
  | [] => [x]
  | y :: l' => if le x y then x :: l else y :: ins_with le x l'
  end.

Fixpoint sort_with {A} (le : A -> A -> bool) (l : list A) : list A :=
  match l with
  | [] => []
  | x :: l' => ins_with le x (sort_with le l')
  end.

(** Reference for "the first element satisfying [p] after a stable sort":
    a left-to-right scan keeping the first candidate of least key. *)
Fixpoint first_min {A} (key : A -> nat) (p : A -> bool) (l : list A) : option A :=
  match l with
  | [] => None
  | x :: l' =>
      let r := first_min key p l' in
      if p x then
        match r with
        | Some y => if key y <? key x then Some y else Some x
        | None => Some x
        end
      else r
  end.

(** The keys of a JS [Map] filled by [m.get(k) ?? m.set(k, [])] over a
    list: each distinct key once, in order of first occurrence. *)
Definition first_keys {A} (key : A -> nat) (l : list A) : list nat :=
  fold_left (fun ks x => if bool_decide (key x ∈ ks) then ks else ks ++ [key x]) l [].

(** ** Results

    A handler that can fail returns [inl] of an error or [inr] of the new
    state; [let! x := r in k] runs [k] on the state unless [r] failed, the
    way an exception skips the rest of a PL/pgSQL function or of a [try]
    block. *)
Definition res_bind {E A B} (r : E + A) (k : A -> E + B) : E + B :=
  match r with inl e => inl e | inr a => k a end.

Notation "'let!' x := r 'in' k" := (res_bind r (fun x => k))
  (at level 10, x name, r at level 100, k at level 200) : lf_scope.

Ltac lf_simp :=
  repeat first
    [ progress simpl in *
    | match goal with
      | H : _ && _ = true |- _ => apply andb_prop in H as [? ?]
      | H : Some _ = Some _ |- _ => injection H as H
      | H : Some _ = None |- _ => discriminate H
      | H : None = Some _ |- _ => discriminate H
      | H : (_ <=? _) = true |- _ => apply Nat.leb_le in H
      | H : (_ <=? _) = false |- _ => apply Nat.leb_gt in H
      | H : (_ <? _) = true |- _ => apply Nat.ltb_lt in H
      | H : (_ <? _) = false |- _ => apply Nat.ltb_ge in H
      end ].

Lemma flat_map_ext_In {X Y} (f g : X -> list Y) (l : list X) :
  (forall x, In x l -> f x = g x) -> flat_map f l = flat_map g l.
Proof.
  induction l as [|x l IH]; intros H; simpl; [done|].
  rewrite H by (by left). f_equal. apply IH. intros y Hy. apply H. by right.
Qed.

Lemma flat_map_flat_map {X Y Z} (g : Y -> list Z) (h : X -> list Y) (l : list X) :
  flat_map g (flat_map h l) = flat_map (fun x => flat_map g (h x)) l.
Proof. induction l as [|x l IH]; simpl; [done|]. by rewrite flat_map_app, IH. Qed.

Section lists.
  Context {A : Type}.
  Implicit Types (l : list A) (p : A -> bool) (key : A -> nat).

Lemma find_first_Some p l x :
    find_first p l = Some x -> In x l /\ p x = true.
  Proof.
    induction l as [|y l IH]; simpl; [discriminate|].
    destruct (p y) eqn:E; intros H; lf_simp; subst; [auto|].
    destruct (IH H); auto.
  Qed.

Lemma find_first_None p l :
    find_first p l = None -> forall x, In x l -> p x = false.
  Proof.
    induction l as [|y l IH]; simpl; [done|].
    destruct (p y) eqn:E; intros H x [<-|Hx]; lf_simp; auto.
  Qed.

Lemma find_first_filter p q l :
    find_first p (List.filter q l) = find_first (fun x => q x && p x) l.
  Proof.
    induction l as [|y l IH]; [done|]. simpl.
    destruct (q y) eqn:Eq; simpl; [|done].
    destruct (p y); [done|]. apply IH.
  Qed.

Lemma find_index_lookup p l i :
    find_index p l = Some i -> exists x, l !! i = Some x /\ p x = true.
  Proof.
    revert i. induction l as [|y l IH]; intros i; simpl; [discriminate|].
    destruct (p y) eqn:E; intros H; lf_simp; subst; [eauto|].
    destruct (find_index p l) as [j|] eqn:Ej; simpl in H; [|discriminate].
    injection H as <-. simpl. eauto.
  Qed.

Lemma find_index_None p l :
    find_index p l = None -> forall x, In x l -> p x = false.
  Proof.
    induction l as [|y l IH]; simpl; [done|].
    destruct (p y) eqn:E; [discriminate|].
    destruct (find_index p l); [discriminate|]. intros _ x [<-|Hx]; auto.
  Qed.

Lemma ins_key_perm key x l : Permutation (ins_key key x l) (x :: l).
  Proof.
    induction l as [|y l IH]; simpl; [done|].
    destruct (key x <=? key y); [done|].
    rewrite IH. apply perm_swap.
  Qed.

Lemma sort_by_key_perm key l : Permutation (sort_by_key key l) l.
  Proof.
    induction l as [|x l IH]; simpl; [done|].
    rewrite ins_key_perm. by constructor.
  Qed.

Definition key_le key (a b : A) : Prop := key a <= key b.

Lemma ins_key_sorted key x l :
    StronglySorted (key_le key) l -> StronglySorted (key_le key) (ins_key key x l).
  Proof.
    unfold key_le. induction 1 as [|y l Hs IH Hf]; simpl.
    - repeat constructor.
    - destruct (key x <=? key y) eqn:E; lf_simp.
      + constructor; [by constructor|]. constructor; [lia|].
        eapply Forall_impl; [exact Hf|]. simpl. lia.
      + constructor; [exact IH|].
        apply (Permutation_Forall (Permutation_sym (ins_key_perm key x l))).
        constructor; [lia|exact Hf].
  Qed.

Lemma sort_by_key_sorted key l : StronglySorted (key_le key) (sort_by_key key l).
  Proof. induction l; simpl; [constructor|]. by apply ins_key_sorted. Qed.

  (** Stability: the elements of one key keep their relative order. *)
Lemma ins_key_filter_eq key k x l :
    StronglySorted (key_le key) l ->
    List.filter (fun y => key y =? k) (ins_key key x l) =
    List.filter (fun y => key y =? k) (x :: l).
  Proof.
    unfold key_le. induction 1 as [|y l Hs IH Hf]; simpl; [done|].
    destruct (key x <=? key y) eqn:E; [done|]. lf_simp.
    simpl. rewrite IH. simpl.
    destruct (key y =? k) eqn:Ey, (key x =? k) eqn:Ex; try done.
    apply Nat.eqb_eq in Ey, Ex. lia.
  Qed.

Lemma sort_by_key_stable key k l :
    List.filter (fun y => key y =? k) (sort_by_key key l) = List.filter (fun y => key y =? k) l.
  Proof.
    induction l as [|x l IH]; simpl; [done|].
    rewrite ins_key_filter_eq by apply sort_by_key_sorted.
    simpl. by rewrite IH.
  Qed.

Lemma find_first_ins_key key p x s :
    StronglySorted (key_le key) s ->
    find_first p (ins_key key x s) =
    if p x then
      match find_first p s with
      | Some y => if key y <? key x then Some y else Some x
      | None => Some x
      end
    else find_first p s.
  Proof.
    unfold key_le. induction 1 as [|y s Hs IH Hf]; simpl.
    - by destruct (p x).
    - destruct (key x <=? key y) eqn:E; simpl; lf_simp.
      + destruct (p x); [|done]. destruct (p y); [rewrite (proj2 (Nat.ltb_ge _ _)); [done|lia]|].
        destruct (find_first p s) as [z|] eqn:Ez; [|done].
        apply find_first_Some in Ez as [Hin _].
        rewrite Forall_forall in Hf. specialize (Hf z (proj2 (list_elem_of_In _ _) Hin)).
        rewrite (proj2 (Nat.ltb_ge _ _)); [done|lia].
      + destruct (p y) eqn:Ey.
        * destruct (p x); [|done]. rewrite (proj2 (Nat.ltb_lt _ _)); [done|lia].
        * exact IH.
  Qed.

  (** Finding after a stable sort is the linear first-minimum scan. *)
Lemma find_first_sort_by_key key p l :
    find_first p (sort_by_key key l) = first_min key p l.
  Proof.
    induction l as [|x l IH]; simpl; [done|].
    rewrite find_first_ins_key by apply sort_by_key_sorted. by rewrite IH.
  Qed.

Lemma first_min_Some key p l x :
    first_min key p l = Some x ->
    In x l /\ p x = true /\ forall y, In y l -> p y = true -> key x <= key y.
  Proof.
    revert x. induction l as [|z l IH]; intros x; simpl; [discriminate|].
    destruct (p z) eqn:Ez.
    - destruct (first_min key p l) as [y|] eqn:Ey.
      + destruct (IH y eq_refl) as (Hin & Hp & Hmin).
        destruct (key y <? key z) eqn:Elt; intros H; lf_simp; subst.
        * split; [auto|split; [done|]]. intros w [<-|Hw] Hpw; [lia|auto].
        * split; [auto|split; [done|]]. intros w [<-|Hw] Hpw; [lia|].
          specialize (Hmin w Hw Hpw). lia.
      + intros H; lf_simp; subst. split; [auto|split; [done|]].
        intros w [<-|Hw] Hpw; [done|].
        revert Ey Hw Hpw. clear. induction l as [|u l IHl]; simpl; [done|].
        destruct (p u) eqn:Eu; [by destruct (first_min key p l) as [v|]; [destruct (key v <? key u)|]|].
        intros Ey [<-|Hw] Hpw; [congruence|]. eauto.
    - intros H. destruct (IH x H) as (Hin & Hp & Hmin).
      split; [auto|split; [done|]]. intros w [<-|Hw] Hpw; [congruence|auto].
  Qed.
Lemma find_first_app p l1 l2 :
    find_first p (l1 ++ l2) = match find_first p l1 with Some x => Some x | None => find_first p l2 end.
  Proof. induction l1 as [|y l1 IH]; simpl; [done|]. by destruct (p y). Qed.

Lemma find_first_insert_other p l i x :
    p x = false -> (forall y, l !! i = Some y -> p y = false) ->
    find_first p (<[i := x]> l) = find_first p l.
  Proof.
    revert i. induction l as [|y l IH]; intros [|i] Hx Hy; simpl; [done|done| |].
    - by rewrite Hx, (Hy y eq_refl).
    - destruct (p y); [done|]. by apply IH.
  Qed.

Lemma NoDup_map_eq {B} (f : A -> B) l x y :
    NoDup (map f l) -> x ∈ l -> y ∈ l -> f x = f y -> x = y.
  Proof.
    intros Hnd (i & Hi)%list_elem_of_lookup (j & Hj)%list_elem_of_lookup Hf.
    assert (i = j) as ->; [|congruence].
    eapply NoDup_lookup; [exact Hnd| |].
    - rewrite list_lookup_fmap, Hi. done.
    - rewrite list_lookup_fmap, Hj. simpl. by rewrite Hf.
  Qed.

  (** With unique keys, a find by key returns the element of that key. *)
Lemma find_first_key_unique {K} `{EqDecision K} (f : A -> K) l k x :
    NoDup (map f l) -> x ∈ l -> f x = k ->
    find_first (fun y => bool_decide (f y = k)) l = Some x.
  Proof.
    intros Hnd Hx Hk.
    destruct (find_first _ l) as [y|] eqn:Ey.
    - apply find_first_Some in Ey as [Hy Hpy]. apply bool_decide_eq_true in Hpy.
      f_equal. apply list_elem_of_In in Hy. eapply NoDup_map_eq; [exact Hnd|done|done|congruence].
    - apply list_elem_of_In in Hx. pose proof (find_first_None _ _ Ey x Hx) as Hn.
      simpl in Hn. apply bool_decide_eq_false in Hn. congruence.
  Qed.
Lemma first_min_filter key p q l :
    first_min key p (List.filter q l) = first_min key (fun x => q x && p x) l.
  Proof.
    induction l as [|y l IH]; [done|]. simpl.
    destruct (q y); simpl; rewrite IH; [done|]. by destruct (p y).
  Qed.

  (** A map that preserves the key and the predicate commutes with the scan. *)
Lemma first_min_map key p (g : A -> A) l :
    (forall x, key (g x) = key x) -> (forall x, p (g x) = p x) ->
    first_min key p (map g l) = g <$> first_min key p l.
  Proof.
    intros Hk Hp. induction l as [|y l IH]; [done|]. simpl.
    rewrite IH, Hp. destruct (p y); [|done].
    destruct (first_min key p l) as [z|]; simpl; [|done].
    rewrite !Hk. by destruct (key z <? key y).
  Qed.

Lemma flat_map_perm_ext {B} (f g : A -> list B) l :
    (forall x, In x l -> Permutation (f x) (g x)) ->
    Permutation (flat_map f l) (flat_map g l).
  Proof.
    induction l as [|x l IH]; intros H; simpl; [done|].
    apply Permutation_app; [apply H; by left|]. apply IH. intros y Hy. apply H. by right.
  Qed.

Lemma first_keys_go_spec key l ks :
    NoDup ks ->
    let ks' := fold_left (fun ks x => if bool_decide (key x ∈ ks) then ks else ks ++ [key x]) l ks in
    NoDup ks' /\ (forall k, k ∈ ks -> k ∈ ks') /\ (forall x, In x l -> key x ∈ ks').
  Proof.
    revert ks. induction l as [|y l IH]; intros ks Hnd; simpl; [split; [done|]; split; [done|]; done|].
    case_bool_decide as Hin.
    - destruct (IH ks Hnd) as (H1 & H2 & H3). split; [done|]. split; [done|].
      intros x [<-|Hx]; [by apply H2|by apply H3].
    - assert (NoDup (ks ++ [key y])) as Hnd'.
      { apply NoDup_app. split; [done|]. split; [|apply NoDup_singleton].
        intros k Hk ->%list_elem_of_singleton. done. }
      destruct (IH _ Hnd') as (H1 & H2 & H3). split; [done|].
      split; [intros k Hk; apply H2; set_solver|].
      intros x [<-|Hx]; [apply H2; set_solver|by apply H3].
  Qed.

Lemma first_keys_spec key l :
    NoDup (first_keys key l) /\ forall x, In x l -> key x ∈ first_keys key l.
  Proof.
    destruct (first_keys_go_spec key l [] ltac:(constructor)) as (H1 & _ & H3). done.
  Qed.

  (** Grouping by key over a duplicate-free list of keys covering every
      element is a permutation. *)
Lemma group_by_key_perm key (ks : list nat) l :
    NoDup ks -> (forall x, In x l -> key x ∈ ks) ->
    Permutation (flat_map (fun k => List.filter (fun x => key x =? k) l) ks) l.
  Proof.
    revert ks. induction l as [|y l IH]; intros ks Hnd Hcov.
    - clear. induction ks; simpl; done.
    - pose (F := fun k => List.filter (fun x => key x =? k) l).
      destruct (list_elem_of_split _ _ (Hcov y (or_introl eq_refl))) as (k1 & k2 & Hks).
      assert ((key y ∉ k1) /\ (key y ∉ k2)) as [Hy1 Hy2].
      { rewrite Hks in Hnd. apply NoDup_app in Hnd as (_ & Hdis & Hnd2).
        apply NoDup_cons in Hnd2 as [? _]. split; [|done].
        intros Hk. apply (Hdis _ Hk). by left. }
      assert (forall k1', key y ∉ k1' ->
                flat_map (fun k => List.filter (fun x => key x =? k) (y :: l)) k1' = flat_map F k1')
        as Hext.
      { intros k1' Hk1'. apply flat_map_ext_In. intros k Hk. simpl.
        destruct (key y =? k) eqn:E; [|done].
        apply Nat.eqb_eq in E. subst. by apply list_elem_of_In in Hk. }
      transitivity (flat_map F k1 ++ y :: F (key y) ++ flat_map F k2).
      + rewrite Hks, flat_map_app, Hext by done. simpl. rewrite Nat.eqb_refl.
        rewrite Hext by done. done.
      + rewrite <- Permutation_middle. constructor.
        specialize (IH ks Hnd (fun x Hx => Hcov x (or_intror Hx))).
        rewrite Hks, flat_map_app in IH. exact IH.
  Qed.
Lemma find_first_ext p q l :
    (forall x, In x l -> p x = q x) -> find_first p l = find_first q l.
  Proof.
    induction l as [|y l IH]; intros H; simpl; [done|].
    rewrite (H y (or_introl eq_refl)). destruct (q y); [done|].
    apply IH. intros x Hx. apply H. by right.
  Qed.

Lemma filter_all_true (f : A -> bool) l : Forall (fun x => f x = true) l -> List.filter f l = l.
Proof.
  intros H. apply forallb_filter_id, forallb_forall. intros x Hx.
  apply list_elem_of_In in Hx. exact (proj1 (Forall_forall _ _) H x Hx).
Qed.

Lemma filter_all_false (f : A -> bool) l : Forall (fun x => f x = false) l -> List.filter f l = [].
Proof. induction 1 as [|x l Hx _ IH]; simpl; [done|]. by rewrite Hx. Qed.

Lemma flat_map_all_nil {B} (f : A -> list B) l : Forall (fun x => f x = []) l -> flat_map f l = [].
Proof. induction 1 as [|x l Hx _ IH]; simpl; [done|]. by rewrite Hx. Qed.

(** Replacing an element by one the predicate treats alike does not move
    [findIndex]. *)
Lemma find_index_insert_same (p : A -> bool) l i x y :
  l !! i = Some y -> p x = p y -> find_index p (<[i := x]> l) = find_index p l.
Proof.
  revert i. induction l as [|z l IH]; intros [|i] Hi Hp; simpl in *; try discriminate.
  - injection Hi as ->. by rewrite Hp.
  - by rewrite (IH i Hi Hp).
Qed.

Lemma ins_with_perm le x l : Permutation (ins_with le x l) (x :: l).
Proof.
  induction l as [|y l IH]; simpl; [done|].
  destruct (le x y); [done|]. rewrite IH. apply perm_swap.
Qed.

Lemma sort_with_perm le l : Permutation (sort_with le l) l.
Proof. induction l as [|x l IH]; simpl; [done|]. rewrite ins_with_perm. by constructor. Qed.

End lists.

#[export] Hint Resolve sort_by_key_perm sort_by_key_sorted : lf.
#[export] Hint Rewrite @find_first_sort_by_key @sort_by_key_stable @find_first_filter : lf_rw.

(** ** Results *)

Lemma res_bind_inr_iff {E A B} (r : E + A) (k : A -> E + B) b :
  res_bind r k = inr b <-> exists a, r = inr a /\ k a = inr b.
Proof. destruct r; simpl; split; [done|by intros (? & ? & ?)|eauto|by intros (? & [= ->] & ?)]. Qed.

Lemma res_bind_inl_iff {E A B} (r : E + A) (k : A -> E + B) e :
  res_bind r k = inl e <-> r = inl e \/ exists a, r = inr a /\ k a = inl e.
Proof.
  destruct r; simpl; split.
  - intros [= ->]. by left.
  - by intros [[= ->] | (? & ? & ?)].
  - intros H. right. eauto.
  - by intros [? | (? & [= ->] & ?)].
Qed.

#[export] Hint Rewrite @res_bind_inr_iff @res_bind_inl_iff : lf_rw.

(** ** Reachability of a step relation *)

Section star.
Context {St : Type} (R : St -> St -> Prop).

Inductive star : St -> St -> Prop :=
  | star_refl s : star s s
  | star_step s1 s2 s3 : R s1 s2 -> star s2 s3 -> star s1 s3.

(** A property preserved by every step holds in every reachable state. *)
Lemma star_invariant (P : St -> Prop) :
  (forall s s', R s s' -> P s -> P s') -> forall s s', star s s' -> P s -> P s'.
Proof. intros Hstep s s' Hs. induction Hs; eauto. Qed.

Lemma star_one s s' : R s s' -> star s s'.
Proof. intros H. eapply star_step; [exact H|constructor]. Qed.

Lemma star_trans s1 s2 s3 : star s1 s2 -> star s2 s3 -> star s1 s3.
Proof. induction 1; eauto using star. Qed.
End star.

#[export] Hint Constructors star : lf.
#[export] Hint Resolve star_one star_trans : lf.

