(* ===== verification/JsString.v ===== *)
(** * JavaScript string operations used by the code

    [toLowerCase], [trim], [split] (on one character, and on runs of a
    character class), [join], [includes], [replace] of one character and
    the printing of a non-negative integer in a template literal, on
    Rocq strings; [split(/\r?\n/)] as [split_lines]; and
    [JSON.stringify]/[JSON.parse] on string values ([json_stringify],
    [json_parse_string]) with the escapes of ECMA-404.  Case folding and
    white space are those of ASCII; the code applies them to user-typed
    labels.  The lemmas are the algebraic facts the components use:
    idempotence, injectivity, and the round trips [split_on_join],
    [split_lines_join] and [json_parse_stringify]. *)

From S2P Require Import Prelude.
From Stdlib Require Import DecimalString DecimalNat.

(** ** Characters *)

Definition ascii_is_upper (c : ascii) : bool :=
  (65 <=? nat_of_ascii c) && (nat_of_ascii c <=? 90).

(** [String.prototype.toLowerCase] on one character. *)
Definition ascii_to_lower (c : ascii) : ascii :=
  if ascii_is_upper c then ascii_of_nat (nat_of_ascii c + 32) else c.

(** The white space [String.prototype.trim] strips (its ASCII part:
    tab, line feed, vertical tab, form feed, carriage return, space). *)
Definition js_is_space (c : ascii) : bool :=
  let n := nat_of_ascii c in (n =? 32) || ((9 <=? n) && (n <=? 13)).

(** ** Strings *)

Fixpoint to_lower (s : string) : string :=
  match s with
  | EmptyString => EmptyString
  | String c s' => String (ascii_to_lower c) (to_lower s')
  end.

Fixpoint trim_start (s : string) : string :=
  match s with
  | EmptyString => EmptyString
  | String c s' => if js_is_space c then trim_start s' else s
  end.

(** [String.prototype.trim]: strip both ends. *)
Definition trim (s : string) : string :=
  String.string_of_list_ascii
    (rev (String.list_ascii_of_string
            (trim_start (String.string_of_list_ascii
               (rev (String.list_ascii_of_string (trim_start s))))))).

(** JavaScript truthiness of a string: only [""] is falsy. *)
Definition js_truthy (s : string) : bool :=
  match s with EmptyString => false | _ => true end.

(** [s.split(c)] for a one-character separator [c]. *)
Fixpoint split_on (c : ascii) (s : string) : list string :=
  match s with
  | EmptyString => [EmptyString]
  | String d s' =>
      let rest := split_on c s' in
      if Ascii.eqb c d then EmptyString :: rest
      else match rest with
           | [] => [String d EmptyString]
           | w :: ws => String d w :: ws
           end
  end.

(** [s.split(/[...]+/)]: split at maximal runs of separator characters.
    [in_run] records that the previous character was a separator. *)
Fixpoint split_runs_go (sep : ascii -> bool) (in_run : bool) (s : string) : list string :=
  match s with
  | EmptyString => [EmptyString]
  | String d s' =>
      if sep d then
        let rest := split_runs_go sep true s' in
        if in_run then rest else EmptyString :: rest
      else
        match split_runs_go sep false s' with
        | [] => [String d EmptyString]
        | w :: ws => String d w :: ws
        end
  end.

Definition split_runs (sep : ascii -> bool) (s : string) : list string :=
  split_runs_go sep false s.

(** [parts.join(sep)]. *)
Fixpoint join (sep : string) (parts : list string) : string :=
  match parts with
  | [] => ""
  | [w] => w
  | w :: ws => w +:+ sep +:+ join sep ws
  end.

(** [`${n}`] for a non-negative integer [n]. *)
Definition string_of_nat (n : nat) : string :=
  NilEmpty.string_of_uint (Nat.to_uint n).

(** [String(undefined)], what a template literal prints for a missing
    array element or field. *)
Definition js_undefined : string := "undefined".

Definition dash : ascii := "-"%char.

(** [hay.includes(needle)]. *)
Fixpoint js_includes (hay needle : string) : bool :=
  String.prefix needle hay ||
  match hay with EmptyString => false | String _ hay' => js_includes hay' needle end.

(** ** JSON string literals *)

Definition quote_char : ascii := ascii_of_nat 34.
Definition bslash : ascii := ascii_of_nat 92.

Definition hex_digit (n : nat) : ascii :=
  if n <? 10 then ascii_of_nat (48 + n) else ascii_of_nat (87 + n).

Definition hex_val (c : ascii) : option nat :=
  let n := nat_of_ascii c in
  if (48 <=? n) && (n <=? 57) then Some (n - 48)
  else if (97 <=? n) && (n <=? 102) then Some (n - 87)
  else if (65 <=? n) && (n <=? 70) then Some (n - 55)
  else None.

(** [JSON.stringify] on one character of a string. *)
Definition json_escape_char (c : ascii) : string :=
  let n := nat_of_ascii c in
  if n =? 34 then String bslash (String quote_char EmptyString)
  else if n =? 92 then String bslash (String bslash EmptyString)
  else if n =? 8 then String bslash "b"
  else if n =? 12 then String bslash "f"
  else if n =? 10 then String bslash "n"
  else if n =? 13 then String bslash "r"
  else if n =? 9 then String bslash "t"
  else if n <? 32 then String bslash ("u00" +:+ String (hex_digit (n / 16)) (String (hex_digit (n mod 16)) EmptyString))
  else String c EmptyString.

Fixpoint json_escape (s : string) : string :=
  match s with
  | EmptyString => EmptyString
  | String c s' => json_escape_char c +:+ json_escape s'
  end.

(** [JSON.stringify(s)] for a string [s]. *)
Definition json_stringify (s : string) : string :=
  String quote_char (json_escape s +:+ String quote_char EmptyString).

(** The character a one-letter escape stands for. *)
Definition json_unescape (e : ascii) : option ascii :=
  let n := nat_of_ascii e in
  if n =? 34 then Some quote_char
  else if n =? 92 then Some bslash
  else if n =? 47 then Some (ascii_of_nat 47)
  else if n =? 98 then Some (ascii_of_nat 8)
  else if n =? 102 then Some (ascii_of_nat 12)
  else if n =? 110 then Some (ascii_of_nat 10)
  else if n =? 114 then Some (ascii_of_nat 13)
  else if n =? 116 then Some (ascii_of_nat 9)
  else None.

(** The body of a JSON string literal after its opening quote: the
    decoded characters and what follows the closing quote.  A [\u]
    escape of a code above 255 has no 8-bit character and is refused. *)
Fixpoint json_str_body (s : string) : option (string * string) :=
  match s with
  | EmptyString => None
  | String c s' =>
      if Ascii.eqb c quote_char then Some (EmptyString, s')
      else if Ascii.eqb c bslash then
        match s' with
        | String e s'' =>
            match json_unescape e with
            | Some d => (fun '(v, r) => (String d v, r)) <$> json_str_body s''
            | None =>
                match s'' with
                | String h1 (String h2 (String h3 (String h4 rest))) =>
                    if Ascii.eqb e "u"%char then
                      match hex_val h1, hex_val h2, hex_val h3, hex_val h4 with
                      | Some a, Some b, Some c, Some d =>
                          let code := ((a * 16 + b) * 16 + c) * 16 + d in
                          if code <? 256
                          then (fun '(v, r) => (String (ascii_of_nat code) v, r)) <$> json_str_body rest
                          else None
                      | _, _, _, _ => None
                      end
                    else None
                | _ => None
                end
            end
        | EmptyString => None
        end
      else if nat_of_ascii c <? 32 then None
      else (fun '(v, r) => (String c v, r)) <$> json_str_body s'
  end.

(** The white space [JSON.parse] allows around a value. *)
Definition json_is_space (c : ascii) : bool :=
  let n := nat_of_ascii c in (n =? 32) || (n =? 9) || (n =? 10) || (n =? 13).

Fixpoint skip_while (p : ascii -> bool) (s : string) : string :=
  match s with
  | EmptyString => EmptyString
  | String c s' => if p c then skip_while p s' else s
  end.

Fixpoint all_chars (p : ascii -> bool) (s : string) : bool :=
  match s with
  | EmptyString => true
  | String c s' => p c && all_chars p s'
  end.

(** [JSON.parse(l)] when [l] is a JSON string literal; [None] when it
    throws or is another kind of JSON value. *)
Definition json_parse_string (l : string) : option string :=
  match skip_while json_is_space l with
  | String q body =>
      if Ascii.eqb q quote_char then
        match json_str_body body with
        | Some (v, rest) => if all_chars json_is_space rest then Some v else None
        | None => None
        end
      else None
  | EmptyString => None
  end.

(** [l.split(/\r?\n/)]: split at line feeds, dropping a carriage
    return just before each of them. *)
Definition newline : ascii := ascii_of_nat 10.
Definition carriage_return : ascii := ascii_of_nat 13.

Fixpoint drop_last_cr (s : string) : string :=
  match s with
  | EmptyString => EmptyString
  | String c EmptyString => if Ascii.eqb c carriage_return then EmptyString else s
  | String c s' => String c (drop_last_cr s')
  end.

Fixpoint strip_cr_init (l : list string) : list string :=
  match l with
  | [] => []
  | [x] => [x]
  | x :: l' => drop_last_cr x :: strip_cr_init l'
  end.

Definition split_lines (s : string) : list string := strip_cr_init (split_on newline s).

(** [s.replace(/c/g, "")]. *)
Fixpoint remove_char (c : ascii) (s : string) : string :=
  match s with
  | EmptyString => EmptyString
  | String d s' => if Ascii.eqb c d then remove_char c s' else String d (remove_char c s')
  end.

(** ** Lemmas *)

Lemma ascii_to_lower_idem c : ascii_to_lower (ascii_to_lower c) = ascii_to_lower c.
Proof.
  unfold ascii_to_lower, ascii_is_upper.
  destruct ((65 <=? nat_of_ascii c) && (nat_of_ascii c <=? 90)) eqn:E; [|by rewrite E].
  apply andb_prop in E as [E1 E2]. apply Nat.leb_le in E1, E2.
  rewrite nat_ascii_embedding by lia.
  replace ((65 <=? nat_of_ascii c + 32) && (nat_of_ascii c + 32 <=? 90)) with false; [done|].
  symmetry. apply andb_false_iff. right. apply Nat.leb_gt. lia.
Qed.

Lemma to_lower_idem s : to_lower (to_lower s) = to_lower s.
Proof. induction s; simpl; [done|]. by rewrite ascii_to_lower_idem, IHs. Qed.

Lemma to_lower_append s1 s2 : to_lower (s1 +:+ s2) = to_lower s1 +:+ to_lower s2.
Proof. induction s1; simpl; [done|]. by rewrite IHs1. Qed.

Lemma split_on_nonempty c s : split_on c s <> [].
Proof. destruct s; simpl; [done|]. destruct (Ascii.eqb c a); [done|]. by destruct (split_on c s). Qed.

Lemma join_cons2 sep w w' ws : join sep (w :: w' :: ws) = w +:+ sep +:+ join sep (w' :: ws).
Proof. done. Qed.

Lemma append_char c s : String c EmptyString +:+ s = String c s.
Proof. done. Qed.

(** [s.split(c).join(c) === s]. *)
Lemma join_split_on c s : join (String c EmptyString) (split_on c s) = s.
Proof.
  induction s as [|d s IH]; [done|]. cbn [split_on].
  destruct (split_on c s) as [|w ws] eqn:Es; [by destruct (split_on_nonempty c s)|].
  destruct (Ascii.eqb c d) eqn:E.
  - apply Ascii.eqb_eq in E as <-. rewrite join_cons2, append_char, IH. done.
  - destruct ws as [|w' ws]; [simpl in *; by subst|].
    rewrite join_cons2 in IH |- *. by rewrite <- IH.
Qed.

(** A string that does not contain [c] splits into itself. *)
Definition char_free (c : ascii) (s : string) : Prop :=
  forall n, String.get n s <> Some c.

Lemma char_free_cons c d s : char_free c (String d s) <-> d <> c /\ char_free c s.
Proof.
  unfold char_free. split.
  - intros H. split; [intros E; apply (H 0); simpl; by rewrite E|]. intros n. exact (H (S n)).
  - intros [Hd Hs] [|n]; simpl; [congruence|apply Hs].
Qed.

Lemma split_on_char_free c s : char_free c s -> split_on c s = [s].
Proof.
  induction s as [|d s IH]; [done|]. rewrite char_free_cons. intros [Hd Hs]. simpl.
  destruct (Ascii.eqb c d) eqn:E; [apply Ascii.eqb_eq in E; congruence|].
  by rewrite IH.
Qed.

Lemma split_on_append_sep c s1 s2 :
  char_free c s1 ->
  split_on c (s1 +:+ String c s2) = s1 :: split_on c s2.
Proof.
  induction s1 as [|d s1 IH]; simpl.
  - by rewrite Ascii.eqb_refl.
  - rewrite char_free_cons. intros [Hd Hs].
    destruct (Ascii.eqb c d) eqn:E; [apply Ascii.eqb_eq in E; congruence|].
    by rewrite IH.
Qed.

(** Round trip: splitting a join recovers the parts when no part contains
    the separator. *)
Lemma split_on_join c parts :
  parts <> [] -> Forall (char_free c) parts ->
  split_on c (join (String c EmptyString) parts) = parts.
Proof.
  induction parts as [|w ws IH]; [done|]. intros _ Hall.
  apply Forall_cons in Hall as [Hw Hws].
  destruct ws as [|w' ws'].
  - by apply split_on_char_free.
  - rewrite join_cons2, append_char, split_on_append_sep by done. f_equal. by apply IH.
Qed.

Lemma string_of_nat_inj n m : string_of_nat n = string_of_nat m -> n = m.
Proof.
  unfold string_of_nat. intros H.
  apply (f_equal NilEmpty.uint_of_string) in H. rewrite !NilEmpty.usu in H.
  injection H as H. by apply Unsigned.to_uint_inj.
Qed.

(** [String.append] is marked [simpl never]: its equations. *)
Lemma append_String c s1 s2 : String c s1 +:+ s2 = String c (s1 +:+ s2).
Proof. done. Qed.

Lemma append_assoc_str s1 s2 s3 : (s1 +:+ s2) +:+ s3 = s1 +:+ (s2 +:+ s3).
Proof. induction s1 as [|c s1 IH]; [done|]. by rewrite !append_String, IH. Qed.

Lemma append_empty_r s : s +:+ "" = s.
Proof. induction s as [|c s IH]; [done|]. by rewrite append_String, IH. Qed.

(** [[...parts, x].join(sep)] extends [parts.join(sep)]. *)
Lemma join_snoc sep parts x :
  parts <> [] -> join sep (parts ++ [x]) = join sep parts +:+ sep +:+ x.
Proof.
  induction parts as [|w ws IH]; [done|]. intros _.
  destruct ws as [|w' ws]; [done|].
  specialize (IH ltac:(done)). cbn [app] in IH |- *.
  rewrite join_cons2, IH, join_cons2, !append_assoc_str. done.
Qed.

Lemma char_free_empty c : char_free c "".
Proof. intros n. by destruct n. Qed.

Lemma char_free_append c s1 s2 :
  char_free c s1 -> char_free c s2 -> char_free c (s1 +:+ s2).
Proof.
  induction s1 as [|d s1 IH]; [done|]. rewrite append_String, !char_free_cons.
  intros [Hd Hs1] Hs2. split; [done|]. by apply IH.
Qed.

Lemma all_chars_char_free c s :
  all_chars (fun d => negb (Ascii.eqb d c)) s = true -> char_free c s.
Proof.
  induction s as [|d s IH]; [intros; apply char_free_empty|]. simpl.
  rewrite andb_true_iff, negb_true_iff, char_free_cons. intros [Hd Hs].
  split; [|by apply IH]. intros ->. by rewrite Ascii.eqb_refl in Hd.
Qed.

Lemma all_chars_app p s1 s2 : all_chars p (s1 +:+ s2) = all_chars p s1 && all_chars p s2.
Proof. induction s1 as [|c s1 IH]; [done|]. simpl. rewrite IH. by destruct (p c). Qed.

Lemma all_chars_impl (p q : ascii -> bool) s :
  (forall c, p c = true -> q c = true) -> all_chars p s = true -> all_chars q s = true.
Proof.
  intros Hpq. induction s as [|c s IH]; [done|]. simpl.
  rewrite !andb_true_iff. intros [Hc Hs]. split; [by apply Hpq|by apply IH].
Qed.

(** ** JSON string literals *)

(** Each escaped character decodes back to itself. *)
Lemma json_str_body_escape_char c s :
  json_str_body (json_escape_char c +:+ s) =
  (fun '(v, r) => (String c v, r)) <$> json_str_body s.
Proof. destruct c as [[] [] [] [] [] [] [] []]; cbn; reflexivity. Qed.

Lemma json_str_body_escape s rest :
  json_str_body (json_escape s +:+ String quote_char rest) = Some (s, rest).
Proof.
  induction s as [|c s IH]; [done|]. simpl json_escape.
  by rewrite append_assoc_str, json_str_body_escape_char, IH.
Qed.

(** Round trip: [JSON.parse(JSON.stringify(s)) === s]. *)
Lemma json_parse_stringify s : json_parse_string (json_stringify s) = Some s.
Proof.
  unfold json_parse_string, json_stringify.
  change (skip_while json_is_space (String quote_char ?x)) with (String quote_char x).
  cbv beta iota.
  rewrite Ascii.eqb_refl, json_str_body_escape. done.
Qed.

Lemma json_escape_char_newline_free c :
  char_free newline (json_escape_char c).
Proof.
  apply all_chars_char_free. destruct c as [[] [] [] [] [] [] [] []]; vm_compute; reflexivity.
Qed.

(** A JSON string literal is on one line. *)
Lemma json_stringify_newline_free s : char_free newline (json_stringify s).
Proof.
  unfold json_stringify. apply char_free_cons. split; [done|].
  apply char_free_append; [|apply char_free_cons; split; [done|apply char_free_empty]].
  induction s as [|c s IH]; [apply char_free_empty|]. simpl.
  apply char_free_append; [apply json_escape_char_newline_free|done].
Qed.

Lemma drop_last_cr_snoc s c :
  c <> carriage_return -> drop_last_cr (s +:+ String c "") = s +:+ String c "".
Proof.
  intros Hc. induction s as [|d s IH]; simpl.
  - destruct (Ascii.eqb c carriage_return) eqn:E; [apply Ascii.eqb_eq in E; done|done].
  - rewrite IH. destruct s; done.
Qed.

Lemma json_stringify_no_cr s : drop_last_cr (json_stringify s) = json_stringify s.
Proof.
  unfold json_stringify. rewrite <- append_String. by apply drop_last_cr_snoc.
Qed.

Lemma strip_cr_init_id l : Forall (fun x => drop_last_cr x = x) l -> strip_cr_init l = l.
Proof.
  induction l as [|x [|y l] IH]; [done|done|]. intros Hall.
  apply Forall_cons in Hall as [Hx Hl]. cbn [strip_cr_init]. rewrite Hx. f_equal. by apply IH.
Qed.

(** Round trip: splitting joined lines recovers them when no line holds a
    line feed or ends in a carriage return. *)
Lemma split_lines_join rows :
  rows <> [] -> Forall (char_free newline) rows ->
  Forall (fun x => drop_last_cr x = x) rows ->
  split_lines (join (String newline EmptyString) rows) = rows.
Proof.
  intros Hne Hnl Hcr. unfold split_lines. rewrite split_on_join by done.
  by apply strip_cr_init_id.
Qed.

#[export] Hint Resolve split_on_nonempty : lf.
#[export] Hint Rewrite to_lower_idem join_split_on : lf_rw.
