(* ===== verification/Html.v ===== *)
(** * [buildExcelHtml] of [src/src/shared/utils.ts]

    The HTML table the Excel export would download: [esc] escapes a
    cell's text by three global replacements, in order [&], [<], [>],
    and the table is a header row of [<th>] cells and one [<tr>] of
    [<td>] cells per row ([c ?? ""] for a missing cell).  [EntryFace.tsx]
    imports the function and does not call it; it is modelled as the
    library function it is.

    [esc] is proved equal to the one-pass escape [esc_char] (the later
    replacements never touch what the earlier ones wrote), its output
    has no [<] or [>] (a cell cannot open or close a tag), and the HTML
    character references it writes decode back to the text. *)

From S2P Require Import Prelude JsString.

Definition amp : ascii := "&"%char.
Definition lt_char : ascii := "<"%char.
Definition gt_char : ascii := ">"%char.

(** [s.replace(/c/g, rep)]. *)
Fixpoint replace_all (c : ascii) (rep : string) (s : string) : string :=
  match s with
  | EmptyString => EmptyString
  | String d s' => (if Ascii.eqb d c then rep else String d EmptyString) +:+ replace_all c rep s'
  end.

(** [esc]: [&] first, then [<], then [>]. *)
Definition esc (s : string) : string :=
  replace_all gt_char "&gt;" (replace_all lt_char "&lt;" (replace_all amp "&amp;" s)).

Definition buildExcelHtml (header : list string) (rows : list (list (option string))) : string :=
  let thead := "<tr>" +:+ join "" (map (fun h => "<th>" +:+ esc h +:+ "</th>") header) +:+ "</tr>" in
  let tbody := join "" (map (fun r => "<tr>" +:+ join "" (map (fun c => "<td>" +:+ esc (default "" c) +:+ "</td>") r)
                                       +:+ "</tr>") rows) in
  "<!DOCTYPE html><html><head><meta charset=" +:+ String quote_char EmptyString +:+ "UTF-8" +:+
  String quote_char EmptyString +:+ "><meta http-equiv=" +:+ String quote_char EmptyString +:+
  "Content-Type" +:+ String quote_char EmptyString +:+ " content=" +:+ String quote_char EmptyString +:+
  "application/vnd.ms-excel; charset=UTF-8" +:+ String quote_char EmptyString +:+
  "></head><body><table>" +:+ thead +:+ tbody +:+ "</table></body></html>".

(** ** The reference: one pass *)

Definition esc_char (d : ascii) : string :=
  if Ascii.eqb d amp then "&amp;"
  else if Ascii.eqb d lt_char then "&lt;"
  else if Ascii.eqb d gt_char then "&gt;"
  else String d EmptyString.

Fixpoint esc1 (s : string) : string :=
  match s with
  | EmptyString => EmptyString
  | String d s' => esc_char d +:+ esc1 s'
  end.

(** Decoding the three character references. *)
Fixpoint unesc (fuel : nat) (s : string) : string :=
  match fuel with
  | O => s
  | S f =>
      match s with
      | EmptyString => EmptyString
      | String "&" (String "a" (String "m" (String "p" (String ";" s')))) => String amp (unesc f s')
      | String "&" (String "l" (String "t" (String ";" s'))) => String lt_char (unesc f s')
      | String "&" (String "g" (String "t" (String ";" s'))) => String gt_char (unesc f s')
      | String d s' => String d (unesc f s')
      end
  end.

(** ** Lemmas *)

Lemma replace_all_app c rep s1 s2 : replace_all c rep (s1 +:+ s2) = replace_all c rep s1 +:+ replace_all c rep s2.
Proof. induction s1 as [|d s1 IH]; [done|]. rewrite append_String. cbn [replace_all]. by rewrite IH, append_assoc_str. Qed.

Lemma replace_all_free c rep s : all_chars (fun d => negb (Ascii.eqb d c)) s = true -> replace_all c rep s = s.
Proof.
  induction s as [|d s IH]; [done|]. cbn. intros [Hd Hs]%andb_prop.
  apply negb_true_iff in Hd. rewrite Hd, IH by done. done.
Qed.

Lemma replace_all_single c rep d :
  replace_all c rep (String d EmptyString) = if Ascii.eqb d c then rep else String d EmptyString.
Proof. cbn [replace_all]. by rewrite append_empty_r. Qed.

Lemma esc_one_pass s : esc s = esc1 s.
Proof.
  unfold esc. induction s as [|d s IH]; [done|]. cbn [esc1]. change (String d s) with (String d EmptyString +:+ s).
  rewrite !replace_all_app, IH. f_equal. unfold esc_char.
  destruct (Ascii.eqb_spec d amp) as [->|Ha]; [reflexivity|].
  destruct (Ascii.eqb_spec d lt_char) as [->|Hl]; [reflexivity|].
  destruct (Ascii.eqb_spec d gt_char) as [->|Hg]; [reflexivity|].
  apply Ascii.eqb_neq in Ha, Hl, Hg.
  rewrite replace_all_single, Ha. cbv iota. rewrite replace_all_single, Hl. cbv iota.
  by rewrite replace_all_single, Hg.
Qed.

Lemma esc1_no_tags s :
  all_chars (fun d => negb (Ascii.eqb d lt_char) && negb (Ascii.eqb d gt_char)) (esc1 s) = true.
Proof.
  induction s as [|d s IH]; [done|]. cbn [esc1]. rewrite all_chars_app, IH, andb_true_r.
  unfold esc_char. destruct (Ascii.eqb d amp); [done|].
  destruct (Ascii.eqb d lt_char) eqn:El; [done|]. destruct (Ascii.eqb d gt_char) eqn:Eg; [done|].
  cbn. by rewrite El, Eg.
Qed.

Lemma unesc_esc1 s : unesc (String.length s) (esc1 s) = s.
Proof.
  induction s as [|d s IH]; [done|]. cbn [esc1 String.length].
  unfold esc_char. destruct (Ascii.eqb_spec d amp) as [->|Ha];
    [rewrite !append_String; change ("" +:+ esc1 s) with (esc1 s); cbn [unesc]; by rewrite IH|].
  destruct (Ascii.eqb_spec d lt_char) as [->|Hl];
    [rewrite !append_String; change ("" +:+ esc1 s) with (esc1 s); cbn [unesc]; by rewrite IH|].
  destruct (Ascii.eqb_spec d gt_char) as [->|Hg];
    [rewrite !append_String; change ("" +:+ esc1 s) with (esc1 s); cbn [unesc]; by rewrite IH|].
  change (String d EmptyString +:+ esc1 s) with (String d (esc1 s)).
  assert (unesc (S (String.length s)) (String d (esc1 s)) = String d (unesc (String.length s) (esc1 s))) as ->.
  { destruct d as [[] [] [] [] [] [] [] []]; try reflexivity; exfalso; done. }
  by rewrite IH.
Qed.

(** A cell of [buildExcelHtml] cannot open or close a tag, and its
    character references decode back to the cell's text. *)
Theorem esc_safe_roundtrip s :
  all_chars (fun d => negb (Ascii.eqb d lt_char) && negb (Ascii.eqb d gt_char)) (esc s) = true /\
  unesc (String.length s) (esc s) = s.
Proof. rewrite esc_one_pass. split; [apply esc1_no_tags|apply unesc_esc1]. Qed.
