(* ===== verification/Json.v ===== *)
(** * JSON values, [JSON.stringify] and [JSON.parse]

    Every page keeps its state in localStorage as the text of
    [JSON.stringify] and reads it back with [JSON.parse]
    ([src/src/shared/storage.ts], the upload queue of
    [src/src/shared/api.ts]).  This file models the JSON values the
    application stores ([json], after ECMA-404 with the numbers it
    writes: non-negative integers), [JSON.stringify] without
    indentation ([stringify]), and [JSON.parse] as a recursive-descent
    parser ([parse_value] with [parse_elems] and [parse_members]) run
    with fuel.

    Theorems: [parse_stringify], the round trip
    [JSON.parse(JSON.stringify(v))] = [v] for every value; and
    [parse_value_fuel], that the fuel [json_parse] gives
    ([2 * length + 1]) is enough: more fuel never changes the answer,
    so [json_parse] is the unbounded parser. *)

From S2P Require Import Prelude JsString.
From Stdlib Require Import DecimalString DecimalNat DecimalFacts.

(** ** Values *)

Inductive json :=
  | JNull
  | JBool (b : bool)
  | JNum (n : nat)
  | JStr (s : string)
  | JArr (l : list json)
  | JObj (l : list (string * json)).

(** Induction with a hypothesis for every element of an array and every
    member of an object. *)
Section json_ind'.
Variable P : json -> Prop.
Hypothesis HNull : P JNull.
Hypothesis HBool : forall b, P (JBool b).
Hypothesis HNum : forall n, P (JNum n).
Hypothesis HStr : forall s, P (JStr s).
Hypothesis HArr : forall l, Forall P l -> P (JArr l).
Hypothesis HObj : forall l, Forall (fun kv => P kv.2) l -> P (JObj l).

Fixpoint json_ind' (v : json) : P v :=
  match v with
  | JNull => HNull
  | JBool b => HBool b
  | JNum n => HNum n
  | JStr s => HStr s
  | JArr l => HArr l ((fix go l : Forall P l :=
                        match l with [] => List.Forall_nil _ | x :: l' => List.Forall_cons _ _ _ (json_ind' x) (go l') end) l)
  | JObj l => HObj l ((fix go l : Forall (fun kv => P kv.2) l :=
                        match l with [] => List.Forall_nil _ | kv :: l' => List.Forall_cons _ _ _ (json_ind' kv.2) (go l') end) l)
  end.
End json_ind'.

(** ** [JSON.stringify] *)

Fixpoint stringify (v : json) : string :=
  match v with
  | JNull => "null"
  | JBool true => "true"
  | JBool false => "false"
  | JNum n => string_of_nat n
  | JStr s => json_stringify s
  | JArr l => "[" +:+ join "," (map stringify l) +:+ "]"
  | JObj l => "{" +:+ join "," (map (fun kv => json_stringify kv.1 +:+ ":" +:+ stringify kv.2) l) +:+ "}"
  end.

(** ** [JSON.parse] *)

Definition digit_char (c : ascii) : bool :=
  let n := nat_of_ascii c in (48 <=? n) && (n <=? 57).

Definition skip_ws (s : string) : string := skip_while json_is_space s.

Fixpoint take_digits (s : string) : string * string :=
  match s with
  | String c s' => if digit_char c then let '(d, r) := take_digits s' in (String c d, r) else ("", s)
  | EmptyString => ("", "")
  end.

(** A number: [0], or a non-zero digit followed by digits.  The fraction,
    exponent and minus sign of the grammar give numbers the application
    never writes; they are refused. *)
Definition parse_nat (s : string) : option (nat * string) :=
  match s with
  | String c s' =>
      if Ascii.eqb c "0" then Some (0, s')
      else if digit_char c then
        let '(d, r) := take_digits s in (fun u => (Nat.of_uint u, r)) <$> NilEmpty.uint_of_string d
      else None
  | EmptyString => None
  end.

(** The letters of a literal after its first one. *)
Fixpoint strip_prefix (w s : string) : option string :=
  match w, s with
  | EmptyString, _ => Some s
  | String a w', String b s' => if Ascii.eqb a b then strip_prefix w' s' else None
  | String _ _, EmptyString => None
  end.

Definition parse_lit (w : string) (v : json) (s : string) : option (json * string) :=
  (fun r => (v, r)) <$> strip_prefix w s.

Fixpoint parse_value (fuel : nat) (s : string) {struct fuel} : option (json * string) :=
  match fuel with
  | 0 => None
  | S f =>
      match skip_ws s with
      | String c r =>
          if digit_char c then (fun '(n, r') => (JNum n, r')) <$> parse_nat (String c r)
          else if Ascii.eqb c "n" then parse_lit "ull" JNull r
          else if Ascii.eqb c "t" then parse_lit "rue" (JBool true) r
          else if Ascii.eqb c "f" then parse_lit "alse" (JBool false) r
          else if Ascii.eqb c quote_char then (fun '(v, r') => (JStr v, r')) <$> json_str_body r
          else if Ascii.eqb c "[" then
            match skip_ws r with
            | String d r' => if Ascii.eqb d "]" then Some (JArr [], r')
                             else (fun '(l, r') => (JArr l, r')) <$> parse_elems f r
            | EmptyString => None
            end
          else if Ascii.eqb c "{" then
            match skip_ws r with
            | String d r' => if Ascii.eqb d "}" then Some (JObj [], r')
                             else (fun '(l, r') => (JObj l, r')) <$> parse_members f r
            | EmptyString => None
            end
          else None
      | EmptyString => None
      end
  end
(** The elements of an array after its [[], up to and with its []]. *)
with parse_elems (fuel : nat) (s : string) {struct fuel} : option (list json * string) :=
  match fuel with
  | 0 => None
  | S f =>
      match parse_value f s with
      | Some (v, r) =>
          match skip_ws r with
          | String c r' =>
              if Ascii.eqb c "," then (fun '(l, r'') => (v :: l, r'')) <$> parse_elems f r'
              else if Ascii.eqb c "]" then Some ([v], r')
              else None
          | EmptyString => None
          end
      | None => None
      end
  end
(** The members of an object after its [{], up to and with its [}]. *)
with parse_members (fuel : nat) (s : string) {struct fuel} : option (list (string * json) * string) :=
  match fuel with
  | 0 => None
  | S f =>
      match skip_ws s with
      | String q r =>
          if Ascii.eqb q quote_char then
            match json_str_body r with
            | Some (k, r1) =>
                match skip_ws r1 with
                | String col r2 =>
                    if Ascii.eqb col ":" then
                      match parse_value f r2 with
                      | Some (v, r3) =>
                          match skip_ws r3 with
                          | String c r4 =>
                              if Ascii.eqb c "," then (fun '(l, r5) => ((k, v) :: l, r5)) <$> parse_members f r4
                              else if Ascii.eqb c "}" then Some ([(k, v)], r4)
                              else None
                          | EmptyString => None
                          end
                      | None => None
                      end
                    else None
                | EmptyString => None
                end
            | None => None
            end
          else None
      | EmptyString => None
      end
  end.

(** [JSON.parse(t)]: [None] where it throws. *)
Definition json_parse (t : string) : option json :=
  match parse_value (S (2 * String.length t)) t with
  | Some (v, r) => if all_chars json_is_space r then Some v else None
  | None => None
  end.

(** [obj[k]] of a parsed object: the last member named [k], as
    [JSON.parse] keeps the last of duplicate names. *)
Definition jget (k : string) (v : json) : option json :=
  match v with
  | JObj l => (fun kv => kv.2) <$> find_first (fun kv => bool_decide (kv.1 = k)) (rev l)
  | _ => None
  end.

(** A field read as a string: [""] when it is missing or not a string. *)
Definition jstr (o : option json) : string := match o with Some (JStr s) => s | _ => "" end.

(** The fuel [parse_value] needs for the text of [v]: one per value and
    one more per element or member. *)
Fixpoint jneed (v : json) : nat :=
  match v with
  | JArr l => S (list_sum (map (fun x => S (jneed x)) l))
  | JObj l => S (list_sum (map (fun kv => S (jneed kv.2)) l))
  | _ => 1
  end.

(** What may follow a number without extending it. *)
Definition no_digit_head (r : string) : bool :=
  match r with String c _ => negb (digit_char c) | EmptyString => true end.

(** ** Numbers *)

Lemma digit_char_not_space c : digit_char c = true -> json_is_space c = false.
Proof.
  unfold digit_char, json_is_space. intros [H1 H2]%andb_prop.
  apply Nat.leb_le in H1, H2. repeat apply orb_false_intro; apply Nat.eqb_neq; lia.
Qed.

Lemma string_of_uint_digits u : all_chars digit_char (NilEmpty.string_of_uint u) = true.
Proof. induction u; cbn; rewrite ?IHu; done. Qed.

(** [String(n)] is ["0"] or starts with a non-zero digit: [Nat.to_uint]
    gives a normalised decimal. *)
Lemma string_of_nat_head n :
  string_of_nat n = "0" \/
  exists c s, string_of_nat n = String c s /\ digit_char c = true /\ Ascii.eqb c "0" = false.
Proof.
  unfold string_of_nat. pose proof (Unsigned.to_of (Nat.to_uint n)) as H.
  rewrite Unsigned.of_to in H. destruct (Nat.to_uint n) as [|d|d|d|d|d|d|d|d|d|d];
    try (right; eexists _, _; split; [reflexivity | done]).
  - discriminate H.
  - left. unfold Decimal.unorm in H. cbn [Decimal.nzhead] in H.
    destruct (Decimal.nzhead d) as [|u|u|u|u|u|u|u|u|u|u] eqn:Ez; try discriminate H.
    + injection H as ->. done.
    + injection H as ->. exfalso. exact (nzhead_nonzero _ _ Ez).
Qed.

Lemma string_of_nat_cons n : exists c s, string_of_nat n = String c s /\ digit_char c = true.
Proof.
  destruct (string_of_nat_head n) as [-> | (c & s & E & Hd & _)]; [by eexists _, _|].
  by exists c, s.
Qed.

Lemma take_digits_app d r :
  all_chars digit_char d = true -> no_digit_head r = true -> take_digits (d +:+ r) = (d, r).
Proof.
  intros Hd Hr. induction d as [|c d IH]; cbn in Hd.
  - change ("" +:+ r) with r. destruct r as [|c r]; [done|]. cbn in Hr |- *.
    destruct (digit_char c); [discriminate Hr | done].
  - apply andb_prop in Hd as [Hc Hd]. rewrite append_String. cbn. by rewrite Hc, IH.
Qed.

Lemma parse_nat_string_of_nat n r :
  no_digit_head r = true -> parse_nat (string_of_nat n +:+ r) = Some (n, r).
Proof.
  intros Hr. destruct (string_of_nat_head n) as [E | (c & s & E & Hd & H0)].
  - assert (n = 0) as -> by (apply string_of_nat_inj; by rewrite E). done.
  - rewrite E, append_String. unfold parse_nat. rewrite H0, Hd, <- append_String, <- E.
    rewrite take_digits_app by (done || apply string_of_uint_digits).
    unfold string_of_nat. rewrite NilEmpty.usu. cbn. by rewrite Unsigned.of_to.
Qed.

Lemma digit_char_neq c d : digit_char c = true -> digit_char d = false -> Ascii.eqb c d = false.
Proof. intros Hc Hd. destruct (Ascii.eqb_spec c d) as [->|]; [congruence | done]. Qed.

(** ** The round trip *)

(** The text of a value does not start with white space, and neither
    with a closing bracket nor a closing brace. *)
Lemma stringify_head v :
  exists c s, stringify v = String c s /\ json_is_space c = false /\
    Ascii.eqb c "]" = false /\ Ascii.eqb c "}" = false.
Proof.
  destruct v as [| [] | n | s | l | l]; try (by eexists _, _).
  destruct (string_of_nat_cons n) as (c & s & E & Hd). exists c, s. cbn [stringify].
  rewrite E. split; [done|]. split; [by apply digit_char_not_space|].
  split; by apply digit_char_neq.
Qed.

Lemma append_empty_l s : "" +:+ s = s.
Proof. done. Qed.

Lemma skip_ws_char c s : json_is_space c = false -> skip_ws (String c s) = String c s.
Proof. intros H. unfold skip_ws. cbn [skip_while]. by rewrite H. Qed.

Lemma skip_ws_stringify v r : skip_ws (stringify v +:+ r) = stringify v +:+ r.
Proof.
  destruct (stringify_head v) as (c & s & E & Hs & _). rewrite E, append_String.
  unfold skip_ws. cbn [skip_while]. by rewrite Hs.
Qed.

(** [v] parses back from its text followed by [r], with any fuel from
    [jneed v] on. *)
Definition parses_back (v : json) : Prop :=
  forall f r, jneed v <= f -> no_digit_head r = true -> parse_value f (stringify v +:+ r) = Some (v, r).

Lemma parse_elems_back l :
  Forall parses_back l -> l <> [] -> forall g r,
  list_sum (map (fun x => S (jneed x)) l) <= g ->
  parse_elems g (join "," (map stringify l) +:+ String "]" r) = Some (l, r).
Proof.
  induction 1 as [|x l Hx Hl IH]; [done|]. intros _ g r Hg.
  destruct g as [|g]; cbn [map list_sum foldr] in Hg; [lia|]. cbn [parse_elems].
  destruct l as [|y l].
  - cbn [map join]. rewrite Hx by (cbn in Hg |- *; lia || done). done.
  - cbn [map]. rewrite join_cons2, append_assoc_str, append_assoc_str.
    rewrite Hx by (cbn in Hg |- *; lia || done). cbn -[join stringify].
    change (stringify y :: map stringify l) with (map stringify (y :: l)).
    rewrite append_char, skip_ws_char by reflexivity. cbn -[join stringify].
    rewrite IH by (done || cbn in Hg |- *; lia). done.
Qed.

Lemma json_stringify_app s r : json_stringify s +:+ r = String quote_char (json_escape s +:+ String quote_char r).
Proof. unfold json_stringify. by rewrite append_String, append_assoc_str. Qed.

Lemma parse_members_back l :
  Forall (fun kv => parses_back kv.2) l -> l <> [] -> forall g r,
  list_sum (map (fun kv => S (jneed kv.2)) l) <= g ->
  parse_members g (join "," (map (fun kv => json_stringify kv.1 +:+ ":" +:+ stringify kv.2) l)
                     +:+ String "}" r) = Some (l, r).
Proof.
  induction 1 as [|[k x] l Hx Hl IH]; [done|]. intros _ g r Hg.
  destruct g as [|g]; cbn [map list_sum foldr] in Hg; [lia|]. cbn [parse_members].
  destruct l as [|y l].
  - cbn [map join]. rewrite !append_assoc_str, json_stringify_app, skip_ws_char by reflexivity.
    rewrite (Ascii.eqb_refl quote_char), json_str_body_escape, append_char, skip_ws_char by reflexivity.
    cbn [Ascii.eqb Bool.eqb]. rewrite Hx by (cbn in Hg |- *; lia || done). done.
  - cbn [map]. rewrite join_cons2, !append_assoc_str, json_stringify_app, skip_ws_char by reflexivity.
    rewrite (Ascii.eqb_refl quote_char), json_str_body_escape, append_char, skip_ws_char by reflexivity.
    cbn [Ascii.eqb Bool.eqb]. rewrite Hx by (cbn in Hg |- *; lia || done).
    rewrite append_char, skip_ws_char by reflexivity. cbn -[join stringify json_stringify].
    change ((fun kv : string * json => json_stringify kv.1 +:+ ":" +:+ stringify kv.2) y
              :: map (fun kv => json_stringify kv.1 +:+ ":" +:+ stringify kv.2) l)
      with (map (fun kv : string * json => json_stringify kv.1 +:+ ":" +:+ stringify kv.2) (y :: l)).
    rewrite IH by (done || cbn in Hg |- *; lia). done.
Qed.

(** One step of [parse_value] on the first character of each kind of
    value. *)
Lemma parse_value_digit f c r :
  digit_char c = true -> parse_value (S f) (String c r) = (fun '(n, r') => (JNum n, r')) <$> parse_nat (String c r).
Proof. intros H. cbn [parse_value]. by rewrite skip_ws_char, H by (by apply digit_char_not_space). Qed.

Lemma parse_value_str f r :
  parse_value (S f) (String quote_char r) = (fun '(v, r') => (JStr v, r')) <$> json_str_body r.
Proof. reflexivity. Qed.

Lemma parse_value_arr f r :
  parse_value (S f) (String "[" r) =
  match skip_ws r with
  | String d r' => if Ascii.eqb d "]" then Some (JArr [], r') else (fun '(l, r') => (JArr l, r')) <$> parse_elems f r
  | EmptyString => None
  end.
Proof. reflexivity. Qed.

Lemma parse_value_obj f r :
  parse_value (S f) (String "{" r) =
  match skip_ws r with
  | String d r' => if Ascii.eqb d "}" then Some (JObj [], r') else (fun '(l, r') => (JObj l, r')) <$> parse_members f r
  | EmptyString => None
  end.
Proof. reflexivity. Qed.

Lemma parse_value_stringify v : parses_back v.
Proof.
  induction v as [| [] | n | s | l Hl | l Hl] using json_ind';
    intros [|f] r Hf Hr; cbn [jneed] in Hf; try lia; cbn [stringify].
  1-3: by rewrite ?append_String, ?append_empty_l.
  - destruct (string_of_nat_cons n) as (c & s & E & Hd).
    rewrite E, append_String, parse_value_digit by done.
    by rewrite <- append_String, <- E, parse_nat_string_of_nat.
  - by rewrite json_stringify_app, parse_value_str, json_str_body_escape.
  - rewrite !append_assoc_str, append_char, parse_value_arr. destruct l as [|x l].
    + by rewrite append_empty_l, append_char, skip_ws_char.
    + destruct (stringify_head x) as (c & s & E & Hs & Hb & _).
      assert (exists t, join "," (map stringify (x :: l)) +:+ "]" +:+ r = String c t) as [t Ej].
      { destruct l; [cbn [map join] | cbn [map]; rewrite join_cons2, !append_assoc_str];
          rewrite E, append_String; by eexists. }
      rewrite Ej, skip_ws_char, Hb by done. rewrite <- Ej, append_char.
      rewrite parse_elems_back by (done || lia). done.
  - rewrite !append_assoc_str, append_char, parse_value_obj. destruct l as [|[k x] l].
    + by rewrite append_empty_l, append_char, skip_ws_char.
    + assert (exists t, join "," (map (fun kv => json_stringify kv.1 +:+ ":" +:+ stringify kv.2) ((k, x) :: l))
                +:+ "}" +:+ r = String quote_char t) as [t Ej].
      { destruct l; [cbn [map join] | cbn [map]; rewrite join_cons2];
          rewrite ?append_assoc_str, json_stringify_app; by eexists. }
      rewrite Ej, skip_ws_char by reflexivity. change (Ascii.eqb quote_char "}") with false.
      rewrite <- Ej, append_char.
      rewrite parse_members_back by (done || lia). done.
Qed.

Lemma slen_app s1 s2 : String.length (s1 +:+ s2) = String.length s1 + String.length s2.
Proof. induction s1 as [|c s1 IH]; [done|]. by rewrite append_String; cbn; rewrite IH. Qed.

(** One comma between parts: the parts and their separators are no
    longer than the joined text. *)
Lemma join_length_ge {X} (f : X -> nat) (g : X -> string) l :
  Forall (fun x => f x <= String.length (g x)) l ->
  list_sum (map (fun x => S (f x)) l) <= S (String.length (join "," (map g l))).
Proof.
  induction 1 as [|x l Hx Hl IH]; [cbn; lia|]. destruct l as [|y l]; [cbn; lia|].
  cbn [map] in IH |- *. rewrite join_cons2, !slen_app. cbn [list_sum foldr] in IH |- *.
  cbn [String.length]. lia.
Qed.

Lemma jneed_le_length v : jneed v <= String.length (stringify v).
Proof.
  induction v as [| [] | n | s | l Hl | l Hl] using json_ind'; cbn [jneed stringify]; try (cbn; lia).
  - destruct (string_of_nat_cons n) as (c & s & -> & _). cbn; lia.
  - rewrite !slen_app. cbn [String.length].
    pose proof (join_length_ge jneed stringify l Hl). lia.
  - rewrite !slen_app. cbn [String.length].
    enough (list_sum (map (fun kv => S (jneed kv.2)) l) <=
            S (String.length (join "," (map (fun kv => json_stringify kv.1 +:+ ":" +:+ stringify kv.2) l))))
      by lia.
    apply (join_length_ge (fun kv => jneed kv.2)). eapply Forall_impl; [exact Hl|].
    intros [k x] Hx. rewrite !slen_app. cbn [String.length]. lia.
Qed.

(** [JSON.parse(JSON.stringify(v))] gives [v] back. *)
Lemma json_parse_stringify_value v : json_parse (stringify v) = Some v.
Proof.
  unfold json_parse. pose proof (jneed_le_length v).
  pose proof (parse_value_stringify v (S (2 * String.length (stringify v))) "") as Hp.
  rewrite append_empty_r in Hp. by rewrite Hp by (done || lia).
Qed.

(** ** The fuel of [json_parse]

    Every successful step consumes input, so a parse of [s] never needs
    more than [2 * length s + 1] levels: [parse_elems] and
    [parse_members] read at least one character before going one level
    down, and [parse_value] one character before calling them. *)

Lemma skip_ws_length s : String.length (skip_ws s) <= String.length s.
Proof. unfold skip_ws. induction s as [|c s IH]; cbn; [lia|]. destruct (json_is_space c); cbn; lia. Qed.

Lemma skip_ws_cons_length s c r : skip_ws s = String c r -> String.length r < String.length s.
Proof. intros H. pose proof (skip_ws_length s) as Hl. rewrite H in Hl. cbn in Hl. lia. Qed.

Ltac fmap_inv H :=
  match type of H with
  | (_ <$> ?o) = Some _ =>
      let E := fresh "E" in
      destruct o as [[? ?]|] eqn:E; cbn in H; [injection H as <- <- | discriminate H]
  end.

Lemma json_str_body_length s k r :
  json_str_body s = Some (k, r) -> String.length r < String.length s.
Proof.
  revert k r. induction s as [s IH] using (induction_ltof1 _ String.length); unfold ltof in IH.
  intros k r H. destruct s as [|c s']; [discriminate H|]. cbn [json_str_body] in H.
  destruct (Ascii.eqb c quote_char); [injection H as <- <-; cbn; lia|].
  destruct (Ascii.eqb c bslash).
  - destruct s' as [|e s'']; [discriminate H|].
    destruct (json_unescape e).
    + fmap_inv H. apply IH in E; cbn in *; lia.
    + destruct s'' as [|h1 [|h2 [|h3 [|h4 rest]]]]; try discriminate H.
      destruct (Ascii.eqb e "u"), (hex_val h1), (hex_val h2), (hex_val h3), (hex_val h4);
        try discriminate H.
      destruct (_ <? 256); [|discriminate H]. fmap_inv H. apply IH in E; cbn in *; lia.
  - destruct (nat_of_ascii c <? 32); [discriminate H|]. fmap_inv H. apply IH in E; cbn in *; lia.
Qed.

Lemma strip_prefix_app p s : strip_prefix p (p +:+ s) = Some s.
Proof.
  induction p as [|a p IH]; [by destruct s|].
  change (String a p +:+ s) with (String a (p +:+ s)). cbn -[Ascii.eqb]. by rewrite Ascii.eqb_refl.
Qed.

Lemma strip_prefix_length w s r : strip_prefix w s = Some r -> String.length r <= String.length s.
Proof.
  revert s. induction w as [|a w IH]; intros [|b s] H; cbn in H; try discriminate H.
  - injection H as <-. lia.
  - injection H as <-. cbn; lia.
  - destruct (Ascii.eqb a b); [apply IH in H; cbn; lia | discriminate H].
Qed.

Lemma take_digits_length s : String.length (take_digits s).2 <= String.length s.
Proof.
  induction s as [|c s IH]; cbn; [lia|]. destruct (digit_char c); cbn; [|lia].
  destruct (take_digits s); cbn in *; lia.
Qed.

Lemma parse_nat_length s n r : parse_nat s = Some (n, r) -> String.length r < String.length s.
Proof.
  destruct s as [|c s]; intros H; [discriminate H|]. cbn [parse_nat] in H.
  destruct (Ascii.eqb c "0"); [injection H as <- <-; cbn; lia|].
  destruct (digit_char c) eqn:Hc; [|discriminate H].
  cbn [take_digits] in H. rewrite Hc in H. pose proof (take_digits_length s) as Hl.
  destruct (take_digits s) as [d r'] eqn:E. cbn in Hl.
  destruct (NilEmpty.uint_of_string _); cbn in H; [|discriminate H]. injection H as <- <-. cbn; lia.
Qed.

(** The facts about lengths that the equations in the context give. *)
Ltac consumed IH1 IH2 IH3 :=
  repeat match goal with
  | H : parse_nat _ = Some _ |- _ => apply parse_nat_length in H
  | H : json_str_body _ = Some _ |- _ => apply json_str_body_length in H
  | H : strip_prefix _ _ = Some _ |- _ => apply strip_prefix_length in H
  | H : parse_value _ _ = Some _ |- _ => apply IH1 in H
  | H : parse_elems _ _ = Some _ |- _ => apply IH2 in H
  | H : parse_members _ _ = Some _ |- _ => apply IH3 in H
  | H : skip_ws ?s = _ |- _ => pose proof (skip_ws_length s); rewrite H in *; clear H
  end; cbn [String.length] in *; lia.

(** A successful parse consumes at least one character. *)
Lemma parse_consumes f :
  (forall s v r, parse_value f s = Some (v, r) -> String.length r < String.length s) /\
  (forall s l r, parse_elems f s = Some (l, r) -> String.length r < String.length s) /\
  (forall s l r, parse_members f s = Some (l, r) -> String.length r < String.length s).
Proof.
  induction f as [|f (IHv & IHe & IHm)]; [repeat split; discriminate|].
  repeat split; intros s x r H; cbn [parse_value parse_elems parse_members] in H;
    unfold parse_lit in H;
    repeat (case_match || match goal with
                          | H : _ <$> ?o = Some _ |- _ => destruct o eqn:?; cbn in H
                          end); simplify_eq; consumed IHv IHe IHm.
Qed.

Lemma parse_fuel_stable f :
  (forall s f', 2 * String.length s < f -> f <= f' -> parse_value f' s = parse_value f s) /\
  (forall s f', 2 * String.length s + 1 < f -> f <= f' -> parse_elems f' s = parse_elems f s) /\
  (forall s f', 2 * String.length s + 1 < f -> f <= f' -> parse_members f' s = parse_members f s).
Proof.
  induction f as [|f (IHv & IHe & IHm)]; [repeat split; intros; lia|].
  repeat split; intros s [|f'] Hs Hf; try lia; cbn [parse_value parse_elems parse_members].
  - destruct (skip_ws s) as [|c r] eqn:Es; [done|]. apply skip_ws_cons_length in Es.
    rewrite (IHe r f'), (IHm r f') by lia. done.
  - rewrite (IHv s f') by lia. destruct (parse_value f s) as [[v r]|] eqn:E; [|done].
    apply (proj1 (parse_consumes f)) in E.
    destruct (skip_ws r) as [|c r'] eqn:Er; [done|]. apply skip_ws_cons_length in Er.
    by rewrite (IHe r' f') by lia.
  - destruct (skip_ws s) as [|q r] eqn:Es; [done|]. apply skip_ws_cons_length in Es.
    destruct (Ascii.eqb q quote_char); [|done].
    destruct (json_str_body r) as [[k r1]|] eqn:E1; [|done]. apply json_str_body_length in E1.
    destruct (skip_ws r1) as [|col r2] eqn:E2; [done|]. apply skip_ws_cons_length in E2.
    destruct (Ascii.eqb col ":"); [|done]. rewrite (IHv r2 f') by lia.
    destruct (parse_value f r2) as [[v r3]|] eqn:E3; [|done].
    apply (proj1 (parse_consumes f)) in E3.
    destruct (skip_ws r3) as [|c r4] eqn:E4; [done|]. apply skip_ws_cons_length in E4.
    by rewrite (IHm r4 f') by lia.
Qed.

(** The fuel [json_parse] gives is enough: any larger fuel parses the
    same way, so [json_parse] is the parser without a bound. *)
Lemma json_parse_fuel t f :
  2 * String.length t < f ->
  json_parse t = match parse_value f t with
                 | Some (v, r) => if all_chars json_is_space r then Some v else None
                 | None => None
                 end.
Proof. intros Hf. unfold json_parse. by rewrite ((proj1 (parse_fuel_stable (S (2 * String.length t)))) t f) by lia. Qed.
