(* ===== verification/Storage.v ===== *)
(** * localStorage, its JSON helpers and the upload queue

    [src/src/shared/storage.ts]: the keys of the application
    ([REASONS_LS], [ACTIVE_REASON_LS], and [LS_FOR(slug)] with the
    catalog, sequences and entry keys of one reason), [readJSON] and
    [writeJSON]; and [src/src/shared/api.ts]: the [API] settings,
    [apiJson] (which throws in [LOCAL_ONLY] mode, and otherwise turns the
    [fetch] response into a value or an error message) and the upload
    queue [queueRead], [queuePush], [queueClear].

    localStorage is a map from keys to strings with the browser's quota:
    [setItem] throws [QuotaExceededError] when the stored keys and values
    would exceed it ([ls_quota], a parameter of the storage).
    [writeJSON] swallows that error; [queuePush] does not.

    Theorems: the round trip of [writeJSON] and [readJSON], the silent
    loss of a write over the quota, the isolation of the keys of
    different reasons, and the queue's round trip. *)

From S2P Require Import Prelude JsString Json.

(** ** The store *)

Record Storage := mkStorage {
  ls_items : gmap string string;
  ls_quota : nat
}.

(** The bytes the stored keys and values take. *)
Definition ls_size (m : gmap string string) : nat :=
  map_fold (fun k v acc => String.length k + String.length v + acc) 0 m.

Definition getItem (st : Storage) (k : string) : option string := ls_items st !! k.

(** [localStorage.setItem(k, v)]: [None] when it throws. *)
Definition setItem (st : Storage) (k v : string) : option Storage :=
  let m := <[k := v]> (ls_items st) in
  if ls_size m <=? ls_quota st then Some (mkStorage m (ls_quota st)) else None.

Definition removeItem (st : Storage) (k : string) : Storage :=
  mkStorage (delete k (ls_items st)) (ls_quota st).

(** ** [storage.ts] *)

Definition REASONS_LS : string := "lf.reasons.v1".
Definition ACTIVE_REASON_LS : string := "lf.activeReason.v1".

(** [readJSON(k, fb)]: the parsed value of a non-empty item, else the
    fallback, also when [JSON.parse] throws. *)
Definition readJSON (st : Storage) (k : string) (fb : json) : json :=
  match getItem st k with
  | Some t => if js_truthy t then default fb (json_parse t) else fb
  | None => fb
  end.

(** [writeJSON(k, v)]: an error of [setItem] is caught and ignored. *)
Definition writeJSON (st : Storage) (k : string) (v : json) : Storage :=
  default st (setItem st k (stringify v)).

Record LSKeys := mkLSKeys {
  catalog : string;
  sequences : string;
  entry : string
}.

Definition LS_FOR (slug : string) : LSKeys :=
  mkLSKeys ("lf." +:+ slug +:+ ".catalog.v1")
           ("lf." +:+ slug +:+ ".sequences.v1")
           ("lf." +:+ slug +:+ ".entry.blocks.v1").

(** The three keys of a reason, by kind. *)
Inductive LSKind := KCatalog | KSequences | KEntry.

#[export] Instance LSKind_eq_dec : EqDecision LSKind.
Proof. solve_decision. Defined.

Definition ls_key (slug : string) (k : LSKind) : string :=
  match k with
  | KCatalog => catalog (LS_FOR slug)
  | KSequences => sequences (LS_FOR slug)
  | KEntry => entry (LS_FOR slug)
  end.

(** ** [api.ts] *)

Definition API_BASE : string := "LOCAL_ONLY".
Definition API_LANGUAGE : string := "en".
Definition API_TENANT : string := "kids-english".

(** What [fetch] answered: [res.ok], [res.status], [res.statusText],
    the text of the body ([None] when reading it throws, which the code
    turns into [""]). *)
Record FetchResponse := mkFetchResponse {
  res_ok : bool;
  res_status : nat;
  res_statusText : string;
  res_text : option string
}.

(** The request [apiJson] sends, or the error it throws. *)
Inductive ApiRequest :=
  | ApiThrows (msg : string)
  | ApiFetch (url method body : string).

Definition apiJson_request (base path : string) (body : json) (method : string) : ApiRequest :=
  if bool_decide (base = "LOCAL_ONLY") then ApiThrows "LOCAL_ONLY"
  else ApiFetch (base +:+ path) method (stringify body).

(** The result of [apiJson] for a response: the error message of a
    non-ok status, else the parsed body, or [{}] when it does not
    parse. *)
Definition apiJson_response (path method : string) (res : FetchResponse) : string + json :=
  let text := default "" (res_text res) in
  if negb (res_ok res) then
    inl ("API " +:+ method +:+ " " +:+ path +:+ " " +:+ string_of_nat (res_status res) +:+ ": " +:+
         (if js_truthy text then text else res_statusText res))
  else inr (default (JObj []) (json_parse text)).

Definition QUEUE_KEY : string := "lf.upload.queue.v1".

(** [queueRead()]: [JSON.parse(getItem(QUEUE_KEY) || "[]")], or [[]]
    when it throws; the value is whatever the item holds. *)
Definition queueRead (st : Storage) : json :=
  let t := match getItem st QUEUE_KEY with Some t => if js_truthy t then t else "[]" | None => "[]" end in
  default (JArr []) (json_parse t).

Inductive QueueError :=
  | PushNotAFunction    (** [all.push] on a value that is not an array *)
  | QuotaExceeded.      (** [setItem] over the quota, not caught *)

(** [queuePush(batch)]. *)
Definition queuePush (st : Storage) (batch : json) : QueueError + Storage :=
  match queueRead st with
  | JArr all =>
      match setItem st QUEUE_KEY (stringify (JArr (all ++ [batch]))) with
      | Some st' => inr st'
      | None => inl QuotaExceeded
      end
  | _ => inl PushNotAFunction
  end.

Definition queueClear (st : Storage) : Storage := removeItem st QUEUE_KEY.

(** ** Reading back what was written *)

Lemma js_truthy_stringify v : js_truthy (stringify v) = true.
Proof. by destruct (stringify_head v) as (c & s & -> & _). Qed.

Lemma setItem_Some st k v st' :
  setItem st k v = Some st' -> ls_items st' = <[k := v]> (ls_items st) /\ ls_quota st' = ls_quota st.
Proof. unfold setItem. destruct (_ <=? _); [|done]. by intros [= <-]. Qed.

Lemma setItem_fits st k v :
  ls_size (<[k := v]> (ls_items st)) <= ls_quota st -> setItem st k v = Some (mkStorage (<[k := v]> (ls_items st)) (ls_quota st)).
Proof. intros H. unfold setItem. by rewrite (proj2 (Nat.leb_le _ _) H). Qed.

Lemma setItem_over st k v :
  ls_quota st < ls_size (<[k := v]> (ls_items st)) -> setItem st k v = None.
Proof. intros H. unfold setItem. by rewrite (proj2 (Nat.leb_gt _ _) H). Qed.

Lemma readJSON_stringify st k v fb :
  getItem st k = Some (stringify v) -> readJSON st k fb = v.
Proof. unfold readJSON. intros ->. by rewrite js_truthy_stringify, json_parse_stringify_value. Qed.

Lemma writeJSON_getItem_other st k k' v : k <> k' -> getItem (writeJSON st k v) k' = getItem st k'.
Proof.
  intros Hne. unfold writeJSON. destruct (setItem st k (stringify v)) as [st'|] eqn:E; [|done].
  apply setItem_Some in E as [E _]. cbn [default id]. unfold getItem. rewrite E. by apply lookup_insert_ne.
Qed.

(** ** The keys *)

Lemma list_ascii_of_string_app s1 s2 :
  String.list_ascii_of_string (s1 +:+ s2) = String.list_ascii_of_string s1 ++ String.list_ascii_of_string s2.
Proof. induction s1 as [|c s1 IH]; [done|]. rewrite append_String. cbn. by rewrite IH. Qed.

Lemma suffix_of_append s x : String.list_ascii_of_string x `suffix_of` String.list_ascii_of_string (s +:+ x).
Proof. rewrite list_ascii_of_string_app. by eexists. Qed.

Lemma append_cancel_r s1 s2 x : s1 +:+ x = s2 +:+ x -> s1 = s2.
Proof.
  intros H. apply (f_equal String.list_ascii_of_string) in H. rewrite !list_ascii_of_string_app in H.
  apply app_inv_tail in H. apply (f_equal String.string_of_list_ascii) in H.
  by rewrite !String.string_of_list_ascii_of_string in H.
Qed.

Definition kind_suffix (k : LSKind) : string :=
  match k with KCatalog => ".catalog.v1" | KSequences => ".sequences.v1" | KEntry => ".entry.blocks.v1" end.

Lemma ls_key_suffix s k : ls_key s k = "lf." +:+ (s +:+ kind_suffix k).
Proof. by destruct k. Qed.

(** Two keys that end in the suffixes of different kinds differ: neither
    suffix ends the other. *)
Lemma kind_suffix_incomparable k1 k2 :
  k1 <> k2 ->
  ~ String.list_ascii_of_string (kind_suffix k1) `suffix_of` String.list_ascii_of_string (kind_suffix k2).
Proof. intros Hne HP. apply (bool_decide_pack _) in HP. by destruct k1, k2; vm_compute in HP. Qed.

Lemma ls_key_suffix_of s k :
  String.list_ascii_of_string (kind_suffix k) `suffix_of` String.list_ascii_of_string (ls_key s k).
Proof. rewrite ls_key_suffix, <- append_assoc_str. apply suffix_of_append. Qed.

(** The keys of a reason determine the reason and the kind. *)
Lemma ls_key_inj s1 s2 k1 k2 : ls_key s1 k1 = ls_key s2 k2 -> s1 = s2 /\ k1 = k2.
Proof.
  intros H. destruct (decide (k1 = k2)) as [<-|Hne].
  - split; [|done]. rewrite !ls_key_suffix in H. apply (inj (String.append "lf.")) in H.
    by apply append_cancel_r in H.
  - exfalso. pose proof (ls_key_suffix_of s1 k1) as H1. pose proof (ls_key_suffix_of s2 k2) as H2.
    rewrite H in H1. destruct (suffix_weak_total _ _ _ H1 H2) as [H3|H3].
    + by apply (kind_suffix_incomparable k1 k2).
    + by apply (kind_suffix_incomparable k2 k1).
Qed.

(** The keys the application keeps outside any reason. *)
Definition app_keys : list string := [REASONS_LS; ACTIVE_REASON_LS; QUEUE_KEY].

Lemma ls_key_not_app_key s k : ls_key s k ∉ app_keys.
Proof.
  intros Hin. pose proof (ls_key_suffix_of s k) as H.
  repeat (apply elem_of_cons in Hin as [Hin|Hin]; [rewrite Hin in H; apply (bool_decide_pack _) in H;
                                                    by destruct k; vm_compute in H|]).
  by apply elem_of_nil in Hin.
Qed.

Lemma readJSON_writeJSON_other st k k' v fb :
  k <> k' -> readJSON (writeJSON st k v) k' fb = readJSON st k' fb.
Proof. intros Hne. unfold readJSON. by rewrite writeJSON_getItem_other. Qed.

Lemma writeJSON_fits_read st k v fb :
  ls_size (<[k := stringify v]> (ls_items st)) <= ls_quota st ->
  readJSON (writeJSON st k v) k fb = v.
Proof.
  intros H. unfold writeJSON. rewrite setItem_fits by done. cbn [default id].
  apply readJSON_stringify. unfold getItem. cbn. by apply lookup_insert_eq.
Qed.

Lemma writeJSON_fits_items st k v :
  ls_size (<[k := stringify v]> (ls_items st)) <= ls_quota st ->
  ls_items (writeJSON st k v) = <[k := stringify v]> (ls_items st) /\ ls_quota (writeJSON st k v) = ls_quota st.
Proof. intros H. unfold writeJSON. by rewrite setItem_fits. Qed.

(** ** Properties *)

(** What [writeJSON] stores, [readJSON] reads back: when the item
    fits the quota, reading the key after writing a value gives the
    value, whatever the fallback. *)
Theorem writeJSON_readJSON st k v fb :
  ls_size (<[k := stringify v]> (ls_items st)) <= ls_quota st ->
  readJSON (writeJSON st k v) k fb = v.
Proof. apply writeJSON_fits_read. Qed.

Lemma writeJSON_readJSON_witness :
  ls_size (<[REASONS_LS := stringify (JArr [JObj [("id", JStr "r-dictionary"); ("parent", JNull)]])]>
             (ls_items (mkStorage ∅ 1000))) <= ls_quota (mkStorage ∅ 1000) /\
  readJSON (writeJSON (mkStorage ∅ 1000) REASONS_LS (JArr [JObj [("id", JStr "r-dictionary"); ("parent", JNull)]]))
    REASONS_LS (JArr []) = JArr [JObj [("id", JStr "r-dictionary"); ("parent", JNull)]].
Proof.
  assert (ls_size (<[REASONS_LS := stringify (JArr [JObj [("id", JStr "r-dictionary"); ("parent", JNull)]])]>
             (ls_items (mkStorage ∅ 1000))) <= ls_quota (mkStorage ∅ 1000)) as H by (vm_compute; lia).
  split; [exact H|]. exact (writeJSON_readJSON _ _ _ _ H).
Defined.

(** A write over the quota is lost without a trace: [writeJSON]
    catches the [QuotaExceededError] of [setItem], so the storage keeps
    the old item and the next [readJSON] returns the old value while the
    page goes on with the new one. *)
Theorem writeJSON_over_quota_lost st k v fb :
  ls_quota st < ls_size (<[k := stringify v]> (ls_items st)) ->
  writeJSON st k v = st /\ readJSON (writeJSON st k v) k fb = readJSON st k fb.
Proof. intros H. unfold writeJSON. by rewrite setItem_over. Qed.

Lemma writeJSON_over_quota_lost_witness :
  ls_quota (mkStorage ∅ 10) < ls_size (<[REASONS_LS := stringify (JArr [])]> (ls_items (mkStorage ∅ 10))) /\
  writeJSON (mkStorage ∅ 10) REASONS_LS (JArr []) = mkStorage ∅ 10 /\
  readJSON (writeJSON (mkStorage ∅ 10) REASONS_LS (JArr [])) REASONS_LS JNull = readJSON (mkStorage ∅ 10) REASONS_LS JNull.
Proof.
  assert (ls_quota (mkStorage ∅ 10) < ls_size (<[REASONS_LS := stringify (JArr [])]> (ls_items (mkStorage ∅ 10))))
    as H by (vm_compute; lia).
  split; [exact H|]. exact (writeJSON_over_quota_lost _ _ _ _ H).
Defined.

(** C30: the data of a reason is isolated: writing one of the keys
    [LS_FOR(slug)] gives leaves every other key of that reason, every key
    of every other reason and the application's own keys (the reason
    list, the active reason, the upload queue) reading as before,
    whatever the slugs are. *)
Theorem writeJSON_reason_isolated st slug kind v key fb :
  key ∈ app_keys \/ (exists slug' kind', key = ls_key slug' kind' /\ (slug', kind') <> (slug, kind)) ->
  readJSON (writeJSON st (ls_key slug kind) v) key fb = readJSON st key fb.
Proof.
  intros Hk. apply readJSON_writeJSON_other. intros Hkey. subst key.
  destruct Hk as [Hk | (slug' & kind' & Heq & Hne)].
  - by apply (ls_key_not_app_key slug kind).
  - apply ls_key_inj in Heq as [-> ->]. by apply Hne.
Qed.

Lemma writeJSON_reason_isolated_witness :
  (ls_key "a.sequences" KCatalog ∈ app_keys \/
   exists slug' kind', ls_key "a.sequences" KCatalog = ls_key slug' kind' /\ (slug', kind') <> ("a", KSequences)) /\
  readJSON (writeJSON (mkStorage ∅ 1000) (ls_key "a" KSequences) (JArr [])) (ls_key "a.sequences" KCatalog) JNull =
  readJSON (mkStorage ∅ 1000) (ls_key "a.sequences" KCatalog) JNull.
Proof.
  assert (ls_key "a.sequences" KCatalog ∈ app_keys \/
          exists slug' kind', ls_key "a.sequences" KCatalog = ls_key slug' kind' /\
                              (slug', kind') <> ("a", KSequences)) as H
    by (right; exists "a.sequences", KCatalog; split; [reflexivity | intros [=]]).
  split; [exact H|]. exact (writeJSON_reason_isolated _ _ _ _ _ _ H).
Defined.

(** The upload queue keeps every batch in order: after a push that
    succeeds on a queue holding the array [l], the queue reads [l]
    followed by the batch; after [queueClear] it reads as empty. *)
Theorem queuePush_queueRead st batch l st' :
  queueRead st = JArr l -> queuePush st batch = inr st' ->
  queueRead st' = JArr (l ++ [batch]) /\ queueRead (queueClear st') = JArr [].
Proof.
  intros Hl. unfold queuePush. rewrite Hl.
  destruct (setItem st QUEUE_KEY _) as [st''|] eqn:E; [intros [= <-] | intros [=]].
  apply setItem_Some in E as [E _].
  split; [|unfold queueRead, queueClear, removeItem, getItem; cbn [ls_items]; by rewrite lookup_delete_eq].
  unfold queueRead, getItem. rewrite E, lookup_insert_eq, js_truthy_stringify.
  by rewrite json_parse_stringify_value.
Qed.

Lemma queuePush_queueRead_witness :
  queueRead (mkStorage ∅ 1000) = JArr [] /\
  queuePush (mkStorage ∅ 1000) (JObj [("rows", JArr [])]) =
    inr (mkStorage (<[QUEUE_KEY := stringify (JArr [JObj [("rows", JArr [])]])]> ∅) 1000) /\
  queueRead (mkStorage (<[QUEUE_KEY := stringify (JArr [JObj [("rows", JArr [])]])]> ∅) 1000) =
    JArr ([] ++ [JObj [("rows", JArr [])]]) /\
  queueRead (queueClear (mkStorage (<[QUEUE_KEY := stringify (JArr [JObj [("rows", JArr [])]])]> ∅) 1000)) = JArr [].
Proof.
  assert (queueRead (mkStorage ∅ 1000) = JArr []) as H1 by reflexivity.
  assert (queuePush (mkStorage ∅ 1000) (JObj [("rows", JArr [])]) =
    inr (mkStorage (<[QUEUE_KEY := stringify (JArr [JObj [("rows", JArr [])]])]> ∅) 1000)) as H2
    by reflexivity.
  split; [exact H1|]. split; [exact H2|]. exact (queuePush_queueRead _ _ _ _ H1 H2).
Defined.
