(* ===== verification/Catalog.v ===== *)
(** * The B/C catalog

    Models [catalogMap], [bToken] and [humanLabel] of
    [src/src/shared/utils.ts] and the catalog editor's uniqueness check
    [usedSet] / [updateVal] of [src/src/pages/BCEditor.tsx].  The catalog
    is the array of rows the page keeps in React state (and mirrors to
    localStorage and [/stage1/bc:save]); a missing [bVal] or [cVal] is
    the falsy [""].  [updateVal] returns the next state, the alert it
    raised (the page then keeps the previous state) and the items passed
    to the debounced server save.  [pageRows] and [table_row] are the
    numbered table the page renders, from which [updateVal] is called. *)

From S2P Require Import Prelude JsString.

(** ** Data *)

Record CatalogRow := mkRow {
  bKey : string;
  cKey : string;
  bVal : string;
  cVal : string
}.

#[export] Instance CatalogRow_eq_dec : EqDecision CatalogRow.
Proof. solve_decision. Defined.

(** [catalogMap]: [m.set(r.bKey, r)] for every row, so the last row with a
    given key wins. *)
Definition catalogMap (catalog : list CatalogRow) : gmap string CatalogRow :=
  foldl (fun m r => <[bKey r := r]> m) ∅ catalog.

(** [bToken]: the value-1 of the key's row when it is truthy, else the key. *)
Definition bToken (k : string) (byBKey : gmap string CatalogRow) : string :=
  match byBKey !! k with
  | Some r => if js_truthy (bVal r) then bVal r else k
  | None => k
  end.

(** [humanLabel]: [rec.cVal || rec.bVal || bKey]. *)
Definition humanLabel (k : string) (byBKey : gmap string CatalogRow) : string :=
  match byBKey !! k with
  | None => k
  | Some r =>
      if js_truthy (cVal r) then cVal r
      else if js_truthy (bVal r) then bVal r else k
  end.

(** The case folding of the page: [caseSensitive ? v : v.toLowerCase()]. *)
Definition norm (caseSensitive : bool) (v : string) : string :=
  if caseSensitive then v else to_lower v.

(** The normalised truthy values of one row. *)
Definition row_used (caseSensitive : bool) (r : CatalogRow) : list string :=
  map (norm caseSensitive) (List.filter js_truthy [bVal r; cVal r]).

(** [usedSet]: every truthy value-1 and value-2 of the catalog, normalised. *)
Definition usedSet (caseSensitive : bool) (catalog : list CatalogRow) : gset string :=
  list_to_set (concat (map (row_used caseSensitive) catalog)).

Inductive Which := WbVal | WcVal.

Definition set_which (which : Which) (r : CatalogRow) (val : string) : CatalogRow :=
  match which with
  | WbVal => mkRow (bKey r) (cKey r) val (cVal r)
  | WcVal => mkRow (bKey r) (cKey r) (bVal r) val
  end.

(** [`column C-${bKey.split(" ")[1]}`]. *)
Definition cKeyFor (k : string) : string :=
  "column C-" +:+ default js_undefined (split_on " "%char k !! 1).

(** The two alerts of [updateVal]. *)
Inductive CatalogError :=
  | MatchingPairError      (** "value-1 and value-2 cannot be the same." *)
  | DuplicateValueError.   (** "This value already exists across B/C." *)

#[export] Instance CatalogError_eq_dec : EqDecision CatalogError.
Proof. solve_decision. Defined.

Record UpdateResult := {
  uv_next : list CatalogRow;           (** the state after the updater *)
  uv_alert : option CatalogError;      (** the alert shown, if any *)
  uv_save : option (list CatalogRow)   (** the items sent to [bc:save] *)
}.

(** [updateVal(bKey, which, val)] run on the current catalog [prev]. *)
Definition updateVal (caseSensitive enforceNoMatch : bool) (prev : list CatalogRow)
    (k : string) (which : Which) (val : string) : UpdateResult :=
  let idx := find_index (fun r => bool_decide (bKey r = k)) prev in
  let row := match idx ≫= (prev !!.) with
             | Some r => r
             | None => mkRow k (cKeyFor k) "" ""
             end in
  let n := norm caseSensitive in
  let currentUsed := usedSet caseSensitive prev ∖ list_to_set (row_used caseSensitive row) in
  let nextRow := set_which which row val in
  if enforceNoMatch && js_truthy (bVal nextRow) && js_truthy (cVal nextRow)
     && bool_decide (n (bVal nextRow) = n (cVal nextRow)) then
    {| uv_next := prev; uv_alert := Some MatchingPairError; uv_save := None |}
  else if js_truthy val && bool_decide (n val ∈ currentUsed) then
    {| uv_next := prev; uv_alert := Some DuplicateValueError; uv_save := None |}
  else
    let a := match idx with
             | Some i => <[i := nextRow]> prev
             | None => prev ++ [nextRow]
             end in
    {| uv_next := a; uv_alert := None; uv_save := Some a |}.

(** ** The table *)

(** [pageRows]: the row numbers [start .. start + perPage - 1]. *)
Definition pageRows (start perPage : nat) : list nat := seq start perPage.

(** The record the table shows in row [i]: the catalog's row keyed
    [column B-i], or an empty row keyed [column C-i]. *)
Definition table_row (byBKey : gmap string CatalogRow) (i : nat) : CatalogRow :=
  let k := "column B-" +:+ string_of_nat i in
  default (mkRow k ("column C-" +:+ string_of_nat i) "" "") (byBKey !! k).

(** ** Invariant *)

(** Two rows share no normalised value. *)
Definition rows_disjoint (cs : bool) (r1 r2 : CatalogRow) : Prop :=
  forall u, u ∈ row_used cs r1 -> u ∉ row_used cs r2.

(** The page's rule: values across both columns are globally unique, row
    keys are unique. *)
Definition catalog_wf (cs : bool) (l : list CatalogRow) : Prop :=
  (forall i j ri rj, i <> j -> l !! i = Some ri -> l !! j = Some rj -> rows_disjoint cs ri rj)
  /\ NoDup (map bKey l).

(** Within one row value-1 and value-2 differ (the "Enforce B≠C" rule). *)
Definition no_match (cs : bool) (l : list CatalogRow) : Prop :=
  Forall (fun r => js_truthy (bVal r) = true -> js_truthy (cVal r) = true ->
                   norm cs (bVal r) <> norm cs (cVal r)) l.

Definition get_which (which : Which) (r : CatalogRow) : string :=
  match which with WbVal => bVal r | WcVal => cVal r end.

(** Executable check of [catalog_wf], used to evaluate concrete catalogs. *)
Definition rows_disjointb (cs : bool) (r1 r2 : CatalogRow) : bool :=
  forallb (fun u => negb (bool_decide (u ∈ row_used cs r2))) (row_used cs r1).

Fixpoint pairwise_disjointb (cs : bool) (l : list CatalogRow) : bool :=
  match l with
  | [] => true
  | r :: l' => forallb (rows_disjointb cs r) l' && pairwise_disjointb cs l'
  end.

Definition catalog_wfb (cs : bool) (l : list CatalogRow) : bool :=
  pairwise_disjointb cs l && bool_decide (NoDup (map bKey l)).

(** ** Lemmas *)

Section catalog_lemmas.
  Context (cs : bool).
  Implicit Types (l : list CatalogRow) (r : CatalogRow).

Lemma rows_disjoint_sym r1 r2 : rows_disjoint cs r1 r2 -> rows_disjoint cs r2 r1.
  Proof. intros H u Hu2 Hu1. exact (H u Hu1 Hu2). Qed.

Lemma elem_of_usedSet u l :
    u ∈ usedSet cs l <-> exists r, r ∈ l /\ u ∈ row_used cs r.
  Proof.
    unfold usedSet. rewrite elem_of_list_to_set, list_elem_of_In, in_concat.
    split.
    - intros (us & Hus & Hu). apply in_map_iff in Hus as (r & <- & Hr).
      exists r. rewrite !list_elem_of_In. auto.
    - intros (r & Hr & Hu). exists (row_used cs r).
      rewrite in_map_iff, <- list_elem_of_In. split; [|done]. exists r. rewrite <- list_elem_of_In. auto.
  Qed.

Lemma row_used_set_which which r v u :
    u ∈ row_used cs (set_which which r v) ->
    (js_truthy v = true /\ u = norm cs v) \/ u ∈ row_used cs r.
  Proof.
    unfold row_used. destruct which; simpl;
      repeat match goal with |- context [js_truthy ?x] => destruct (js_truthy x) eqn:? end;
      simpl; rewrite ?list_elem_of_In; simpl; intuition.
  Qed.

Lemma catalog_wf_insert l i nr :
    catalog_wf cs l -> i < length l ->
    (forall j rj, j <> i -> l !! j = Some rj -> rows_disjoint cs nr rj) ->
    map bKey (<[i := nr]> l) = map bKey l ->
    catalog_wf cs (<[i := nr]> l).
  Proof.
    intros [Hu Hk] Hi Hnr Hkeys. split; [|by rewrite Hkeys].
    intros a b ra rb Hab Ha Hb.
    destruct (decide (i = a)) as [<-|Hia]; destruct (decide (i = b)) as [<-|Hib].
    - congruence.
    - rewrite list_lookup_insert_eq in Ha by done. rewrite list_lookup_insert_ne in Hb by done.
      simplify_eq. by apply (Hnr b).
    - rewrite list_lookup_insert_ne in Ha by done. rewrite list_lookup_insert_eq in Hb by done.
      simplify_eq. apply rows_disjoint_sym. by apply (Hnr a).
    - rewrite list_lookup_insert_ne in Ha, Hb by done. by apply (Hu a b).
  Qed.

Lemma catalog_wf_snoc l nr :
    catalog_wf cs l -> bKey nr ∉ map bKey l ->
    (forall rj, rj ∈ l -> rows_disjoint cs nr rj) ->
    catalog_wf cs (l ++ [nr]).
  Proof.
    intros [Hu Hk] Hnk Hnr. split.
    - intros a b ra rb Hab Ha Hb.
      apply lookup_app_Some in Ha as [Ha|[Ha1 Ha]]; apply lookup_app_Some in Hb as [Hb|[Hb1 Hb]].
      + by apply (Hu a b).
      + apply list_lookup_singleton_Some in Hb as [_ <-].
        apply rows_disjoint_sym, Hnr. by eapply list_elem_of_lookup_2.
      + apply list_lookup_singleton_Some in Ha as [_ <-].
        apply Hnr. by eapply list_elem_of_lookup_2.
      + apply list_lookup_singleton_Some in Ha as [? _], Hb as [? _]. lia.
    - rewrite map_app. apply NoDup_app. split; [done|]. split; [|apply NoDup_singleton].
      intros x Hx ->%list_elem_of_singleton. done.
  Qed.

Lemma find_key_Some l k i :
    find_index (fun r => bool_decide (bKey r = k)) l = Some i ->
    exists r, l !! i = Some r /\ bKey r = k.
  Proof.
    intros H. apply find_index_lookup in H as (r & Hr & Hk).
    exists r. split; [done|]. by apply bool_decide_eq_true in Hk.
  Qed.

Lemma find_key_None l k :
    find_index (fun r => bool_decide (bKey r = k)) l = None -> k ∉ map bKey l.
  Proof.
    intros H Hk. apply list_elem_of_In, in_map_iff in Hk as (r & Hrk & Hr).
    pose proof (find_index_None _ _ H r Hr) as Hf. simpl in Hf.
    apply bool_decide_eq_false in Hf. done.
  Qed.

Lemma rows_disjointb_sound r1 r2 : rows_disjointb cs r1 r2 = true -> rows_disjoint cs r1 r2.
  Proof.
    unfold rows_disjointb. rewrite forallb_forall. intros H u Hu1 Hu2.
    apply list_elem_of_In in Hu1. specialize (H u Hu1).
    rewrite bool_decide_true in H by done. discriminate.
  Qed.

Lemma catalog_wfb_sound l : catalog_wfb cs l = true -> catalog_wf cs l.
  Proof.
    unfold catalog_wfb. intros [Hp Hnd]%andb_prop. split; [|by apply bool_decide_eq_true in Hnd].
    clear Hnd. induction l as [|r l IH]; simpl in *; [done|].
    apply andb_prop in Hp as [Hr Hl]. rewrite forallb_forall in Hr.
    intros [|i] [|j] ri rj Hij Hi Hj; simpl in *.
    - congruence.
    - injection Hi as <-. apply rows_disjointb_sound, Hr.
      apply list_elem_of_In. by eapply list_elem_of_lookup_2.
    - injection Hj as <-. apply rows_disjoint_sym, rows_disjointb_sound, Hr.
      apply list_elem_of_In. by eapply list_elem_of_lookup_2.
    - eapply IH; [done| |done|done]. congruence.
  Qed.

  (** With unique keys, [catalogMap] finds the row of the key. *)
Lemma catalogMap_lookup l k :
    NoDup (map bKey l) ->
    catalogMap l !! k = find_first (fun r => bool_decide (bKey r = k)) l.
  Proof.
    induction l as [|x l IH] using rev_ind; [done|].
    unfold catalogMap. rewrite foldl_app. fold (catalogMap l). simpl.
    rewrite map_app, NoDup_app. intros (Hnd & Hx & _).
    rewrite find_first_app. simpl.
    destruct (decide (bKey x = k)) as [<-|Hne].
    - rewrite lookup_insert_eq, bool_decide_true by done.
      destruct (find_first _ l) as [y|] eqn:E; [|done].
      apply find_first_Some in E as [Hin Hp].
      apply bool_decide_eq_true in Hp. exfalso. apply (Hx (bKey x)); [|by left].
      apply list_elem_of_In, in_map_iff. eauto.
    - rewrite lookup_insert_ne, bool_decide_false, IH by done.
      by destruct (find_first _ l).
  Qed.

  (** The value written by [updateVal] passed the duplicate check, so the
      new row shares nothing with any other row. *)
Lemma fresh_value l row rj which v :
    rows_disjoint cs row rj -> rj ∈ l ->
    (js_truthy v && bool_decide (norm cs v ∈ usedSet cs l ∖ list_to_set (row_used cs row))) = false ->
    rows_disjoint cs (set_which which row v) rj.
  Proof.
    intros Hd Hrj Hdup u Hu Hurj.
    apply row_used_set_which in Hu as [[Ht ->]|Hu]; [|exact (Hd u Hu Hurj)].
    rewrite Ht in Hdup. simpl in Hdup. apply bool_decide_eq_false in Hdup.
    assert (norm cs v ∈ usedSet cs l) as Hin by (apply elem_of_usedSet; eauto).
    destruct (decide (norm cs v ∈ row_used cs row)) as [Hr|Hr].
    - exact (Hd _ Hr Hurj).
    - apply Hdup. apply elem_of_difference. split; [done|]. by rewrite elem_of_list_to_set.
  Qed.
End catalog_lemmas.

(** ** Properties of [updateVal] *)

Ltac updateVal_cases Hidx :=
  unfold updateVal;
  destruct (find_index (fun r => bool_decide (bKey r = _)) _) as [?i|] eqn:Hidx; simpl;
  [ destruct (find_key_Some _ _ _ Hidx) as (?row & ?Hrow & ?Hk);
    match goal with H : _ !! _ = Some _ |- _ => rewrite H end | ];
  repeat (match goal with
          | |- context [if ?c then _ else _] => let H := fresh "Hif" in destruct c eqn:H
          end; simpl).

Lemma updateVal_wf cs enf prev k which v :
  catalog_wf cs prev -> catalog_wf cs (uv_next (updateVal cs enf prev k which v)).
Proof.
  intros Hwf. updateVal_cases Hidx; try done.
  - apply catalog_wf_insert; [done| exact (lookup_lt_Some _ _ _ Hrow) | |].
    + intros j rj Hji Hj. apply (fresh_value cs prev); [|by eapply list_elem_of_lookup_2|assumption].
      exact (proj1 Hwf i j row rj (not_eq_sym Hji) Hrow Hj).
    + rewrite list_fmap_insert. apply list_insert_id.
      rewrite list_lookup_fmap, Hrow. by destruct which.
  - apply catalog_wf_snoc; [done| by destruct which; apply find_key_None |].
    intros rj Hrj. apply (fresh_value cs prev); [|done|assumption].
    intros u Hu. unfold row_used in Hu. simpl in Hu. by apply not_elem_of_nil in Hu.
Qed.

(** C8: every accepted edit keeps value-1/value-2 values globally unique
    across rows (case-folded unless case-sensitive) and row keys unique. *)
Theorem updateVal_preserves_wf cs enf prev k which v :
  catalog_wf cs prev -> catalog_wf cs (uv_next (updateVal cs enf prev k which v)).
Proof. apply updateVal_wf. Qed.

(** C9: a value already used by another row is refused: the edit raises an
    alert and leaves the catalog and the server copy untouched. *)
Theorem updateVal_rejects_duplicate cs enf prev k which v r' :
  catalog_wf cs prev -> js_truthy v = true ->
  r' ∈ prev -> bKey r' <> k -> norm cs v ∈ row_used cs r' ->
  exists e, updateVal cs enf prev k which v =
            {| uv_next := prev; uv_alert := Some e; uv_save := None |}.
Proof.
  intros Hwf Hv Hr' Hk' Hu. updateVal_cases Hidx; try by eexists.
  - exfalso. rewrite Hv in Hif0. simpl in Hif0. apply bool_decide_eq_false in Hif0.
    apply Hif0, elem_of_difference. split; [apply elem_of_usedSet; eauto|].
    rewrite elem_of_list_to_set. intros Hrow'.
    apply list_elem_of_lookup in Hr' as [j Hj].
    assert (j <> i) as Hji by (intros ->; congruence).
    exact (proj1 Hwf i j row r' (not_eq_sym Hji) Hrow Hj _ Hrow' Hu).
  - exfalso. rewrite Hv in Hif0. simpl in Hif0. apply bool_decide_eq_false in Hif0.
    apply Hif0, elem_of_difference. split; [apply elem_of_usedSet; eauto|].
    unfold row_used. simpl. set_solver.
Qed.

(** An accepted edit stores the value in the requested column of the
    key's row (creating the row when the key is new), leaves every other
    key's row unchanged, and sends the new catalog to the server. *)
Theorem updateVal_sets_value cs enf prev k which v :
  catalog_wf cs prev ->
  uv_alert (updateVal cs enf prev k which v) = None ->
  let next := uv_next (updateVal cs enf prev k which v) in
  uv_save (updateVal cs enf prev k which v) = Some next /\
  (exists r, catalogMap next !! k = Some r /\ get_which which r = v) /\
  (forall k', k' <> k -> catalogMap next !! k' = catalogMap prev !! k').
Proof.
  intros Hwf Hok. pose proof (updateVal_wf cs enf prev k which v Hwf) as [_ Hnd'].
  destruct Hwf as [_ Hnd]. revert Hok Hnd'.
  updateVal_cases Hidx; try discriminate; intros _ Hnd'; (split; [done|]);
    rewrite !catalogMap_lookup by done.
  - split.
    + exists (set_which which row v). split; [|by destruct which].
      apply find_first_key_unique; [done| |by destruct which].
      apply list_elem_of_lookup_2 with i. apply list_lookup_insert_eq. exact (lookup_lt_Some _ _ _ Hrow).
    + intros k' Hk'. rewrite !catalogMap_lookup by done. apply find_first_insert_other.
      * apply bool_decide_eq_false. destruct which; simpl; congruence.
      * intros y Hy. apply bool_decide_eq_false. congruence.
  - split.
    + exists (set_which which (mkRow k (cKeyFor k) "" "") v). split; [|by destruct which].
      apply find_first_key_unique; [done| |by destruct which].
      apply list_elem_of_In, in_or_app. right. by left.
    + intros k' Hk'. rewrite !catalogMap_lookup, find_first_app by done. simpl.
      rewrite bool_decide_false by (destruct which; simpl; congruence).
      by destruct (find_first _ prev).
Qed.


(** With "Enforce B≠C" on, no accepted edit makes a row's value-1
    equal its value-2 (case-folded unless case-sensitive). *)
Theorem updateVal_preserves_no_match cs prev k which v :
  no_match cs prev -> no_match cs (uv_next (updateVal cs true prev k which v)).
Proof.
  intros Hnm. updateVal_cases Hidx; try done.
  - apply Forall_insert; [done|]. intros Hb Hc Heq.
    rewrite Hb, Hc, bool_decide_true in Hif by done. discriminate.
  - apply Forall_app. split; [done|]. apply Forall_singleton. intros Hb Hc Heq.
    rewrite Hb, Hc, bool_decide_true in Hif by done. discriminate.
Qed.

(** ** Concrete catalogs *)

Definition ex_catalog : list CatalogRow :=
  [mkRow "column B-1" "column C-1" "Animal" "animals";
   mkRow "column B-2" "column C-2" "E" ""].

Lemma updateVal_preserves_wf_witness :
  catalog_wf false ex_catalog /\
  catalog_wf false (uv_next (updateVal false true ex_catalog "column B-2" WcVal "entry")).
Proof.
  split; [apply catalog_wfb_sound; vm_compute; reflexivity|].
  apply updateVal_preserves_wf. apply catalog_wfb_sound. vm_compute. reflexivity.
Defined.

Lemma updateVal_rejects_duplicate_witness :
  exists e, updateVal false true ex_catalog "column B-2" WcVal "ANIMAL" =
            {| uv_next := ex_catalog; uv_alert := Some e; uv_save := None |}.
Proof.
  apply (updateVal_rejects_duplicate false true ex_catalog "column B-2" WcVal "ANIMAL"
           (mkRow "column B-1" "column C-1" "Animal" "animals")).
  - apply catalog_wfb_sound. vm_compute. reflexivity.
  - reflexivity.
  - vm_compute. left.
  - vm_compute. discriminate.
  - vm_compute. left.
Defined.

Lemma updateVal_sets_value_witness :
  let r := updateVal false true ex_catalog "column B-2" WcVal "entry" in
  uv_save r = Some (uv_next r) /\
  (exists row, catalogMap (uv_next r) !! "column B-2" = Some row /\ get_which WcVal row = "entry") /\
  (forall k', k' <> "column B-2" -> catalogMap (uv_next r) !! k' = catalogMap ex_catalog !! k').
Proof.
  apply updateVal_sets_value.
  - apply catalog_wfb_sound. vm_compute. reflexivity.
  - vm_compute. reflexivity.
Defined.

Lemma updateVal_preserves_no_match_witness :
  no_match false ex_catalog /\
  no_match false (uv_next (updateVal false true ex_catalog "column B-2" WcVal "entry")).
Proof.
  assert (no_match false ex_catalog) as H.
  { repeat constructor; vm_compute; congruence. }
  split; [exact H|]. by apply updateVal_preserves_no_match.
Defined.

(** A row created by [updateVal] for the key ["column B-3"] gets the
    C-key ["column C-B-3"] ([split(" ")[1]] of ["column B-3"] is
    ["B-3"]), while the editor labels that row ["column C-3"]. *)
Theorem updateVal_new_row_cKey :
  updateVal false true [] "column B-3" WbVal "cat" =
  {| uv_next := [mkRow "column B-3" "column C-B-3" "cat" ""];
     uv_alert := None;
     uv_save := Some [mkRow "column B-3" "column C-B-3" "cat" ""] |}.
Proof. vm_compute. reflexivity. Qed.

(** With "Enforce B≠C" off, a row may hold the same value (up to
    case) in both columns: the duplicate check removes the edited row's
    own values from the used set first. *)
Theorem updateVal_same_row_pair_accepted :
  let prev := [mkRow "column B-1" "column C-1" "cat" ""] in
  let r := updateVal false false prev "column B-1" WcVal "Cat" in
  uv_alert r = None /\
  uv_next r = [mkRow "column B-1" "column C-1" "cat" "Cat"] /\
  row_used false (mkRow "column B-1" "column C-1" "cat" "Cat") = ["cat"; "cat"].
Proof. vm_compute. auto. Qed.
