(* ===== verification/BCTable.v ===== *)
(** * The numbered table of the B/C editor

    The [<tbody>] of [src/src/pages/BCEditor.tsx]: one row per number
    [i] of [pageRows], showing [i], the key [column B-i], the value-1
    input of the catalog's row keyed [column B-i] (or of the empty row
    [rec] when there is none), the [+ words] button on row 1 only, the
    label [column C-i] and the value-2 input; each input calls
    [updateVal(bKey, which, value)].  Row numbers are the integers of
    the [nat] model [Catalog.pageRows]; [Paging] shows that the float
    loop gives the same numbers on the starts the input can produce
    below [10000]. *)

From S2P Require Import Prelude JsString Catalog.

(** [column B-${i}], the key of row [i]. *)
Definition row_key (i : nat) : string := "column B-" +:+ string_of_nat i.

(** What row [i] of the table shows. *)
Record BCRowView := mkBCRowView {
  bc_num : nat;              (** the [#] cell *)
  bc_bKey : string;          (** [column B-i], and the key the inputs edit *)
  bc_bVal : string;          (** the value-1 input's [value] *)
  bc_quick : bool;           (** [i === 1 && <Button>+ words</Button>] *)
  bc_cKey : string;          (** [column C-i] *)
  bc_cVal : string           (** the value-2 input's [value] *)
}.

Definition bc_row (byBKey : gmap string CatalogRow) (i : nat) : BCRowView :=
  let rec := table_row byBKey i in
  mkBCRowView i (row_key i) (bVal rec) (i =? 1) ("column C-" +:+ string_of_nat i) (cVal rec).

(** [pageRows.map((i) => <tr>...</tr>)]. *)
Definition bc_table (byBKey : gmap string CatalogRow) (start perPage : nat) : list BCRowView :=
  map (bc_row byBKey) (pageRows start perPage).

(** The value an input of a row shows. *)
Definition bc_cell (which : Which) (v : BCRowView) : string :=
  match which with WbVal => bc_bVal v | WcVal => bc_cVal v end.

(** ** Lemmas *)

Lemma row_key_inj i j : row_key i = row_key j -> i = j.
Proof. unfold row_key. intros H. apply string_of_nat_inj. exact (inj (String.append "column B-") _ _ H). Qed.

Lemma bc_row_lookup byBKey byBKey' i :
  byBKey' !! row_key i = byBKey !! row_key i -> bc_row byBKey' i = bc_row byBKey i.
Proof. intros H. unfold bc_row, table_row. fold (row_key i). by rewrite H. Qed.

Lemma bc_cell_row byBKey i r which :
  byBKey !! row_key i = Some r -> bc_cell which (bc_row byBKey i) = get_which which r.
Proof. intros H. unfold bc_row, table_row. fold (row_key i). rewrite H. by destruct which. Qed.

(** The [+ words] button is on the row of [column B-1] only, so only on
    the page that starts at 1. *)
Lemma bc_table_quick byBKey start perPage v :
  1 <= start -> In v (bc_table byBKey start perPage) -> bc_quick v = true ->
  bc_bKey v = row_key 1 /\ start = 1.
Proof.
  intros Hs (i & <- & Hi)%in_map_iff Hq. unfold pageRows in Hi. apply in_seq in Hi.
  cbn in Hq. apply Nat.eqb_eq in Hq as ->. split; [done|lia].
Qed.

(** ** Editing through the table *)

(** C10: Typing a value into an input of row [i] of the table (the
    [onChange] calls [updateVal] with the row's key [column B-i]): when
    the edit is accepted, the table's row [i] shows the value in that
    input, and every other row of the table shows what it showed before. *)
Theorem table_edit_shows cs enf prev i which v :
  catalog_wf cs prev -> uv_alert (updateVal cs enf prev (row_key i) which v) = None ->
  bc_cell which (bc_row (catalogMap (uv_next (updateVal cs enf prev (row_key i) which v))) i) = v /\
  forall j, j <> i ->
    bc_row (catalogMap (uv_next (updateVal cs enf prev (row_key i) which v))) j = bc_row (catalogMap prev) j.
Proof.
  intros Hwf Hok.
  destruct (updateVal_sets_value cs enf prev (row_key i) which v Hwf Hok) as (_ & (r & Hr & Hv) & Hoth).
  split; [by rewrite (bc_cell_row _ _ r)|].
  intros j Hji. apply bc_row_lookup, Hoth. intros Hk. by apply Hji, row_key_inj.
Qed.

Lemma table_edit_shows_witness :
  catalog_wf false [mkRow "column B-1" "column C-1" "cat" ""] /\
  uv_alert (updateVal false true [mkRow "column B-1" "column C-1" "cat" ""] (row_key 3) WbVal "dog") = None /\
  bc_cell WbVal (bc_row (catalogMap (uv_next (updateVal false true [mkRow "column B-1" "column C-1" "cat" ""]
                                                 (row_key 3) WbVal "dog"))) 3) = "dog" /\
  forall j, j <> 3 ->
    bc_row (catalogMap (uv_next (updateVal false true [mkRow "column B-1" "column C-1" "cat" ""] (row_key 3) WbVal "dog"))) j =
    bc_row (catalogMap [mkRow "column B-1" "column C-1" "cat" ""]) j.
Proof.
  assert (catalog_wf false [mkRow "column B-1" "column C-1" "cat" ""]) as H1
    by (apply catalog_wfb_sound; vm_compute; reflexivity).
  assert (uv_alert (updateVal false true [mkRow "column B-1" "column C-1" "cat" ""] (row_key 3) WbVal "dog") = None)
    as H2 by (vm_compute; reflexivity).
  split; [exact H1|]. split; [exact H2|].
  exact (table_edit_shows false true _ 3 WbVal "dog" H1 H2).
Defined.
