(* ===== verification/Paging.v ===== *)
(** * The start index and the rows of the B/C editor, in JS numbers

    [src/src/pages/BCEditor.tsx] keeps [start] and [perPage] as JS
    numbers (IEEE 754 binary64): the Start index input sets
    [setStart(Math.max(1, Number(e.target.value) || 1))], the Rows per
    page select sets [setPerPage(Number(e.target.value))] to one of 50,
    100, 200 and 500, and [pageRows] is the loop
    [for (let i = start; i < start + perPage; i++) out.push(i)].

    The numbers are Rocq's primitive floats, whose operations are the
    binary64 ones; the loop is run with fuel ([None] when the fuel runs
    out).  [Number] of the input's text (JS [ToNumber] on a string) is
    not modelled: the handler takes the number it returns.  The nat
    model [Catalog.pageRows] is the reference: on integer starts up to
    10000 and every page size of the select, the loop returns exactly its
    rows; at [2^53] and above, [i + 1 = i] and the loop never ends. *)

From S2P Require Import Prelude JsString Catalog.
From Stdlib Require Import Uint63 Floats.

Local Open Scope float_scope.

(** ** The handlers *)

(** JS [Math.max] of two numbers: [NaN] if either is [NaN], and [+0]
    above [-0]. *)
Definition math_max (a b : float) : float :=
  if is_nan a || is_nan b then nan
  else if a <? b then b
  else if b <? a then a
  else if is_zero a then (if get_sign a then b else a)
  else a.

(** A number is falsy when it is [0], [-0] or [NaN]. *)
Definition num_truthy (x : float) : bool := negb (is_nan x || is_zero x).

(** [Math.max(1, n || 1)] for [n = Number(e.target.value)]. *)
Definition start_of_input (n : float) : float :=
  math_max 1 (if num_truthy n then n else 1).

(** The page sizes the select offers: [[50, 100, 200, 500]]. *)
Definition perPage_options : list float := [50; 100; 200; 500].

(** The [for] loop of [pageRows], with [fuel] iterations at most. *)
Fixpoint page_loop (fuel : nat) (i lim : float) : option (list float) :=
  match fuel with
  | O => None
  | S f => if i <? lim then cons i <$> page_loop f (i + 1) lim else Some []
  end.

(** [pageRows = useMemo(() => { ... }, [start, perPage])]: the bound
    [start + perPage] is computed once, before the loop. *)
Definition pageRowsF (start perPage : float) (fuel : nat) : option (list float) :=
  page_loop fuel start (start + perPage).

(** ** The reference rows, in floats *)

Definition float_of_nat (n : nat) : float := of_uint63 (Uint63.of_Z (Z.of_nat n)).

(** Equality of two lists of floats, bit for bit. *)
Fixpoint floats_eqb (l1 l2 : list float) : bool :=
  match l1, l2 with
  | [], [] => true
  | x :: l1', y :: l2' => PrimFloat.Leibniz.eqb x y && floats_eqb l1' l2'
  | _, _ => false
  end.

(** The floats [k, k + 1, ...], [p] of them, counted in [int]. *)
Fixpoint rows_ref (k : int) (p : nat) : list float :=
  match p with
  | O => []
  | S p' => of_uint63 k :: rows_ref (k + 1)%uint63 p'
  end.

(** The loop at start [k] returns the reference rows, with one more
    iteration than rows (the last test fails). *)
Definition rows_agree (k : int) (p : nat) : bool :=
  match pageRowsF (of_uint63 k) (float_of_nat p) (S p) with
  | Some l => floats_eqb l (rows_ref k p)
  | None => false
  end.

(** The check for [count] starts from [k]. *)
Fixpoint rows_agree_from (k : int) (count : nat) (ps : list nat) : bool :=
  match count with
  | O => true
  | S c => forallb (rows_agree k) ps && rows_agree_from (k + 1)%uint63 c ps
  end.

Definition perPage_nats : list nat := [50; 100; 200; 500]%nat.

Definition max_checked_start : nat := 10000.

(** ** Fuel *)

Lemma page_loop_more_fuel f f' i lim l :
  page_loop f i lim = Some l -> (f <= f')%nat -> page_loop f' i lim = Some l.
Proof.
  revert f' i l. induction f as [|f IH]; intros f' i l H Hle; [done|].
  destruct f' as [|f']; [lia|]. cbn in *.
  case_match; [|done].
  destruct (page_loop f (i + 1) lim) as [l'|] eqn:E; [|done]. cbn in H.
  by rewrite (IH f' (i + 1) l') by (done || lia).
Qed.

Lemma page_loop_stuck i lim :
  i + 1 = i -> (i <? lim) = true -> forall fuel, page_loop fuel i lim = None.
Proof. intros Hfix Hlt fuel. induction fuel as [|f IH]; cbn; [done|]. by rewrite Hlt, Hfix, IH. Qed.

Lemma floats_eqb_eq l1 l2 : floats_eqb l1 l2 = true -> l1 = l2.
Proof.
  revert l2. induction l1 as [|x l1 IH]; intros [|y l2]; cbn; try done.
  intros [Hxy Hl]%andb_prop. apply FloatAxioms.Leibniz.eqb_spec in Hxy. by rewrite Hxy, (IH l2).
Qed.

Lemma of_Z_succ n : Uint63.of_Z (Z.of_nat (S n)) = (Uint63.of_Z (Z.of_nat n) + 1)%uint63.
Proof.
  apply Uint63.to_Z_inj. rewrite Uint63.add_spec, !Uint63.of_Z_spec.
  change (Uint63.to_Z 1) with (1 mod Uint63.wB)%Z. rewrite <- Zplus_mod. f_equal. lia.
Qed.

Lemma rows_ref_seq n p : rows_ref (Uint63.of_Z (Z.of_nat n)) p = map float_of_nat (seq n p).
Proof.
  revert n. induction p as [|p IH]; intros n; [done|]. cbn. by rewrite <- of_Z_succ, IH.
Qed.

Lemma rows_agree_sound s p :
  rows_agree (Uint63.of_Z (Z.of_nat s)) p = true ->
  pageRowsF (float_of_nat s) (float_of_nat p) (S p) = Some (map float_of_nat (pageRows s p)).
Proof.
  unfold rows_agree. fold (float_of_nat s). destruct (pageRowsF _ _ _) as [l|]; [|done].
  intros Hl. f_equal. rewrite <- rows_ref_seq. by apply floats_eqb_eq.
Qed.

Lemma rows_agree_from_sound n c ps s p :
  rows_agree_from (Uint63.of_Z (Z.of_nat n)) c ps = true -> (n <= s < n + c)%nat -> In p ps ->
  rows_agree (Uint63.of_Z (Z.of_nat s)) p = true.
Proof.
  revert n. induction c as [|c IH]; intros n; cbn; [lia|].
  intros [Hps Hc]%andb_prop Hs Hp. destruct (decide (s = n)) as [->|Hne].
  - by apply (proj1 (forallb_forall _ _) Hps).
  - rewrite <- of_Z_succ in Hc. apply (IH (S n)); [done|lia|done].
Qed.

(** The check, run on every start up to [max_checked_start]. *)
Lemma rows_agree_checked :
  rows_agree_from (Uint63.of_Z (Z.of_nat 1)) max_checked_start perPage_nats = true.
Proof. vm_compute. reflexivity. Qed.

(** ** The start index *)

Lemma ltb_leb (x y : float) : (x <? y) = true -> (x <=? y) = true.
Proof.
  rewrite ltb_spec, leb_spec. unfold SFltb, SFleb.
  by destruct (SFcompare (Prim2SF x) (Prim2SF y)) as [[]|].
Qed.

(** Whatever number the Start index input gives, the start the
    handler sets is a number (not NaN) and at least 1. *)
Theorem start_of_input_at_least_1 (n : float) : (1 <=? start_of_input n) = true.
Proof.
  unfold start_of_input, num_truthy.
  destruct (is_nan n) eqn:Hn; cbn [orb negb]; [vm_compute; reflexivity|].
  destruct (is_zero n) eqn:Hz; cbn [orb negb]; [vm_compute; reflexivity|].
  unfold math_max. rewrite Hn. change (is_nan 1) with false. cbn [orb].
  destruct (1 <? n) eqn:Hlt; [by apply ltb_leb|].
  destruct (n <? 1); [reflexivity|]. change (is_zero 1) with false. reflexivity.
Qed.

(** ** The rows of a page *)

(** C12: For every integer start from 1 to [max_checked_start] and every
    page size of the select, the [for] loop of [pageRows] ends (given
    one more iteration than the page has rows) and returns the row
    numbers [start, start + 1, ..., start + perPage - 1] of the integer
    model [Catalog.pageRows]. *)
Theorem pageRowsF_refines (s p fuel : nat) :
  (1 <= s <= max_checked_start)%nat -> In p perPage_nats -> (p < fuel)%nat ->
  pageRowsF (float_of_nat s) (float_of_nat p) fuel = Some (map float_of_nat (pageRows s p)).
Proof.
  intros Hs Hp Hf. eapply page_loop_more_fuel; [|exact Hf].
  apply rows_agree_sound, (rows_agree_from_sound 1 max_checked_start perPage_nats); [|lia|done].
  exact rows_agree_checked.
Qed.

Lemma pageRowsF_refines_witness :
  (1 <= 3 <= max_checked_start)%nat /\ In 50%nat perPage_nats /\ (50 < 51)%nat /\
  pageRowsF (float_of_nat 3) (float_of_nat 50) 51 = Some (map float_of_nat (pageRows 3 50)).
Proof.
  assert (1 <= 3 <= max_checked_start)%nat as H1 by (split; [lia|apply Nat.leb_le; reflexivity]).
  assert (In 50%nat perPage_nats) as H2 by (left; reflexivity).
  assert (50 < 51)%nat as H3 by lia.
  split; [exact H1|]. split; [exact H2|]. split; [exact H3|].
  exact (pageRowsF_refines 3 50 51 H1 H2 H3).
Defined.

(** C11: From a start [i] at which adding 1 gives [i] back (every number
    from [2^53] on), the loop of [pageRows] never ends, whatever fuel
    it is given: [i++] leaves [i < start + perPage] true forever, and
    the page keeps pushing [i] into [out]. *)
Theorem pageRows_never_ends (start perPage : float) :
  start + 1 = start -> (start <? start + perPage) = true ->
  forall fuel, pageRowsF start perPage fuel = None.
Proof. intros Hfix Hlt fuel. by apply page_loop_stuck. Qed.

(** Typing [1e16] in the Start index input: the start is [1e16], and
    with 200 rows per page the page never renders. *)
Lemma pageRows_never_ends_witness :
  start_of_input 1e16 = 1e16 /\ start_of_input 1e16 + 1 = start_of_input 1e16 /\
  (start_of_input 1e16 <? start_of_input 1e16 + 200) = true /\
  forall fuel, pageRowsF (start_of_input 1e16) 200 fuel = None.
Proof.
  assert (start_of_input 1e16 = 1e16) as H0 by (vm_compute; reflexivity).
  assert (start_of_input 1e16 + 1 = start_of_input 1e16) as H1 by (vm_compute; reflexivity).
  assert ((start_of_input 1e16 <? start_of_input 1e16 + 200) = true) as H2 by (vm_compute; reflexivity).
  split; [exact H0|]. split; [exact H1|]. split; [exact H2|].
  exact (pageRows_never_ends (start_of_input 1e16) 200 H1 H2).
Defined.
