(* ===== verification/Sequences.v ===== *)
(** * The sequence builder

    [src/src/pages/Sequences.tsx] with [pathsEqual] of
    [src/src/shared/utils.ts].  The page state is the saved [sequences]
    (mirrored to localStorage by [commit]), the [working] path being built
    and the [editingIndex].  Every handler is a function of the state;
    [seq_step] is the page's transition relation, one constructor per
    user action, and [star] of the prelude its reachability.  [exportCSV]
    and [importCSV] write and read the saved sequences as one JSON string
    literal per line, through the JSON codec of [JsString]. *)

From S2P Require Import Prelude JsString Catalog.
From Stdlib Require Import ZArith.

Record SeqPage := mkSeqPage {
  sequences : list (list string);
  working : list string;
  editingIndex : option nat
}.

(** [pathsEqual]: same length and [a[i] === b[i]] for every index of [a]. *)
Definition pathsEqual (a b : list string) : bool :=
  (length a =? length b) && forallb (fun i => bool_decide (a !! i = b !! i)) (seq 0 (length a)).

(** [hasDup]: [new Set(working).size !== working.length]. *)
Definition hasDup (w : list string) : bool :=
  negb (length (remove_dups w) =? length w).

(** [addStep]: append the key unless the working path includes it. *)
Definition addStep (k : string) (st : SeqPage) : SeqPage :=
  let w := working st in
  mkSeqPage (sequences st) (if bool_decide (k ∈ w) then w else w ++ [k]) (editingIndex st).

(** [move(i, d)]: swap positions [i] and [i + d] when [i + d] is inside
    the path.  (The page only offers [move] on the chips it renders, so
    [i] is a position of the path.) *)
Definition move (i : nat) (d : Z) (st : SeqPage) : SeqPage :=
  let w := working st in
  let j := (Z.of_nat i + d)%Z in
  if (j <? 0)%Z || (Z.of_nat (length w) <=? j)%Z then st
  else
    let jn := Z.to_nat j in
    match w !! i, w !! jn with
    | Some x, Some y => mkSeqPage (sequences st) (<[i := y]> (<[jn := x]> w)) (editingIndex st)
    | _, _ => st
    end.

(** [remove(i)]: [w.filter((_x, idx) => idx !== i)]. *)
Definition remove (i : nat) (st : SeqPage) : SeqPage :=
  mkSeqPage (sequences st) (delete i (working st)) (editingIndex st).

(** [clear]. *)
Definition clear (st : SeqPage) : SeqPage := mkSeqPage (sequences st) [] None.

Inductive SeqAlert :=
  | DuplicateStepError        (** "Sequence has duplicate steps." *)
  | DuplicateSequenceError.   (** "This exact sequence already exists." *)

(** [save]: ignore an empty path, refuse duplicate steps, replace the
    sequence being edited, or prepend a new sequence unless an equal one
    exists; then [clear]. *)
Definition save (st : SeqPage) : SeqPage * option SeqAlert :=
  let w := working st in
  if bool_decide (w = []) then (st, None)
  else if hasDup w then (st, Some DuplicateStepError)
  else match editingIndex st with
       | Some ei =>
           (clear (mkSeqPage (imap (fun i p => if i =? ei then w else p) (sequences st)) w (Some ei)),
            None)
       | None =>
           if existsb (fun p => pathsEqual p w) (sequences st) then (st, Some DuplicateSequenceError)
           else (clear (mkSeqPage (w :: sequences st) w None), None)
       end.

(** [del(idx)] after the confirmation. *)
Definition del (idx : nat) (st : SeqPage) : SeqPage :=
  mkSeqPage (delete idx (sequences st)) (working st) (editingIndex st).

(** [edit(idx)]: load a saved sequence into the working path.  (The page
    passes the index of a rendered sequence.) *)
Definition edit (idx : nat) (st : SeqPage) : SeqPage :=
  match sequences st !! idx with
  | Some p => mkSeqPage (sequences st) p (Some idx)
  | None => st
  end.

(** The user actions of the page, without the CSV import. *)
Inductive seq_step : SeqPage -> SeqPage -> Prop :=
  | step_addStep k st : seq_step st (addStep k st)
  | step_move i d st : seq_step st (move i d st)
  | step_remove i st : seq_step st (remove i st)
  | step_clear st : seq_step st (clear st)
  | step_save st : seq_step st (fst (save st))
  | step_del i st : seq_step st (del i st)
  | step_edit i st : seq_step st (edit i st).

(** [palette]: the catalog rows whose key, value-1 or value-2 contains
    the trimmed, lower-cased query (compared in lower case); the whole
    catalog for an empty query. *)
Definition palette (catalog : list CatalogRow) (q : string) : list CatalogRow :=
  let s := to_lower (trim q) in
  if negb (js_truthy s) then catalog
  else List.filter (fun r => existsb (fun v => js_includes (to_lower v) s) [bKey r; bVal r; cVal r])
         catalog.

(** ** CSV export and import *)

(** [exportCSV]: the header [path] and one JSON string literal per saved
    sequence, its steps joined by ["-"], joined by line feeds.  (The
    download link built from it is I/O.) *)
Definition exportCSV (seqs : list (list string)) : string :=
  join (String newline EmptyString) ("path" :: map (fun p => json_stringify (join "-" p)) seqs).

(** [String(JSON.parse(l))], or [l] when [JSON.parse] throws.  A line that
    is a JSON value other than a string literal (a number, [true], an
    array) is kept as written, which is what [String] gives for the
    canonical spellings. *)
Definition json_parse_line (l : string) : string := default l (json_parse_string l).

(** The header test's cell: the first line (empty when there is none)
    up to its first comma, with every quote character removed, trimmed. *)
Definition csv_first_cell (lines : list string) : string :=
  trim (remove_char quote_char (default "" (head (split_on ","%char (default "" (head lines)))))).

(** One imported line: its steps split at ["-"], trimmed, empties dropped. *)
Definition parse_path (l : string) : list string :=
  List.filter js_truthy (map trim (split_on dash (json_parse_line l))).

(** [arr.forEach(p => { if (!next.some(q => pathsEqual(q, p))) next.push(p); })]. *)
Definition merge_paths (next arr : list (list string)) : list (list string) :=
  fold_left (fun next p => if existsb (fun q => pathsEqual q p) next then next else next ++ [p])
    arr next.

(** [importCSV] on the text the prompt returns ([None] when cancelled). *)
Definition importCSV (txt : option string) (st : SeqPage) : SeqPage :=
  match txt with
  | None => st
  | Some t =>
      if negb (js_truthy t) then st
      else
        let lines := List.filter js_truthy (split_lines t) in
        let body := if bool_decide (csv_first_cell lines = "path") then tail lines else lines in
        let arr := List.filter (fun p => negb (bool_decide (p = []))) (map parse_path body) in
        mkSeqPage (merge_paths (sequences st) arr) (working st) (editingIndex st)
  end.

(** ** Invariants *)

(** The page's rule for saved sequences: non-empty, no repeated step. *)
Definition seq_wf (st : SeqPage) : Prop :=
  Forall (fun p => p <> [] /\ NoDup p) (sequences st) /\ NoDup (working st).

(** ** Lemmas *)

Lemma length_remove_dups_le (w : list string) : length (remove_dups w) <= length w.
Proof.
  induction w as [|x w IH]; simpl; [lia|]. case_decide; simpl; lia.
Qed.

Lemma hasDup_false (w : list string) : hasDup w = false <-> NoDup w.
Proof.
  unfold hasDup. rewrite negb_false_iff, Nat.eqb_eq.
  induction w as [|x w IH]; simpl; [split; [constructor|done]|].
  rewrite NoDup_cons. case_decide as Hx; simpl.
  - pose proof (length_remove_dups_le w). split; [lia|]. intros [? _]; done.
  - rewrite <- IH. split; [intros [=]; done|]. intros [_ ->]. done.
Qed.

Lemma pathsEqual_true (a b : list string) : pathsEqual a b = true <-> a = b.
Proof.
  unfold pathsEqual. rewrite andb_true_iff, Nat.eqb_eq, forallb_forall. split.
  - intros [Hlen Hall]. apply list_eq. intros i.
    destruct (decide (i < length a)) as [Hi|Hi].
    + apply (proj1 (bool_decide_eq_true _)), Hall. apply in_seq. lia.
    + rewrite !lookup_ge_None_2 by lia. done.
  - intros ->. split; [done|]. intros i _. by apply bool_decide_eq_true.
Qed.

Lemma NoDup_swap (w : list string) i j x y :
  w !! i = Some x -> w !! j = Some y -> NoDup w -> NoDup (<[i := y]> (<[j := x]> w)).
Proof.
  intros Hi Hj Hnd. rewrite NoDup_alt in Hnd |- *.
  assert (i < length w) by (eapply lookup_lt_Some; eauto).
  assert (j < length w) by (eapply lookup_lt_Some; eauto).
  assert (forall k, <[i := y]> (<[j := x]> w) !! k =
                    if decide (k = i) then Some y else if decide (k = j) then Some x else w !! k) as Hl.
  { intros k. rewrite !list_lookup_insert, length_insert.
    repeat case_decide; subst; try done; try lia. }
  intros a b z Ha Hb. rewrite Hl in Ha, Hb.
  repeat case_decide; simplify_eq; try done.
  all: first [ exact (Hnd _ _ _ Ha Hb)
             | exfalso; match goal with H : ?k <> ?m |- _ => apply H; by eapply Hnd end ].
Qed.

Lemma addStep_wf k st : seq_wf st -> seq_wf (addStep k st).
Proof.
  intros [Hs Hw]. split; [done|]. simpl. case_bool_decide as Hk; [done|].
  apply NoDup_app. split; [done|]. split; [|apply NoDup_singleton].
  intros x Hx ->%list_elem_of_singleton. done.
Qed.

Lemma move_wf i d st : seq_wf st -> seq_wf (move i d st).
Proof.
  intros [Hs Hw]. unfold move.
  destruct (_ || _); [by split|].
  destruct (working st !! i) eqn:Ei, (working st !! Z.to_nat (Z.of_nat i + d)) eqn:Ej; try by split.
  split; [done|]. simpl. by eapply NoDup_swap.
Qed.

Lemma remove_wf i st : seq_wf st -> seq_wf (remove i st).
Proof.
  intros [Hs Hw]. split; [done|]. simpl.
  eapply sublist_NoDup; [done|apply sublist_delete].
Qed.

Lemma save_wf st : seq_wf st -> seq_wf (fst (save st)).
Proof.
  intros [Hs Hw]. unfold save.
  case_bool_decide as He; [by split|].
  destruct (hasDup (working st)) eqn:Hd; [by split|].
  apply hasDup_false in Hd.
  destruct (editingIndex st) as [ei|].
  - split; simpl; [|constructor].
    apply Forall_lookup. intros k p Hk. rewrite list_lookup_imap in Hk.
    destruct (sequences st !! k) as [q|] eqn:Eq; simpl in Hk; [|discriminate].
    injection Hk as <-. destruct (k =? ei); [by split|].
    exact (Forall_lookup_1 _ _ _ _ Hs Eq).
  - destruct (existsb _ _); [by split|]. split; simpl; [|constructor].
    by constructor.
Qed.

Lemma del_wf i st : seq_wf st -> seq_wf (del i st).
Proof. intros [Hs Hw]. split; [|done]. by apply Forall_delete. Qed.

Lemma edit_wf i st : seq_wf st -> seq_wf (edit i st).
Proof.
  intros [Hs Hw]. unfold edit. destruct (sequences st !! i) as [p|] eqn:Ep; [|by split].
  split; [done|]. simpl. by destruct (Forall_lookup_1 _ _ _ _ Hs Ep).
Qed.

Lemma seq_step_wf st st' : seq_step st st' -> seq_wf st -> seq_wf st'.
Proof.
  destruct 1; eauto using addStep_wf, move_wf, remove_wf, save_wf, del_wf, edit_wf.
  intros [Hs _]. split; [done|constructor].
Qed.

(** ** Properties *)

(** C13: in every state the page reaches from well-formed saved
    sequences by its own actions, every saved sequence is non-empty with
    no repeated step, and so is the working path. *)
Theorem seq_reachable_wf st st' :
  seq_wf st -> star seq_step st st' -> seq_wf st'.
Proof. intros Hwf Hr. exact (star_invariant _ seq_wf seq_step_wf st st' Hr Hwf). Qed.

Lemma seq_reachable_wf_witness :
  let st0 := mkSeqPage [] [] None in
  let st1 := fst (save (addStep "column B-1" st0)) in
  seq_wf st0 /\ star seq_step st0 st1 /\ seq_wf st1.
Proof.
  intros st0 st1.
  assert (seq_wf st0) as H0 by (split; constructor).
  assert (star seq_step st0 st1) as H1
    by (eapply star_step; [apply step_addStep|apply star_one, step_save]).
  split; [exact H0|]. split; [exact H1|]. exact (seq_reachable_wf st0 st1 H0 H1).
Defined.

(** Saving a new path never stores two equal sequences: an equal
    saved path makes [save] refuse with "This exact sequence already
    exists." *)
Theorem save_keeps_paths_distinct st :
  NoDup (sequences st) -> editingIndex st = None -> NoDup (sequences (fst (save st))).
Proof.
  intros Hnd Hnone. unfold save. rewrite Hnone.
  case_bool_decide; [done|]. destruct (hasDup (working st)); [done|].
  destruct (existsb _ _) eqn:He; [done|]. simpl. constructor; [|done].
  intros Hin. apply list_elem_of_In in Hin.
  assert (pathsEqual (working st) (working st) = true) as Hp by (by apply pathsEqual_true).
  enough (existsb (fun p => pathsEqual p (working st)) (sequences st) = true) by congruence.
  apply existsb_exists. eauto.
Qed.

Lemma save_keeps_paths_distinct_witness :
  NoDup (sequences (mkSeqPage [["column B-1"]] ["column B-1"] None)) /\
  editingIndex (mkSeqPage [["column B-1"]] ["column B-1"] None) = None /\
  NoDup (sequences (fst (save (mkSeqPage [["column B-1"]] ["column B-1"] None)))).
Proof.
  assert (NoDup (sequences (mkSeqPage [["column B-1"]] ["column B-1"] None))) as H1
    by (repeat constructor; set_solver).
  split; [exact H1|]. split; [reflexivity|]. by apply save_keeps_paths_distinct.
Defined.

(** Updating a sequence in place skips the equal-path check, so the
    page can store the same path twice: editing the second of
    [[B-1], [B-2]] into [B-1] saves [[B-1], [B-1]]. *)
Theorem save_edit_duplicates_path :
  fst (save (mkSeqPage [["column B-1"]; ["column B-2"]] ["column B-1"] (Some 1))) =
  mkSeqPage [["column B-1"]; ["column B-1"]] [] None.
Proof. vm_compute. reflexivity. Qed.

(** ** The CSV round trip *)

(** A step key the CSV format carries unchanged: non-empty, without
    ["-"], and without white space at either end. *)
Definition csv_key_ok (k : string) : Prop := k <> "" /\ char_free dash k /\ trim k = k.

Definition csv_key_okb (k : string) : bool :=
  js_truthy k && all_chars (fun d => negb (Ascii.eqb d dash)) k && String.eqb (trim k) k.

Lemma csv_key_okb_sound k : csv_key_okb k = true -> csv_key_ok k.
Proof.
  unfold csv_key_okb. rewrite !andb_true_iff, String.eqb_eq. intros [[Ht Hd] Htr].
  split; [by destruct k|]. split; [by apply all_chars_char_free|done].
Qed.

Lemma existsb_pathsEqual (next : list (list string)) p :
  existsb (fun q => pathsEqual q p) next = true <-> p ∈ next.
Proof.
  rewrite existsb_exists, list_elem_of_In. split.
  - intros (q & Hq & ->%pathsEqual_true). done.
  - intros Hp. exists p. split; [done|]. by apply pathsEqual_true.
Qed.

Lemma merge_paths_fresh next arr :
  NoDup (next ++ arr) -> merge_paths next arr = next ++ arr.
Proof.
  unfold merge_paths. revert next.
  induction arr as [|p arr IH]; intros next Hnd; cbn [fold_left]; [by rewrite app_nil_r|].
  destruct (existsb _ next) eqn:E.
  - apply existsb_pathsEqual in E. apply NoDup_app in Hnd as (_ & Hdis & _).
    exfalso. eapply Hdis; [exact E|left].
  - rewrite IH; [by rewrite <- app_assoc|]. by rewrite <- app_assoc.
Qed.

Lemma merge_paths_known next arr :
  Forall (fun p => p ∈ next) arr -> merge_paths next arr = next.
Proof.
  induction arr as [|p arr IH]; [done|]. intros Hall. apply Forall_cons in Hall as [Hp Hall].
  unfold merge_paths. cbn [fold_left].
  assert (existsb (fun q => pathsEqual q p) next = true) as -> by by apply existsb_pathsEqual.
  by apply IH.
Qed.

Lemma parse_path_export p :
  p <> [] -> Forall csv_key_ok p -> parse_path (json_stringify (join "-" p)) = p.
Proof.
  intros Hne Hok. unfold parse_path, json_parse_line. rewrite json_parse_stringify. simpl default.
  change "-" with (String dash EmptyString).
  rewrite split_on_join by (done || (eapply Forall_impl; [exact Hok|]; intros k (_ & Hk & _); exact Hk)).
  rewrite (map_ext_in trim id), map_id.
  - apply filter_all_true. eapply Forall_impl; [exact Hok|]. intros k (Hk & _ & _). by destruct k.
  - intros k Hk%list_elem_of_In. by destruct (proj1 (Forall_forall _ _) Hok k Hk) as (_ & _ & ->).
Qed.

(** The lines of an export are its header and one literal per sequence. *)
Lemma exportCSV_lines seqs :
  List.filter js_truthy (split_lines (exportCSV seqs)) =
  "path" :: map (fun p => json_stringify (join "-" p)) seqs.
Proof.
  unfold exportCSV. rewrite split_lines_join.
  - apply filter_all_true. constructor; [done|]. apply Forall_map, Forall_true. done.
  - done.
  - constructor; [apply all_chars_char_free; reflexivity|].
    apply Forall_map, Forall_true. intros. apply json_stringify_newline_free.
  - constructor; [done|]. apply Forall_map, Forall_true. intros. apply json_stringify_no_cr.
Qed.

(** The sequences an import reads back from an export. *)
Lemma importCSV_exportCSV seqs st :
  Forall (fun p => p <> [] /\ Forall csv_key_ok p) seqs ->
  importCSV (Some (exportCSV seqs)) st =
  mkSeqPage (merge_paths (sequences st) seqs) (working st) (editingIndex st).
Proof.
  intros Hok. unfold importCSV. rewrite exportCSV_lines.
  assert (js_truthy (exportCSV seqs) = true) as -> by (unfold exportCSV; destruct seqs; done).
  cbn [negb]. rewrite bool_decide_true by reflexivity. cbn [tail]. rewrite map_map.
  rewrite (map_ext_in _ id), map_id.
  - f_equal. f_equal. apply filter_all_true. eapply Forall_impl; [exact Hok|].
    intros p [Hp _]. by rewrite bool_decide_false.
  - intros p Hp%list_elem_of_In. destruct (proj1 (Forall_forall _ _) Hok p Hp). by apply parse_path_export.
Qed.

(** Round trip: importing the CSV export of distinct, non-empty
    sequences whose step keys are non-empty, trimmed and free of ["-"]
    into a page without saved sequences restores exactly those sequences. *)
Theorem importCSV_exportCSV_roundtrip seqs w e :
  Forall (fun p => p <> [] /\ Forall csv_key_ok p) seqs -> NoDup seqs ->
  importCSV (Some (exportCSV seqs)) (mkSeqPage [] w e) = mkSeqPage seqs w e.
Proof.
  intros Hok Hnd. rewrite importCSV_exportCSV by done. simpl.
  by rewrite merge_paths_fresh.
Qed.

Lemma csv_keys_ok_example :
  Forall (fun p => p <> [] /\ Forall csv_key_ok p) [["B1"; "B2"]; ["B3"]].
Proof.
  repeat constructor; try discriminate; apply csv_key_okb_sound; reflexivity.
Qed.

Lemma importCSV_exportCSV_roundtrip_witness :
  NoDup [["B1"; "B2"]; ["B3"]] /\
  importCSV (Some (exportCSV [["B1"; "B2"]; ["B3"]])) (mkSeqPage [] [] None) =
  mkSeqPage [["B1"; "B2"]; ["B3"]] [] None.
Proof.
  assert (NoDup [["B1"; "B2"]; ["B3"]]) as Hnd by (repeat constructor; set_solver).
  split; [exact Hnd|]. exact (importCSV_exportCSV_roundtrip _ [] None csv_keys_ok_example Hnd).
Defined.

(** Importing the page's own export changes nothing when its step
    keys are CSV-safe: every imported path is already saved. *)
Theorem importCSV_own_export st :
  Forall (fun p => p <> [] /\ Forall csv_key_ok p) (sequences st) ->
  importCSV (Some (exportCSV (sequences st))) st = st.
Proof.
  intros Hok. rewrite importCSV_exportCSV by done. rewrite merge_paths_known.
  - by destruct st.
  - apply Forall_forall. done.
Qed.

Lemma importCSV_own_export_witness :
  importCSV (Some (exportCSV (sequences (mkSeqPage [["B1"; "B2"]; ["B3"]] ["B1"] None))))
    (mkSeqPage [["B1"; "B2"]; ["B3"]] ["B1"] None) =
  mkSeqPage [["B1"; "B2"]; ["B3"]] ["B1"] None.
Proof. exact (importCSV_own_export (mkSeqPage _ ["B1"] None) csv_keys_ok_example). Defined.

(** The catalog's step keys have the form [column B-<n>], so the
    CSV round trip breaks on every real sequence: the export of
    [[column B-1, column B-2]] imports as the path
    [[column B, 1, column B, 2]], which has a repeated step that [save]
    would have refused. *)
Theorem importCSV_splits_catalog_keys :
  importCSV (Some (exportCSV [["column B-1"; "column B-2"]])) (mkSeqPage [] [] None) =
    mkSeqPage [["column B"; "1"; "column B"; "2"]] [] None /\
  ~ seq_wf (importCSV (Some (exportCSV [["column B-1"; "column B-2"]])) (mkSeqPage [] [] None)).
Proof.
  assert (importCSV (Some (exportCSV [["column B-1"; "column B-2"]])) (mkSeqPage [] [] None) =
            mkSeqPage [["column B"; "1"; "column B"; "2"]] [] None) as E
    by (vm_compute; reflexivity).
  split; [exact E|]. rewrite E. intros [Hs _].
  apply Forall_inv in Hs as [_ Hnd]. apply hasDup_false in Hnd. vm_compute in Hnd. discriminate.
Qed.
