(* ===== verification/EntryModel.v ===== *)
(** * The entry store

    The rows and blocks that the entry pages keep per sequence: the
    [BlockRow] and [Block] shapes of [src/src/pages/EntryFace.tsx] (with
    the optional [dec] and [dbSkipRow] of that page; [Entry.tsx] and
    [src/src/shared/types.ts] declare the same fields), and the
    per-reason store [Record<seqKey, Block[]>] kept in localStorage under
    [lf.<slug>.entry.blocks.v1].  A missing [dbSkipRow] is [false]: every
    reader tests it for truthiness or [=== true]. *)

From S2P Require Import Prelude JsString.

Module BlockRow.
Record t := mk {
    tokenIndex : nat;
    token : string;
    block : nat;
    dec : option nat;
    output : string;
    dbSkipRow : bool
  }.
End BlockRow.

Module Block.
Record t := mk {
    block : nat;
    rows : list BlockRow.t
  }.
End Block.

#[export] Instance BlockRow_eq_dec : EqDecision BlockRow.t.
Proof. solve_decision. Defined.
#[export] Instance Block_eq_dec : EqDecision Block.t.
Proof. solve_decision. Defined.

(** [r.dec ?? 1]. *)
Definition dec_or_1 (r : BlockRow.t) : nat := default 1 (BlockRow.dec r).

(** The entry store of one reason: sequence key to its blocks. *)
Abbreviation EntryStore := (gmap string (list Block.t)).
