(* ===== verification/Identifier.v ===== *)
(** * Identifier composition

    [isFilledOutput] of [src/src/shared/utils.ts], and [headwordOverride]
    and [makeId] of [src/src/pages/EntryFace.tsx], with the variant of
    [makeId] in [src/src/pages/Entry.tsx] that prints a missing [dec] as
    [undefined].  The placeholder sentinel [PLACEHOLDER] is imported by
    [utils.ts] from a [constants] module that is not in the repository, so
    it is a parameter of the section below. *)

From S2P Require Import Prelude JsString EntryModel.

Section identifier.
Context (PLACEHOLDER : string).

(** [isFilledOutput]: a present value whose trimmed form is non-empty and
    whose trimmed, lower-cased form is not the placeholder.  (Rows always
    carry a string [output], so the [undefined]/[null] test is the
    missing-field case, not modelled.) *)
Definition isFilledOutput (v : string) : bool :=
  let s := trim v in
  js_truthy s && negb (bool_decide (to_lower s = PLACEHOLDER)).

(** [exportValueFor]. *)
Definition exportValueFor (v : string) : string :=
  if isFilledOutput v then v else "".

(** [headwordOverride]: the rows at token 0, stably sorted by [dec ?? 1];
    the output of the first filled one. *)
Definition headwordOverride (b : Block.t) : option string :=
  let t0 := sort_by_key dec_or_1
              (List.filter (fun r => BlockRow.tokenIndex r =? 0) (Block.rows b)) in
  BlockRow.output <$> find_first (fun r => isFilledOutput (BlockRow.output r)) t0.

End identifier.

(** [tokens[i]], [undefined] past the end. *)
Definition label_at (tokens : list string) (i : nat) : string :=
  default js_undefined (tokens !! i).

(** One part of an identifier: position 0 is the headword override or the
    first label ([first ?? label], which [join] prints as [""] when both
    are missing); a later position is [`${label}-${suffix}`], the label
    printed [undefined] past the end, with the decimal as suffix for the
    token ["E"] and the block otherwise. *)
Definition id_part (tokens : list string) (block : nat) (d : string)
    (first : option string) (i : nat) : string :=
  let label := label_at tokens i in
  if i =? 0 then default (default "" (tokens !! 0)) first
  else label +:+ "-" +:+ (if bool_decide (label = "E") then d else string_of_nat block).

(** [makeId] of [EntryFace.tsx]: [d = dec ?? 1], parts for [i = 0 ..
    tokenIndex], joined by ["-"]. *)
Definition makeId (tokens : list string) (tokenIndex block : nat) (dec : option nat)
    (first : option string) : string :=
  join "-" (map (id_part tokens block (string_of_nat (default 1 dec)) first)
                (seq 0 (S tokenIndex))).

(** [makeId] of [Entry.tsx]: the same loop, printing [dec] as it is. *)
Definition makeId_entry (tokens : list string) (tokenIndex block : nat) (dec : option nat)
    (first : option string) : string :=
  let d := match dec with Some n => string_of_nat n | None => js_undefined end in
  join "-" (map (id_part tokens block d first) (seq 0 (S tokenIndex))).

(** ** Properties of [makeId] *)

(** The example of the specification: tokens [Animal, E, Form],
    token index 2, block 3, decimal 5 and headword [cat] give
    [cat-E-5-Form-3]. *)
Theorem makeId_spec_example :
  makeId ["Animal"; "E"; "Form"] 2 3 (Some 5) (Some "cat") = "cat-E-5-Form-3".
Proof. vm_compute. reflexivity. Qed.

(** Identifiers are hierarchical: the identifier of position [n+1]
    is the identifier of position [n] followed by ["-"] and the part of
    position [n+1]. *)
Theorem makeId_snoc tokens n block dec first :
  makeId tokens (S n) block dec first =
  makeId tokens n block dec first +:+ "-" +:+
  id_part tokens block (string_of_nat (default 1 dec)) first (S n).
Proof.
  unfold makeId. rewrite (seq_S (S n) 0), map_app. simpl map at 2.
  apply join_snoc. by destruct n.
Qed.

Lemma map_id_part_ext tokens n block block' d d' first :
  (forall i, 0 < i <= n ->
     id_part tokens block d first i = id_part tokens block' d' first i) ->
  map (id_part tokens block d first) (seq 0 (S n)) =
  map (id_part tokens block' d' first) (seq 0 (S n)).
Proof.
  intros H. apply map_ext_in. intros i Hi%in_seq.
  destruct i as [|i]; [done|]. apply H. lia.
Qed.

(** C1: the decimal only reaches an identifier through the token ["E"]:
    when no label at positions [1..n] is ["E"], rows that differ only in
    [dec] get the same identifier. *)
Theorem makeId_dec_irrelevant tokens n block dec dec' first :
  (forall i, 0 < i <= n -> label_at tokens i <> "E") ->
  makeId tokens n block dec first = makeId tokens n block dec' first.
Proof.
  intros HE. unfold makeId. f_equal. apply map_id_part_ext.
  intros i Hi. unfold id_part. destruct i as [|i]; [lia|].
  by rewrite !bool_decide_false by (apply HE; lia).
Qed.

Lemma makeId_dec_irrelevant_witness :
  (forall i, 0 < i <= 1 -> label_at ["Animal"; "Form"] i <> "E") /\
  makeId ["Animal"; "Form"] 1 3 (Some 1) None = makeId ["Animal"; "Form"] 1 3 (Some 2) None.
Proof.
  assert (forall i, 0 < i <= 1 -> label_at ["Animal"; "Form"] i <> "E") as H.
  { intros i Hi. assert (i = 1) as -> by lia. vm_compute. discriminate. }
  split; [exact H|]. apply makeId_dec_irrelevant. exact H.
Defined.

(** The preview of [Entry.tsx] and the export of [EntryFace.tsx]
    compute the same identifier when the row has a decimal; without one
    the preview prints [undefined] at an ["E"] token where the export
    uses 1. *)
Theorem makeId_entry_agrees tokens n block d first :
  makeId_entry tokens n block (Some d) first = makeId tokens n block (Some d) first /\
  makeId_entry ["Animal"; "E"] 1 3 None None = "Animal-E-undefined" /\
  makeId ["Animal"; "E"] 1 3 None None = "Animal-E-1".
Proof. split; [done|]. split; vm_compute; reflexivity. Qed.

(** ** Properties of [headwordOverride] *)

Section headword.
Context (PLACEHOLDER : string).

Lemma headwordOverride_scan b :
  headwordOverride PLACEHOLDER b =
  BlockRow.output <$>
    first_min dec_or_1
      (fun r => (BlockRow.tokenIndex r =? 0) && isFilledOutput PLACEHOLDER (BlockRow.output r))
      (Block.rows b).
Proof.
  unfold headwordOverride. by rewrite find_first_sort_by_key, first_min_filter.
Qed.

(** C2: the override is the output of the filled token-0 row of least
    decimal, the earliest in stored order among equal decimals: sorting
    and then finding is the linear first-minimum scan. *)
Theorem headwordOverride_first_min b :
  headwordOverride PLACEHOLDER b =
  BlockRow.output <$>
    first_min dec_or_1
      (fun r => (BlockRow.tokenIndex r =? 0) && isFilledOutput PLACEHOLDER (BlockRow.output r))
      (Block.rows b).
Proof. apply headwordOverride_scan. Qed.

(** The inclusion flags do not matter: setting [dbSkipRow] of any
    rows to any value leaves the override unchanged, so an excluded
    headword row still names its block. *)
Theorem headwordOverride_ignores_skip (f : BlockRow.t -> bool) b :
  headwordOverride PLACEHOLDER
    (Block.mk (Block.block b)
       (map (fun r => BlockRow.mk (BlockRow.tokenIndex r) (BlockRow.token r) (BlockRow.block r)
                         (BlockRow.dec r) (BlockRow.output r) (f r)) (Block.rows b))) =
  headwordOverride PLACEHOLDER b.
Proof.
  rewrite !headwordOverride_scan. simpl.
  rewrite first_min_map by done. by destruct (first_min _ _ _).
Qed.

End headword.

(** The example of the specification: token-0 rows
    [{dec 1, "placeholder"}, {dec 2, "dog"}] give the override ["dog"]
    when the sentinel is ["placeholder"], whatever their flags. *)
Theorem headwordOverride_spec_example skip1 skip2 :
  headwordOverride "placeholder"
    (Block.mk 1 [BlockRow.mk 0 "Animal" 1 (Some 1) "placeholder" skip1;
                 BlockRow.mk 0 "Animal" 1 (Some 2) "dog" skip2]) = Some "dog".
Proof. destruct skip1, skip2; vm_compute; reflexivity. Qed.
