(* ===== verification/Export.v ===== *)
(** * Export of (identifier, value) pairs

    [collectPairs] of [src/src/pages/EntryFace.tsx], the list the
    "Export CSV" button writes, and [previewRows] of
    [src/src/pages/Entry.tsx], the read-only preview of the same rows.
    Both skip excluded and unfilled rows; [collectPairs] visits the rows
    of a block grouped by token index (ascending) and, within a group, by
    decimal ([dec ?? 1], stable), while [previewRows] keeps the stored
    order.  The preview is modelled with the [headwordOverride] of
    [EntryFace.tsx]; the one of [Entry.tsx] sorts by [a.dec - b.dec] and
    coincides with it whenever every row carries a decimal. *)

From S2P Require Import Prelude JsString EntryModel Identifier.

Section export.
Context (PLACEHOLDER : string).

(** The body of the innermost loop of [collectPairs]: skip an excluded
    row, skip an unfilled one, else push the pair. *)
Definition export_row (tokens : list string) (first : option string) (r : BlockRow.t)
    : list (string * string) :=
  if BlockRow.dbSkipRow r then []
  else if negb (isFilledOutput PLACEHOLDER (BlockRow.output r)) then []
  else [(makeId tokens (BlockRow.tokenIndex r) (BlockRow.block r) (Some (dec_or_1 r)) first,
         exportValueFor PLACEHOLDER (BlockRow.output r))].

(** The rows of one token index, in stored order ([byTok.get(k)]). *)
Definition rows_at (k : nat) (rows : list BlockRow.t) : list BlockRow.t :=
  List.filter (fun r => BlockRow.tokenIndex r =? k) rows.

(** One block: its override, then the groups sorted by token index, each
    sorted by decimal. *)
Definition collectBlock (tokens : list string) (b : Block.t) : list (string * string) :=
  let first := headwordOverride PLACEHOLDER b in
  flat_map (fun k => flat_map (export_row tokens first)
                       (sort_by_key dec_or_1 (rows_at k (Block.rows b))))
           (sort_by_key (fun k => k) (first_keys BlockRow.tokenIndex (Block.rows b))).

Definition collectPairs (blocks : list Block.t) (tokens : list string) : list (string * string) :=
  flat_map (collectBlock tokens) blocks.

(** The body of the row loop of [previewRows]. *)
Definition preview_row (tokens : list string) (first : option string) (r : BlockRow.t)
    : list (string * string) :=
  if BlockRow.dbSkipRow r then []
  else if negb (isFilledOutput PLACEHOLDER (BlockRow.output r)) then []
  else [(makeId_entry tokens (BlockRow.tokenIndex r) (BlockRow.block r) (BlockRow.dec r) first,
         BlockRow.output r)].

Definition previewRows (store : EntryStore) (seqKey : string) (tokens : list string)
    : list (string * string) :=
  flat_map (fun b => flat_map (preview_row tokens (headwordOverride PLACEHOLDER b)) (Block.rows b))
           (default [] (store !! seqKey)).

End export.

(** ** Properties *)

Section export_props.
Context (PLACEHOLDER : string).

Lemma collectBlock_perm tokens b :
  Permutation (collectBlock PLACEHOLDER tokens b)
    (flat_map (export_row PLACEHOLDER tokens (headwordOverride PLACEHOLDER b)) (Block.rows b)).
Proof.
  unfold collectBlock.
  set (g := export_row PLACEHOLDER tokens (headwordOverride PLACEHOLDER b)).
  destruct (first_keys_spec BlockRow.tokenIndex (Block.rows b)) as [Hnd Hcov].
  transitivity (flat_map (fun k => flat_map g (rows_at k (Block.rows b)))
                  (first_keys BlockRow.tokenIndex (Block.rows b))).
  - rewrite (sort_by_key_perm (fun k => k)). apply flat_map_perm_ext.
    intros k _. by rewrite sort_by_key_perm.
  - rewrite <- flat_map_flat_map. f_equiv. by apply group_by_key_perm.
Qed.

Lemma export_row_spec tokens first r p :
  In p (export_row PLACEHOLDER tokens first r) <->
  BlockRow.dbSkipRow r = false /\ isFilledOutput PLACEHOLDER (BlockRow.output r) = true /\
  p = (makeId tokens (BlockRow.tokenIndex r) (BlockRow.block r) (Some (dec_or_1 r)) first,
       BlockRow.output r).
Proof.
  unfold export_row, exportValueFor.
  destruct (BlockRow.dbSkipRow r); [simpl; intuition congruence|].
  destruct (isFilledOutput PLACEHOLDER (BlockRow.output r)); simpl; intuition congruence.
Qed.

Lemma collectPairs_rows blocks tokens :
  Permutation (collectPairs PLACEHOLDER blocks tokens)
    (flat_map (fun b => flat_map (export_row PLACEHOLDER tokens (headwordOverride PLACEHOLDER b))
                          (Block.rows b)) blocks).
Proof. apply flat_map_perm_ext. intros b _. apply collectBlock_perm. Qed.

(** Reordering the blocks of a sequence permutes its export: [collectPairs]
    respects permutation, so [setoid_rewrite] can reorder blocks under it. *)
#[export] Instance collectPairs_proper tokens :
  Proper (Permutation ==> Permutation) (fun blocks => collectPairs PLACEHOLDER blocks tokens).
Proof. intros bs bs' H. unfold collectPairs. by apply Permutation_flat_map. Qed.

(** The export of a sequence is exactly its exportable rows: the
    pairs of [collectPairs] are a permutation of one pair per row that is
    not excluded and has a filled output, in stored order. *)
Theorem collectPairs_perm blocks tokens :
  Permutation (collectPairs PLACEHOLDER blocks tokens)
    (flat_map (fun b => flat_map (export_row PLACEHOLDER tokens (headwordOverride PLACEHOLDER b))
                          (Block.rows b)) blocks).
Proof. apply collectPairs_rows. Qed.

(** C3: a pair is exported iff it comes from a row of the sequence that
    is not excluded and has a filled output; its identifier is [makeId]
    of the row with its block's headword override, its value the row's
    output. *)
Theorem collectPairs_spec blocks tokens id v :
  In (id, v) (collectPairs PLACEHOLDER blocks tokens) <->
  exists b r, In b blocks /\ In r (Block.rows b) /\
    BlockRow.dbSkipRow r = false /\ isFilledOutput PLACEHOLDER (BlockRow.output r) = true /\
    id = makeId tokens (BlockRow.tokenIndex r) (BlockRow.block r) (Some (dec_or_1 r))
                (headwordOverride PLACEHOLDER b) /\
    v = BlockRow.output r.
Proof.
  split.
  - intros Hin. eapply Permutation_in in Hin; [|apply collectPairs_rows].
    apply in_flat_map in Hin as (b & Hb & Hin). apply in_flat_map in Hin as (r & Hr & Hin).
    apply export_row_spec in Hin as (Hs & Hf & Hp). injection Hp as -> ->.
    exists b, r. auto 6.
  - intros (b & r & Hb & Hr & Hs & Hf & -> & ->).
    eapply Permutation_in; [symmetry; apply collectPairs_rows|].
    apply in_flat_map. exists b. split; [done|]. apply in_flat_map. exists r.
    split; [done|]. by apply export_row_spec.
Qed.

(** When every row of the sequence carries a decimal, the preview
    of [Entry.tsx] lists the same pairs as the export of
    [EntryFace.tsx], possibly in another order. *)
Theorem previewRows_perm_collectPairs (store : EntryStore) seqKey tokens :
  (forall b r, In b (default [] (store !! seqKey)) -> In r (Block.rows b) ->
     BlockRow.dec r <> None) ->
  Permutation (previewRows PLACEHOLDER store seqKey tokens)
              (collectPairs PLACEHOLDER (default [] (store !! seqKey)) tokens).
Proof.
  intros Hdec. rewrite collectPairs_rows. unfold previewRows.
  apply Permutation_refl', flat_map_ext_In. intros b Hb.
  apply flat_map_ext_In. intros r Hr.
  unfold preview_row, export_row, exportValueFor, dec_or_1.
  destruct (BlockRow.dec r) as [d|] eqn:Ed; [|by destruct (Hdec b r Hb Hr)].
  destruct (BlockRow.dbSkipRow r); [done|].
  by destruct (isFilledOutput PLACEHOLDER (BlockRow.output r)).
Qed.

End export_props.

(** ** Concrete sequences *)

(** A block stored out of order: two rows at token 1 (decimals 2 and 1)
    before the headword row. *)
Definition ex_rows : list BlockRow.t :=
  [BlockRow.mk 1 "Form" 3 (Some 2) "dogs" false;
   BlockRow.mk 0 "Animal" 3 (Some 1) "dog" false;
   BlockRow.mk 1 "Form" 3 (Some 1) "dog's" false;
   BlockRow.mk 1 "Form" 3 (Some 3) "placeholder" false].

Definition ex_store : EntryStore := {[ "column B-1|column B-2" := [Block.mk 3 ex_rows] ]}.

Lemma previewRows_perm_collectPairs_witness :
  (forall b r, In b (default [] (ex_store !! "column B-1|column B-2")) -> In r (Block.rows b) ->
     BlockRow.dec r <> None) /\
  Permutation (previewRows "placeholder" ex_store "column B-1|column B-2" ["Animal"; "Form"])
              (collectPairs "placeholder" (default [] (ex_store !! "column B-1|column B-2"))
                 ["Animal"; "Form"]).
Proof.
  assert (forall b r, In b (default [] (ex_store !! "column B-1|column B-2")) -> In r (Block.rows b) ->
            BlockRow.dec r <> None) as H.
  { intros b r Hb Hr. vm_compute in Hb. destruct Hb as [<-|[]].
    simpl in Hr. repeat (destruct Hr as [<-|Hr]; [discriminate|]). destruct Hr. }
  split; [exact H|]. by apply previewRows_perm_collectPairs.
Defined.

(** The decimal does not separate rows of one block at a token other
    than ["E"]: the two filled rows at token 1 get the same identifier,
    and the export lists them by decimal after the headword, while the
    preview keeps the stored order. *)
Theorem collectPairs_duplicate_identifier :
  collectPairs "placeholder" [Block.mk 3 ex_rows] ["Animal"; "Form"] =
    [("dog", "dog"); ("dog-Form-3", "dog's"); ("dog-Form-3", "dogs")] /\
  previewRows "placeholder" ex_store "column B-1|column B-2" ["Animal"; "Form"] =
    [("dog-Form-3", "dogs"); ("dog", "dog"); ("dog-Form-3", "dog's")].
Proof. split; vm_compute; reflexivity. Qed.
