(* ===== verification/EntryOps.v ===== *)
(** * Operations on the entry store

    The writers of the per-reason entry store
    [Record<seqKey, Block[]>] of [lf.<slug>.entry.blocks.v1]:
    [quickAddWordsForRow] of [src/src/pages/BCEditor.tsx], which creates
    one block per headword for every sequence starting at a catalog row,
    and [toggleRowDb] of [src/src/pages/Entry.tsx], which flips a row's
    exclusion flag; the sequence models ([seqModels]) that key the store
    in [Entry.tsx] and [EntryFace.tsx]; and the block editor of
    [src/src/pages/EntryPattern.tsx] (no page renders it), which keeps a
    plain [Block[]] under the same storage key. *)

From stdpp Require Import sorting.
From S2P Require Import Prelude JsString Catalog EntryModel Identifier Export.

(** ** Sequence models *)

Record SeqModel := mkSeqModel {
  seqKey : string;
  title : string;
  tokens : list string
}.

(** [seqModels]' element for one path: the key [path.join("|")], the
    title of the human labels joined by an arrow, the tokens. *)
Definition seq_model (byBKey : gmap string CatalogRow) (path : list string) : SeqModel :=
  mkSeqModel (join "|" path)
    (join " → " (map (fun bk => humanLabel bk byBKey) path))
    (map (fun bk => bToken bk byBKey) path).

(** ** The composer text of [EntryFace.tsx] *)

(** [nextDecimal]: one past the largest [dec ?? 1] of the rows. *)
Definition nextDecimal (rowsForToken : list BlockRow.t) : nat :=
  foldl (fun m r => Nat.max m (dec_or_1 r)) 0 rowsForToken + 1.

(** One line of [composerText]: the title, the block number and the
    truthy outputs of the block joined by [joiner]. *)
Definition block_line (title joiner : string) (b : Block.t) : string :=
  let joined := join joiner (List.filter js_truthy (map BlockRow.output (Block.rows b))) in
  let head := title +:+ " — Block " +:+ string_of_nat (Block.block b) in
  (if js_truthy joined then head +:+ ": " else head) +:+ joined.

(** [composerText]: one line per block of every sequence, in the order of
    the sequences and of their stored blocks. *)
Definition composerText (models : list SeqModel) (store : EntryStore) (joiner : string) : string :=
  join (String newline EmptyString)
    (flat_map (fun sm => map (block_line (title sm) joiner) (default [] (store !! seqKey sm))) models).

(** ** [toggleRowDb] *)

(** [{ ...row, dbSkipRow: !(row.dbSkipRow === true) }]. *)
Definition toggle_row (r : BlockRow.t) : BlockRow.t :=
  BlockRow.mk (BlockRow.tokenIndex r) (BlockRow.token r) (BlockRow.block r) (BlockRow.dec r)
    (BlockRow.output r) (negb (BlockRow.dbSkipRow r)).

(** The updater passed to [setStore]: the first block of the sequence with
    the given number, its row at [rowIndex]; the store is returned as it
    was when either is missing. *)
Definition toggleRowDb (seqKey : string) (blockNum rowIndex : nat) (store : EntryStore)
    : EntryStore :=
  let list := default [] (store !! seqKey) in
  match find_index (fun b => Block.block b =? blockNum) list with
  | None => store
  | Some bi =>
      match list !! bi with
      | None => store
      | Some b =>
          match Block.rows b !! rowIndex with
          | None => store
          | Some row =>
              <[seqKey := <[bi := Block.mk (Block.block b) (<[rowIndex := toggle_row row]> (Block.rows b))]> list]>
                store
          end
      end
  end.

(** ** [quickAddWordsForRow] *)

(** [parseWords] of [utils.ts]: split at runs of line feeds and commas,
    trim, drop the empty words. *)
Definition parseWords (s : string) : list string :=
  List.filter js_truthy
    (map trim (split_runs (fun c => Ascii.eqb c newline || Ascii.eqb c ","%char) s)).

(** The output seeded in the rows after the headword. *)
Definition seeded_output : string := "enter output value".

(** The block created for headword [w] on [path] with number [nb]. *)
Definition quick_block (byBKey : gmap string CatalogRow) (path : list string) (nb : nat) (w : string)
    : Block.t :=
  Block.mk nb (imap (fun i bk => BlockRow.mk i (bToken bk byBKey) nb (Some 1)
                                   (if i =? 0 then w else seeded_output) false) path).

(** [blocks.length ? blocks[blocks.length - 1].block + 1 : 1]. *)
Definition next_block (blocks : list Block.t) : nat :=
  match last blocks with Some b => S (Block.block b) | None => 1 end.

Definition add_word (byBKey : gmap string CatalogRow) (path : list string) (blocks : list Block.t)
    (w : string) : list Block.t :=
  blocks ++ [quick_block byBKey path (next_block blocks) w].

(** One iteration of [starting.forEach]: the blocks of [existing[seqKey]]
    are read from the object the earlier iterations already changed. *)
Definition add_words_for_path (byBKey : gmap string CatalogRow) (words : list string)
    (existing : EntryStore) (path : list string) : EntryStore :=
  let k := join "|" path in
  <[k := fold_left (add_word byBKey path) words (default [] (existing !! k))]> existing.

Inductive QuickAlert :=
  | NoWordsAlert                        (** "No words entered." *)
  | NoSequencesAlert                    (** "No sequences start with this row. ..." *)
  | AddedAlert (words seqs : nat).      (** "Added ... headword block(s) to ... sequence(s)." *)

(** [quickAddWordsForRow(bKey)] on the prompt's answer ([None] when
    cancelled), the saved sequences, the catalog and the entry store read
    from localStorage; returns the store written back and the alert. *)
Definition quickAddWordsForRow (bKey : string) (input : option string)
    (sequences : list (list string)) (catalog : list CatalogRow) (existing : EntryStore)
    : EntryStore * option QuickAlert :=
  match input with
  | None => (existing, None)
  | Some s =>
      let words := parseWords s in
      if bool_decide (words = []) then (existing, Some NoWordsAlert)
      else
        let starting := List.filter (fun p => bool_decide (head p = Some bKey)) sequences in
        if bool_decide (starting = []) then (existing, Some NoSequencesAlert)
        else (fold_left (add_words_for_path (catalogMap catalog) words) starting existing,
              Some (AddedAlert (length words) (length starting)))
  end.

(** ** Invariant of a block list *)

(** Block numbers strictly increase along the list and start at 1, as
    the numbering "last block + 1" intends. *)
Definition blocks_incr (bs : list Block.t) : Prop :=
  StronglySorted lt (map Block.block bs) /\ Forall (fun n => 1 <= n) (map Block.block bs).

Definition entry_store_wf (store : EntryStore) : Prop := map_Forall (fun _ bs => blocks_incr bs) store.

(** ** The block editor of [EntryPattern.tsx] *)

Module Pattern.

(** The fields a [setRow] patch may set. *)
Record Patch := mkPatch {
  p_tokenIndex : option nat;
  p_dec : option nat;
  p_output : option string;
  p_dbSkipRow : option bool
}.

(** [addBlock]: number one past the last block's, or 1. *)
Definition addBlock (blocks : list Block.t) : list Block.t :=
  blocks ++ [Block.mk (default 0 (Block.block <$> last blocks) + 1) []].

(** [addRow(b)]: a row one token past the block's last row (or at token
    1), appended to every block numbered like [b].  The page's rows have
    no [token] field: it reads as [undefined]. *)
Definition addRow (b : Block.t) (blocks : list Block.t) : list Block.t :=
  let ti := default 0 (BlockRow.tokenIndex <$> last (Block.rows b)) + 1 in
  let row := BlockRow.mk ti js_undefined (Block.block b) (Some 1) "" false in
  map (fun x => if Block.block x =? Block.block b then Block.mk (Block.block x) (Block.rows x ++ [row]) else x)
    blocks.

Definition apply_patch (p : Patch) (r : BlockRow.t) : BlockRow.t :=
  BlockRow.mk (default (BlockRow.tokenIndex r) (p_tokenIndex p)) (BlockRow.token r) (BlockRow.block r)
    (match p_dec p with Some d => Some d | None => BlockRow.dec r end)
    (default (BlockRow.output r) (p_output p)) (default (BlockRow.dbSkipRow r) (p_dbSkipRow p)).

(** [setRow(b, i, patch)] for a row index [i] of the rendered block. *)
Definition setRow (b : Block.t) (i : nat) (p : Patch) (blocks : list Block.t) : list Block.t :=
  map (fun x => if Block.block x =? Block.block b
                then Block.mk (Block.block x) (alter (apply_patch p) i (Block.rows x)) else x)
    blocks.

(** [delBlock(b)]. *)
Definition delBlock (b : Block.t) (blocks : list Block.t) : list Block.t :=
  List.filter (fun x => negb (Block.block x =? Block.block b)) blocks.

(** The page's actions. *)
Inductive pattern_step : list Block.t -> list Block.t -> Prop :=
  | ps_addBlock bs : pattern_step bs (addBlock bs)
  | ps_addRow b bs : pattern_step bs (addRow b bs)
  | ps_setRow b i p bs : pattern_step bs (setRow b i p bs)
  | ps_delBlock b bs : pattern_step bs (delBlock b bs).

End Pattern.

(** ** Lemmas *)

Lemma toggle_row_involutive r : toggle_row (toggle_row r) = r.
Proof. destruct r. unfold toggle_row. simpl. by rewrite negb_involutive. Qed.

Lemma block_eta b : Block.mk (Block.block b) (Block.rows b) = b.
Proof. by destruct b. Qed.

Lemma next_block_gt bs : blocks_incr bs -> Forall (fun n => n < next_block bs) (map Block.block bs).
Proof.
  intros [Hs _]. induction bs as [|x [|y bs] IH]; [constructor|repeat constructor; simpl; lia|].
  cbn [map] in Hs |- *. apply StronglySorted_inv in Hs as [Hs Hx].
  specialize (IH Hs). change (next_block (x :: y :: bs)) with (next_block (y :: bs)).
  constructor; [|exact IH]. apply Forall_inv in Hx. cbn [map] in IH. apply Forall_inv in IH. lia.
Qed.

Lemma blocks_incr_snoc bs b :
  blocks_incr bs -> Forall (fun n => n < Block.block b) (map Block.block bs) -> 1 <= Block.block b ->
  blocks_incr (bs ++ [b]).
Proof.
  intros [Hs Hp] Hlt H1. unfold blocks_incr. rewrite map_app. split.
  - apply StronglySorted_app_2; [|done|by repeat constructor].
    intros n m Hn ->%list_elem_of_singleton. by eapply Forall_forall in Hlt.
  - apply Forall_app. by repeat constructor.
Qed.

Lemma next_block_pos bs : 1 <= next_block bs.
Proof. unfold next_block. destruct (last bs); lia. Qed.

Lemma add_word_incr m path bs w : blocks_incr bs -> blocks_incr (add_word m path bs w).
Proof.
  intros H. apply blocks_incr_snoc; [done|apply next_block_gt, H|apply next_block_pos].
Qed.

Lemma add_words_incr m path words bs :
  blocks_incr bs -> blocks_incr (fold_left (add_word m path) words bs).
Proof.
  revert bs. induction words as [|w words IH]; intros bs H; [done|]. apply IH, add_word_incr, H.
Qed.

Lemma add_words_for_path_wf m words store path :
  entry_store_wf store -> entry_store_wf (add_words_for_path m words store path).
Proof.
  intros H. apply map_Forall_insert_2; [|done]. apply add_words_incr.
  destruct (store !! join "|" path) as [bs|] eqn:E; simpl.
  - exact (map_Forall_lookup_1 _ _ _ _ H E).
  - split; constructor.
Qed.

Lemma fold_add_words_wf m words starting store :
  entry_store_wf store -> entry_store_wf (fold_left (add_words_for_path m words) starting store).
Proof.
  revert store. induction starting as [|p starting IH]; intros store H; [done|].
  apply IH, add_words_for_path_wf, H.
Qed.

(** The rows of a quick-added block after the headword are at tokens
    [1, 2, ...] and carry the seeded output. *)
Lemma quick_rows_tail m (rest : list string) nb w :
  Forall (fun r => BlockRow.tokenIndex r <> 0 /\ BlockRow.output r = seeded_output)
    (imap ((fun i bk => BlockRow.mk i (bToken bk m) nb (Some 1)
                          (if i =? 0 then w else seeded_output) false) ∘ S) rest).
Proof.
  apply Forall_forall. intros r (i & y & -> & _)%elem_of_lookup_imap_1. simpl. split; [lia|done].
Qed.

Lemma seeded_output_unfilled : isFilledOutput seeded_output seeded_output = false.
Proof. reflexivity. Qed.

(** The headword of a quick-added block is its word, when filled. *)
Lemma quick_block_headword P m bk rest nb w :
  isFilledOutput P w = true ->
  headwordOverride P (quick_block m (bk :: rest) nb w) = Some w.
Proof.
  intros Hw. unfold headwordOverride, quick_block. cbn [Block.rows]. rewrite imap_cons.
  cbn [List.filter]. simpl BlockRow.tokenIndex. cbn [Nat.eqb].
  rewrite filter_all_false.
  - simpl. by rewrite Hw.
  - eapply Forall_impl; [apply quick_rows_tail|]. intros r [Hr _]. by apply Nat.eqb_neq.
Qed.

(** [toggleRowDb] returns the store, or replaces one row of one block. *)
Lemma toggleRowDb_cases k blockNum rowIndex store :
  toggleRowDb k blockNum rowIndex store = store \/
  exists list bi b row,
    store !! k = Some list /\ find_index (fun b => Block.block b =? blockNum) list = Some bi /\
    list !! bi = Some b /\ Block.rows b !! rowIndex = Some row /\
    toggleRowDb k blockNum rowIndex store =
      <[k := <[bi := Block.mk (Block.block b) (<[rowIndex := toggle_row row]> (Block.rows b))]> list]> store.
Proof.
  unfold toggleRowDb. cbv zeta.
  destruct (store !! k) as [list|]; cbn [default id find_index]; [|by left].
  destruct (find_index (fun b => Block.block b =? blockNum) list) as [bi|] eqn:Ef; [|by left].
  destruct (list !! bi) as [b|] eqn:Eb; [|by left].
  destruct (Block.rows b !! rowIndex) as [row|] eqn:Er; [|by left].
  right. eauto 10.
Qed.

(** ** Properties of [toggleRowDb] *)

(** C23: toggling the same row twice gives back the store: the toggle
    finds the same block and row again, and changes only that row's
    flag. *)
Theorem toggleRowDb_involutive k blockNum rowIndex store :
  toggleRowDb k blockNum rowIndex (toggleRowDb k blockNum rowIndex store) = store.
Proof.
  destruct (toggleRowDb_cases k blockNum rowIndex store)
    as [Heq | (list & bi & b & row & Ek & Ef & Eb & Er & ->)]; [by rewrite !Heq|].
  pose proof (lookup_lt_Some _ _ _ Eb). pose proof (lookup_lt_Some _ _ _ Er).
  unfold toggleRowDb. cbv zeta. rewrite lookup_insert_eq. cbn [default id].
  rewrite (find_index_insert_same _ _ _ _ b Eb) by done. rewrite Ef.
  rewrite list_lookup_insert_eq by done. cbn [Block.rows Block.block].
  rewrite list_lookup_insert_eq by done.
  rewrite toggle_row_involutive, !list_insert_insert_eq, (list_insert_id _ _ _ Er), block_eta.
  rewrite (list_insert_id _ _ _ Eb), insert_insert_eq. by apply insert_id.
Qed.

(** ** Properties of [quickAddWordsForRow] *)

(** C24: quick-adding headwords keeps every sequence's block numbers
    strictly increasing from 1: each new block is numbered one past the
    last, which is the largest. *)
Theorem quickAdd_preserves_wf bKey input sequences catalog existing :
  entry_store_wf existing -> entry_store_wf (fst (quickAddWordsForRow bKey input sequences catalog existing)).
Proof.
  intros H. unfold quickAddWordsForRow. destruct input as [s|]; [|done]. cbv zeta.
  destruct (bool_decide (parseWords s = [])); [done|].
  destruct (bool_decide (List.filter _ sequences = [])); [done|]. by apply fold_add_words_wf.
Qed.

Lemma quickAdd_preserves_wf_witness :
  entry_store_wf (∅ : EntryStore) /\
  entry_store_wf (fst (quickAddWordsForRow "column B-1" (Some "cat, dog") [["column B-1"; "column B-2"]] []
                   (∅ : EntryStore))).
Proof.
  assert (entry_store_wf (∅ : EntryStore)) as H by apply map_Forall_empty.
  split; [exact H|]. exact (quickAdd_preserves_wf _ _ _ _ _ H).
Defined.

(** A quick-added block exports exactly the pair (word, word) when
    the placeholder sentinel is the seeded text ["enter output value"]:
    the word is the block's headword and its identifier, and the seeded
    rows are not filled. *)
Theorem quick_block_exports_headword m path nb w tokens :
  path <> [] -> isFilledOutput seeded_output w = true ->
  collectPairs seeded_output [quick_block m path nb w] tokens = [(w, w)].
Proof.
  destruct path as [|bk rest]; [done|]. intros _ Hw.
  apply Permutation_singleton_r. rewrite collectPairs_rows. cbn [flat_map]. rewrite app_nil_r.
  rewrite quick_block_headword by done.
  unfold quick_block. cbn [Block.rows]. rewrite imap_cons. cbn [flat_map].
  rewrite flat_map_all_nil.
  - unfold export_row, exportValueFor. simpl. rewrite Hw. reflexivity.
  - eapply Forall_impl; [apply quick_rows_tail|]. intros r [_ Hr].
    unfold export_row. rewrite Hr, seeded_output_unfilled. by destruct (BlockRow.dbSkipRow r).
Qed.

Lemma quick_block_exports_headword_witness :
  ["column B-1"] <> [] /\ isFilledOutput seeded_output "cat" = true /\
  collectPairs seeded_output [quick_block ∅ ["column B-1"] 1 "cat"] ["Animal"] = [("cat", "cat")].
Proof.
  assert (["column B-1"] <> []) as H1 by discriminate.
  assert (isFilledOutput seeded_output "cat" = true) as H2 by reflexivity.
  split; [exact H1|]. split; [exact H2|]. exact (quick_block_exports_headword _ _ _ _ _ H1 H2).
Defined.

(** The iterations over the starting sequences read and write one
    shared object: the blocks of a key collect the words once per
    starting path with that key. *)
Lemma fold_add_words_lookup m words path ps st :
  (forall q, In q ps -> join "|" q = join "|" path -> q = path) ->
  default [] (fold_left (add_words_for_path m words) ps st !! join "|" path) =
  fold_left (add_word m path) (concat (replicate (length (List.filter (fun q => bool_decide (q = path)) ps)) words))
    (default [] (st !! join "|" path)).
Proof.
  revert st. induction ps as [|q ps IH]; intros st Hk; [done|]. cbn [fold_left List.filter].
  rewrite IH by (intros q' Hq'; apply Hk; by right).
  unfold add_words_for_path. destruct (decide (q = path)) as [->|Hne].
  - rewrite bool_decide_true by done. cbn [length replicate concat]. rewrite fold_left_app.
    by rewrite lookup_insert_eq.
  - rewrite bool_decide_false by done. rewrite lookup_insert_ne; [done|].
    intros Hj. apply Hne, Hk; [by left|done].
Qed.

Lemma filter_eq_filter {A} `{EqDecision A} (P : A -> bool) (x : A) (l : list A) :
  P x = true ->
  List.filter (fun q => bool_decide (q = x)) (List.filter P l) = List.filter (fun q => bool_decide (q = x)) l.
Proof.
  intros Hx. induction l as [|y l IH]; [done|]. cbn [List.filter].
  destruct (decide (y = x)) as [->|Hne].
  - rewrite Hx. cbn [List.filter]. rewrite bool_decide_true by done. by f_equal.
  - destruct (P y); cbn [List.filter]; rewrite ?(bool_decide_false (y = x)) by done; done.
Qed.

(** C25: the store object is shared by the iterations over the starting
    sequences: a path saved [n] times (which [save] allows when editing
    a saved path into another one's steps) gets every word [n] times:
    when no other saved path has the same key, the blocks of its key are
    the blocks it had, followed by one new block per word, the words
    taken [n] times over, numbered on from the last block. *)
Theorem quickAdd_duplicate_sequences bKey s sequences catalog existing path :
  parseWords s <> [] -> head path = Some bKey -> In path sequences ->
  (forall q, In q sequences -> join "|" q = join "|" path -> q = path) ->
  default [] (fst (quickAddWordsForRow bKey (Some s) sequences catalog existing) !! join "|" path) =
  fold_left (add_word (catalogMap catalog) path)
    (concat (replicate (length (List.filter (fun q => bool_decide (q = path)) sequences)) (parseWords s)))
    (default [] (existing !! join "|" path)).
Proof.
  intros Hw Hh Hin Hk. unfold quickAddWordsForRow. cbv zeta.
  rewrite bool_decide_false by done.
  rewrite bool_decide_false.
  2:{ intros He. assert (In path (List.filter (fun p => bool_decide (head p = Some bKey)) sequences)) as Hf
        by (apply filter_In; split; [done|by apply bool_decide_eq_true]).
      by rewrite He in Hf. }
  cbn [fst]. rewrite fold_add_words_lookup.
  - by rewrite filter_eq_filter by (by apply bool_decide_eq_true).
  - intros q Hq. apply Hk. by apply filter_In in Hq as [Hq _].
Qed.

Lemma quickAdd_duplicate_sequences_witness :
  parseWords "cat" <> [] /\ head ["column B-1"; "column B-2"] = Some "column B-1" /\
  In ["column B-1"; "column B-2"] [["column B-1"; "column B-2"]; ["column B-1"; "column B-2"]] /\
  (forall q, In q [["column B-1"; "column B-2"]; ["column B-1"; "column B-2"]] ->
             join "|" q = join "|" ["column B-1"; "column B-2"] -> q = ["column B-1"; "column B-2"]) /\
  default [] (fst (quickAddWordsForRow "column B-1" (Some "cat")
                     [["column B-1"; "column B-2"]; ["column B-1"; "column B-2"]] [] ∅) !! "column B-1|column B-2") =
  [quick_block ∅ ["column B-1"; "column B-2"] 1 "cat"; quick_block ∅ ["column B-1"; "column B-2"] 2 "cat"].
Proof.
  assert (parseWords "cat" <> []) as H1 by (vm_compute; discriminate).
  assert (head ["column B-1"; "column B-2"] = Some "column B-1") as H2 by reflexivity.
  assert (In ["column B-1"; "column B-2"] [["column B-1"; "column B-2"]; ["column B-1"; "column B-2"]]) as H3
    by (left; reflexivity).
  assert (forall q, In q [["column B-1"; "column B-2"]; ["column B-1"; "column B-2"]] ->
             join "|" q = join "|" ["column B-1"; "column B-2"] -> q = ["column B-1"; "column B-2"]) as H4
    by (intros q [<-|[<-|[]]] _; reflexivity).
  do 4 (split; [assumption|]).
  rewrite (quickAdd_duplicate_sequences "column B-1" "cat" _ [] ∅ _ H1 H2 H3 H4).
  vm_compute. reflexivity.
Defined.

(** ** Properties of the block editor and of the sequence keys *)

(** [nextDecimal] is larger than every decimal of the rows, so a row
    numbered by it gets a decimal no row of the token has. *)
Lemma foldl_max_ge (rows : list BlockRow.t) m :
  m <= foldl (fun m r => Nat.max m (dec_or_1 r)) m rows.
Proof. revert m. induction rows as [|x rows IH]; intros m; simpl; [lia|]. etrans; [|apply IH]. lia. Qed.

Lemma nextDecimal_fresh rows r : In r rows -> dec_or_1 r < nextDecimal rows.
Proof.
  intros Hr. unfold nextDecimal.
  enough (forall m, dec_or_1 r <= foldl (fun m r => Nat.max m (dec_or_1 r)) m rows) as H
    by (specialize (H 0); lia).
  revert Hr. induction rows as [|x rows IH]; intros Hr m; [done|]. simpl.
  destruct Hr as [->|Hr].
  - etrans; [|apply foldl_max_ge]. lia.
  - by apply IH.
Qed.

Lemma blocks_incr_map (f : Block.t -> Block.t) bs :
  (forall x, Block.block (f x) = Block.block x) -> blocks_incr bs -> blocks_incr (map f bs).
Proof. intros Hf. unfold blocks_incr. rewrite map_map. by rewrite (map_ext _ _ Hf). Qed.

Lemma blocks_incr_filter (f : Block.t -> bool) bs : blocks_incr bs -> blocks_incr (List.filter f bs).
Proof.
  unfold blocks_incr. induction bs as [|x bs IH]; [done|]. cbn [map].
  intros [Hs Hp]. apply StronglySorted_inv in Hs as [Hs Hx]. apply Forall_cons in Hp as [Hp1 Hp].
  simpl. destruct (f x); [|by apply IH]. cbn [map].
  destruct (IH (conj Hs Hp)) as [IHs IHp]. split; [constructor; [done|]|by constructor].
  apply Forall_forall. intros n (y & -> & Hy)%list_elem_of_fmap.
  apply list_elem_of_In, filter_In in Hy as [Hy _].
  eapply Forall_forall in Hx; [exact Hx|]. apply list_elem_of_fmap. exists y. by rewrite list_elem_of_In.
Qed.

Lemma pattern_step_incr bs bs' : Pattern.pattern_step bs bs' -> blocks_incr bs -> blocks_incr bs'.
Proof.
  destruct 1 as [bs|b bs|b i p bs|b bs]; intros H.
  - unfold Pattern.addBlock. apply blocks_incr_snoc; [done| |simpl; lia].
    replace (default 0 (Block.block <$> last bs) + 1) with (next_block bs)
      by (unfold next_block; destruct (last bs); simpl; lia).
    by apply next_block_gt.
  - apply blocks_incr_map; [|done]. intros x. simpl. by destruct (_ =? _).
  - apply blocks_incr_map; [|done]. intros x. simpl. by destruct (_ =? _).
  - by apply blocks_incr_filter.
Qed.

(** Every block list the pattern editor reaches from one with increasing
    block numbers has increasing block numbers. *)
Theorem pattern_reachable_incr bs bs' :
  blocks_incr bs -> star Pattern.pattern_step bs bs' -> blocks_incr bs'.
Proof. intros H Hr. exact (star_invariant _ blocks_incr pattern_step_incr bs bs' Hr H). Qed.

(** Distinct sequences whose keys contain no ["|"] get distinct store
    keys: [path.join("|")] is undone by splitting at ["|"]. *)
Theorem seq_model_key_injective m p1 p2 :
  p1 <> [] -> p2 <> [] -> Forall (char_free "|") p1 -> Forall (char_free "|") p2 ->
  seqKey (seq_model m p1) = seqKey (seq_model m p2) -> p1 = p2.
Proof.
  intros H1 H2 F1 F2. cbn [seqKey seq_model]. intros E.
  rewrite <- (split_on_join "|" p1), <- (split_on_join "|" p2) by done. by rewrite E.
Qed.
