(* ===== verification/SeqView.v ===== *)
(** * The Sequences page as rendered, and its CSV download

    [src/src/pages/Sequences.tsx] beyond its handlers (which are in
    [Sequences]): the JSX the page renders from its state ([seq_view]:
    the palette with its labels, the working path's chips, the Save,
    Clear and Export buttons with their [disabled] conditions, the saved
    sequences' lines), a click on Save as the browser delivers it (not
    at all when the button is disabled), and [exportCSV]'s download
    link: a [data:] URL whose payload is [encodeURIComponent] of the CSV
    text.

    Strings are byte strings; a JS string is taken as its UTF-8 bytes,
    and [encodeURIComponent] percent-encodes every byte outside the
    unreserved set, which is what it does to the UTF-8 bytes of a string
    without lone surrogates (the only strings it does not throw on).
    What the browser saves for the link, the URL's payload
    percent-decoded ([percent_decode] of the URL standard), is
    [data_url_text]: browser behaviour, used here only as the reader of
    the link. *)

From S2P Require Import Prelude JsString Json Catalog Sequences EntryModel EntryOps.

(** ** [encodeURIComponent] and the data URL *)

Definition percent : ascii := "%"%char.

Definition in_range (lo hi : nat) (c : ascii) : bool :=
  (lo <=? nat_of_ascii c) && (nat_of_ascii c <=? hi).

(** The characters [encodeURIComponent] leaves as they are:
    [A-Z a-z 0-9 - _ . ! ~ * ' ( )]. *)
Definition uri_unreserved (c : ascii) : bool :=
  in_range 48 57 c || in_range 65 90 c || in_range 97 122 c ||
  existsb (Ascii.eqb c) (String.list_ascii_of_string "-_.!~*'()").

(** An upper-case hexadecimal digit. *)
Definition uri_hex_digit (d : nat) : ascii :=
  ascii_of_nat (if d <? 10 then 48 + d else 55 + d).

Definition uri_hex_value (c : ascii) : option nat :=
  if in_range 48 57 c then Some (nat_of_ascii c - 48)
  else if in_range 65 70 c then Some (nat_of_ascii c - 55)
  else if in_range 97 102 c then Some (nat_of_ascii c - 87)
  else None.

(** [encodeURIComponent(s)]: each byte outside the unreserved set as
    [%XX]. *)
Fixpoint encodeURIComponent (s : string) : string :=
  match s with
  | EmptyString => EmptyString
  | String c s' =>
      if uri_unreserved c then String c (encodeURIComponent s')
      else String percent (String (uri_hex_digit (nat_of_ascii c / 16))
             (String (uri_hex_digit (nat_of_ascii c mod 16)) (encodeURIComponent s')))
  end.

(** Percent-decoding: [%] and two hexadecimal digits give one byte; any
    other byte, a stray [%] included, is kept. *)
Fixpoint percent_decode (s : string) : string :=
  match s with
  | EmptyString => EmptyString
  | String c s' =>
      if Ascii.eqb c percent then
        match s' with
        | String h (String l s'') =>
            match uri_hex_value h, uri_hex_value l with
            | Some a, Some b => String (ascii_of_nat (16 * a + b)) (percent_decode s'')
            | _, _ => String c (percent_decode s')
            end
        | _ => String c (percent_decode s')
        end
      else String c (percent_decode s')
  end.

Definition csv_data_prefix : string := "data:text/csv;charset=utf-8,".

(** [exportCSV]'s link: [a.download] and [a.href]. *)
Definition exportCSV_link (slug : string) (seqs : list (list string)) : string * string :=
  (slug +:+ "-sequences.csv", csv_data_prefix +:+ encodeURIComponent (exportCSV seqs)).

(** The text of the file the browser saves for a CSV data URL. *)
Definition data_url_text (href : string) : option string :=
  percent_decode <$> strip_prefix csv_data_prefix href.

(** ** The page as rendered *)

(** A palette entry's text: [r.cVal || r.bVal || r.bKey]. *)
Definition palette_label (r : CatalogRow) : string :=
  if js_truthy (cVal r) then cVal r else if js_truthy (bVal r) then bVal r else bKey r.

(** A palette line: its text, the grey [(bKey)] when [r.cVal] is set,
    and the key its [+ add] button adds. *)
Record PaletteItem := mkPaletteItem {
  pi_label : string;
  pi_key_note : option string;
  pi_add : string
}.

Definition palette_item (r : CatalogRow) : PaletteItem :=
  mkPaletteItem (palette_label r) (if js_truthy (cVal r) then Some (bKey r) else None) (bKey r).

(** A saved sequence's line: [bToken] of each step, with [" → "]
    after every step but the last. *)
Definition saved_line (byBKey : gmap string CatalogRow) (p : list string) : string :=
  join " → " (map (fun bk => bToken bk byBKey) p).

(** [disabled={!working.length || hasDup}] of Save, negated. *)
Definition save_enabled (st : SeqPage) : bool :=
  negb (bool_decide (working st = []) || hasDup (working st)).

Record SeqView := mkSeqView {
  sv_items : nat;                  (** [{catalog.length} items] *)
  sv_palette : list PaletteItem;
  sv_no_matches : bool;            (** [No matches.] *)
  sv_heading : string;             (** [Edit sequence #n] or [Build new sequence] *)
  sv_save_label : string;          (** [Update] or [Save] *)
  sv_save_enabled : bool;
  sv_clear_enabled : bool;
  sv_dup_warning : bool;           (** [Remove duplicates first.] *)
  sv_chips : list string;
  sv_saved_count : nat;            (** [Saved sequences ({sequences.length})] *)
  sv_export_enabled : bool;
  sv_saved : list string
}.

(** The JSX of the page for its catalog, search text and state. *)
Definition seq_view (catalog : list CatalogRow) (q : string) (st : SeqPage) : SeqView :=
  let byBKey := catalogMap catalog in
  let pal := palette catalog q in
  mkSeqView (length catalog) (map palette_item pal) (bool_decide (pal = []))
    (match editingIndex st with
     | Some i => "Edit sequence #" +:+ string_of_nat (S i)
     | None => "Build new sequence"
     end)
    (match editingIndex st with Some _ => "Update" | None => "Save" end)
    (save_enabled st) (negb (bool_decide (working st = []))) (hasDup (working st))
    (map (fun bk => bToken bk byBKey) (working st)) (length (sequences st))
    (negb (bool_decide (sequences st = []))) (map (saved_line byBKey) (sequences st)).

(** A click on Save: a disabled button delivers no click. *)
Definition save_click (catalog : list CatalogRow) (q : string) (st : SeqPage) : SeqPage * option SeqAlert :=
  if sv_save_enabled (seq_view catalog q st) then save st else (st, None).

(** ** The data URL round trip *)

Lemma uri_hex_value_digit d : d < 16 -> uri_hex_value (uri_hex_digit d) = Some d.
Proof. intros Hd. do 16 (destruct d as [|d]; [reflexivity|]). lia. Qed.

Lemma percent_reserved : uri_unreserved percent = false.
Proof. reflexivity. Qed.

Lemma unreserved_not_percent c : uri_unreserved c = true -> Ascii.eqb c percent = false.
Proof.
  intros Hu. destruct (Ascii.eqb_spec c percent) as [->|]; [|done].
  by rewrite percent_reserved in Hu.
Qed.

Lemma uri_hex_digit_safe d : d < 16 -> uri_unreserved (uri_hex_digit d) = true.
Proof. intros Hd. do 16 (destruct d as [|d]; [reflexivity|]). lia. Qed.

Lemma byte_hex_split c :
  ascii_of_nat (16 * (nat_of_ascii c / 16) + nat_of_ascii c mod 16) = c.
Proof.
  rewrite <- Nat.div_mod_eq. apply ascii_nat_embedding.
Qed.

Lemma encode_safe_decode (s : string) :
  all_chars (fun c => uri_unreserved c || Ascii.eqb c percent) (encodeURIComponent s) = true /\
  percent_decode (encodeURIComponent s) = s.
Proof.
  induction s as [|c s [Hsafe IH]]; [done|]. cbn [encodeURIComponent].
  destruct (uri_unreserved c) eqn:Hu.
  - cbn. rewrite Hu, Hsafe, unreserved_not_percent, IH by done. done.
  - assert (nat_of_ascii c / 16 < 16) as Hhi
      by (pose proof (nat_ascii_bounded c); apply Nat.Div0.div_lt_upper_bound; lia).
    assert (nat_of_ascii c mod 16 < 16) as Hlo by (apply Nat.mod_upper_bound; lia).
    cbn [all_chars percent_decode]. rewrite !uri_hex_digit_safe, Hsafe by done.
    rewrite ?Ascii.eqb_refl. rewrite !uri_hex_value_digit, byte_hex_split, IH by done. split; [by rewrite orb_true_r|done].
Qed.

(** C14: The file the Export CSV link downloads holds the page's CSV
    text, and pasting that text into Import CSV on a page without saved
    sequences restores the saved sequences exactly, when they are
    distinct, non-empty, and their step keys are non-empty, trimmed and
    free of ["-"]. *)
Theorem export_download_reimports slug seqs w e :
  Forall (fun p => p <> [] /\ Forall csv_key_ok p) seqs -> NoDup seqs ->
  data_url_text (exportCSV_link slug seqs).2 = Some (exportCSV seqs) /\
  importCSV (data_url_text (exportCSV_link slug seqs).2) (mkSeqPage [] w e) = mkSeqPage seqs w e.
Proof.
  intros Hok Hnd.
  assert (data_url_text (exportCSV_link slug seqs).2 = Some (exportCSV seqs)) as Ht.
  { unfold data_url_text, exportCSV_link. cbn [snd]. rewrite strip_prefix_app. cbn.
    f_equal. apply encode_safe_decode. }
  split; [exact Ht|]. rewrite Ht, importCSV_exportCSV by done. cbn. by rewrite merge_paths_fresh.
Qed.

Lemma export_download_reimports_witness :
  Forall (fun p => p <> [] /\ Forall csv_key_ok p) [["B1"; "B2"]; ["B3"]] /\ NoDup [["B1"; "B2"]; ["B3"]] /\
  data_url_text (exportCSV_link "animals" [["B1"; "B2"]; ["B3"]]).2 = Some (exportCSV [["B1"; "B2"]; ["B3"]]) /\
  importCSV (data_url_text (exportCSV_link "animals" [["B1"; "B2"]; ["B3"]]).2) (mkSeqPage [] [] None) =
    mkSeqPage [["B1"; "B2"]; ["B3"]] [] None.
Proof.
  assert (NoDup [["B1"; "B2"]; ["B3"]]) as Hnd by (repeat constructor; set_solver).
  split; [exact csv_keys_ok_example|]. split; [exact Hnd|].
  exact (export_download_reimports "animals" _ [] None csv_keys_ok_example Hnd).
Defined.

(** ** The Save button *)

(** C16: The alert "Sequence has duplicate steps." can never show: Save
    is disabled while the working path repeats a step (the page shows
    "Remove duplicates first." instead, and a click changes nothing), and
    when it is enabled [save] either stores the path or refuses an
    existing one. *)
Theorem save_click_no_dup_alert catalog q st :
  (save_click catalog q st).2 <> Some DuplicateStepError /\
  (hasDup (working st) = true ->
     save_click catalog q st = (st, None) /\ sv_dup_warning (seq_view catalog q st) = true).
Proof.
  unfold save_click, seq_view, save_enabled. cbn [sv_save_enabled sv_dup_warning].
  split.
  - destruct (bool_decide (working st = [])) eqn:He; [done|].
    destruct (hasDup (working st)) eqn:Hd; [done|]. cbn [orb negb].
    unfold save. rewrite He, Hd. destruct (editingIndex st); [done|]. by case_match.
  - intros Hd. rewrite Hd, orb_true_r. done.
Qed.

(** ** Two titles for one path *)

(** C17: The Sequences page and the Entry pages name a path differently:
    the saved line of Sequences.tsx shows each step's [bToken] (value-1
    first), the Entry pages' title its [humanLabel] (value-2 first, as
    the specification's [title(path)] does).  For a row with two
    different values, the one-step path reads as its value-1 on one page
    and as its value-2 on the other. *)
Theorem saved_line_differs_from_title catalog q st r :
  catalogMap catalog !! bKey r = Some r -> js_truthy (bVal r) = true -> js_truthy (cVal r) = true ->
  sequences st = [[bKey r]] ->
  sv_saved (seq_view catalog q st) = [bVal r] /\
  title (seq_model (catalogMap catalog) [bKey r]) = cVal r.
Proof.
  intros Hr Hb Hc Hs. unfold seq_view, saved_line, seq_model. cbn [sv_saved title].
  rewrite Hs. cbn [map join]. unfold bToken, humanLabel. rewrite Hr, Hb, Hc. done.
Qed.

Lemma saved_line_differs_from_title_witness :
  let r := mkRow "column B-1" "column C-1" "cat" "chat" in
  catalogMap [r] !! bKey r = Some r /\ js_truthy (bVal r) = true /\ js_truthy (cVal r) = true /\
  sequences (mkSeqPage [["column B-1"]] [] None) = [[bKey r]] /\
  sv_saved (seq_view [r] "" (mkSeqPage [["column B-1"]] [] None)) = [bVal r] /\
  title (seq_model (catalogMap [r]) [bKey r]) = cVal r.
Proof.
  intros r.
  assert (catalogMap [r] !! bKey r = Some r) as H1 by (vm_compute; reflexivity).
  assert (js_truthy (bVal r) = true) as H2 by reflexivity.
  assert (js_truthy (cVal r) = true) as H3 by reflexivity.
  assert (sequences (mkSeqPage [["column B-1"]] [] None) = [[bKey r]]) as H4 by reflexivity.
  do 4 (split; [assumption|]).
  exact (saved_line_differs_from_title [r] "" (mkSeqPage [["column B-1"]] [] None) r H1 H2 H3 H4).
Defined.
