(* ===== verification/Publish.v ===== *)
(** * Publishing (identifier, value) pairs

    The [/stage1/text:upsert] handler of [src/server.js] over its two JSON
    files: the active rows ([stage1-text.json], read by [readDB] and
    written by [writeDB]) and the archive ([stage1-archive.json]).  The
    handler is synchronous (synchronous [fs] calls on Node's single
    thread), so a request runs to completion before the next starts and
    an execution is a sequence of whole requests.  Each [new Date()] is a
    tick of the [clock] component of the state.

    The abstract specification of publishing ([SpecState],
    [spec_publish_one]: insert a new identifier, archive the old value
    and overwrite on a change, do nothing on an identical value) is the
    contract of the specification; [abs] maps the files to it. *)

From S2P Require Import Prelude JsString.

(** ** Abstract specification *)

Record SpecState := mkSpec {
  active : gmap string string;
  archived : list (string * string)   (** (identifier, superseded value) *)
}.

Definition spec_publish_one (p : string * string) (s : SpecState) : SpecState :=
  let '(id, v) := p in
  match active s !! id with
  | Some old =>
      if bool_decide (old = v) then s
      else mkSpec (<[id := v]> (active s)) (archived s ++ [(id, old)])
  | None => mkSpec (<[id := v]> (active s)) (archived s)
  end.

Definition spec_publish (rows : list (string * string)) (s : SpecState) : SpecState :=
  foldl (fun s p => spec_publish_one p s) s rows.

(** ** The server *)

(** A row of [stage1-text.json]: [{...row, language, tenant, reason,
    updated_at}]. *)
Record DbRow := mkDbRow {
  identifiercode : string;
  output_value : string;
  language : string;
  tenant : string;
  reason : string;
  updated_at : nat
}.

(** A row of [stage1-archive.json]: [{...existing, archived_at,
    archived_by_reason}]. *)
Record ArchiveRow := mkArchiveRow {
  archived_row : DbRow;
  archived_at : nat;
  archived_by_reason : string
}.

Record Store := mkStore {
  db : list DbRow;
  archive : list ArchiveRow;
  clock : nat
}.

(** The request body [{ rows, language, tenant, reason }]; [rows] is
    [None] when it is not an array. *)
Record UpsertRequest := mkReq {
  req_rows : option (list (string * string));
  req_language : string;
  req_tenant : string;
  req_reason : string
}.

Inductive Response :=
  | BadRequest (msg : string)     (** [res.status(400).send(...)] *)
  | Saved (saved : nat).          (** [res.json({ ok: true, saved })] *)

(** One iteration of [rows.forEach]: [db0] is the array read once by
    [readDB] before the loop; [archive] is the array read by
    [readArchive] and pushed to in place; the file written by [writeDB]
    is the [filtered] array of this iteration. *)
Definition upsert_step (db0 : list DbRow) (language tenant reason : string)
    (st : Store) (row : string * string) : Store :=
  let '(id, v) := row in
  let existing := find_first (fun r => bool_decide (identifiercode r = id)) db0 in
  let '(arch, t) :=
    match existing with
    | Some e =>
        if bool_decide (output_value e <> v)
        then (archive st ++ [mkArchiveRow e (clock st) reason], S (clock st))
        else (archive st, clock st)
    | None => (archive st, clock st)
    end in
  let filtered := List.filter (fun r => negb (bool_decide (identifiercode r = id))) db0 in
  mkStore (filtered ++ [mkDbRow id v language tenant reason t]) arch (S t).

(** The handler. *)
Definition text_upsert (req : UpsertRequest) (st : Store) : Response * Store :=
  match req_rows req with
  | None => (BadRequest "Rows missing", st)
  | Some rows =>
      (Saved (length rows),
       foldl (upsert_step (db st) (req_language req) (req_tenant req) (req_reason req)) st rows)
  end.

(** ** Abstraction *)

Definition db_map (d : list DbRow) : gmap string string :=
  list_to_map (map (fun r => (identifiercode r, output_value r)) d).

Definition abs (st : Store) : SpecState :=
  mkSpec (db_map (db st))
         (map (fun a => (identifiercode (archived_row a), output_value (archived_row a)))
              (archive st)).

(** The active file holds one row per identifier. *)
Definition store_wf (st : Store) : Prop := NoDup (map identifiercode (db st)).

(** ** Lemmas *)

Lemma db_map_lookup d k :
  db_map d !! k = output_value <$> find_first (fun r => bool_decide (identifiercode r = k)) d.
Proof.
  induction d as [|r d IH]; [done|]. unfold db_map in *. simpl.
  destruct (decide (identifiercode r = k)) as [<-|Hne].
  - by rewrite lookup_insert_eq, bool_decide_true.
  - by rewrite lookup_insert_ne, bool_decide_false.
Qed.

Definition by_id (id : string) (r : DbRow) : bool := bool_decide (identifiercode r = id).

Lemma find_first_filter_other d id k :
  k <> id ->
  find_first (by_id k) (List.filter (fun r => negb (by_id id r)) d) = find_first (by_id k) d.
Proof.
  intros Hne. rewrite find_first_filter. apply find_first_ext. intros r _.
  unfold by_id. destruct (decide (identifiercode r = k)) as [->|].
  - by rewrite bool_decide_false, bool_decide_true.
  - by rewrite (bool_decide_false (identifiercode r = k)), andb_false_r.
Qed.

Lemma find_first_filter_same d id :
  find_first (by_id id) (List.filter (fun r => negb (by_id id r)) d) = None.
Proof.
  rewrite find_first_filter. induction d as [|r d IH]; simpl; [done|].
  by destruct (by_id id r).
Qed.

(** The active file after one iteration of the loop. *)
Lemma db_map_step db0 id v l t reason tm :
  db_map (List.filter (fun r => negb (by_id id r)) db0 ++ [mkDbRow id v l t reason tm]) =
  <[id := v]> (db_map db0).
Proof.
  apply map_eq. intros k. rewrite !db_map_lookup. fold (by_id k). rewrite find_first_app.
  destruct (decide (k = id)) as [->|Hne].
  - rewrite find_first_filter_same, lookup_insert_eq. simpl. unfold by_id. by rewrite bool_decide_true.
  - rewrite find_first_filter_other, lookup_insert_ne, db_map_lookup by done. fold (by_id k).
    destruct (find_first (by_id k) db0); [done|]. simpl. unfold by_id. by rewrite bool_decide_false.
Qed.

Lemma NoDup_step db0 id v l t reason tm :
  NoDup (map identifiercode db0) ->
  NoDup (map identifiercode (List.filter (fun r => negb (by_id id r)) db0 ++ [mkDbRow id v l t reason tm])).
Proof.
  intros Hnd. rewrite map_app. apply NoDup_app. split; [|split; [|apply NoDup_singleton]].
  - induction db0 as [|r d IH]; simpl; [constructor|]. apply NoDup_cons in Hnd as [Hr Hd].
    destruct (by_id id r); simpl; [by apply IH|]. constructor; [|by apply IH].
    intros Hin. apply Hr. apply list_elem_of_In in Hin. apply list_elem_of_In.
    apply in_map_iff in Hin as (x & <- & Hx).
    apply filter_In in Hx as [Hx _]. apply in_map. done.
  - intros k Hk ->%list_elem_of_singleton. apply list_elem_of_In, in_map_iff in Hk as (x & Hx & Hin).
    apply filter_In in Hin as [_ Hf]. unfold by_id in Hf. simpl in Hf.
    rewrite bool_decide_true in Hf by done. discriminate.
Qed.

Lemma upsert_step_db db0 l t rs st id v :
  exists tm, db (upsert_step db0 l t rs st (id, v)) =
             List.filter (fun r => negb (by_id id r)) db0 ++ [mkDbRow id v l t rs tm].
Proof.
  unfold upsert_step. destruct (find_first _ db0) as [e|];
    [destruct (bool_decide (output_value e <> v))|]; simpl; eexists; reflexivity.
Qed.

Lemma upsert_step_archive db0 l t rs st id v :
  archive (upsert_step db0 l t rs st (id, v)) =
  archive st ++ match find_first (by_id id) db0 with
                 | Some e => if bool_decide (output_value e <> v)
                             then [mkArchiveRow e (clock st) rs] else []
                 | None => []
                 end.
Proof.
  unfold upsert_step. fold (by_id id). destruct (find_first (by_id id) db0) as [e|];
    [destruct (bool_decide (output_value e <> v))|]; simpl; by rewrite ?app_nil_r.
Qed.

Lemma spec_publish_one_idem p s :
  spec_publish_one p (spec_publish_one p s) = spec_publish_one p s.
Proof.
  destruct p as [id v]. unfold spec_publish_one.
  destruct (active s !! id) as [old|] eqn:E.
  - case_bool_decide as Heq; [by rewrite E, bool_decide_true|].
    simpl. rewrite lookup_insert_eq, bool_decide_true; done.
  - simpl. rewrite lookup_insert_eq, bool_decide_true; done.
Qed.

(** ** Properties of the handler *)

Lemma foldl_upsert_NoDup db0 l t rs st0 rows :
  NoDup (map identifiercode db0) -> NoDup (map identifiercode (db st0)) ->
  NoDup (map identifiercode (db (foldl (upsert_step db0 l t rs) st0 rows))).
Proof.
  intros Hnd0 Hnd. induction rows as [|[id v] rows IH] using rev_ind; [done|].
  rewrite foldl_app. cbn [foldl].
  destruct (upsert_step_db db0 l t rs (foldl (upsert_step db0 l t rs) st0 rows) id v) as [tm ->].
  by apply NoDup_step.
Qed.

Lemma text_upsert_wf req st :
  store_wf st -> store_wf (snd (text_upsert req st)).
Proof.
  unfold text_upsert, store_wf. intros Hnd.
  destruct (req_rows req) as [rows|]; [|done]. simpl. by apply foldl_upsert_NoDup.
Qed.

(** C5: the active file keeps one row per identifier across every
    request, whatever the batch. *)
Theorem text_upsert_preserves_wf req st :
  store_wf st -> store_wf (snd (text_upsert req st)).
Proof. apply text_upsert_wf. Qed.

Lemma text_upsert_single_abs st id v l t rs :
  store_wf st ->
  abs (snd (text_upsert (mkReq (Some [(id, v)]) l t rs) st)) = spec_publish_one (id, v) (abs st).
Proof.
  intros Hwf. unfold text_upsert. cbn [req_rows req_language req_tenant req_reason snd foldl].
  destruct (upsert_step_db (db st) l t rs st id v) as [tm Hdb].
  unfold abs, spec_publish_one. rewrite Hdb, db_map_step, upsert_step_archive.
  cbn [active archived]. rewrite db_map_lookup.
  fold (by_id id). destruct (find_first (by_id id) (db st)) as [e|] eqn:E; simpl.
  - pose proof (find_first_Some _ _ _ E) as [_ He]. unfold by_id in He.
    apply bool_decide_eq_true in He.
    destruct (decide (output_value e = v)) as [<-|Hne].
    + rewrite bool_decide_false, bool_decide_true by auto. simpl. rewrite app_nil_r.
      f_equal. apply insert_id. rewrite db_map_lookup. fold (by_id id). by rewrite E.
    + rewrite bool_decide_true, bool_decide_false by auto. simpl.
      rewrite map_app. cbn. by rewrite He.
  - by rewrite app_nil_r.
Qed.

(** C4: a request with one row implements the specification's publish
    step: the active table maps the identifier to the new value, and the
    old value is archived exactly when it differs. *)
Theorem text_upsert_refines_single st id v l t rs :
  store_wf st ->
  abs (snd (text_upsert (mkReq (Some [(id, v)]) l t rs) st)) = spec_publish_one (id, v) (abs st).
Proof. apply text_upsert_single_abs. Qed.

Lemma text_upsert_single_wf st p l t rs :
  store_wf st -> store_wf (snd (text_upsert (mkReq (Some [p]) l t rs) st)).
Proof. apply text_upsert_wf. Qed.

(** Republishing: sending the same one-row request twice leaves the
    active table and the archive as the first request left them. *)
Theorem text_upsert_idempotent st id v l t rs :
  store_wf st ->
  let req := mkReq (Some [(id, v)]) l t rs in
  abs (snd (text_upsert req (snd (text_upsert req st)))) = abs (snd (text_upsert req st)).
Proof.
  intros Hwf req. subst req. rewrite (text_upsert_single_abs (snd (text_upsert _ st)))
    by (by apply text_upsert_single_wf).
  rewrite text_upsert_single_abs by done. apply spec_publish_one_idem.
Qed.

Lemma text_upsert_idempotent_witness :
  store_wf (mkStore [mkDbRow "cat" "A" "en" "kids-english" "r" 0] [] 1) /\
  let req := mkReq (Some [("cat", "B")]) "en" "kids-english" "r" in
  abs (snd (text_upsert req (snd (text_upsert req (mkStore [mkDbRow "cat" "A" "en" "kids-english" "r" 0] [] 1))))) =
  abs (snd (text_upsert req (mkStore [mkDbRow "cat" "A" "en" "kids-english" "r" 0] [] 1))).
Proof.
  assert (store_wf (mkStore [mkDbRow "cat" "A" "en" "kids-english" "r" 0] [] 1)) as H
    by (repeat constructor; set_solver).
  split; [exact H|]. by apply text_upsert_idempotent.
Defined.

(** Two one-row requests for a new identifier, in either order: the
    later value is active and the archive gained exactly one entry, the
    earlier value. *)
Theorem text_upsert_two_requests st id a b l t rs :
  store_wf st -> db_map (db st) !! id = None -> a <> b ->
  let st2 := snd (text_upsert (mkReq (Some [(id, b)]) l t rs)
                  (snd (text_upsert (mkReq (Some [(id, a)]) l t rs) st))) in
  active (abs st2) !! id = Some b /\ archived (abs st2) = archived (abs st) ++ [(id, a)].
Proof.
  intros Hwf Hnone Hab st2. unfold st2.
  rewrite text_upsert_single_abs by (by apply text_upsert_single_wf).
  rewrite text_upsert_single_abs by done.
  unfold spec_publish_one. cbn [active abs]. rewrite Hnone. cbn [active archived].
  rewrite lookup_insert_eq, bool_decide_false by done. cbn [active archived].
  by rewrite lookup_insert_eq.
Qed.

Lemma text_upsert_two_requests_witness :
  store_wf (mkStore [] [] 0) /\ db_map (db (mkStore [] [] 0)) !! "cat" = None /\ "A" <> "B" /\
  let st2 := snd (text_upsert (mkReq (Some [("cat", "B")]) "en" "t" "r")
                  (snd (text_upsert (mkReq (Some [("cat", "A")]) "en" "t" "r") (mkStore [] [] 0)))) in
  active (abs st2) !! "cat" = Some "B" /\ archived (abs st2) = archived (abs (mkStore [] [] 0)) ++ [("cat", "A")].
Proof.
  assert (store_wf (mkStore [] [] 0)) as H1 by constructor.
  assert (db_map (db (mkStore [] [] 0)) !! "cat" = None) as H2 by reflexivity.
  assert ("A" <> "B") as H3 by discriminate.
  split; [exact H1|]. split; [exact H2|]. split; [exact H3|].
  by apply text_upsert_two_requests.
Defined.

(** ** Batches *)

(** What a batch archives: each row is compared with the value the file
    held before the loop. *)
Definition batch_archived (d : list DbRow) (rows : list (string * string)) : list (string * string) :=
  flat_map (fun p => match db_map d !! p.1 with
                     | Some old => if bool_decide (old <> p.2) then [(p.1, old)] else []
                     | None => []
                     end) rows.

Lemma text_upsert_batch_db st rows id v l t rs :
  exists tm, db (snd (text_upsert (mkReq (Some (rows ++ [(id, v)])) l t rs) st)) =
             List.filter (fun r => negb (by_id id r)) (db st) ++ [mkDbRow id v l t rs tm].
Proof.
  unfold text_upsert. cbn [req_rows req_language req_tenant req_reason snd].
  rewrite foldl_app. apply upsert_step_db.
Qed.

Lemma foldl_upsert_archived db0 l t rs st0 rows :
  map (fun a => (identifiercode (archived_row a), output_value (archived_row a)))
      (archive (foldl (upsert_step db0 l t rs) st0 rows)) =
  map (fun a => (identifiercode (archived_row a), output_value (archived_row a))) (archive st0) ++
  batch_archived db0 rows.
Proof.
  induction rows as [|[id v] rows IH] using rev_ind; [by rewrite app_nil_r|].
  rewrite foldl_app. cbn [foldl]. rewrite upsert_step_archive, map_app, IH, <- app_assoc.
  f_equal. unfold batch_archived. rewrite flat_map_app. cbn [flat_map fst snd]. rewrite app_nil_r.
  f_equal. rewrite db_map_lookup. fold (by_id id).
  destruct (find_first (by_id id) db0) as [e|] eqn:E; [|done]. cbn [fmap option_fmap option_map].
  pose proof (find_first_Some _ _ _ E) as [_ He%bool_decide_eq_true].
  case_bool_decide; cbn; by rewrite ?He.
Qed.

Lemma spec_publish_one_keeps p s a :
  is_Some (active s !! a) -> is_Some (active (spec_publish_one p s) !! a).
Proof.
  destruct p as [id v]. unfold spec_publish_one. intros Ha.
  destruct (active s !! id); [case_bool_decide; [done|]|]; cbn [active];
    (destruct (decide (a = id)) as [->|Hne]; [by rewrite lookup_insert_eq|by rewrite lookup_insert_ne]).
Qed.

Lemma spec_publish_one_sets id v s : is_Some (active (spec_publish_one (id, v) s) !! id).
Proof.
  unfold spec_publish_one. destruct (active s !! id) eqn:E; [case_bool_decide; [by rewrite E|]|];
    cbn [active]; by rewrite lookup_insert_eq.
Qed.

(** Publishing pairs in turn makes every identifier of them active. *)
Lemma spec_publish_active ps s a : a ∈ ps.*1 -> is_Some (active (spec_publish ps s) !! a).
Proof.
  unfold spec_publish. revert s. induction ps as [|[id v] ps IH]; intros s Ha;
    [by apply not_elem_of_nil in Ha|].
  cbn [foldl]. destruct (decide (a ∈ ps.*1)) as [Hin|Hnin]; [by apply IH|].
  cbn in Ha. apply elem_of_cons in Ha as [->|]; [|done].
  clear IH. generalize (spec_publish_one_sets id v s).
  generalize (spec_publish_one (id, v) s). induction ps as [|p ps IH]; intros s' Hs; [done|].
  cbn [foldl]. apply IH; [set_solver|]. by apply spec_publish_one_keeps.
Qed.

(** C7: a request with several rows keeps only the write of its last
    row: every iteration rewrites the file with the rows read before the
    loop minus its own identifier plus its own row.  After the request,
    the active table is the table before it with only the last row
    set, so every new identifier of the earlier rows is missing, where
    publishing the same pairs in turn makes it active. *)
Theorem text_upsert_batch_loses_rows st rows id v l t rs :
  let st' := snd (text_upsert (mkReq (Some (rows ++ [(id, v)])) l t rs) st) in
  active (abs st') = <[id := v]> (db_map (db st)) /\
  forall a, a ∈ rows.*1 -> a <> id -> db_map (db st) !! a = None ->
    active (abs st') !! a = None /\ is_Some (active (spec_publish (rows ++ [(id, v)]) (abs st)) !! a).
Proof.
  intros st'. destruct (text_upsert_batch_db st rows id v l t rs) as [tm Hdb].
  assert (active (abs st') = <[id := v]> (db_map (db st))) as Ha
    by (unfold st', abs; cbn [active]; by rewrite Hdb, db_map_step).
  split; [exact Ha|]. intros a Hin Hne Hnone. rewrite Ha, lookup_insert_ne by done.
  split; [exact Hnone|]. apply spec_publish_active. rewrite fmap_app. set_solver.
Qed.

(** C6: within one request, every row of an identifier is compared with
    the value of the file read before the loop: the archive gains, for
    each row in order whose identifier had an active value different
    from the row's, that value; a value written by an earlier row of the
    same batch is never archived. *)
Theorem text_upsert_batch_archive st rows l t rs :
  archived (abs (snd (text_upsert (mkReq (Some rows) l t rs) st))) =
  archived (abs st) ++ batch_archived (db st) rows.
Proof. unfold text_upsert, abs. cbn [req_rows archived snd]. apply foldl_upsert_archived. Qed.

(** ** Interface: what a text store promises its clients *)

(** A store that publishes one (identifier, value) pair at a time, viewed
    through the specification's state. *)
Class TextStore (S : Type) := {
  ts_publish : string * string -> S -> S;
  ts_view : S -> SpecState;
  ts_wf : S -> Prop
}.

(** The laws: publishing keeps the store well formed and acts on the view
    as the specification's publish step. *)
Class TextStoreLaws (S : Type) `{!TextStore S} : Prop := {
  ts_publish_wf p s : ts_wf s -> ts_wf (ts_publish p s);
  ts_publish_view p s : ts_wf s -> ts_view (ts_publish p s) = spec_publish_one p (ts_view s)
}.

(** The server, sent one-row requests with fixed language, tenant and
    reason. *)
#[export] Instance server_text_store (l t rs : string) : TextStore Store := {|
  ts_publish p st := snd (text_upsert (mkReq (Some [p]) l t rs) st);
  ts_view := abs;
  ts_wf := store_wf
|}.

#[export] Instance server_text_store_laws l t rs : TextStoreLaws Store (TextStore0 := server_text_store l t rs).
Proof.
  split; simpl.
  - intros p s. apply text_upsert_single_wf.
  - intros [id v] s. apply text_upsert_single_abs.
Qed.

(** ** Clients of the interface *)

Lemma spec_publish_fresh (ps : list (string * string)) s :
  NoDup ps.*1 -> (forall k, k ∈ ps.*1 -> active s !! k = None) ->
  spec_publish ps s = mkSpec (list_to_map ps ∪ active s) (archived s).
Proof.
  revert s. induction ps as [|[k v] ps IH]; intros s Hnd Hfresh.
  - destruct s. simpl. by rewrite map_empty_union.
  - apply NoDup_cons in Hnd as [Hk Hnd].
    assert (active s !! k = None) as Hs by (apply Hfresh; by left).
    change (spec_publish ((k, v) :: ps) s) with (spec_publish ps (spec_publish_one (k, v) s)).
    assert (spec_publish_one (k, v) s = mkSpec (<[k:=v]> (active s)) (archived s)) as ->
      by (unfold spec_publish_one; by rewrite Hs).
    rewrite IH; simpl.
    + f_equal. rewrite <- insert_union_r by (by apply not_elem_of_list_to_map_1).
      by rewrite insert_union_l.
    + done.
    + intros k' Hk'. rewrite lookup_insert_ne by (intros ->; done). apply Hfresh. by right.
Qed.

Section client.
Context {St : Type} `{!TextStore St, !TextStoreLaws St}.

Definition publish_all (ps : list (string * string)) (s : St) : St :=
  foldl (fun s p => ts_publish p s) s ps.

Lemma publish_all_view ps s :
  ts_wf s -> ts_wf (publish_all ps s) /\ ts_view (publish_all ps s) = spec_publish ps (ts_view s).
Proof.
  revert s. induction ps as [|p ps IH]; intros s Hwf; simpl; [done|].
  destruct (IH (ts_publish p s)) as [Hwf' Hv]; [by apply ts_publish_wf|].
  split; [done|]. rewrite Hv, ts_publish_view by done. done.
Qed.

(** Publishing pairs with distinct identifiers into an empty store makes
    the active table exactly those pairs and archives nothing. *)
Lemma publish_all_roundtrip ps s :
  ts_wf s -> active (ts_view s) = ∅ -> archived (ts_view s) = [] -> NoDup ps.*1 ->
  (forall id v, active (ts_view (publish_all ps s)) !! id = Some v <-> (id, v) ∈ ps) /\
  archived (ts_view (publish_all ps s)) = [].
Proof.
  intros Hwf He Ha Hnd. destruct (publish_all_view ps s Hwf) as [_ ->].
  rewrite spec_publish_fresh by (try done; intros k _; by rewrite He). simpl.
  split; [|done]. intros id v. rewrite He, map_union_empty.
  symmetry. by apply elem_of_list_to_map.
Qed.

End client.

(** ** Witnesses *)

Definition ex_server : Store :=
  mkStore [mkDbRow "cat" "A" "en" "kids-english" "r" 0; mkDbRow "dog" "B" "en" "kids-english" "r" 1] [] 2.

Lemma ex_server_wf : store_wf ex_server.
Proof. unfold store_wf. simpl. repeat constructor; set_solver. Qed.

Lemma text_upsert_preserves_wf_witness :
  store_wf ex_server /\
  store_wf (snd (text_upsert (mkReq (Some [("cat", "C"); ("eel", "E")]) "en" "kids-english" "r") ex_server)).
Proof. split; [exact ex_server_wf|]. apply text_upsert_preserves_wf. exact ex_server_wf. Defined.

Lemma text_upsert_refines_single_witness :
  store_wf ex_server /\
  abs (snd (text_upsert (mkReq (Some [("cat", "C")]) "en" "kids-english" "r") ex_server)) =
  spec_publish_one ("cat", "C") (abs ex_server).
Proof. split; [exact ex_server_wf|]. apply text_upsert_refines_single. exact ex_server_wf. Defined.

Lemma text_upsert_batch_loses_rows_witness :
  "a" ∈ [("a", "1")].*1 /\ "a" <> "b" /\ db_map (db (mkStore [] [] 0)) !! "a" = None /\
  active (abs (snd (text_upsert (mkReq (Some ([("a", "1")] ++ [("b", "2")])) "en" "t" "r") (mkStore [] [] 0)))) !! "a" = None /\
  is_Some (active (spec_publish ([("a", "1")] ++ [("b", "2")]) (abs (mkStore [] [] 0))) !! "a").
Proof.
  assert ("a" ∈ [("a", "1")].*1) as H1 by (cbn; left).
  assert ("a" <> "b") as H2 by discriminate.
  assert (db_map (db (mkStore [] [] 0)) !! "a" = None) as H3 by reflexivity.
  split; [exact H1|]. split; [exact H2|]. split; [exact H3|].
  exact (proj2 (text_upsert_batch_loses_rows (mkStore [] [] 0) [("a", "1")] "b" "2" "en" "t" "r") "a" H1 H2 H3).
Defined.
