(* ===== verification/Pipeline.v ===== *)
(** * The pipeline: export, then publish

    The round trip of the specification (collect the exportable pairs,
    publish them, read the active table back) composed from the export
    of [src/src/pages/EntryFace.tsx] ([collectPairs]) and a text store
    through the [TextStore] interface of [Publish]: it is proved once
    against the interface's laws, then for the server of [src/server.js]
    sent one pair per request.  No page of the repository sends the
    export to the server; the handler accepts a whole batch, and sent the
    export as one request it keeps only the last pair ([Publish]'s batch
    theorems), which [export_publish_one_request] spells out. *)

From S2P Require Import Prelude JsString EntryModel Identifier Export Publish.

Section generic.
Context {St : Type} `{!TextStore St, !TextStoreLaws St}.

Lemma export_publish_generic PLACEHOLDER blocks tokens (s : St) :
  ts_wf s -> active (ts_view s) = ∅ -> archived (ts_view s) = [] ->
  NoDup (collectPairs PLACEHOLDER blocks tokens).*1 ->
  (forall id v, active (ts_view (publish_all (collectPairs PLACEHOLDER blocks tokens) s)) !! id = Some v
                <-> (id, v) ∈ collectPairs PLACEHOLDER blocks tokens) /\
  archived (ts_view (publish_all (collectPairs PLACEHOLDER blocks tokens) s)) = [].
Proof. apply publish_all_roundtrip. Qed.

End generic.

Definition empty_store : Store := mkStore [] [] 0.

(** Exporting a sequence and publishing the exported pairs one request
    at a time into empty files: when the exported identifiers are
    distinct, the active table holds exactly the exported pairs (no loss,
    no duplicate) and nothing is archived. *)
Theorem export_publish_roundtrip PLACEHOLDER blocks tokens l t rs :
  NoDup (collectPairs PLACEHOLDER blocks tokens).*1 ->
  let st := publish_all (TextStore0 := server_text_store l t rs)
              (collectPairs PLACEHOLDER blocks tokens) empty_store in
  (forall id v, active (abs st) !! id = Some v <-> (id, v) ∈ collectPairs PLACEHOLDER blocks tokens) /\
  archived (abs st) = [].
Proof.
  intros Hnd. apply (export_publish_generic (TextStore0 := server_text_store l t rs)); try done.
  constructor.
Qed.

(** The same export sent as one request: the active table holds the last
    exported pair only. *)
Theorem export_publish_one_request PLACEHOLDER blocks tokens l t rs id v :
  last (collectPairs PLACEHOLDER blocks tokens) = Some (id, v) ->
  active (abs (snd (text_upsert (mkReq (Some (collectPairs PLACEHOLDER blocks tokens)) l t rs) empty_store)))
    = {[id := v]}.
Proof.
  intros Hl. apply last_Some in Hl as [ps Hps]. rewrite Hps.
  destruct (text_upsert_batch_db empty_store ps id v l t rs) as [tm Hdb].
  unfold abs. cbn [active]. rewrite Hdb, db_map_step. reflexivity.
Qed.

Definition ex_blocks : list Block.t :=
  [Block.mk 3 [BlockRow.mk 0 "Animal" 3 (Some 1) "dog" false;
               BlockRow.mk 1 "Form" 3 (Some 1) "dogs" false;
               BlockRow.mk 1 "Form" 3 (Some 2) "placeholder" false]].

Lemma export_publish_roundtrip_witness :
  NoDup (collectPairs "placeholder" ex_blocks ["Animal"; "Form"]).*1 /\
  let st := publish_all (TextStore0 := server_text_store "en" "kids-english" "publish")
              (collectPairs "placeholder" ex_blocks ["Animal"; "Form"]) empty_store in
  (forall id v, active (abs st) !! id = Some v <->
                (id, v) ∈ collectPairs "placeholder" ex_blocks ["Animal"; "Form"]) /\
  archived (abs st) = [].
Proof.
  assert (NoDup (collectPairs "placeholder" ex_blocks ["Animal"; "Form"]).*1) as H.
  { vm_compute. repeat constructor; set_solver. }
  split; [exact H|]. by apply export_publish_roundtrip.
Defined.

Lemma export_publish_one_request_witness :
  last (collectPairs "placeholder" ex_blocks ["Animal"; "Form"]) = Some ("dog-Form-3", "dogs") /\
  active (abs (snd (text_upsert (mkReq (Some (collectPairs "placeholder" ex_blocks ["Animal"; "Form"])) "en" "t" "r")
                     empty_store))) = {["dog-Form-3" := "dogs"]}.
Proof.
  assert (last (collectPairs "placeholder" ex_blocks ["Animal"; "Form"]) = Some ("dog-Form-3", "dogs")) as H
    by (vm_compute; reflexivity).
  split; [exact H|]. exact (export_publish_one_request _ _ _ _ _ _ _ _ H).
Defined.
