(* ===== verification/Stage1.v ===== *)
(** * The Stage-1 API on PostgreSQL

    [src/src/shared/server.js]: the reason endpoints ([/stage1/reason:create],
    [reason:list], [reason:publish]) with the PL/pgSQL functions that
    [ensureCore] installs ([ensure_reason_table],
    [ensure_reason_published_view], [refresh_reason_published_view]), and
    the catalog endpoints [bc:get] and [bc:save].

    The database is a record: the [reasons] table with its id sequence,
    the relations of schema [public] by name (tables, materialized views
    and indexes share one name space in PostgreSQL), and [bc_catalogs].
    A statement that fails aborts its transaction, so a handler either
    returns the new database or leaves it as it was; the id sequence is
    the exception, since [nextval] is never rolled back.  Names are
    truncated to 63 bytes as PostgreSQL does with identifiers.  The
    handlers take the transaction time [now()] as an argument. *)

From S2P Require Import Prelude JsString.

(** ** The database *)

(** A row of [public.reasons]. *)
Record Reason := mkReason {
  reason_id : nat;
  reason_slug : string;
  reason_language : string;
  reason_tenant : option string;
  reason_status : string;
  created_at : nat;
  updated_at : nat;
  created_by : option string;
  updated_by : option string;
  reason_meta : string
}.

(** A row of a [text_reason_<slug>] table (the columns the view reads). *)
Record TextRow := mkTextRow {
  identifiercode : string;
  output_value : string;
  text_language : string;
  text_tenant : option string;
  text_status : string
}.

(** A row of a published view. *)
Record PubRow := mkPubRow {
  pub_identifiercode : string;
  pub_output_value : string;
  pub_language : string;
  pub_tenant : option string
}.

(** A relation of schema [public]: a table, a materialized view (the
    name of the table it selects from, and its stored rows) or an index
    (the relation it indexes). *)
Inductive PgRel :=
  | RTable (rows : list TextRow)
  | RMatView (source : string) (snapshot : list PubRow)
  | RIndex (on : string).

(** An element of a saved catalog: [bVal] and [cVal] are optional and
    nullable ([None] absent, [Some None] null). *)
Record BCItem := mkBCItem {
  bc_bKey : string;
  bc_cKey : string;
  bc_bVal : option (option string);
  bc_cVal : option (option string)
}.

(** A row of [public.bc_catalogs]. *)
Record BCRow := mkBCRow {
  bc_items : list BCItem;
  bc_updated_at : nat;
  bc_updated_by : option string
}.

Record Db := mkDb {
  reasons : list Reason;
  reasons_id_seq : nat;
  rels : gmap string PgRel;
  bc_catalogs : gmap string BCRow
}.

Inductive PgError :=
  | InvalidReasonSlug (slug : string)  (** [RAISE EXCEPTION 'Invalid reason slug: %'] *)
  | SyntaxError                        (** a generated statement does not parse *)
  | DuplicateRelation (name : string)  (** a new relation's name is taken *)
  | NoSuchTable (name : string)        (** not a table or materialized view *)
  | NotAMatView (name : string).

(** A [400] answer: the zod validation error of a field, the two
    hand-written messages, or a database error. *)
Inductive ApiError :=
  | ValidationError (field : string)
  | InvalidSlugMsg                     (** ['invalid slug'] *)
  | InvalidReasonMsg                   (** ['invalid reason'] *)
  | DbError (e : PgError).

Inductive ApiResponse :=
  | ROk                                (** [{ ok: true }] *)
  | ROkReason (slug : string)          (** [{ ok: true, reason }] *)
  | ROkItems (items : list BCItem)     (** [{ ok: true, items }] *)
  | ROkList (items : list Reason)      (** [{ ok: true, items, next: null }] *)
  | RBadRequest (e : ApiError).

#[export] Instance TextRow_eq_dec : EqDecision TextRow.
Proof. solve_decision. Defined.
#[export] Instance PubRow_eq_dec : EqDecision PubRow.
Proof. solve_decision. Defined.
#[export] Instance PgRel_eq_dec : EqDecision PgRel.
Proof. solve_decision. Defined.
#[export] Instance BCItem_eq_dec : EqDecision BCItem.
Proof. solve_decision. Defined.
#[export] Instance Reason_eq_dec : EqDecision Reason.
Proof. solve_decision. Defined.

(** ** Names and slugs *)

Definition is_lower (c : ascii) : bool :=
  let n := nat_of_ascii c in (97 <=? n) && (n <=? 122).
Definition is_digit (c : ascii) : bool :=
  let n := nat_of_ascii c in (48 <=? n) && (n <=? 57).

(** [/^[a-z0-9_-]+$/]. *)
Definition slug_char (c : ascii) : bool :=
  is_lower c || is_digit c || Ascii.eqb c "_" || Ascii.eqb c "-".
Definition slug_ok (s : string) : bool := js_truthy s && all_chars slug_char s.

(** [p_reason !~ '^[A-Za-z0-9_-]+$'] is its negation. *)
Definition sql_slug_ok (s : string) : bool :=
  js_truthy s && all_chars (fun c => slug_char c || ascii_is_upper c) s.

(** PostgreSQL keeps the first [NAMEDATALEN - 1 = 63] bytes of a name. *)
Definition pg_truncate (s : string) : string := String.substring 0 63 s.

(** [quote_ident] leaves a name bare when it starts with a lower-case
    letter or [_] and goes on with lower-case letters, digits, [_] or
    [$] (no generated name is a key word); otherwise it quotes it. *)
Definition ident_start (c : ascii) : bool := is_lower c || Ascii.eqb c "_".
Definition ident_cont (c : ascii) : bool := ident_start c || is_digit c || Ascii.eqb c "$".
Definition quote_free (s : string) : bool :=
  match s with
  | EmptyString => false
  | String c s' => ident_start c && all_chars ident_cont s'
  end.

(** [format('text_reason_%s', p)] and [format('mv_text_reason_%s_published', p)]. *)
Definition table_of (p : string) : string := "text_reason_" +:+ p.
Definition view_of (p : string) : string := "mv_text_reason_" +:+ p +:+ "_published".

(** ** DDL statements *)

Definition set_rels (db : Db) (m : gmap string PgRel) : Db :=
  mkDb (reasons db) (reasons_id_seq db) m (bc_catalogs db).

(** [CREATE TABLE IF NOT EXISTS t (..., CONSTRAINT uq UNIQUE (...))]: an
    existing relation named [t] skips the statement; the constraint's
    index takes the name [uq], which must be free. *)
Definition create_table (t uq : string) (db : Db) : PgError + Db :=
  match rels db !! t with
  | Some _ => inr db
  | None =>
      if bool_decide (is_Some (rels db !! uq)) then inl (DuplicateRelation uq)
      else inr (set_rels db (<[uq := RIndex t]> (<[t := RTable []]> (rels db))))
  end.

(** [CREATE [UNIQUE] INDEX IF NOT EXISTS i ON t (...)]. *)
Definition create_index (i t : string) (db : Db) : PgError + Db :=
  match rels db !! i with
  | Some _ => inr db
  | None =>
      match rels db !! t with
      | Some (RTable _) | Some (RMatView _ _) => inr (set_rels db (<[i := RIndex t]> (rels db)))
      | _ => inl (NoSuchTable t)
      end
  end.

(** [SELECT identifiercode, output_value, language, tenant FROM t WHERE
    status='active']. *)
Definition published_rows (rows : list TextRow) : list PubRow :=
  map (fun r => mkPubRow (identifiercode r) (output_value r) (text_language r) (text_tenant r))
    (List.filter (fun r => bool_decide (text_status r = "active")) rows).

(** [CREATE MATERIALIZED VIEW IF NOT EXISTS v AS SELECT ... FROM t ...]:
    filled with the query's rows when created. *)
Definition create_matview (v t : string) (db : Db) : PgError + Db :=
  match rels db !! v with
  | Some _ => inr db
  | None =>
      match rels db !! t with
      | Some (RTable rows) => inr (set_rels db (<[v := RMatView t (published_rows rows)]> (rels db)))
      | _ => inl (NoSuchTable t)
      end
  end.

(** ** The PL/pgSQL functions of [ensureCore] *)

(** [ensure_reason_table(p)]: check the slug, create the table with its
    unique constraint and four indexes. *)
Definition ensure_reason_table (p : string) (db : Db) : PgError + Db :=
  if negb (sql_slug_ok p) then inl (InvalidReasonSlug p)
  else
    let t := pg_truncate (table_of p) in
    let! db := create_table t (pg_truncate ("uq_" +:+ p)) db in
    let! db := create_index (pg_truncate ("ix_" +:+ p +:+ "_identifiercode")) t db in
    let! db := create_index (pg_truncate ("ix_" +:+ p +:+ "_tenant_lang")) t db in
    let! db := create_index (pg_truncate ("ix_" +:+ p +:+ "_status")) t db in
    create_index (pg_truncate ("gin_" +:+ p +:+ "_identifiercode_trgm")) t db.

(** [ensure_reason_published_view(p)]: the table, then the view and its
    unique index.  The index is named [format('uq_%I', v_view)]: when
    [quote_ident] quotes the view's name, the statement reads [uq_]
    followed by a quoted identifier, which does not parse, and the whole
    generated text is refused before any of it runs. *)
Definition ensure_reason_published_view (p : string) (db : Db) : PgError + Db :=
  let v := view_of p in
  let! db := ensure_reason_table p db in
  if negb (quote_free v) then inl SyntaxError
  else
    let! db := create_matview (pg_truncate v) (pg_truncate (table_of p)) db in
    create_index (pg_truncate ("uq_" +:+ v)) (pg_truncate v) db.

(** [refresh_reason_published_view(p)]: ensure the view, then [REFRESH
    MATERIALIZED VIEW CONCURRENTLY], which recomputes its rows from its
    table (the unique index it needs is the one ensured above). *)
Definition refresh_reason_published_view (p : string) (db : Db) : PgError + Db :=
  let v := pg_truncate (view_of p) in
  let! db := ensure_reason_published_view p db in
  match rels db !! v with
  | Some (RMatView t _) =>
      match rels db !! t with
      | Some (RTable rows) => inr (set_rels db (<[v := RMatView t (published_rows rows)]> (rels db)))
      | _ => inl (NoSuchTable t)
      end
  | _ => inl (NotAMatView v)
  end.

(** ** The endpoints *)

(** The JSON body of [reason:create]; [None] is an absent field, and
    [rc_tenant] distinguishes an absent tenant from [null]. *)
Record ReasonCreateReq := mkReasonCreateReq {
  rc_slug : option string;
  rc_language : option string;
  rc_tenant : option (option string);
  rc_actor : option string;
  rc_meta : option string
}.

(** The body after [ReasonCreate.parse], with the defaults filled in. *)
Record ReasonCreate := mkReasonCreate {
  body_slug : string;
  body_language : string;
  body_tenant : option string;
  body_actor : string;
  body_meta : option string
}.

(** [ReasonCreate]: a slug matching the regex, of length 1 to 64;
    language ['en'] and actor ['system'] by default. *)
Definition parse_reason_create (r : ReasonCreateReq) : ApiError + ReasonCreate :=
  match rc_slug r with
  | Some s =>
      if slug_ok s && (1 <=? String.length s) && (String.length s <=? 64)
      then inr (mkReasonCreate s (default "en" (rc_language r)) (mjoin (rc_tenant r))
                  (default "system" (rc_actor r)) (rc_meta r))
      else inl (ValidationError "slug")
  | None => inl (ValidationError "slug")
  end.

(** The [INSERT ... ON CONFLICT (slug) DO UPDATE SET updated_at=now(),
    updated_by=EXCLUDED.created_by]: [nextval] of the id sequence is
    taken in both cases; an existing slug only gets its two [updated_]
    columns set. *)
Definition upsert_reason (b : ReasonCreate) (now : nat) (db : Db) : Db :=
  let id := S (reasons_id_seq db) in
  let rs :=
    match find_index (fun r => bool_decide (reason_slug r = body_slug b)) (reasons db) with
    | Some i =>
        alter (fun r => mkReason (reason_id r) (reason_slug r) (reason_language r) (reason_tenant r)
                          (reason_status r) (created_at r) now (created_by r)
                          (Some (body_actor b)) (reason_meta r)) i (reasons db)
    | None =>
        reasons db ++ [mkReason id (body_slug b) (body_language b) (body_tenant b) "active"
                         now now (Some (body_actor b)) None (default "{}" (body_meta b))]
    end in
  mkDb rs id (rels db) (bc_catalogs db).

(** [POST /stage1/reason:create]: parse, then in one transaction upsert
    the reason and ensure its table and view.  On a database error the
    transaction never commits: the database is as before, except the id
    sequence. *)
Definition reason_create (db : Db) (now : nat) (req : ReasonCreateReq) : Db * ApiResponse :=
  match parse_reason_create req with
  | inl e => (db, RBadRequest e)
  | inr b =>
      let db1 := upsert_reason b now db in
      match (let! d := ensure_reason_table (body_slug b) db1 in
             ensure_reason_published_view (body_slug b) d) with
      | inr db2 => (db2, ROkReason (body_slug b))
      | inl e => (mkDb (reasons db) (reasons_id_seq db1) (rels db) (bc_catalogs db),
                  RBadRequest (DbError e))
      end
  end.

(** [GET /stage1/reason:list]: the active reasons by increasing id, at
    most 200; [next] is always [null]. *)
Definition reason_list (db : Db) : ApiResponse :=
  ROkList (take 200 (List.filter (fun r => bool_decide (reason_status r = "active"))
                       (sort_by_key reason_id (reasons db)))).

(** [POST /stage1/reason:publish]: [slug || ''] must match the regex;
    then [refresh_reason_published_view] in its own statement. *)
Definition reason_publish (db : Db) (slug : option string) : Db * ApiResponse :=
  let s := default "" slug in
  if negb (slug_ok s) then (db, RBadRequest InvalidSlugMsg)
  else match refresh_reason_published_view s db with
       | inr db' => (db', ROk)
       | inl e => (db, RBadRequest (DbError e))
       end.

(** [GET /stage1/bc:get?reason=r]. *)
Definition bc_get (db : Db) (reason : option string) : ApiResponse :=
  let r := default "" reason in
  if negb (slug_ok r) then RBadRequest InvalidReasonMsg
  else ROkItems (default [] (bc_items <$> bc_catalogs db !! r)).

(** The JSON body of [bc:save]; zod strips the fields of an item other
    than [bKey], [cKey], [bVal], [cVal], so an item is a [BCItem]. *)
Record BCSaveReq := mkBCSaveReq {
  bs_reason : option string;
  bs_items : option (list BCItem)
}.

(** [POST /stage1/bc:save]: [BCSave.parse], then an upsert of the items,
    stored as [JSON.stringify(items)] cast to [jsonb]. *)
Definition bc_save (db : Db) (now : nat) (req : BCSaveReq) : Db * ApiResponse :=
  match bs_reason req, bs_items req with
  | Some r, Some items =>
      if slug_ok r then
        (mkDb (reasons db) (reasons_id_seq db) (rels db)
              (<[r := mkBCRow items now (Some "admin")]> (bc_catalogs db)), ROk)
      else (db, RBadRequest (ValidationError "reason"))
  | None, _ => (db, RBadRequest (ValidationError "reason"))
  | Some _, None => (db, RBadRequest (ValidationError "items"))
  end.

(** The database after [ensureCore] and the [bc_catalogs] creation, with
    no reason yet. *)
Definition db_init : Db := mkDb [] 0 ∅ ∅.

(** A [reason:create] body holding only a slug. *)
Definition create_req (s : string) : ReasonCreateReq := mkReasonCreateReq (Some s) None None None None.

(** The names [ensure_reason_table] and [ensure_reason_published_view]
    create for a slug. *)
Definition table_names (p : string) : list string :=
  [pg_truncate (table_of p); pg_truncate ("ix_" +:+ p +:+ "_identifiercode");
   pg_truncate ("ix_" +:+ p +:+ "_tenant_lang"); pg_truncate ("ix_" +:+ p +:+ "_status");
   pg_truncate ("gin_" +:+ p +:+ "_identifiercode_trgm")].
Definition view_names (p : string) : list string :=
  [pg_truncate (view_of p); pg_truncate ("uq_" +:+ view_of p)].

(** [db'] is [db] with possibly more relations: DDL only adds names and
    leaves the other tables alone. *)
Definition grows (db db' : Db) : Prop :=
  reasons db' = reasons db /\ reasons_id_seq db' = reasons_id_seq db /\
  bc_catalogs db' = bc_catalogs db /\
  forall k, is_Some (rels db !! k) -> is_Some (rels db' !! k).

Definition present (db : Db) (names : list string) : Prop :=
  Forall (fun k => is_Some (rels db !! k)) names.

(** ** DDL lemmas *)

#[export] Instance grows_preorder : PreOrder grows.
Proof.
  split.
  - intros db. by repeat split.
  - intros a b c (? & ? & ? & Hab) (? & ? & ? & Hbc). repeat split; try congruence. eauto.
Qed.

Lemma grows_set_rels db m :
  (forall k, is_Some (rels db !! k) -> is_Some (m !! k)) -> grows db (set_rels db m).
Proof. intros H. by repeat split. Qed.

Lemma is_Some_insert_r {V} (m : gmap string V) k k' v :
  is_Some (m !! k') -> is_Some (<[k := v]> m !! k').
Proof. intros H. apply lookup_insert_is_Some'. by right. Qed.

Lemma is_Some_insert_l {V} (m : gmap string V) k v : is_Some (<[k := v]> m !! k).
Proof. apply lookup_insert_is_Some'. by left. Qed.

#[export] Hint Resolve is_Some_insert_r is_Some_insert_l : lf.

Lemma present_grows db db' names : grows db db' -> present db names -> present db' names.
Proof. intros (_ & _ & _ & H) Hp. eapply Forall_impl; [exact Hp|]. exact H. Qed.

Ltac ddl_cases :=
  repeat match goal with
  | H : context [match rels ?d !! ?k with _ => _ end] |- _ =>
      let E := fresh "E" in destruct (rels d !! k) as [[]|] eqn:E
  | |- context [match rels ?d !! ?k with _ => _ end] =>
      let E := fresh "E" in destruct (rels d !! k) as [[]|] eqn:E
  | H : context [bool_decide ?P] |- _ => case_bool_decide
  | H : inr _ = inr _ |- _ => injection H as <-
  | H : inl _ = inr _ |- _ => discriminate H
  end.

Lemma create_table_ok t uq db db' :
  create_table t uq db = inr db' -> grows db db' /\ is_Some (rels db' !! t).
Proof.
  unfold create_table. intros H. ddl_cases; try (split; [reflexivity|by rewrite E]).
  split; [apply grows_set_rels|]; simpl; eauto with lf.
Qed.

Lemma create_index_ok i t db db' :
  create_index i t db = inr db' -> grows db db' /\ is_Some (rels db' !! i).
Proof.
  unfold create_index. intros H. ddl_cases; try (split; [reflexivity|by rewrite E]);
    (split; [apply grows_set_rels|]; simpl; eauto with lf).
Qed.

Lemma create_matview_ok v t db db' :
  create_matview v t db = inr db' -> grows db db' /\ is_Some (rels db' !! v).
Proof.
  unfold create_matview. intros H. ddl_cases; try (split; [reflexivity|by rewrite E]);
    (split; [apply grows_set_rels|]; simpl; eauto with lf).
Qed.

(** [IF NOT EXISTS]: a statement whose name is taken does nothing. *)
Lemma create_table_present t uq db : is_Some (rels db !! t) -> create_table t uq db = inr db.
Proof. unfold create_table. by intros [? ->]. Qed.

Lemma create_index_present i t db : is_Some (rels db !! i) -> create_index i t db = inr db.
Proof. unfold create_index. by intros [? ->]. Qed.

Lemma create_matview_present v t db : is_Some (rels db !! v) -> create_matview v t db = inr db.
Proof. unfold create_matview. by intros [? ->]. Qed.

Lemma present_snoc db db' ns n :
  grows db db' -> present db ns -> is_Some (rels db' !! n) -> present db' (ns ++ [n]).
Proof. intros G Hp Hn. apply Forall_app. split; [by eapply present_grows|by repeat constructor]. Qed.

Lemma present_app db ns ns' : present db (ns ++ ns') <-> present db ns /\ present db ns'.
Proof. apply Forall_app. Qed.

(** Chain [grows] through the intermediate databases of a handler. *)
Ltac grows_chain :=
  repeat match goal with
  | H : grows ?a ?c |- grows ?a ?c => exact H
  | H : grows ?a ?b |- grows ?a ?c => etrans; [exact H|]
  end.

Lemma grows_is_Some db db' k : grows db db' -> is_Some (rels db !! k) -> is_Some (rels db' !! k).
Proof. intros (_ & _ & _ & H). apply H. Qed.

(** Every name of a list is present in the last database of a chain. *)
Ltac present_by :=
  unfold present, table_names, view_names; repeat constructor;
  first [ assumption | eapply grows_is_Some; [|eassumption]; grows_chain ].

(** Peel one successful step off a chain of [let!]. *)
Ltac res_step H ok :=
  let d := fresh "d" in let Hd := fresh "Hd" in
  apply res_bind_inr_iff in H as (d & Hd & H); apply ok in Hd as [? ?].

Lemma ensure_reason_table_ok p db db' :
  ensure_reason_table p db = inr db' ->
  sql_slug_ok p = true /\ grows db db' /\ present db' (table_names p).
Proof.
  unfold ensure_reason_table. destruct (sql_slug_ok p); [|done]. simpl. intros H.
  res_step H create_table_ok. res_step H create_index_ok. res_step H create_index_ok.
  res_step H create_index_ok. apply create_index_ok in H as [? ?].
  split; [done|]. split; [grows_chain|].
  present_by.
Qed.

Lemma ensure_reason_table_again p db :
  sql_slug_ok p = true -> present db (table_names p) -> ensure_reason_table p db = inr db.
Proof.
  unfold ensure_reason_table, present, table_names. intros -> Hp.
  repeat match goal with H : Forall _ (_ :: _) |- _ => apply Forall_cons in H as [? H] end.
  cbn [negb]. rewrite create_table_present by done. cbn [res_bind].
  do 3 (rewrite create_index_present by done; cbn [res_bind]). by apply create_index_present.
Qed.

Lemma ensure_view_ok p db db' :
  ensure_reason_published_view p db = inr db' ->
  sql_slug_ok p = true /\ quote_free (view_of p) = true /\ grows db db' /\
  present db' (table_names p ++ view_names p).
Proof.
  unfold ensure_reason_published_view. cbv zeta. intros H.
  apply res_bind_inr_iff in H as (d & Hd & H). apply ensure_reason_table_ok in Hd as (Hs & G & P).
  destruct (quote_free (view_of p)); [|done]. cbn [negb] in H.
  res_step H create_matview_ok. apply create_index_ok in H as [? ?].
  split; [done|]. split; [done|]. split; [grows_chain|].
  apply present_app. split; [|present_by].
  eapply present_grows; [|exact P]. grows_chain.
Qed.

Lemma ensure_view_again p db :
  sql_slug_ok p = true -> quote_free (view_of p) = true ->
  present db (table_names p ++ view_names p) -> ensure_reason_published_view p db = inr db.
Proof.
  intros Hs Hq [Ht Hv]%present_app. unfold ensure_reason_published_view. cbv zeta.
  rewrite ensure_reason_table_again by done. cbn [res_bind]. rewrite Hq. cbn [negb].
  unfold present, view_names in Hv. apply Forall_cons in Hv as [Hv1 Hv]. apply Forall_cons in Hv as [Hv2 _].
  rewrite create_matview_present by done. cbn [res_bind]. by apply create_index_present.
Qed.

(** A successful refresh leaves the view holding the active rows of its
    table, with every name of the slug in place. *)
Lemma refresh_ok p db db' :
  refresh_reason_published_view p db = inr db' ->
  sql_slug_ok p = true /\ quote_free (view_of p) = true /\ grows db db' /\
  present db' (table_names p ++ view_names p) /\
  exists t rows, rels db' !! pg_truncate (view_of p) = Some (RMatView t (published_rows rows)) /\
                 rels db' !! t = Some (RTable rows).
Proof.
  unfold refresh_reason_published_view. cbv zeta. intros H.
  apply res_bind_inr_iff in H as (d & Hd & H). apply ensure_view_ok in Hd as (Hs & Hq & G & P).
  destruct (rels d !! pg_truncate (view_of p)) as [[|t snap|]|] eqn:Ev; try discriminate.
  destruct (rels d !! t) as [[rows| |]|] eqn:Et; try discriminate. injection H as <-.
  assert (t <> pg_truncate (view_of p)) as Hne by congruence.
  assert (grows d (set_rels d (<[pg_truncate (view_of p) := RMatView t (published_rows rows)]> (rels d))))
    as G' by (apply grows_set_rels; eauto with lf).
  split; [done|]. split; [done|]. split; [by etrans|].
  split; [by eapply present_grows|]. exists t, rows. simpl.
  rewrite lookup_insert_eq, lookup_insert_ne by congruence. done.
Qed.

(** Refreshing again with no change in between is a no-op. *)
Lemma refresh_again p db db' :
  refresh_reason_published_view p db = inr db' -> refresh_reason_published_view p db' = inr db'.
Proof.
  intros (Hs & Hq & _ & P & t & rows & Ev & Et)%refresh_ok.
  unfold refresh_reason_published_view. cbv zeta.
  rewrite ensure_view_again by done. cbn [res_bind]. rewrite Ev, Et.
  f_equal. destruct db' as [rs n m bc]. unfold set_rels. simpl in *. by rewrite insert_id.
Qed.

(** ** Reasons *)

Lemma map_alter_same {A B} (g : A -> B) (f : A -> A) i (l : list A) :
  (forall x, g (f x) = g x) -> map g (alter f i l) = map g l.
Proof.
  intros Hf. revert i. induction l as [|x l IH]; intros [|i]; simpl; [done|done|by rewrite Hf|].
  f_equal. apply IH.
Qed.

Lemma find_index_Some_of_In p (l : list Reason) x :
  In x l -> p x = true -> exists i, find_index p l = Some i.
Proof.
  intros Hx Hp. destruct (find_index p l) eqn:E; [eauto|].
  by rewrite (find_index_None _ _ E x Hx) in Hp.
Qed.

Lemma upsert_reason_fields b now db :
  reasons_id_seq (upsert_reason b now db) = S (reasons_id_seq db) /\
  rels (upsert_reason b now db) = rels db /\ bc_catalogs (upsert_reason b now db) = bc_catalogs db.
Proof. done. Qed.

(** After the upsert the slug has a row. *)
Lemma upsert_reason_has_slug b now db :
  body_slug b ∈ map reason_slug (reasons (upsert_reason b now db)).
Proof.
  unfold upsert_reason. cbv zeta. cbn [reasons].
  destruct (find_index _ _) as [i|] eqn:E.
  - apply find_index_lookup in E as (r & Hr & Hp%bool_decide_eq_true).
    rewrite map_alter_same by done. apply list_elem_of_lookup_2 with i.
    rewrite list_lookup_fmap, Hr. simpl. by rewrite Hp.
  - rewrite map_app. apply elem_of_app. right. by left.
Qed.

(** Upserting an existing slug keeps the list of slugs. *)
Lemma upsert_reason_existing b now db :
  body_slug b ∈ map reason_slug (reasons db) ->
  map reason_slug (reasons (upsert_reason b now db)) = map reason_slug (reasons db).
Proof.
  intros (r & Hb & Hr%list_elem_of_In)%list_elem_of_fmap.
  unfold upsert_reason. cbv zeta. cbn [reasons].
  destruct (find_index_Some_of_In (fun r' => bool_decide (reason_slug r' = body_slug b)) _ r Hr)
    as [i ->]; [by apply bool_decide_eq_true|].
  by apply map_alter_same.
Qed.

(** ** Slugs and names *)

Lemma slug_ok_length s : slug_ok s = true -> 1 <= String.length s.
Proof. destruct s; simpl; [done|lia]. Qed.

(** A slug with a ["-"] gets a view name that [quote_ident] quotes. *)
Lemma view_of_dash_quoted p : ~ char_free dash p -> quote_free (view_of p) = false.
Proof.
  intros Hd. destruct (quote_free (view_of p)) eqn:Hq; [|done]. exfalso. apply Hd.
  unfold view_of in Hq. rewrite <- append_assoc_str in Hq. cbn [quote_free] in Hq.
  change ("mv_text_reason_" +:+ p) with (String "m" ("v_text_reason_" +:+ p)) in Hq.
  rewrite append_String in Hq. cbn [quote_free] in Hq.
  rewrite andb_true_iff, !all_chars_app, !andb_true_iff in Hq.
  destruct Hq as [_ [[_ Hp] _]]. apply all_chars_char_free.
  eapply all_chars_impl; [|exact Hp]. intros c Hc.
  destruct (Ascii.eqb c dash) eqn:E; [|done]. apply Ascii.eqb_eq in E. by subst.
Qed.

(** The validation of [reason:create] is stricter than the check of
    [ensure_reason_table]: a parsed slug always passes it. *)
Lemma slug_ok_sql s : slug_ok s = true -> sql_slug_ok s = true.
Proof.
  unfold slug_ok, sql_slug_ok. rewrite !andb_true_iff. intros [Ht Ha]. split; [done|].
  eapply all_chars_impl; [|exact Ha]. intros c ->. done.
Qed.

Lemma present_rels db db' ns : rels db' = rels db -> present db ns -> present db' ns.
Proof. unfold present. by intros ->. Qed.

(** ** Truncated names *)

Lemma substring_app_l (a b : string) n :
  String.length a <= n -> String.substring 0 n (a +:+ b) = a +:+ String.substring 0 (n - String.length a) b.
Proof.
  revert n. induction a as [|c a IH]; intros n Hn; cbn [String.length] in *; [by rewrite Nat.sub_0_r|].
  destruct n as [|n]; [lia|]. rewrite !append_String. cbn [String.substring Nat.sub]. f_equal. apply IH. lia.
Qed.

Lemma substring_prefix m n s : m <= n -> String.substring 0 m (String.substring 0 n s) = String.substring 0 m s.
Proof.
  revert m n. induction s as [|c s IH]; intros [|m] [|n] Hmn; cbn; try done; [lia|]. f_equal. apply IH. lia.
Qed.

(** Two strings with the same first [n] characters keep them after a
    common suffix. *)
Lemma substring_app_congr n s1 s2 x :
  String.substring 0 n s1 = String.substring 0 n s2 ->
  String.substring 0 n (s1 +:+ x) = String.substring 0 n (s2 +:+ x).
Proof.
  revert s1 s2. induction n as [|n IH]; intros s1 s2 H; [by destruct (s1 +:+ x), (s2 +:+ x)|].
  destruct s1 as [|c1 s1], s2 as [|c2 s2]; try done; rewrite ?append_String in *;
    cbn [String.substring] in *; try congruence.
  injection H as -> H. f_equal. by apply IH.
Qed.

(** A name made of a prefix of at least 12 bytes, the slug and a suffix
    is decided, once truncated, by the first 51 characters of the slug. *)
Lemma pg_truncate_congr P s1 s2 suf :
  12 <= String.length P <= 63 -> String.substring 0 51 s1 = String.substring 0 51 s2 ->
  pg_truncate (P +:+ (s1 +:+ suf)) = pg_truncate (P +:+ (s2 +:+ suf)).
Proof.
  intros HP H. unfold pg_truncate. rewrite (substring_app_l P (s1 +:+ suf)), (substring_app_l P (s2 +:+ suf)) by lia. f_equal.
  apply substring_app_congr. rewrite <- (substring_prefix (63 - String.length P) 51 s1) by lia.
  rewrite H. apply substring_prefix. lia.
Qed.

Lemma pg_truncate_table_congr s1 s2 :
  String.substring 0 51 s1 = String.substring 0 51 s2 -> pg_truncate (table_of s1) = pg_truncate (table_of s2).
Proof.
  intros H. unfold table_of. rewrite <- (append_empty_r s1), <- (append_empty_r s2).
  apply pg_truncate_congr; [cbn; lia|done].
Qed.

Lemma pg_truncate_view_congr s1 s2 :
  String.substring 0 51 s1 = String.substring 0 51 s2 ->
  pg_truncate (view_of s1) = pg_truncate (view_of s2) /\
  pg_truncate ("uq_" +:+ view_of s1) = pg_truncate ("uq_" +:+ view_of s2).
Proof.
  intros H. unfold view_of. split; [apply pg_truncate_congr; [cbn; lia|done]|].
  rewrite <- !(append_assoc_str "uq_" "mv_text_reason_").
  apply pg_truncate_congr; [split; apply Nat.leb_le; reflexivity|done].
Qed.

Lemma slug_char_ident c : slug_char c = true -> c <> "-"%char -> ident_cont c = true.
Proof.
  unfold slug_char, ident_cont, ident_start. intros Hc Hd.
  destruct (Ascii.eqb_spec c "-"%char) as [|_]; [done|]. rewrite orb_false_r in Hc.
  destruct (is_lower c), (is_digit c), (Ascii.eqb c "_"); done.
Qed.

(** A slug without ["-"] gives a view name [quote_ident] leaves bare. *)
Lemma view_of_quote_free p : slug_ok p = true -> char_free dash p -> quote_free (view_of p) = true.
Proof.
  unfold slug_ok. intros [_ Hp]%andb_prop Hd. unfold view_of.
  change ("mv_text_reason_" +:+ (p +:+ "_published")) with (String "m" ("v_text_reason_" +:+ (p +:+ "_published"))).
  cbn [quote_free]. rewrite !all_chars_app. apply andb_true_intro; split; [reflexivity|].
  rewrite andb_true_r. apply andb_true_intro; split; [reflexivity|].
  induction p as [|c p IH]; [done|]. cbn in Hp. apply andb_prop in Hp as [Hc Hp].
  apply char_free_cons in Hd as [Hcd Hd]. cbn [all_chars]. rewrite IH by done. rewrite andb_true_r.
  by apply slug_char_ident.
Qed.

(** ** DDL keeps what exists *)

(** [db'] holds every relation of [db], unchanged. *)
Definition keeps (db db' : Db) : Prop := forall k r, rels db !! k = Some r -> rels db' !! k = Some r.

#[export] Instance keeps_preorder : PreOrder keeps.
Proof. split; [by intros db k r|]. intros a b c Hab Hbc k r H. by apply Hbc, Hab. Qed.

Lemma create_table_keeps t uq db db' : create_table t uq db = inr db' -> keeps db db'.
Proof.
  unfold create_table. intros H k r Hk. ddl_cases; try done. cbn.
  rewrite !lookup_insert_ne; [done| |]; intros ->;
    first [congruence|match goal with H : ~ is_Some _ |- _ => apply H; by eexists end].
Qed.

Lemma create_index_keeps i t db db' : create_index i t db = inr db' -> keeps db db'.
Proof. unfold create_index. intros H k r Hk. ddl_cases; try done; cbn; rewrite lookup_insert_ne; congruence. Qed.

Lemma create_matview_keeps v t db db' : create_matview v t db = inr db' -> keeps db db'.
Proof. unfold create_matview. intros H k r Hk. ddl_cases; try done; cbn; rewrite lookup_insert_ne; congruence. Qed.

Ltac keeps_step H ok :=
  let d := fresh "d" in let Hd := fresh "Hd" in
  apply res_bind_inr_iff in H as (d & Hd & H); apply ok in Hd.

Lemma ensure_reason_table_keeps p db db' : ensure_reason_table p db = inr db' -> keeps db db'.
Proof.
  unfold ensure_reason_table. destruct (sql_slug_ok p); [|done]. cbn [negb]. intros H.
  keeps_step H create_table_keeps. do 3 keeps_step H create_index_keeps. apply create_index_keeps in H.
  by do 4 (etrans; [eassumption|]).
Qed.

Lemma ensure_view_keeps p db db' : ensure_reason_published_view p db = inr db' -> keeps db db'.
Proof.
  unfold ensure_reason_published_view. cbv zeta. intros H.
  keeps_step H ensure_reason_table_keeps. destruct (quote_free (view_of p)); [|done]. cbn [negb] in H.
  keeps_step H create_matview_keeps. apply create_index_keeps in H. by do 2 (etrans; [eassumption|]).
Qed.

(** A new reason's table is created empty. *)
Lemma ensure_reason_table_fresh p db db' :
  rels db !! pg_truncate (table_of p) = None -> ensure_reason_table p db = inr db' ->
  rels db' !! pg_truncate (table_of p) = Some (RTable []).
Proof.
  unfold ensure_reason_table. destruct (sql_slug_ok p); [|done]. cbn [negb]. intros Ht H.
  apply res_bind_inr_iff in H as (d & Hd & H).
  assert (rels d !! pg_truncate (table_of p) = Some (RTable [])) as Hd'.
  { unfold create_table in Hd. rewrite Ht in Hd. case_bool_decide; [done|]. injection Hd as <-. cbn.
    rewrite lookup_insert_ne, lookup_insert_eq; [done|].
    change ("uq_" +:+ p) with (String "u" ("q_" +:+ p)). change (table_of p) with (String "t" ("ext_reason_" +:+ p)).
    unfold pg_truncate. cbn [String.substring]. congruence. }
  do 3 keeps_step H create_index_keeps. apply create_index_keeps in H.
  by repeat match goal with K : keeps _ _ |- _ => apply K in Hd'; clear K end.
Qed.

(** On an existing table, provisioning adds the missing indexes and
    changes nothing that exists. *)
Lemma create_index_on_table i t db rows :
  rels db !! t = Some (RTable rows) -> exists db', create_index i t db = inr db' /\ keeps db db'.
Proof.
  intros Ht. destruct (create_index i t db) as [e|db'] eqn:E.
  - unfold create_index in E. destruct (rels db !! i); [done|]. by rewrite Ht in E.
  - exists db'. split; [done|]. by eapply create_index_keeps.
Qed.

Lemma ensure_table_on_table p db rows :
  sql_slug_ok p = true -> rels db !! pg_truncate (table_of p) = Some (RTable rows) ->
  exists db', ensure_reason_table p db = inr db' /\ keeps db db'.
Proof.
  intros Hs Ht. unfold ensure_reason_table. rewrite Hs. cbn [negb].
  rewrite create_table_present by (by rewrite Ht). cbn [res_bind].
  destruct (create_index_on_table (pg_truncate ("ix_" +:+ p +:+ "_identifiercode")) _ _ _ Ht) as (d1 & -> & K1).
  cbn [res_bind]. pose proof (K1 _ _ Ht) as Ht1.
  destruct (create_index_on_table (pg_truncate ("ix_" +:+ p +:+ "_tenant_lang")) _ _ _ Ht1) as (d2 & -> & K2).
  cbn [res_bind]. pose proof (K2 _ _ Ht1) as Ht2.
  destruct (create_index_on_table (pg_truncate ("ix_" +:+ p +:+ "_status")) _ _ _ Ht2) as (d3 & -> & K3).
  cbn [res_bind]. pose proof (K3 _ _ Ht2) as Ht3.
  destruct (create_index_on_table (pg_truncate ("gin_" +:+ p +:+ "_identifiercode_trgm")) _ _ _ Ht3)
    as (d4 & -> & K4).
  exists d4. split; [done|]. by rewrite K1, K2, K3.
Qed.

Lemma ensure_view_on_table p db rows :
  sql_slug_ok p = true -> quote_free (view_of p) = true ->
  rels db !! pg_truncate (table_of p) = Some (RTable rows) ->
  is_Some (rels db !! pg_truncate (view_of p)) -> is_Some (rels db !! pg_truncate ("uq_" +:+ view_of p)) ->
  exists db', ensure_reason_published_view p db = inr db' /\ keeps db db'.
Proof.
  intros Hs Hq Ht [v Hv] [u Hu]. destruct (ensure_table_on_table p db rows Hs Ht) as (d & Hd & K).
  exists d. split; [|done]. unfold ensure_reason_published_view. cbv zeta. rewrite Hd. cbn [res_bind].
  rewrite Hq. cbn [negb]. rewrite create_matview_present by (eexists; by apply K). cbn [res_bind].
  apply create_index_present. eexists. by apply K.
Qed.

Lemma reason_create_ok_inv db now s db1 s' :
  reason_create db now (create_req s) = (db1, ROkReason s') ->
  s' = s /\ slug_ok s = true /\ String.length s <= 64 /\
  exists b, body_slug b = s /\
    (let! d := ensure_reason_table s (upsert_reason b now db) in ensure_reason_published_view s d) = inr db1.
Proof.
  unfold reason_create, parse_reason_create. cbn [create_req rc_slug].
  destruct (slug_ok s && (1 <=? String.length s) && (String.length s <=? 64)) eqn:Hp; [|discriminate].
  apply andb_prop in Hp as [[Hs _]%andb_prop Hl%Nat.leb_le].
  destruct (let! d := _ in _) as [e|d2] eqn:E; [discriminate|]. intros [= <- <-].
  split; [done|]. split; [done|]. split; [done|]. eexists. split; [|exact E]. reflexivity.
Qed.

(** ** Properties of the reason endpoints *)

(** The answer of [reason:create] for a slug with a ["-"]. *)
Lemma reason_create_dash_error db now req s :
  rc_slug req = Some s -> slug_ok s = true -> String.length s <= 64 -> ~ char_free dash s ->
  exists e, reason_create db now req =
    (mkDb (reasons db) (S (reasons_id_seq db)) (rels db) (bc_catalogs db), RBadRequest (DbError e)).
Proof.
  intros Hs Hok Hlen Hd. unfold reason_create, parse_reason_create. rewrite Hs, Hok.
  rewrite (proj2 (Nat.leb_le _ _) (slug_ok_length s Hok)), (proj2 (Nat.leb_le _ _) Hlen). cbn [andb].
  destruct (let! d := _ in _) as [e|db2] eqn:E; [by exists e|exfalso].
  apply res_bind_inr_iff in E as (d & _ & E). apply ensure_view_ok in E as (_ & Hq & _).
  cbn [body_slug] in Hq. by rewrite view_of_dash_quoted in Hq.
Qed.

(** C18: provisioning fails for every slug with a ["-"], which the
    validation, the SQL check and the specification all allow: the
    generated [CREATE UNIQUE INDEX IF NOT EXISTS uq_"mv_..."] does not
    parse.  The answer is a 400, nothing is committed, and only the id
    sequence has moved. *)
Theorem reason_create_dash_slug_fails db now req s :
  rc_slug req = Some s -> slug_ok s = true -> String.length s <= 64 -> ~ char_free dash s ->
  exists e, reason_create db now req =
    (mkDb (reasons db) (S (reasons_id_seq db)) (rels db) (bc_catalogs db), RBadRequest (DbError e)).
Proof. apply reason_create_dash_error. Qed.

Lemma reason_create_dash_slug_fails_witness :
  exists e, reason_create db_init 1 (create_req "animal-words") =
    (mkDb (reasons db_init) (S (reasons_id_seq db_init)) (rels db_init) (bc_catalogs db_init),
     RBadRequest (DbError e)).
Proof.
  apply (reason_create_dash_slug_fails db_init 1 (create_req "animal-words") "animal-words");
    [reflexivity|reflexivity|simpl; lia|].
  intros H. apply (H 6). reflexivity.
Defined.

(** C19: provisioning is idempotent: once [reason:create] succeeded, the
    same request succeeds again at any later time and changes no
    relation, no catalog and no slug (only [updated_at] and
    [updated_by] of the reason's row). *)
Theorem reason_create_idempotent db now now' req db1 s :
  reason_create db now req = (db1, ROkReason s) ->
  exists db2, reason_create db1 now' req = (db2, ROkReason s) /\ rels db2 = rels db1 /\
    map reason_slug (reasons db2) = map reason_slug (reasons db1) /\
    bc_catalogs db2 = bc_catalogs db1.
Proof.
  unfold reason_create. destruct (parse_reason_create req) as [e|b]; [discriminate|].
  destruct (let! d := _ in _) as [e|d2] eqn:E; [discriminate|]. intros [= <- <-].
  apply res_bind_inr_iff in E as (d & Hd & Hv).
  apply ensure_reason_table_ok in Hd as (Hs & G1 & _). apply ensure_view_ok in Hv as (_ & Hq & G2 & P).
  destruct (upsert_reason_fields b now' d2) as (_ & Hrels & Hbc).
  assert (present (upsert_reason b now' d2) (table_names (body_slug b) ++ view_names (body_slug b))) as P'
    by (eapply present_rels; [exact Hrels|exact P]).
  apply present_app in P' as Pt. destruct Pt as [Pt _].
  rewrite ensure_reason_table_again by done. cbn [res_bind].
  rewrite ensure_view_again by done.
  eexists. split; [reflexivity|]. split; [done|]. split; [|done].
  apply upsert_reason_existing. destruct G1 as (R1 & _), G2 as (R2 & _).
  rewrite R2, R1. apply upsert_reason_has_slug.
Qed.

Lemma reason_create_idempotent_witness :
  exists db1, reason_create db_init 1 (create_req "animals") = (db1, ROkReason "animals") /\
  exists db2, reason_create db1 2 (create_req "animals") = (db2, ROkReason "animals") /\
    rels db2 = rels db1 /\ map reason_slug (reasons db2) = map reason_slug (reasons db1) /\
    bc_catalogs db2 = bc_catalogs db1.
Proof.
  assert (reason_create db_init 1 (create_req "animals") =
          (fst (reason_create db_init 1 (create_req "animals")), ROkReason "animals")) as H
    by (vm_compute; reflexivity).
  eexists. split; [exact H|]. exact (reason_create_idempotent _ _ 2 _ _ _ H).
Defined.

(** C20: PostgreSQL keeps 63 bytes of a name, and [text_reason_] takes
    12 of them: once a valid slug has been provisioned as a new reason,
    every other valid slug (without ["-"]) that agrees with it on its
    first 51 characters is provisioned too, answering ok, with a reason
    row of its own but no table of its own: its table name denotes the
    first reason's table, unchanged, and its view name the first's view.
    The two reasons publish into one partition. *)
Theorem reason_create_long_slugs_share_table db now now' s1 s2 db1 :
  rels db !! pg_truncate (table_of s1) = None ->
  reason_create db now (create_req s1) = (db1, ROkReason s1) ->
  slug_ok s2 = true -> String.length s2 <= 64 -> char_free dash s2 ->
  String.substring 0 51 s1 = String.substring 0 51 s2 ->
  exists db2, reason_create db1 now' (create_req s2) = (db2, ROkReason s2) /\
    pg_truncate (table_of s2) = pg_truncate (table_of s1) /\
    pg_truncate (view_of s2) = pg_truncate (view_of s1) /\
    rels db2 !! pg_truncate (table_of s2) = Some (RTable []) /\
    rels db2 !! pg_truncate (table_of s2) = rels db1 !! pg_truncate (table_of s1) /\
    s2 ∈ map reason_slug (reasons db2).
Proof.
  intros Hnew H1 Hs2 Hl2 Hd2 Hpre.
  apply reason_create_ok_inv in H1 as (_ & Hs1 & _ & b1 & Hb1 & E1).
  apply res_bind_inr_iff in E1 as (d & Hd & Hv).
  pose proof (ensure_view_ok _ _ _ Hv) as (_ & _ & _ & P). apply present_app in P as [_ P].
  unfold present, view_names in P. apply Forall_cons in P as [Pv P]. apply Forall_cons in P as [Pu _].
  assert (rels db1 !! pg_truncate (table_of s1) = Some (RTable [])) as Ht1.
  { apply (ensure_view_keeps _ _ _ Hv). exact (ensure_reason_table_fresh s1 (upsert_reason b1 now db) d Hnew Hd). }
  destruct (pg_truncate_view_congr s1 s2 Hpre) as [Ev Eu].
  pose proof (pg_truncate_table_congr s1 s2 Hpre) as Et.
  set (b2 := mkReasonCreate s2 "en" None "system" None).
  assert (rels (upsert_reason b2 now' db1) !! pg_truncate (table_of s2) = Some (RTable [])) as Ht2
    by (rewrite <- Et; exact Ht1).
  destruct (ensure_table_on_table s2 _ [] (slug_ok_sql s2 Hs2) Ht2) as (d2 & Ed2 & K1).
  destruct (ensure_view_on_table s2 d2 [] (slug_ok_sql s2 Hs2) (view_of_quote_free s2 Hs2 Hd2))
    as (db2 & E2 & K2).
  { by apply K1. }
  { rewrite <- Ev. destruct Pv as [x Hx]. exists x. by apply K1. }
  { rewrite <- Eu. destruct Pu as [x Hx]. exists x. by apply K1. }
  exists (db2). unfold reason_create, parse_reason_create. cbn [create_req rc_slug].
  rewrite Hs2, (proj2 (Nat.leb_le _ _) (slug_ok_length s2 Hs2)), (proj2 (Nat.leb_le _ _) Hl2).
  cbn -[ensure_reason_table ensure_reason_published_view upsert_reason]. fold b2. rewrite Ed2. cbn [res_bind]. rewrite E2.
  assert (rels db2 !! pg_truncate (table_of s2) = Some (RTable [])) as Hdb2 by (apply K2, K1, Ht2).
  split; [done|]. split; [done|]. split; [done|]. split; [done|]. split; [by rewrite Hdb2, Ht1|].
  destruct (ensure_reason_table_ok _ _ _ Ed2) as (_ & (Hr1 & _) & _).
  destruct (ensure_view_ok _ _ _ E2) as (_ & _ & (Hr2 & _) & _).
  rewrite Hr2, Hr1. apply (upsert_reason_has_slug b2).
Qed.
Definition long_slug_1 : string := "aaaaaaaaaaaaaaaaaaaaaaaaaaaaaaaaaaaaaaaaaaaaaaaaaaa_one".
Definition long_slug_2 : string := "aaaaaaaaaaaaaaaaaaaaaaaaaaaaaaaaaaaaaaaaaaaaaaaaaaa_two".

Lemma reason_create_long_slugs_share_table_witness :
  rels db_init !! pg_truncate (table_of long_slug_1) = None /\
  reason_create db_init 1 (create_req long_slug_1) =
    (fst (reason_create db_init 1 (create_req long_slug_1)), ROkReason long_slug_1) /\
  slug_ok long_slug_2 = true /\ String.length long_slug_2 <= 64 /\ char_free dash long_slug_2 /\
  String.substring 0 51 long_slug_1 = String.substring 0 51 long_slug_2 /\
  exists db2, reason_create (fst (reason_create db_init 1 (create_req long_slug_1))) 2 (create_req long_slug_2) =
                (db2, ROkReason long_slug_2) /\
    pg_truncate (table_of long_slug_2) = pg_truncate (table_of long_slug_1) /\
    pg_truncate (view_of long_slug_2) = pg_truncate (view_of long_slug_1) /\
    rels db2 !! pg_truncate (table_of long_slug_2) = Some (RTable []) /\
    rels db2 !! pg_truncate (table_of long_slug_2) =
      rels (fst (reason_create db_init 1 (create_req long_slug_1))) !! pg_truncate (table_of long_slug_1) /\
    long_slug_2 ∈ map reason_slug (reasons db2).
Proof.
  assert (rels db_init !! pg_truncate (table_of long_slug_1) = None) as H1 by reflexivity.
  assert (reason_create db_init 1 (create_req long_slug_1) =
            (fst (reason_create db_init 1 (create_req long_slug_1)), ROkReason long_slug_1)) as H2
    by (vm_compute; reflexivity).
  assert (slug_ok long_slug_2 = true) as H3 by reflexivity.
  assert (String.length long_slug_2 <= 64) as H4 by (apply Nat.leb_le; reflexivity).
  assert (char_free dash long_slug_2) as H5 by (apply all_chars_char_free; reflexivity).
  assert (String.substring 0 51 long_slug_1 = String.substring 0 51 long_slug_2) as H6 by reflexivity.
  do 6 (split; [assumption|]).
  exact (reason_create_long_slugs_share_table db_init 1 2 long_slug_1 long_slug_2 _ H1 H2 H3 H4 H5 H6).
Defined.

(** C21: [reason:publish] recomputes the published view: after a
    successful call the view of the slug holds exactly the active rows of
    its table, and calling it again with no change in between answers ok
    and changes nothing. *)
Theorem reason_publish_refreshes db s db' :
  reason_publish db (Some s) = (db', ROk) ->
  (exists t rows, rels db' !! pg_truncate (view_of s) = Some (RMatView t (published_rows rows)) /\
                  rels db' !! t = Some (RTable rows)) /\
  reason_publish db' (Some s) = (db', ROk).
Proof.
  unfold reason_publish. cbn [default id]. destruct (slug_ok s) eqn:Hs; cbn [negb]; [|by intros [=]].
  destruct (refresh_reason_published_view s db) as [e|d] eqn:E; [by intros [=]|]. intros [= ->].
  split; [by apply refresh_ok in E as (_ & _ & _ & _ & ?)|].
  by rewrite (refresh_again _ _ _ E).
Qed.

Lemma reason_publish_refreshes_witness :
  (exists t rows,
     rels (fst (reason_publish db_init (Some "animals"))) !! pg_truncate (view_of "animals") =
       Some (RMatView t (published_rows rows)) /\
     rels (fst (reason_publish db_init (Some "animals"))) !! t = Some (RTable rows)) /\
  reason_publish (fst (reason_publish db_init (Some "animals"))) (Some "animals") =
    (fst (reason_publish db_init (Some "animals")), ROk).
Proof.
  apply (reason_publish_refreshes db_init "animals"). vm_compute. reflexivity.
Defined.

(** The view-refresh endpoint provisions a namespace nobody created:
    publishing the slug [ghost] on a database without reasons answers ok
    and creates its table and view, while [reasons] stays empty, so
    [reason:list] never shows the namespace. *)
Theorem reason_publish_unknown_slug :
  snd (reason_publish db_init (Some "ghost")) = ROk /\
  reasons (fst (reason_publish db_init (Some "ghost"))) = [] /\
  reason_list (fst (reason_publish db_init (Some "ghost"))) = ROkList [] /\
  rels (fst (reason_publish db_init (Some "ghost"))) !! "text_reason_ghost" = Some (RTable []) /\
  rels (fst (reason_publish db_init (Some "ghost"))) !! "mv_text_reason_ghost_published" =
    Some (RMatView "text_reason_ghost" []).
Proof. vm_compute. repeat split. Qed.

(** ** Properties of the catalog endpoints *)

(** C22: round trip: after a successful [bc:save] of [items] for a
    reason, [bc:get] of that reason returns exactly [items], and the
    catalogs of the other reasons are unchanged. *)
Theorem bc_save_get db now r items db' :
  bc_save db now (mkBCSaveReq (Some r) (Some items)) = (db', ROk) ->
  bc_get db' (Some r) = ROkItems items /\
  forall r', r' <> r -> bc_get db' (Some r') = bc_get db (Some r').
Proof.
  unfold bc_save. cbn [bs_reason bs_items]. destruct (slug_ok r) eqn:Hs; [|by intros [=]]. intros [= <-].
  unfold bc_get. cbn [default id bc_catalogs]. rewrite Hs. cbn [negb].
  rewrite lookup_insert_eq. split; [done|]. intros r' Hr'.
  destruct (slug_ok r'); [|done]. by rewrite lookup_insert_ne by congruence.
Qed.

Lemma bc_save_get_witness :
  bc_get (fst (bc_save db_init 1 (mkBCSaveReq (Some "animals")
                                    (Some [mkBCItem "column B-1" "column C-1" (Some (Some "cat")) None]))))
    (Some "animals") = ROkItems [mkBCItem "column B-1" "column C-1" (Some (Some "cat")) None] /\
  forall r', r' <> "animals" ->
    bc_get (fst (bc_save db_init 1 (mkBCSaveReq (Some "animals")
                                      (Some [mkBCItem "column B-1" "column C-1" (Some (Some "cat")) None]))))
      (Some r') = bc_get db_init (Some r').
Proof. apply (bc_save_get db_init 1). reflexivity. Defined.
