(* ===== verification/CatalogSync.v ===== *)
(** * The catalog editor's server mirror

    [src/src/pages/BCEditor.tsx] keeps the catalog of a reason in React
    state, mirrors every change to localStorage ([LS.catalog]) and to the
    server: on mount it asks [/stage1/bc:get] and, if the answer is ok,
    replaces its catalog with the server's items; every accepted
    [updateVal] schedules [saveServer(a)], debounced by [useDebounce]
    (600 ms, a new call cancels the pending one); the Save button posts
    the catalog at once ([manualSave]).  The server side is the [bc_get]
    and [bc_save] of [Stage1].

    The page, the storage and the database are one [World]; the
    asynchronous parts are events of their own: the server answering
    the mount request ([EvGetServed]), the answer reaching the page
    ([EvGetArrive]) or the request failing ([EvGetFail]), an edit at a
    time, and the clock reaching a time ([EvTick]), at which a due
    debounced save is sent and handled.  Requests reach the server in
    the order they are sent.

    A row the server returns with a missing or null value is a row with
    [""] there ([row_of_item]): the page only tests these values for
    truthiness; the page sends its rows back with strings
    ([item_of_row]).

    Theorems: once the mount request is settled, the server ends up with
    the page's catalog after every quiet period (the debounced save is
    never lost); and the race of the mount request with an early edit,
    which leaves the page and the server apart for good. *)

From S2P Require Import Prelude JsString Json Storage Catalog Stage1.

(** ** Rows and items *)

Definition item_of_row (r : CatalogRow) : BCItem :=
  mkBCItem (bKey r) (cKey r) (Some (Some (bVal r))) (Some (Some (cVal r))).

Definition row_of_item (i : BCItem) : CatalogRow :=
  mkRow (bc_bKey i) (bc_cKey i) (default "" (mjoin (bc_bVal i))) (default "" (mjoin (bc_cVal i))).

(** The JSON text of a row: the fields in the order the page creates
    them ([{ bKey, bVal, cKey, cVal }]). *)
Definition enc_row (r : CatalogRow) : json :=
  JObj [("bKey", JStr (bKey r)); ("bVal", JStr (bVal r)); ("cKey", JStr (cKey r)); ("cVal", JStr (cVal r))].

Definition enc_catalog (rows : list CatalogRow) : json := JArr (map enc_row rows).

(** The rows the page reads from localStorage: [readJSON(LS.catalog, [])]
    used as an array of rows, a field that is not a string reading as
    [""]; a stored value that is not an array reads as no rows, as
    [updateVal]'s [Array.isArray(prev) ? prev.slice() : []] does. *)
Definition dec_row (j : json) : CatalogRow :=
  mkRow (jstr (jget "bKey" j)) (jstr (jget "cKey" j)) (jstr (jget "bVal" j)) (jstr (jget "cVal" j)).

Definition dec_catalog (j : json) : list CatalogRow :=
  match j with JArr l => map dec_row l | _ => [] end.

(** ** The page *)

(** The mount request: not answered yet, answered by the server (the
    answer on its way), or settled (arrived or failed). *)
Inductive FetchState :=
  | FetchSent
  | FetchServed (resp : ApiResponse)
  | FetchSettled.

Record BCPage := mkBCPage {
  pg_catalog : list CatalogRow;
  pg_caseSensitive : bool;
  pg_enforceNoMatch : bool;
  pg_timer : option (nat * list CatalogRow);   (** the pending [saveServer(a)]: when it fires, and [a] *)
  pg_fetch : FetchState
}.

Record World := mkWorld {
  w_page : BCPage;
  w_ls : Storage;
  w_db : Db
}.

Inductive BCEvent :=
  | EvGetServed
  | EvGetArrive
  | EvGetFail
  | EvEdit (k : string) (which : Which) (val : string) (now : nat)
  | EvTick (now : nat)
  | EvManualSave (now : nat)
  | EvSetEnforce (b : bool)
  | EvSetCase (b : bool).

Inductive BCAlert :=
  | AlertCatalog (e : CatalogError)
  | AlertSaved                          (** "B/C saved to server." *)
  | AlertSaveFailed.                    (** "Save failed: ..." *)

Section page.
Variable slug : string.

(** [useDebounce(fn, 600)]. *)
Definition debounce_ms : nat := 600.

Definition set_catalog (p : BCPage) (c : list CatalogRow) : BCPage :=
  mkBCPage c (pg_caseSensitive p) (pg_enforceNoMatch p) (pg_timer p) (pg_fetch p).
Definition set_timer (p : BCPage) (t : option (nat * list CatalogRow)) : BCPage :=
  mkBCPage (pg_catalog p) (pg_caseSensitive p) (pg_enforceNoMatch p) t (pg_fetch p).
Definition set_fetch (p : BCPage) (f : FetchState) : BCPage :=
  mkBCPage (pg_catalog p) (pg_caseSensitive p) (pg_enforceNoMatch p) (pg_timer p) f.

(** The page on mount: the catalog of localStorage, the request to
    [bc:get] sent. *)
Definition page_init (ls : Storage) : BCPage :=
  mkBCPage (dec_catalog (readJSON ls (catalog (LS_FOR slug)) (JArr []))) false true None FetchSent.

(** [setCatalog(c)] with the effect that mirrors it to localStorage. *)
Definition commit (w : World) (c : list CatalogRow) (p : BCPage) : World :=
  mkWorld (set_catalog p c) (writeJSON (w_ls w) (catalog (LS_FOR slug)) (enc_catalog c)) (w_db w).

(** The mount effect's request, answered by the server: [api(`/stage1/bc:get?reason=${slug}`)]. *)
Definition on_get_served (w : World) : World :=
  let p := w_page w in
  match pg_fetch p with
  | FetchSent => mkWorld (set_fetch p (FetchServed (bc_get (w_db w) (Some slug)))) (w_ls w) (w_db w)
  | _ => w
  end.

(** The answer reaching the page: [if (r?.ok && Array.isArray(r.items))
    { setCatalog(r.items); writeJSON(LS.catalog, r.items) }]. *)
Definition on_get_arrive (w : World) : World :=
  let p := w_page w in
  match pg_fetch p with
  | FetchServed (ROkItems items) => commit w (map row_of_item items) (set_fetch p FetchSettled)
  | FetchServed _ => mkWorld (set_fetch p FetchSettled) (w_ls w) (w_db w)
  | _ => w
  end.

(** [catch {}]: no server, the page keeps the catalog of localStorage. *)
Definition on_get_fail (w : World) : World :=
  let p := w_page w in
  match pg_fetch p with
  | FetchSent => mkWorld (set_fetch p FetchSettled) (w_ls w) (w_db w)
  | _ => w
  end.

(** [updateVal(bKey, which, val)] at time [now]: an accepted edit is
    committed and [saveServer(a)] restarts the timer. *)
Definition on_edit (w : World) (k : string) (which : Which) (val : string) (now : nat)
    : World * option BCAlert :=
  let p := w_page w in
  let r := updateVal (pg_caseSensitive p) (pg_enforceNoMatch p) (pg_catalog p) k which val in
  match uv_save r with
  | Some a => (commit w (uv_next r) (set_timer p (Some (now + debounce_ms, a))), None)
  | None => (w, AlertCatalog <$> uv_alert r)
  end.

(** The clock at [now]: a due [saveServer] posts [{ reason: slug, items }]
    to [bc:save]; a failed answer is only logged. *)
Definition on_tick (w : World) (now : nat) : World :=
  let p := w_page w in
  match pg_timer p with
  | Some (d, a) =>
      if d <=? now then
        let '(db', _) := bc_save (w_db w) d (mkBCSaveReq (Some slug) (Some (map item_of_row a))) in
        mkWorld (set_timer p None) (w_ls w) db'
      else w
  | None => w
  end.

(** [manualSave]: the catalog posted at once, and the alert. *)
Definition manualSave (w : World) (now : nat) : World * BCAlert :=
  let p := w_page w in
  let '(db', resp) := bc_save (w_db w) now (mkBCSaveReq (Some slug) (Some (map item_of_row (pg_catalog p)))) in
  (mkWorld p (w_ls w) db', match resp with ROk => AlertSaved | _ => AlertSaveFailed end).

Definition bc_step (w : World) (e : BCEvent) : World * option BCAlert :=
  let p := w_page w in
  match e with
  | EvGetServed => (on_get_served w, None)
  | EvGetArrive => (on_get_arrive w, None)
  | EvGetFail => (on_get_fail w, None)
  | EvEdit k which val now => on_edit w k which val now
  | EvTick now => (on_tick w now, None)
  | EvManualSave now => let '(w', a) := manualSave w now in (w', Some a)
  | EvSetEnforce b =>
      (mkWorld (mkBCPage (pg_catalog p) (pg_caseSensitive p) b (pg_timer p) (pg_fetch p)) (w_ls w) (w_db w), None)
  | EvSetCase b =>
      (mkWorld (mkBCPage (pg_catalog p) b (pg_enforceNoMatch p) (pg_timer p) (pg_fetch p)) (w_ls w) (w_db w), None)
  end.

Fixpoint bc_run (w : World) (es : list BCEvent) : World :=
  match es with
  | [] => w
  | e :: es' => bc_run (bc_step w e).1 es'
  end.

(** The rows [bc:get] returns for the reason. *)
Definition server_rows (db : Db) : list CatalogRow :=
  match bc_get db (Some slug) with
  | ROkItems items => map row_of_item items
  | _ => []
  end.

(** The page and the server agree. *)
Definition in_sync (w : World) : Prop := server_rows (w_db w) = pg_catalog (w_page w).

End page.

(** ** Lemmas *)

Lemma row_of_item_of_row r : row_of_item (item_of_row r) = r.
Proof. by destruct r. Qed.

Lemma rows_of_items_of_rows rows : map row_of_item (map item_of_row rows) = rows.
Proof. induction rows as [|r rows IH]; [done|]. cbn. by rewrite row_of_item_of_row, IH. Qed.

Lemma dec_catalog_enc rows : dec_catalog (enc_catalog rows) = rows.
Proof. induction rows as [|[] rows IH]; [done|]. cbn [enc_catalog dec_catalog map] in *. by rewrite IH. Qed.

(** An accepted edit sends exactly the catalog it commits. *)
Lemma updateVal_save_next cs enf prev k which v a :
  uv_save (updateVal cs enf prev k which v) = Some a -> uv_next (updateVal cs enf prev k which v) = a.
Proof. unfold updateVal. cbv zeta. repeat case_match; cbn; congruence. Qed.

(** [bc:save] of a valid slug answers ok, and [bc:get] then returns the
    rows saved. *)
Lemma bc_save_ok slug db now items :
  slug_ok slug = true ->
  exists db', bc_save db now (mkBCSaveReq (Some slug) (Some items)) = (db', ROk) /\
              server_rows slug db' = map row_of_item items /\ reasons db' = reasons db.
Proof.
  intros Hs. unfold bc_save. cbn [bs_reason bs_items]. rewrite Hs. eexists. split; [done|].
  split; [|done]. unfold server_rows, bc_get. cbn. rewrite Hs. cbn. by rewrite lookup_insert_eq.
Qed.

Lemma bc_get_ok slug db : slug_ok slug = true -> exists items, bc_get db (Some slug) = ROkItems items.
Proof. intros Hs. unfold bc_get. cbn [default id]. rewrite Hs. by eexists. Qed.

Section sync.
Variable slug : string.
Hypothesis slug_valid : slug_ok slug = true.

(** Once the mount request is settled, a pending save carries the page's
    catalog, and with no save pending the server holds it. *)
Definition settled_inv (w : World) : Prop :=
  pg_fetch (w_page w) = FetchSettled /\
  match pg_timer (w_page w) with
  | Some (_, a) => a = pg_catalog (w_page w)
  | None => in_sync slug w
  end.

Lemma bc_step_settled_inv w e : settled_inv w -> settled_inv (bc_step slug w e).1.
Proof.
  destruct w as [[c cs enf t f] ls db]. intros [Hf Ht]; cbn in Hf, Ht; subst f.
  destruct e as [| | |k which val now|now|now|b|b];
    cbn -[bc_save bc_get updateVal writeJSON]; unfold on_get_served, on_get_arrive, on_get_fail, on_edit,
    on_tick, manualSave; cbn -[bc_save bc_get updateVal writeJSON]; try done.
  - destruct (uv_save _) as [a|] eqn:E; cbn; [|done]. split; [done|].
    symmetry. by apply updateVal_save_next.
  - destruct t as [[d a]|]; [|done]. destruct (d <=? now); [|done].
    destruct (bc_save_ok slug db d (map item_of_row a)) as (db' & -> & Hr & _); [done|].
    split; [done|]. unfold in_sync. cbn. by rewrite Hr, rows_of_items_of_rows.
  - destruct (bc_save_ok slug db now (map item_of_row c)) as (db' & -> & Hr & _); [done|].
    split; [done|]. destruct t as [[d a]|]; [done|]. unfold in_sync. cbn.
    by rewrite Hr, rows_of_items_of_rows.
Qed.

Lemma bc_run_settled_inv w es : settled_inv w -> settled_inv (bc_run slug w es).
Proof. revert w. induction es as [|e es IH]; intros w H; [done|]. cbn. by apply IH, bc_step_settled_inv. Qed.

End sync.

(** ** Properties *)

Section mount.
Variable slug : string.
Hypothesis slug_valid : slug_ok slug = true.

(** An answered mount request, arriving before any other event, leaves
    the page with the server's catalog. *)
Lemma mount_settles ls db :
  settled_inv slug (bc_run slug (mkWorld (page_init slug ls) ls db) [EvGetServed; EvGetArrive]).
Proof.
  cbn -[bc_get writeJSON]. unfold on_get_served, on_get_arrive. cbn -[bc_get writeJSON].
  destruct (bc_get_ok slug db slug_valid) as [items E]. rewrite E.
  split; [done|]. unfold in_sync, server_rows. cbn. by rewrite E.
Qed.

Lemma settled_tick w now d a :
  settled_inv slug w -> pg_timer (w_page w) = Some (d, a) -> d <= now ->
  in_sync slug (bc_step slug w (EvTick now)).1 /\ pg_timer (w_page (bc_step slug w (EvTick now)).1) = None.
Proof.
  intros Hinv Ht Hd. pose proof (bc_step_settled_inv slug slug_valid w (EvTick now) Hinv) as [_ H].
  destruct w as [[c cs enf t f] ls db]; cbn in Ht; subst t.
  cbn -[bc_save] in H |- *. unfold on_tick in H |- *. cbn -[bc_save] in H |- *.
  rewrite (proj2 (Nat.leb_le _ _) Hd) in H |- *.
  destruct (bc_save _ _ _) as [db' r]. cbn in H |- *. by split.
Qed.

End mount.

(** C34: the debounced save is never lost once the mount request is
    settled: when the server's answer to the mount request reaches the
    page before anything else happens, then after any sequence of
    edits, option changes, ticks and manual saves, the server holds the
    page's catalog whenever no save is pending, and the tick that fires
    a pending save brings them together. *)
Theorem bc_sync_after_quiet slug ls db es now :
  slug_ok slug = true ->
  let w := bc_run slug (mkWorld (page_init slug ls) ls db) (EvGetServed :: EvGetArrive :: es) in
  (pg_timer (w_page w) = None -> in_sync slug w) /\
  (forall d a, pg_timer (w_page w) = Some (d, a) -> d <= now ->
     in_sync slug (bc_step slug w (EvTick now)).1 /\ pg_timer (w_page (bc_step slug w (EvTick now)).1) = None).
Proof.
  intros Hs w. pose proof (bc_run_settled_inv slug Hs _ es (mount_settles slug Hs ls db)) as Hinv.
  change (settled_inv slug w) in Hinv. split.
  - intros Ht. destruct Hinv as [_ H]. by rewrite Ht in H.
  - intros d a Ht Hd. by apply (settled_tick slug Hs w now d a).
Qed.

Lemma bc_sync_after_quiet_witness :
  slug_ok "animals" = true /\
  let w := bc_run "animals" (mkWorld (page_init "animals" (mkStorage ∅ 100000)) (mkStorage ∅ 100000) db_init)
             [EvGetServed; EvGetArrive; EvEdit "column B-1" WbVal "cat" 0] in
  (pg_timer (w_page w) = None -> in_sync "animals" w) /\
  (forall d a, pg_timer (w_page w) = Some (d, a) -> d <= 600 ->
     in_sync "animals" (bc_step "animals" w (EvTick 600)).1 /\
     pg_timer (w_page (bc_step "animals" w (EvTick 600)).1) = None).
Proof.
  assert (slug_ok "animals" = true) as Hs by reflexivity.
  split; [exact Hs|]. exact (bc_sync_after_quiet "animals" _ db_init [EvEdit "column B-1" WbVal "cat" 0] 600 Hs).
Defined.

(** An accepted edit followed by the tick that fires its save: the
    server and the page both hold the edited catalog. *)
Lemma edit_tick_saves slug w k which val t t' a :
  slug_ok slug = true ->
  uv_save (updateVal (pg_caseSensitive (w_page w)) (pg_enforceNoMatch (w_page w)) (pg_catalog (w_page w))
             k which val) = Some a -> t + debounce_ms <= t' ->
  let w' := bc_run slug w [EvEdit k which val t; EvTick t'] in
  pg_catalog (w_page w') = a /\ server_rows slug (w_db w') = a /\ pg_timer (w_page w') = None /\
  pg_fetch (w_page w') = pg_fetch (w_page w) /\ pg_caseSensitive (w_page w') = pg_caseSensitive (w_page w) /\
  pg_enforceNoMatch (w_page w') = pg_enforceNoMatch (w_page w).
Proof.
  intros Hs Ha Ht w'. subst w'. destruct w as [[c cs enf tm f] ls db]. cbn in Ha.
  cbn -[bc_save updateVal writeJSON]. unfold on_edit, on_tick. cbn -[bc_save updateVal writeJSON].
  rewrite Ha. cbn -[bc_save writeJSON]. rewrite (proj2 (Nat.leb_le _ _) Ht).
  destruct (bc_save_ok slug db (t + debounce_ms) (map item_of_row a) Hs) as (db' & -> & Hr & _).
  cbn. rewrite (updateVal_save_next _ _ _ _ _ _ _ Ha). rewrite Hr, rows_of_items_of_rows. by repeat split.
Qed.

(** C35: the mount request races the first edit.  When the server
    answers the mount request, then an edit is accepted and its
    debounced save stored before the answer reaches the page, the
    answer's [setCatalog(r.items)] puts back the catalog the server had
    before the edit, with no save pending: the page (and the
    localStorage mirror it writes) holds the old catalog while the
    server holds the edited one.  The next accepted edit is made on the
    old catalog and its save replaces the server's: the first edit is
    lost everywhere. *)
Theorem bc_mount_race_loses_edit slug ls db k which val now now' :
  slug_ok slug = true ->
  uv_save (updateVal false true (pg_catalog (page_init slug ls)) k which val) <> None ->
  now + debounce_ms <= now' ->
  let w := bc_run slug (mkWorld (page_init slug ls) ls db) [EvGetServed; EvEdit k which val now; EvTick now'; EvGetArrive] in
  pg_catalog (w_page w) = server_rows slug db /\
  server_rows slug (w_db w) = uv_next (updateVal false true (pg_catalog (page_init slug ls)) k which val) /\
  pg_timer (w_page w) = None /\ pg_fetch (w_page w) = FetchSettled /\
  forall k' which' val' t t',
    uv_save (updateVal false true (server_rows slug db) k' which' val') <> None -> t + debounce_ms <= t' ->
    server_rows slug (w_db (bc_run slug w [EvEdit k' which' val' t; EvTick t'])) =
      uv_next (updateVal false true (server_rows slug db) k' which' val').
Proof.
  intros Hs Ha Ht w.
  destruct (uv_save (updateVal false true (pg_catalog (page_init slug ls)) k which val)) as [a|] eqn:Ea; [clear Ha|done].
  destruct (bc_get_ok slug db Hs) as [items Eg].
  set (w1 := on_get_served slug (mkWorld (page_init slug ls) ls db)).
  assert (pg_fetch (w_page w1) = FetchServed (ROkItems items)) as Hf1 by (cbn; by rewrite Eg).
  destruct (edit_tick_saves slug w1 k which val now now' a Hs Ea Ht) as (Hc2 & Hr2 & Ht2 & Hf2 & Hcs & Hen).
  assert (w = on_get_arrive slug (bc_run slug w1 [EvEdit k which val now; EvTick now'])) as Hw by reflexivity.
  set (w2 := bc_run slug w1 [EvEdit k which val now; EvTick now']) in *.
  assert (pg_catalog (w_page w) = server_rows slug db /\ server_rows slug (w_db w) = a /\
          pg_timer (w_page w) = None /\ pg_fetch (w_page w) = FetchSettled /\
          pg_caseSensitive (w_page w) = false /\ pg_enforceNoMatch (w_page w) = true) as (H1 & H2 & H3 & H4 & H5 & H6).
  { rewrite Hw. unfold on_get_arrive. rewrite Hf2, Hf1. unfold commit, set_catalog, set_fetch.
    cbn [w_page w_db pg_catalog pg_timer pg_fetch pg_caseSensitive pg_enforceNoMatch].
    split; [unfold server_rows; by rewrite Eg|]. split; [exact Hr2|]. split; [exact Ht2|]. split; [done|].
    rewrite Hcs, Hen. split; reflexivity. }
  rewrite (updateVal_save_next _ _ _ _ _ _ _ Ea).
  do 4 (split; [assumption|]). intros k' which' val' t t' Ha' Ht'.
  destruct (uv_save (updateVal false true (server_rows slug db) k' which' val')) as [a'|] eqn:Ea'; [clear Ha'|done].
  rewrite (updateVal_save_next _ _ _ _ _ _ _ Ea').
  rewrite <- H1, <- H5, <- H6 in Ea'. by destruct (edit_tick_saves slug w k' which' val' t t' a' Hs Ea' Ht') as (_ & -> & _).
Qed.

(** The database holding the catalog [[column B-1: cat]] of reason
    [animals], and the page mounted on an empty localStorage. *)
Definition race_db : Db :=
  fst (bc_save db_init 0 (mkBCSaveReq (Some "animals") (Some [item_of_row (mkRow "column B-1" "column C-1" "cat" "")]))).

Definition race_world : World :=
  mkWorld (page_init "animals" (mkStorage ∅ 100000)) (mkStorage ∅ 100000) race_db.

Lemma bc_mount_race_loses_edit_witness :
  slug_ok "animals" = true /\
  uv_save (updateVal false true (pg_catalog (page_init "animals" (mkStorage ∅ 100000))) "column B-1" WbVal "dog") <> None /\
  0 + debounce_ms <= 600 /\
  server_rows "animals" race_db = [mkRow "column B-1" "column C-1" "cat" ""] /\
  uv_next (updateVal false true (pg_catalog (page_init "animals" (mkStorage ∅ 100000))) "column B-1" WbVal "dog") =
    [mkRow "column B-1" "column C-B-1" "dog" ""] /\
  let w := bc_run "animals" race_world [EvGetServed; EvEdit "column B-1" WbVal "dog" 0; EvTick 600; EvGetArrive] in
  pg_catalog (w_page w) = server_rows "animals" race_db /\
  server_rows "animals" (w_db w) =
    uv_next (updateVal false true (pg_catalog (page_init "animals" (mkStorage ∅ 100000))) "column B-1" WbVal "dog") /\
  pg_timer (w_page w) = None /\ pg_fetch (w_page w) = FetchSettled.
Proof.
  assert (slug_ok "animals" = true) as H1 by reflexivity.
  assert (uv_save (updateVal false true (pg_catalog (page_init "animals" (mkStorage ∅ 100000))) "column B-1" WbVal "dog")
          <> None) as H2 by (vm_compute; discriminate).
  assert (0 + debounce_ms <= 600) as H3 by (unfold debounce_ms; lia).
  do 3 (split; [assumption|]). split; [vm_compute; reflexivity|]. split; [vm_compute; reflexivity|].
  destruct (bc_mount_race_loses_edit "animals" (mkStorage ∅ 100000) race_db "column B-1" WbVal "dog" 0 600 H1 H2 H3)
    as (A & B & C & D & _).
  repeat split; assumption.
Defined.
