(* ===== verification/Reasons.v ===== *)
(** * The reason index

    [src/src/pages/ReasonIndex.tsx]: the list of reasons kept in
    localStorage under [lf.reasons.v1] (the [Reason] type of
    [src/src/shared/types.ts]), shown as a tree by [parent] ([tree]),
    searched ([filtered]) and paged ([totalPages], [pageRows]), with the
    page's own state ([q], [page], [selected]) as the step relation
    [index_rel]; the rows of its table ([index_view]: checkbox, title
    indented by depth, slug tag, author); [addNew],
    which suggests a slug from the title and provisions the reason
    through [/stage1/reason:create] of [Stage1] before adding it to the
    list; and [deleteOne].

    [tree]'s [walk] recurses from a reason to its children, which the
    code does without a bound: the model gives it fuel, and
    [tree_fuel_enough] shows that [length reasons + 1] is enough (more
    gives the same list) when ids are unique, and [index_shows_first_page]
    that no event ever moves the table off its first page;
    [index_row_indent] that a row's indentation counts the reason's
    ancestors. *)

From S2P Require Import Prelude JsString Stage1.

Record LocalReason := mkLocalReason {
  lr_id : string;
  lr_title : string;
  lr_slug : string;
  lr_author : string;
  lr_date : string;
  lr_parent : option string
}.

#[export] Instance LocalReason_eq_dec : EqDecision LocalReason.
Proof. solve_decision. Defined.

(** ** The tree *)

Definition root_key : string := "__root__".

(** [r.parent || "__root__"]. *)
Definition parent_key (r : LocalReason) : string :=
  match lr_parent r with
  | Some p => if js_truthy p then p else root_key
  | None => root_key
  end.

(** [a.title.localeCompare(b.title)], taken as the code-unit order of the
    titles (the locale's collation is not modelled). *)
Definition title_le (a b : LocalReason) : bool :=
  match String.compare (lr_title a) (lr_title b) with Gt => false | _ => true end.

(** [kids.get(pid)]: the reasons of parent [pid], in list order. *)
Definition kids (reasons : list LocalReason) (pid : string) : list LocalReason :=
  List.filter (fun r => bool_decide (parent_key r = pid)) reasons.

(** [walk(pid, d)]: each child in title order, at depth [d], followed by
    its own subtree. *)
Fixpoint walk (fuel : nat) (reasons : list LocalReason) (pid : string) (d : nat)
    : list (LocalReason * nat) :=
  match fuel with
  | 0 => []
  | S f => flat_map (fun r => (r, d) :: walk f reasons (lr_id r) (S d))
             (sort_with title_le (kids reasons pid))
  end.

Definition tree (reasons : list LocalReason) : list (LocalReason * nat) :=
  walk (S (length reasons)) reasons root_key 0.

(** ** Search and pages *)

(** [filtered]: the whole tree for a blank query, else the entries whose
    [`${title} ${slug}`], lower-cased, includes the lower-cased query
    (not trimmed). *)
Definition filtered (q : string) (t : list (LocalReason * nat)) : list (LocalReason * nat) :=
  if negb (js_truthy (trim q)) then t
  else List.filter (fun e => js_includes (to_lower (lr_title e.1 +:+ " " +:+ lr_slug e.1)) (to_lower q)) t.

Definition perPage : nat := 20.

(** [Math.max(1, Math.ceil(filtered.length / perPage))]. *)
Definition totalPages (n : nat) : nat := Nat.max 1 ((n + perPage - 1) / perPage).

(** [filtered.slice((page - 1) * perPage, page * perPage)] for a page
    number [page >= 1]. *)
Definition page_rows {A} (page : nat) (l : list A) : list A :=
  take perPage (drop ((page - 1) * perPage) l).

(** ** Adding and deleting *)

(** [title.toLowerCase().replace(/[^a-z0-9_-]+/g, "-")]: each maximal run
    of characters outside the slug alphabet becomes one ["-"]. *)
Fixpoint replace_runs (in_run : bool) (s : string) : string :=
  match s with
  | EmptyString => EmptyString
  | String c s' =>
      if slug_char c then String c (replace_runs false s')
      else if in_run then replace_runs true s'
      else String "-" (replace_runs true s')
  end.

Fixpoint strip_dashes (s : string) : string :=
  match s with
  | String c s' => if Ascii.eqb c "-" then strip_dashes s' else s
  | EmptyString => EmptyString
  end.

Definition string_rev (s : string) : string :=
  String.string_of_list_ascii (rev (String.list_ascii_of_string s)).

(** [.replace(/^-+|-+$/g, "")]. *)
Definition strip_end_dashes (s : string) : string :=
  string_rev (strip_dashes (string_rev (strip_dashes s))).

(** The slug [addNew] suggests for a title. *)
Definition suggest_slug (title : string) : string :=
  strip_end_dashes (replace_runs false (to_lower title)).

(** The body [addNew] posts: [{ slug, language, actor: "owner" }]. *)
Definition addNew_req (slug language : string) : ReasonCreateReq :=
  mkReasonCreateReq (Some slug) (Some language) None (Some "owner") None.

Inductive AddResult :=
  | AddCancelled                        (** a prompt was cancelled or left empty *)
  | AddFailed (e : ApiError)            (** "Create failed: ..." *)
  | AddCreated.                         (** "Reason ... created." *)

(** [addNew] on the answers of its three prompts, the database of the
    API, the time, the new id and date, and the list: the reason is
    added in front of the list only when [reason:create] answered ok. *)
Definition addNew (db : Db) (now : nat) (title slug language : option string) (id date : string)
    (reasons : list LocalReason) : Db * list LocalReason * AddResult :=
  match title with
  | Some t =>
      if js_truthy t then
        match slug with
        | Some s =>
            if js_truthy s then
              let lang := match language with Some l => if js_truthy l then l else "en" | None => "en" end in
              match reason_create db now (addNew_req s lang) with
              | (db', RBadRequest e) => (db', reasons, AddFailed e)
              | (db', _) => (db', mkLocalReason id t s "owner" date None :: reasons, AddCreated)
              end
            else (db, reasons, AddCancelled)
        | None => (db, reasons, AddCancelled)
        end
      else (db, reasons, AddCancelled)
  | None => (db, reasons, AddCancelled)
  end.

(** [deleteOne(r)] after the confirmation: every reason with [r]'s id is
    removed, its children are kept. *)
Definition deleteOne (r : LocalReason) (reasons : list LocalReason) : list LocalReason :=
  List.filter (fun x => negb (bool_decide (lr_id x = lr_id r))) reasons.

(** ** The index page's own state

    [q], [page] and [selected]: the search box sets the query and goes
    back to page 1, a row's checkbox sets its flag; nothing else changes
    [page]. *)
Record IndexState := mkIndexState {
  ix_q : string;
  ix_page : nat;
  ix_selected : gmap string bool
}.

Definition index_init : IndexState := mkIndexState "" 1 ∅.

Inductive IndexEvent :=
  | IxSearch (q : string)                (** [setQ(e.target.value); setPage(1)] *)
  | IxSelect (id : string) (b : bool).   (** [setSelected({ ...selected, [r.id]: checked })] *)

Definition index_step (s : IndexState) (e : IndexEvent) : IndexState :=
  match e with
  | IxSearch q => mkIndexState q 1 (ix_selected s)
  | IxSelect id b => mkIndexState (ix_q s) (ix_page s) (<[id := b]> (ix_selected s))
  end.

Inductive index_rel : IndexState -> IndexState -> Prop :=
  | index_rel_step s e : index_rel s (index_step s e).

(** The rows the table shows: [pageRows]. *)
Definition shown (reasons : list LocalReason) (s : IndexState) : list (LocalReason * nat) :=
  page_rows (ix_page s) (filtered (ix_q s) (tree reasons)).

(** ** The table's rows *)

(** ["— ".repeat(n)]: the em dash (UTF-8 bytes 226 128 148) and a space,
    [n] times. *)
Definition em_dash_space : string :=
  String (Ascii.ascii_of_nat 226) (String (Ascii.ascii_of_nat 128) (String (Ascii.ascii_of_nat 148) " ")).

Fixpoint str_repeat (s : string) (n : nat) : string :=
  match n with
  | 0 => ""
  | S n' => s +:+ str_repeat s n'
  end.

(** [r.depth ? "— ".repeat(r.depth) : ""]. *)
Definition depth_prefix (d : nat) : string :=
  if d =? 0 then "" else str_repeat em_dash_space d.

(** What a row of the table shows: its checkbox, the link's text, the
    slug's tag and the author; the date goes through [toLocaleString]
    (not modelled) and is kept as stored. *)
Record IndexRow := mkIndexRow {
  ir_id : string;
  ir_checked : bool;
  ir_label : string;
  ir_tag : string;
  ir_author : string;
  ir_date : string
}.

Definition index_row (selected : gmap string bool) (e : LocalReason * nat) : IndexRow :=
  let '(r, d) := e in
  mkIndexRow (lr_id r) (default false (selected !! lr_id r)) (depth_prefix d +:+ lr_title r)
    ("/" +:+ lr_slug r) "owner" (lr_date r).

(** [pageRows.map((r) => <tr>...</tr>)]. *)
Definition index_view (reasons : list LocalReason) (s : IndexState) : list IndexRow :=
  map (index_row (ix_selected s)) (shown reasons s).

(** ** The fuel of [walk] *)

Section fuel.
Context (reasons : list LocalReason).
Hypothesis ids_unique : NoDup (map lr_id reasons).
Hypothesis no_root_id : forall r, In r reasons -> lr_id r <> root_key.

(** A path of the walk, nearest reason first: distinct reasons of the
    list, each the child of the next, the last a child of the root. *)
Definition chain (B : list LocalReason) : Prop :=
  NoDup B /\ (forall b, In b B -> In b reasons) /\
  forall n e, B !! n = Some e ->
    parent_key e = match B !! S n with Some e' => lr_id e' | None => root_key end.

Definition top (B : list LocalReason) : string :=
  match B with [] => root_key | b :: _ => lr_id b end.

Lemma kids_spec pid r : In r (kids reasons pid) <-> In r reasons /\ parent_key r = pid.
Proof. unfold kids. rewrite filter_In. by rewrite bool_decide_eq_true. Qed.

(** A child of the top of a path is not on the path: its parent would be
    both the top and the reason after it. *)
Lemma chain_extend B r : chain B -> In r (kids reasons (top B)) -> chain (r :: B).
Proof.
  intros (Hnd & Hin & Hlink) [Hr Hp]%kids_spec. split; [|split].
  - constructor; [|done]. intros (n & Hn)%list_elem_of_lookup.
    pose proof (Hlink n r Hn) as Hl. rewrite Hp in Hl.
    destruct B as [|b0 B']; [done|]. cbn [top] in Hl.
    destruct ((b0 :: B') !! S n) as [e'|] eqn:E.
    + assert (e' = b0) as ->.
      { eapply (NoDup_map_eq lr_id reasons); [done| | |done]; apply list_elem_of_In;
          [apply Hin; eapply list_elem_of_In, list_elem_of_lookup_2, E|apply Hin; by left]. }
      pose proof (NoDup_lookup _ (S n) 0 b0 Hnd E eq_refl). done.
    + apply (no_root_id b0); [apply Hin; by left|done].
  - intros b [<-|Hb]; [done|by apply Hin].
  - intros [|n] e He; simpl in He.
    + injection He as <-. rewrite Hp. destruct B; done.
    + exact (Hlink n e He).
Qed.

Lemma chain_length B : chain B -> length B <= length reasons.
Proof.
  intros (Hnd & Hin & _). apply NoDup_incl_length; [by apply NoDup_ListNoDup|].
  intros b Hb. by apply Hin.
Qed.

(** Any fuel above the room left under a path gives the same walk. *)
Lemma walk_fuel f g B d :
  chain B -> length reasons < length B + f -> length reasons < length B + g ->
  walk f reasons (top B) d = walk g reasons (top B) d.
Proof.
  revert g B d. induction f as [|f IH]; intros g B d Hc Hf Hg;
    pose proof (chain_length B Hc); [lia|].
  destruct g as [|g]; [lia|]. cbn [walk].
  apply flat_map_ext_In. intros r Hr. f_equal.
  assert (In r (kids reasons (top B))) as Hk
    by (eapply Permutation_in; [apply sort_with_perm|exact Hr]).
  eapply (IH g (r :: B)); [by apply chain_extend|simpl; lia|simpl; lia].
Qed.

(** Every entry of a walk from the top of a path is a reason whose
    own path to the root is as long as its depth. *)
Lemma walk_chain f B d r d' :
  chain B -> length B = d -> In (r, d') (walk f reasons (top B) d) ->
  exists B', chain (r :: B') /\ length B' = d'.
Proof.
  revert B d. induction f as [|f IH]; intros B d Hc Hd Hin; [done|]. cbn [walk] in Hin.
  apply in_flat_map in Hin as (r0 & Hr0 & Hin).
  assert (In r0 (kids reasons (top B))) as Hk
    by (eapply Permutation_in; [apply sort_with_perm|exact Hr0]).
  destruct Hin as [[= <- <-]|Hin]; [exists B; split; [by apply chain_extend|done]|].
  apply (IH (r0 :: B) (S d)); [by apply chain_extend|cbn; lia|exact Hin].
Qed.

End fuel.

(** ** Properties of the reason index *)

Lemma all_chars_forallb p s : all_chars p s = forallb p (String.list_ascii_of_string s).
Proof. induction s as [|c s IH]; [done|]. simpl. by rewrite IH. Qed.

Lemma forallb_rev {A} (p : A -> bool) l : forallb p (rev l) = forallb p l.
Proof.
  induction l as [|x l IH]; [done|]. simpl. rewrite forallb_app, IH. simpl.
  by rewrite andb_true_r, andb_comm.
Qed.

Lemma all_chars_string_rev p s : all_chars p (string_rev s) = all_chars p s.
Proof.
  unfold string_rev. rewrite !all_chars_forallb, String.list_ascii_of_string_of_list_ascii.
  apply forallb_rev.
Qed.

Lemma all_chars_strip_dashes p s : all_chars p s = true -> all_chars p (strip_dashes s) = true.
Proof.
  induction s as [|c s IH]; [done|]. simpl. rewrite andb_true_iff. intros [Hc Hs].
  destruct (Ascii.eqb c "-"); [by apply IH|]. simpl. by rewrite Hc, Hs.
Qed.

Lemma replace_runs_slug_chars b s : all_chars slug_char (replace_runs b s) = true.
Proof.
  revert b. induction s as [|c s IH]; intros b; [done|]. simpl.
  destruct (slug_char c) eqn:E; [simpl; by rewrite E, IH|].
  destruct b; [apply IH|]. simpl. by rewrite IH.
Qed.

(** The suggested slug is empty or matches [/^[a-z0-9_-]+$/]. *)
Lemma suggest_slug_valid t : suggest_slug t = "" \/ slug_ok (suggest_slug t) = true.
Proof.
  destruct (suggest_slug t) as [|c s] eqn:E; [by left|right].
  unfold slug_ok. rewrite <- E. simpl. rewrite E. simpl js_truthy. rewrite <- E.
  unfold suggest_slug, strip_end_dashes.
  rewrite all_chars_string_rev. apply all_chars_strip_dashes.
  rewrite all_chars_string_rev. apply all_chars_strip_dashes, replace_runs_slug_chars.
Qed.

(** C39: the recursion of [tree] terminates within [length reasons + 1]
    levels when ids are unique and none is ["__root__"]: every walk
    follows distinct reasons, so any larger fuel gives the same list. *)
Theorem tree_fuel_enough reasons k :
  NoDup (map lr_id reasons) -> (forall r, In r reasons -> lr_id r <> root_key) ->
  walk (S (length reasons) + k) reasons root_key 0 = tree reasons.
Proof.
  intros Hu Hr. unfold tree. change root_key with (top []).
  apply (walk_fuel reasons Hu Hr); [|simpl; lia|simpl; lia].
  split; [constructor|]. split; [done|]. intros n e He. by destruct n.
Qed.

(** A reason and its child. *)
Definition ex_parent : LocalReason := mkLocalReason "r-p" "Animals" "animals" "owner" "d" None.
Definition ex_child : LocalReason := mkLocalReason "r-c" "Cats" "cats" "owner" "d" (Some "r-p").

Lemma tree_fuel_enough_witness :
  NoDup (map lr_id [ex_child; ex_parent]) /\
  (forall r, In r [ex_child; ex_parent] -> lr_id r <> root_key) /\
  walk (S (length [ex_child; ex_parent]) + 5) [ex_child; ex_parent] root_key 0 = tree [ex_child; ex_parent].
Proof.
  assert (NoDup (map lr_id [ex_child; ex_parent])) as H1 by (repeat constructor; set_solver).
  assert (forall r, In r [ex_child; ex_parent] -> lr_id r <> root_key) as H2
    by (intros r [<-|[<-|[]]]; discriminate).
  split; [exact H1|]. split; [exact H2|]. exact (tree_fuel_enough _ 5 H1 H2).
Defined.

(** C40: adding a reason whose title has two words fails: the suggested
    slug joins them with ["-"], which [reason:create] cannot provision
    ([reason_create_dash_error]), so the page alerts "Create failed" and
    the list is unchanged; the id sequence of the database has moved. *)
Theorem addNew_suggested_slug_fails db now t lang id date rs :
  js_truthy t = true -> String.length (suggest_slug t) <= 64 -> ~ char_free dash (suggest_slug t) ->
  exists e, addNew db now (Some t) (Some (suggest_slug t)) lang id date rs =
    (mkDb (reasons db) (S (reasons_id_seq db)) (rels db) (bc_catalogs db), rs, AddFailed (DbError e)).
Proof.
  intros Ht Hlen Hd.
  assert (slug_ok (suggest_slug t) = true) as Hok.
  { destruct (suggest_slug_valid t) as [E|]; [|done]. exfalso. apply Hd. rewrite E. apply char_free_empty. }
  unfold addNew. rewrite Ht.
  assert (js_truthy (suggest_slug t) = true) as ->
    by (unfold slug_ok in Hok; by apply andb_prop in Hok as [? _]).
  cbv zeta.
  set (lang' := match lang with Some l => if js_truthy l then l else "en" | None => "en" end).
  destruct (reason_create_dash_error db now (addNew_req (suggest_slug t) lang') (suggest_slug t))
    as [e He]; [done|done|done|done|].
  rewrite He. by exists e.
Qed.

Lemma addNew_suggested_slug_fails_witness :
  exists e, addNew db_init 1 (Some "Animal Words") (Some (suggest_slug "Animal Words")) None "r-1" "d" [] =
    (mkDb (reasons db_init) (S (reasons_id_seq db_init)) (rels db_init) (bc_catalogs db_init), [],
     AddFailed (DbError e)).
Proof.
  apply addNew_suggested_slug_fails; [reflexivity|vm_compute; lia|].
  intros H. apply (H 6). reflexivity.
Defined.

(** Deleting a reason keeps its children, which no longer hang under the
    root: they vanish from the page (and can no longer be opened or
    deleted from it) while they stay in the stored list. *)
Theorem deleteOne_hides_children :
  tree [ex_child; ex_parent] = [(ex_parent, 0); (ex_child, 1)] /\
  deleteOne ex_parent [ex_child; ex_parent] = [ex_child] /\
  tree (deleteOne ex_parent [ex_child; ex_parent]) = [].
Proof. vm_compute. repeat split. Qed.

(** C37: the index never leaves its first page: in every state the page
    reaches (searches, checkbox clicks) the page number is 1, so the
    table shows the first [perPage] = 20 entries of the filtered tree and
    never more; the entries after the 20th are never shown, although
    [totalPages] counts their pages. *)
Theorem index_shows_first_page reasons s :
  star index_rel index_init s ->
  ix_page s = 1 /\ shown reasons s = take perPage (filtered (ix_q s) (tree reasons)) /\
  length (shown reasons s) <= perPage.
Proof.
  intros Hs. assert (ix_page s = 1) as Hp.
  { eapply (star_invariant index_rel (fun s => ix_page s = 1)); [|exact Hs|done].
    intros s1 s2 Hr H. destruct Hr as [s0 e]. by destruct e. }
  unfold shown, page_rows. rewrite Hp. cbn [Nat.sub Nat.mul]. rewrite drop_0.
  split; [done|]. split; [done|]. rewrite length_take. lia.
Qed.

Lemma index_shows_first_page_witness :
  star index_rel index_init (index_step index_init (IxSearch "anim")) /\
  ix_page (index_step index_init (IxSearch "anim")) = 1 /\
  shown [ex_parent] (index_step index_init (IxSearch "anim")) =
    take perPage (filtered (ix_q (index_step index_init (IxSearch "anim"))) (tree [ex_parent])) /\
  length (shown [ex_parent] (index_step index_init (IxSearch "anim"))) <= perPage.
Proof.
  assert (star index_rel index_init (index_step index_init (IxSearch "anim"))) as H
    by (apply star_one; constructor).
  split; [exact H|]. exact (index_shows_first_page [ex_parent] _ H).
Defined.

Lemma shown_in_tree reasons s e : In e (shown reasons s) -> In e (tree reasons).
Proof.
  unfold shown, page_rows, filtered. intros He.
  apply list_elem_of_In, elem_of_take in He as (i & He & _). rewrite lookup_drop in He.
  apply list_elem_of_lookup_2, list_elem_of_In in He.
  destruct (negb _); [done|]. by apply filter_In in He as [He _].
Qed.

(** C38: Each row of the reason index shows its reason's title indented by
    one "— " per ancestor: the number of dashes is the length of a path
    of distinct reasons from the reason, parent by parent, up to the root
    (when ids are unique and none is "__root__"). *)
Theorem index_row_indent reasons s v :
  NoDup (map lr_id reasons) -> (forall r, In r reasons -> lr_id r <> root_key) ->
  In v (index_view reasons s) ->
  exists r B, chain reasons (r :: B) /\ ir_id v = lr_id r /\
    ir_label v = depth_prefix (length B) +:+ lr_title r.
Proof.
  intros Hu Hr Hv. apply in_map_iff in Hv as ([r d] & <- & He).
  apply shown_in_tree in He. unfold tree in He. change root_key with (top []) in He.
  destruct (walk_chain reasons Hu Hr (S (length reasons)) [] 0 r d) as (B & Hc & <-); [|done|exact He|].
  - split; [constructor|]. split; [done|]. intros n e' He'. by destruct n.
  - by exists r, B.
Qed.

Lemma index_row_indent_witness :
  let v := mkIndexRow "r-c" false (em_dash_space +:+ "Cats") "/cats" "owner" "d" in
  NoDup (map lr_id [ex_child; ex_parent]) /\
  (forall r, In r [ex_child; ex_parent] -> lr_id r <> root_key) /\
  In v (index_view [ex_child; ex_parent] index_init) /\
  exists r B, chain [ex_child; ex_parent] (r :: B) /\ ir_id v = lr_id r /\
    ir_label v = depth_prefix (length B) +:+ lr_title r.
Proof.
  intros v.
  assert (NoDup (map lr_id [ex_child; ex_parent])) as H1 by (apply (bool_decide_unpack _); vm_compute; reflexivity).
  assert (forall r, In r [ex_child; ex_parent] -> lr_id r <> root_key) as H2
    by (intros r [<-|[<-|[]]]; vm_compute; discriminate).
  assert (In v (index_view [ex_child; ex_parent] index_init)) as H3 by (vm_compute; right; left; reflexivity).
  split; [exact H1|]. split; [exact H2|]. split; [exact H3|].
  exact (index_row_indent [ex_child; ex_parent] index_init v H1 H2 H3).
Defined.
