(* ===== verification/Shell.v ===== *)
(** * The application shell

    [src/src/app/App.tsx]: the list of reasons and the id of the open
    reason, read from localStorage on start ([lf.reasons.v1], with the
    seed reason [dictionary] when absent, and [lf.activeReason.v1]) and
    written back by an effect after every change; the page shown is the
    reason index, or the detail page of the reason whose id is the
    active one.  [src/src/pages/ReasonDetail.tsx]: the four tabs of a
    reason's page and its Publish button, which posts the reason's slug
    to [/stage1/reason:publish] of [Stage1].

    Theorem: a reload shows the page that was shown, whatever happened
    before it (opening a reason, going back, the index changing the
    list), as long as the writes fit the quota. *)

From S2P Require Import Prelude JsString Json Storage Stage1 Reasons.

(** ** Reasons as JSON *)

(** A reason as the index creates it: [{ id, title, slug, author, date,
    parent }]. *)
Definition enc_reason (r : LocalReason) : json :=
  JObj [("id", JStr (lr_id r)); ("title", JStr (lr_title r)); ("slug", JStr (lr_slug r));
        ("author", JStr (lr_author r)); ("date", JStr (lr_date r));
        ("parent", match lr_parent r with Some p => JStr p | None => JNull end)].

(** A stored reason read back: fields that are not strings read as [""],
    a [parent] that is not a string as [null]. *)
Definition dec_reason (j : json) : LocalReason :=
  mkLocalReason (jstr (jget "id" j)) (jstr (jget "title" j)) (jstr (jget "slug" j))
    (jstr (jget "author" j)) (jstr (jget "date" j))
    (match jget "parent" j with Some (JStr p) => Some p | _ => None end).

Definition enc_reasons (rs : list LocalReason) : json := JArr (map enc_reason rs).
Definition dec_reasons (j : json) : list LocalReason :=
  match j with JArr l => map dec_reason l | _ => [] end.

Definition enc_active (a : option string) : json :=
  match a with Some s => JStr s | None => JNull end.
Definition dec_active (j : json) : option string :=
  match j with JStr s => Some s | _ => None end.

(** ** [App.tsx] *)

Record AppState := mkAppState {
  app_reasons : list LocalReason;
  app_active : option string;
  app_ls : Storage
}.

(** The seed: [{ id: "r-dictionary", title: "dictionary", slug:
    "dictionary", author: "owner", date, parent: null }]. *)
Definition seed (date : string) : list LocalReason :=
  [mkLocalReason "r-dictionary" "dictionary" "dictionary" "owner" date None].

(** The two effects: [writeJSON(REASONS_LS, reasons)] and
    [writeJSON(ACTIVE_REASON_LS, activeId)]. *)
Definition persist (rs : list LocalReason) (a : option string) (ls : Storage) : Storage :=
  writeJSON (writeJSON ls REASONS_LS (enc_reasons rs)) ACTIVE_REASON_LS (enc_active a).

(** Start: the two [useState] initialisers, then the effects. *)
Definition app_init (ls : Storage) (date : string) : AppState :=
  let rs := dec_reasons (readJSON ls REASONS_LS (enc_reasons (seed date))) in
  let a := dec_active (readJSON ls ACTIVE_REASON_LS JNull) in
  mkAppState rs a (persist rs a ls).

(** [reasons.find(r => r.id === activeId) || null]. *)
Definition active_reason (st : AppState) : option LocalReason :=
  find_first (fun r => bool_decide (Some (lr_id r) = app_active st)) (app_reasons st).

Inductive AppView :=
  | ViewIndex                    (** [<ReasonIndex>] *)
  | ViewDetail (r : LocalReason). (** [<ReasonDetail reason={active}>] *)

Definition app_view (st : AppState) : AppView :=
  match active_reason st with Some r => ViewDetail r | None => ViewIndex end.

Inductive AppEvent :=
  | AppOpen (r : LocalReason)            (** [openReason(r)]: [setActiveId(r.id)] *)
  | AppBack                              (** [onBack]: [setActiveId(null)] *)
  | AppSetReasons (rs : list LocalReason). (** [setReasons] from the index *)

Definition app_step (st : AppState) (e : AppEvent) : AppState :=
  let '(rs, a) := match e with
                  | AppOpen r => (app_reasons st, Some (lr_id r))
                  | AppBack => (app_reasons st, None)
                  | AppSetReasons rs => (rs, app_active st)
                  end in
  mkAppState rs a (persist rs a (app_ls st)).

(** ** [ReasonDetail.tsx] *)

Inductive Tab := TabBC | TabSeq | TabEntry | TabEntryFace.

(** The page a tab shows. *)
Inductive TabPage := PageBCEditor | PageSequences | PageEntry | PageEntryFace.

Definition tab_page (t : Tab) : TabPage :=
  match t with
  | TabBC => PageBCEditor
  | TabSeq => PageSequences
  | TabEntry => PageEntry
  | TabEntryFace => PageEntryFace
  end.

(** The tab a reason's page opens on. *)
Definition tab_init : Tab := TabBC.

Inductive PublishAlert :=
  | PublishedAlert                     (** "Published view refreshed!" *)
  | PublishFailed (e : ApiError).      (** [j.error || "Publish failed"] *)

(** [publishReason(reason.slug)]: the answer of [reason:publish]. *)
Definition publishReason (db : Db) (slug : string) : Db * PublishAlert :=
  match reason_publish db (Some slug) with
  | (db', ROk) => (db', PublishedAlert)
  | (db', RBadRequest e) => (db', PublishFailed e)
  | (db', _) => (db', PublishedAlert)
  end.

(** ** Lemmas *)

Lemma dec_enc_reasons rs : dec_reasons (enc_reasons rs) = rs.
Proof.
  induction rs as [|[i t s a d [p|]] rs IH]; [done| |]; cbn [enc_reasons dec_reasons map] in *;
    by rewrite IH.
Qed.

Lemma dec_enc_active a : dec_active (enc_active a) = a.
Proof. by destruct a. Qed.

(** Both effects' writes fit the quota. *)
Definition persist_fits (rs : list LocalReason) (a : option string) (ls : Storage) : Prop :=
  ls_size (<[REASONS_LS := stringify (enc_reasons rs)]> (ls_items ls)) <= ls_quota ls /\
  ls_size (<[ACTIVE_REASON_LS := stringify (enc_active a)]>
             (<[REASONS_LS := stringify (enc_reasons rs)]> (ls_items ls))) <= ls_quota ls.

Lemma persist_read rs a ls fb1 fb2 :
  persist_fits rs a ls ->
  readJSON (persist rs a ls) REASONS_LS fb1 = enc_reasons rs /\
  readJSON (persist rs a ls) ACTIVE_REASON_LS fb2 = enc_active a.
Proof.
  intros [H1 H2]. unfold persist.
  destruct (writeJSON_fits_items ls REASONS_LS (enc_reasons rs) H1) as [E1 Q1].
  split.
  - rewrite readJSON_writeJSON_other by done. by apply writeJSON_fits_read.
  - apply writeJSON_fits_read. by rewrite E1, Q1.
Qed.

(** ** Properties *)

(** C36: a reload shows the page that was shown: after any event of the
    shell (opening a reason, going back, the index replacing the list),
    when the two effects' writes fit the quota, starting the application
    again from localStorage gives the same reasons, the same active
    reason and so the same page, whatever the seed's date. *)
Theorem app_reload_restores st e date :
  let st' := app_step st e in
  persist_fits (app_reasons st') (app_active st') (app_ls st) ->
  app_reasons (app_init (app_ls st') date) = app_reasons st' /\
  app_active (app_init (app_ls st') date) = app_active st' /\
  app_view (app_init (app_ls st') date) = app_view st'.
Proof.
  intros st' Hfit.
  assert (app_ls st' = persist (app_reasons st') (app_active st') (app_ls st)) as Els
    by (subst st'; unfold app_step; by destruct e).
  unfold app_init. rewrite Els.
  destruct (persist_read _ _ _ (enc_reasons (seed date)) JNull Hfit) as [-> ->].
  rewrite dec_enc_reasons, dec_enc_active. cbn. split; [done|]. split; [done|].
  unfold app_view, active_reason. done.
Qed.

Lemma app_reload_restores_witness :
  let st := app_init (mkStorage ∅ 100000) "2025-01-01" in
  let st' := app_step st (AppOpen (mkLocalReason "r-dictionary" "dictionary" "dictionary" "owner" "2025-01-01" None)) in
  persist_fits (app_reasons st') (app_active st') (app_ls st) /\
  app_reasons (app_init (app_ls st') "2025-06-01") = app_reasons st' /\
  app_active (app_init (app_ls st') "2025-06-01") = app_active st' /\
  app_view (app_init (app_ls st') "2025-06-01") = app_view st'.
Proof.
  intros st st'.
  assert (persist_fits (app_reasons st') (app_active st') (app_ls st)) as H
    by (split; apply Nat.leb_le; vm_compute; reflexivity).
  split; [exact H|]. exact (app_reload_restores st _ "2025-06-01" H).
Defined.
