(* ===== verification/Persist.v ===== *)
(** * The entry pages through localStorage

    How the pages of a reason share their data: the Sequences page
    ([src/src/pages/Sequences.tsx]) keeps the saved paths under
    [LS.sequences], the B/C editor's quick-add
    ([quickAddWordsForRow] of [src/src/pages/BCEditor.tsx]) reads them
    with [LS.entry] and [LS.catalog] and writes [LS.entry] back, the Entry
    page ([src/src/pages/Entry.tsx]) and the Entry-Face page
    ([src/src/pages/EntryFace.tsx]) read all three on mount, the Entry
    page writes its toggles back, and Entry-Face turns the store into the
    CSV of its "Export CSV" button.

    The values are the JSON values of [Json.v] written with [writeJSON]
    and read with [readJSON] of [Storage.v]: a store
    [Record<seqKey, Block[]>] as an object, a path list as an array of
    arrays of strings.  The decoders read what the pages write; a field
    of another type reads as the default of its model ([0], [""], no
    decimal, not excluded).  One difference in the text: [toggleRowDb]
    writes [dbSkipRow: false] where the encoder below leaves the field
    out, which both decode alike. *)

From S2P Require Import Prelude JsString Json Storage Catalog Sequences EntryModel Identifier Export EntryOps Stage1 CatalogSync Reasons Shell.

(** ** Codecs *)

Definition jnum (o : option json) : nat := match o with Some (JNum n) => n | _ => 0 end.

(** A row as the pages create it: [{ tokenIndex, token, block, dec,
    output }] with [dbSkipRow] appended by a toggle; [dec: undefined]
    is left out by [JSON.stringify]. *)
Definition enc_block_row (r : BlockRow.t) : json :=
  JObj ([("tokenIndex", JNum (BlockRow.tokenIndex r)); ("token", JStr (BlockRow.token r));
         ("block", JNum (BlockRow.block r))] ++
        match BlockRow.dec r with Some d => [("dec", JNum d)] | None => [] end ++
        [("output", JStr (BlockRow.output r))] ++
        (if BlockRow.dbSkipRow r then [("dbSkipRow", JBool true)] else [])).

(** [r.dbSkipRow] read for its truthiness, [r.dec] as a number or
    [undefined]. *)
Definition dec_block_row (j : json) : BlockRow.t :=
  BlockRow.mk (jnum (jget "tokenIndex" j)) (jstr (jget "token" j)) (jnum (jget "block" j))
    (match jget "dec" j with Some (JNum d) => Some d | _ => None end)
    (jstr (jget "output" j))
    (match jget "dbSkipRow" j with Some (JBool b) => b | _ => false end).

Definition enc_block (b : Block.t) : json :=
  JObj [("block", JNum (Block.block b)); ("rows", JArr (map enc_block_row (Block.rows b)))].

Definition dec_block (j : json) : Block.t :=
  Block.mk (jnum (jget "block" j))
    (match jget "rows" j with Some (JArr l) => map dec_block_row l | _ => [] end).

Definition enc_blocks (bs : list Block.t) : json := JArr (map enc_block bs).

(** [Array.isArray(existing[seqKey]) ? existing[seqKey].slice() : []]. *)
Definition dec_blocks (j : json) : list Block.t :=
  match j with JArr l => map dec_block l | _ => [] end.

(** The store object: one member per sequence key. *)
Definition enc_store (s : EntryStore) : json :=
  JObj (map (fun kv => (kv.1, enc_blocks kv.2)) (map_to_list s)).

(** [readJSON(LS.entry, {})] used as a record: of duplicate members the
    last one counts, as in [JSON.parse]. *)
Definition dec_store (j : json) : EntryStore :=
  match j with
  | JObj l => list_to_map (rev (map (fun kv => (kv.1, dec_blocks kv.2)) l))
  | _ => ∅
  end.

Definition enc_seqs (ps : list (list string)) : json := JArr (map (fun p => JArr (map JStr p)) ps).

(** [readJSON(LS.sequences, [])] as [string[][]]. *)
Definition dec_seqs (j : json) : list (list string) :=
  match j with
  | JArr l => map (fun p => match p with JArr xs => map (fun x => jstr (Some x)) xs | _ => [] end) l
  | _ => []
  end.

(** ** The shape of a stored entry store *)

(** A number, a string, or a boolean field; an optional one may be
    missing. *)
Definition is_num (o : option json) : bool := match o with Some (JNum _) => true | _ => false end.
Definition is_str (o : option json) : bool := match o with Some (JStr _) => true | _ => false end.
Definition opt_num (o : option json) : bool := match o with None | Some (JNum _) => true | _ => false end.
Definition opt_bool (o : option json) : bool := match o with None | Some (JBool _) => true | _ => false end.

(** A value of the type [BlockRow] of [EntryFace.tsx]. *)
Definition row_shape (j : json) : bool :=
  match j with
  | JObj _ => is_num (jget "tokenIndex" j) && is_str (jget "token" j) && is_num (jget "block" j) &&
              opt_num (jget "dec" j) && is_str (jget "output" j) && opt_bool (jget "dbSkipRow" j)
  | _ => false
  end.

(** A value of the type [Block]. *)
Definition block_shape (j : json) : bool :=
  match j with
  | JObj _ => is_num (jget "block" j) &&
              match jget "rows" j with Some (JArr l) => forallb row_shape l | _ => false end
  | _ => false
  end.

(** A value of the type [Record<string, Block[]>]. *)
Definition store_shape (j : json) : bool :=
  match j with
  | JObj l => forallb (fun kv => match kv.2 with JArr bs => forallb block_shape bs | _ => false end) l
  | _ => false
  end.

(** ** Codec lemmas *)

Lemma dec_enc_block_row r : dec_block_row (enc_block_row r) = r.
Proof. by destruct r as [? ? ? [d|] ? []]. Qed.

Lemma dec_enc_block b : dec_block (enc_block b) = b.
Proof.
  destruct b as [n rows].
  transitivity (Block.mk n (map dec_block_row (map enc_block_row rows))); [reflexivity|].
  rewrite map_map. erewrite map_ext; [by rewrite map_id|]. apply dec_enc_block_row.
Qed.

Lemma dec_enc_blocks bs : dec_blocks (enc_blocks bs) = bs.
Proof.
  unfold dec_blocks, enc_blocks. rewrite map_map.
  erewrite map_ext; [apply map_id|]. apply dec_enc_block.
Qed.

Lemma dec_enc_store s : dec_store (enc_store s) = s.
Proof.
  unfold dec_store, enc_store.
  assert (map (fun kv => (kv.1, dec_blocks kv.2)) (map (fun kv => (kv.1, enc_blocks kv.2))
            (map_to_list s)) = map_to_list s) as ->.
  { rewrite map_map. rewrite <- (map_id (map_to_list s)) at 2. apply map_ext.
    intros [k v]. cbn -[dec_blocks enc_blocks]. by rewrite dec_enc_blocks. }
  rewrite <- (list_to_map_to_list s) at 2.
  apply list_to_map_proper; [|symmetry; apply Permutation_rev].
  rewrite <- Permutation_rev. apply NoDup_fst_map_to_list.
Qed.

Lemma dec_enc_seqs ps : dec_seqs (enc_seqs ps) = ps.
Proof.
  unfold dec_seqs, enc_seqs. rewrite map_map.
  erewrite map_ext; [apply map_id|]. intros p. cbn. rewrite map_map. apply map_id.
Qed.

Lemma row_shape_enc r : row_shape (enc_block_row r) = true.
Proof. by destruct r as [? ? ? [d|] ? []]. Qed.

Lemma block_shape_enc b : block_shape (enc_block b) = true.
Proof.
  destruct b as [n rows].
  change (forallb row_shape (map enc_block_row rows) = true). apply forallb_forall. intros j (r & <- & _)%in_map_iff.
  apply row_shape_enc.
Qed.

Lemma store_shape_enc s : store_shape (enc_store s) = true.
Proof.
  apply forallb_forall. intros kv ([k bs] & <- & _)%in_map_iff. cbn.
  apply forallb_forall. intros j (b & <- & _)%in_map_iff. apply block_shape_enc.
Qed.

(** ** The pages of one reason *)

(** The write of [v] under [k] fits the quota. *)
Definition ls_fits (ls : Storage) (k : string) (v : json) : Prop :=
  ls_size (<[k := stringify v]> (ls_items ls)) <= ls_quota ls.

Section pages.
Variable slug : string.

(** [readJSON(LS.sequences, [])], [readJSON(LS.catalog, [])] and
    [readJSON(LS.entry, {})]: the mount reads of the pages and the reads
    of [quickAddWordsForRow]. *)
Definition read_seqs (ls : Storage) : list (list string) :=
  dec_seqs (readJSON ls (Storage.sequences (LS_FOR slug)) (JArr [])).
Definition read_catalog (ls : Storage) : list CatalogRow :=
  dec_catalog (readJSON ls (catalog (LS_FOR slug)) (JArr [])).
Definition read_store (ls : Storage) : EntryStore :=
  dec_store (readJSON ls (entry (LS_FOR slug)) (JObj [])).

(** [writeJSON(LS.entry, store)]. *)
Definition store_write (ls : Storage) (store : EntryStore) : Storage :=
  writeJSON ls (entry (LS_FOR slug)) (enc_store store).

(** [Sequences.tsx]: the effect [writeJSON(LS.sequences, sequences)],
    which [commit] also performs, after every change of the page. *)
Definition seq_persist (ls : Storage) (st : SeqPage) : Storage :=
  writeJSON ls (Storage.sequences (LS_FOR slug)) (enc_seqs (sequences st)).

(** [quickAddWordsForRow] of [BCEditor.tsx] with its reads and its write:
    the store is written back only on the branch that adds blocks. *)
Definition quickAdd_ls (ls : Storage) (bKey : string) (input : option string)
    : Storage * option QuickAlert :=
  let '(store, a) := quickAddWordsForRow bKey input (read_seqs ls) (read_catalog ls) (read_store ls) in
  match a with
  | Some (AddedAlert _ _) => (store_write ls store, a)
  | _ => (ls, a)
  end.

(** The write of [quickAdd_ls] fits the quota. *)
Definition quickAdd_fits (ls : Storage) (bKey : string) (input : option string) : Prop :=
  ls_fits ls (entry (LS_FOR slug))
    (enc_store (quickAddWordsForRow bKey input (read_seqs ls) (read_catalog ls) (read_store ls)).1).

(** [seqModels] of [Entry.tsx] and [EntryFace.tsx] on the catalog and
    sequences read at mount. *)
Definition seq_models (ls : Storage) : list SeqModel :=
  map (seq_model (catalogMap (read_catalog ls))) (read_seqs ls).

(** *** [Entry.tsx] *)

Record EntryPage := mkEntryPage {
  en_models : list SeqModel;
  en_store : EntryStore;
  en_preview : option string
}.

(** Mount: the three reads, then the effect writing the store back. *)
Definition entry_mount (ls : Storage) : EntryPage * Storage :=
  (mkEntryPage (seq_models ls) (read_store ls) None, store_write ls (read_store ls)).

(** A click on a row's button: [setStore] with [toggleRowDb], whose
    updater writes the new store itself; the effect on [store] writes it
    again.  The updater returns [prev] (no new state, no effect) exactly
    when it finds no block or no row, and otherwise flips a flag, so the
    new store differs from the old one. *)
Definition entry_toggle (p : EntryPage) (ls : Storage) (k : string) (blockNum rowIndex : nat)
    : EntryPage * Storage :=
  let next := toggleRowDb k blockNum rowIndex (en_store p) in
  if bool_decide (next = en_store p) then (p, ls)
  else (mkEntryPage (en_models p) next (en_preview p), store_write (store_write ls next) next).

(** [setShowPreview(p => p === seqKey ? null : seqKey)]. *)
Definition entry_preview_click (p : EntryPage) (k : string) : EntryPage :=
  mkEntryPage (en_models p) (en_store p)
    (if bool_decide (en_preview p = Some k) then None else Some k).

End pages.

(** *** The block listing of [Entry.tsx] *)

Section listing.
Context (PLACEHOLDER : string).

(** One line of a block: the token label, [block.dec], the identifier,
    the exclusion flag, and the row's index in [block.rows], which the
    button passes to [toggleRowDb]. *)
Record RowView := mkRowView {
  rv_label : string;
  rv_block : nat;
  rv_dec : option nat;
  rv_id : string;
  rv_skip : bool;
  rv_idx : nat
}.

(** [tokenLabel = (row.tokenIndex === 0 && first) ? first : row.token]. *)
Definition row_view (tokens : list string) (first : option string) (ir : nat * BlockRow.t)
    : RowView :=
  let '(idx, r) := ir in
  let label := match first with
               | Some f => if (BlockRow.tokenIndex r =? 0) && js_truthy f then f else BlockRow.token r
               | None => BlockRow.token r
               end in
  mkRowView label (BlockRow.block r) (BlockRow.dec r)
    (makeId_entry tokens (BlockRow.tokenIndex r) (BlockRow.block r) (BlockRow.dec r) first)
    (BlockRow.dbSkipRow r) idx.

(** The rows with their index ([{ ...r, idx }]), grouped by token index
    ([grouped]), the groups in ascending order, each sorted by decimal
    ([a.dec - z.dec]; a row of this page always has one, a missing one
    is read as [1]). *)
Definition block_view (tokens : list string) (b : Block.t) : list RowView :=
  let indexed := imap pair (Block.rows b) in
  let first := headwordOverride PLACEHOLDER b in
  flat_map (fun k => map (row_view tokens first)
                       (sort_by_key (fun ir => dec_or_1 ir.2)
                          (List.filter (fun ir => BlockRow.tokenIndex ir.2 =? k) indexed)))
           (sort_by_key (fun k => k) (first_keys (fun ir => BlockRow.tokenIndex ir.2) indexed)).

(** [seqModels.find(m => m.seqKey === seqKey)!.tokens]. *)
Definition model_tokens (models : list SeqModel) (k : string) : list string :=
  default [] (tokens <$> find_first (fun m => bool_decide (seqKey m = k)) models).

(** The counts shown above a block: rows, included, excluded
    ([r.dbSkipRow === true ? excluded++ : included++]). *)
Definition block_stats (b : Block.t) : nat * nat * nat :=
  (length (Block.rows b), length (List.filter (fun r => negb (BlockRow.dbSkipRow r)) (Block.rows b)),
   length (List.filter BlockRow.dbSkipRow (Block.rows b))).

(** The page: for every sequence model the preview when it is open
    ([showPreview === seqKey]), and its blocks, each with its counts and
    its lines. *)
Definition entry_view (p : EntryPage)
    : list (SeqModel * option (list (string * string)) * list (nat * nat * nat * list RowView)) :=
  map (fun sm =>
         (sm,
          (if bool_decide (en_preview p = Some (seqKey sm))
           then Some (previewRows PLACEHOLDER (en_store p) (seqKey sm) (tokens sm)) else None),
          map (fun b => (block_stats b, block_view (model_tokens (en_models p) (seqKey sm)) b))
              (default [] (en_store p !! seqKey sm))))
      (en_models p).

End listing.

(** *** [EntryFace.tsx] and its "Export CSV" *)

Section entryface.
Variable slug : string.
Context (PLACEHOLDER : string).

(** Mount: the three reads and the effect writing the store back. *)
Definition entryface_mount (ls : Storage) : list SeqModel * EntryStore * Storage :=
  (seq_models slug ls, read_store slug ls, store_write slug ls (read_store slug ls)).

(** [rows = collectPairs(store?.[seqKey] || [], tokens)]. *)
Definition face_rows (store : EntryStore) (sm : SeqModel) : list (string * string) :=
  collectPairs PLACEHOLDER (default [] (store !! seqKey sm)) (tokens sm).

(** [String(x).replace(/.../g, ...)] of the button: every quote
    character of the cell doubled. *)
Fixpoint csv_escape (s : string) : string :=
  match s with
  | EmptyString => EmptyString
  | String c s' =>
      if Ascii.eqb c quote_char then String quote_char (String quote_char (csv_escape s'))
      else String c (csv_escape s')
  end.

(** A cell in quotes. *)
Definition csv_cell (x : string) : string :=
  String quote_char (csv_escape x +:+ String quote_char EmptyString).

Definition csv_line (p : string * string) : string := join "," [csv_cell p.1; csv_cell p.2].

Definition csv_header : string := join "," ["identifiercode"; "output value"].

(** The text: the header and one line per pair, joined by a line feed. *)
Definition entry_csv (rows : list (string * string)) : string :=
  join (String newline EmptyString) (csv_header :: map csv_line rows).

(** The button: [downloadBlob(`${slug}-entry.csv`, csv, ...)], as the
    file's name and text. *)
Definition export_csv_click (store : EntryStore) (sm : SeqModel) : string * string :=
  (slug +:+ "-entry.csv", entry_csv (face_rows store sm)).

End entryface.

(** ** Reading CSV back

    A reader of the CSV format of RFC 4180 (the format spreadsheet
    programs read): a quote opens a quoted field, in which a doubled
    quote stands for one quote and commas and line feeds are text; a
    comma ends a field and a line feed a record.  [cell] holds the
    characters of the current field in reverse, [row] the fields of the
    current record in reverse. *)
Fixpoint csv_go (s : string) (quoted : bool) (cell : list ascii) (row : list string)
    : list (list string) :=
  match s with
  | EmptyString => [rev (String.string_of_list_ascii (rev cell) :: row)]
  | String c s' =>
      if quoted then
        if Ascii.eqb c quote_char then
          match s' with
          | String c2 s'' =>
              if Ascii.eqb c2 quote_char then csv_go s'' true (quote_char :: cell) row
              else csv_go s' false cell row
          | EmptyString => csv_go s' false cell row
          end
        else csv_go s' true (c :: cell) row
      else if Ascii.eqb c quote_char then csv_go s' true cell row
      else if Ascii.eqb c ","%char then csv_go s' false [] (String.string_of_list_ascii (rev cell) :: row)
      else if Ascii.eqb c newline then
        rev (String.string_of_list_ascii (rev cell) :: row) :: csv_go s' false [] []
      else csv_go s' false (c :: cell) row
  end.

Definition csv_read (s : string) : list (list string) := csv_go s false [] [].

(** ** Lemmas on the CSV text *)

Lemma csv_quoted_cell x rest cell row :
  (forall s, rest <> String quote_char s) ->
  csv_go (csv_escape x +:+ String quote_char rest) true cell row =
  csv_go rest false (rev (String.list_ascii_of_string x) ++ cell) row.
Proof.
  intros Hrest. revert cell. induction x as [|c x IH]; intros cell.
  - cbn [csv_escape]. rewrite append_empty_l. cbn [csv_go]. rewrite Ascii.eqb_refl.
    destruct rest as [|c2 s]; [done|].
    destruct (Ascii.eqb_spec c2 quote_char) as [->|_]; [by destruct (Hrest s)|done].
  - cbn [csv_escape String.list_ascii_of_string rev]. rewrite <- app_assoc.
    destruct (Ascii.eqb_spec c quote_char) as [->|Hc].
    + rewrite !append_String. cbn [csv_go]. rewrite Ascii.eqb_refl. apply IH.
    + rewrite append_String. cbn [csv_go]. apply Ascii.eqb_neq in Hc. rewrite Hc. apply IH.
Qed.

Lemma csv_cell_read x rest cell row :
  (forall s, rest <> String quote_char s) ->
  csv_go (csv_cell x +:+ rest) false cell row =
  csv_go rest false (rev (String.list_ascii_of_string x) ++ cell) row.
Proof.
  intros Hrest. unfold csv_cell. rewrite append_String, append_assoc_str, append_char.
  apply csv_quoted_cell, Hrest.
Qed.

Lemma string_of_rev_rev x :
  String.string_of_list_ascii (rev (rev (String.list_ascii_of_string x) ++ [])) = x.
Proof. by rewrite app_nil_r, rev_involutive, String.string_of_list_ascii_of_string. Qed.

Lemma csv_line_read p tail row :
  (forall s, tail <> String quote_char s) ->
  csv_go (csv_line p +:+ tail) false [] row =
  csv_go tail false (rev (String.list_ascii_of_string p.2) ++ []) (p.1 :: row).
Proof.
  intros Htail. unfold csv_line. cbn [join]. rewrite !append_assoc_str.
  rewrite csv_cell_read by done. rewrite append_char. cbn [csv_go].
  change (Ascii.eqb "," quote_char) with false. rewrite Ascii.eqb_refl, string_of_rev_rev.
  apply csv_cell_read, Htail.
Qed.

Lemma csv_lines_read p ps :
  csv_go (join (String newline EmptyString) (map csv_line (p :: ps))) false [] [] =
  map (fun q => [q.1; q.2]) (p :: ps).
Proof.
  revert p. induction ps as [|q ps IH]; intros p.
  - cbn [map join]. rewrite <- (append_empty_r (csv_line p)), csv_line_read by done.
    cbn. by rewrite string_of_rev_rev.
  - cbn [map]. rewrite join_cons2, append_char, csv_line_read by done.
    cbn [csv_go]. rewrite string_of_rev_rev. cbn [rev app]. f_equal. apply (IH q).
Qed.

(** Reading the export back gives the header and the pairs. *)
Lemma csv_read_entry_csv rows :
  csv_read (entry_csv rows) = ["identifiercode"; "output value"] :: map (fun p => [p.1; p.2]) rows.
Proof.
  destruct rows as [|p ps]; [reflexivity|].
  unfold csv_read, entry_csv. cbn [map]. rewrite join_cons2.
  transitivity (["identifiercode"; "output value"] ::
                csv_go (join (String newline EmptyString) (map csv_line (p :: ps))) false [] []);
    [reflexivity|].
  by rewrite csv_lines_read.
Qed.

(** ** Lemmas on the stored values *)

Lemma ls_kind_ne s k1 k2 : k1 <> k2 -> ls_key s k1 <> ls_key s k2.
Proof. intros Hk H. by apply ls_key_inj in H as [_ ?]. Qed.

(** Two keys of one reason's [LS_FOR] of different kinds differ. *)
Ltac ls_key_ne :=
  first [ apply (ls_kind_ne _ KCatalog KSequences) | apply (ls_kind_ne _ KCatalog KEntry)
        | apply (ls_kind_ne _ KSequences KCatalog) | apply (ls_kind_ne _ KSequences KEntry)
        | apply (ls_kind_ne _ KEntry KCatalog) | apply (ls_kind_ne _ KEntry KSequences) ];
  discriminate.

Section reads.
Variable slug : string.

Lemma seq_persist_reads ls st :
  ls_fits ls (Storage.sequences (LS_FOR slug)) (enc_seqs (sequences st)) ->
  read_seqs slug (seq_persist slug ls st) = sequences st /\
  read_catalog slug (seq_persist slug ls st) = read_catalog slug ls /\
  read_store slug (seq_persist slug ls st) = read_store slug ls.
Proof.
  intros Hfit. unfold read_seqs, read_catalog, read_store, seq_persist.
  rewrite writeJSON_fits_read, dec_enc_seqs by done.
  rewrite !readJSON_writeJSON_other by ls_key_ne. done.
Qed.

Lemma store_write_reads ls store :
  ls_fits ls (entry (LS_FOR slug)) (enc_store store) ->
  read_seqs slug (store_write slug ls store) = read_seqs slug ls /\
  read_catalog slug (store_write slug ls store) = read_catalog slug ls /\
  read_store slug (store_write slug ls store) = store.
Proof.
  intros Hfit. unfold read_seqs, read_catalog, read_store, store_write.
  rewrite writeJSON_fits_read, dec_enc_store by done.
  rewrite !readJSON_writeJSON_other by ls_key_ne. done.
Qed.

End reads.

(** ** Lemmas on the quick-added blocks *)

Lemma add_words_prefix m path words bs : bs `prefix_of` fold_left (add_word m path) words bs.
Proof.
  revert bs. induction words as [|w words IH]; intros bs; [done|]. cbn [fold_left].
  etrans; [|apply IH]. unfold add_word. by eexists.
Qed.

Lemma add_words_for_path_prefix m words s p k :
  default [] (s !! k) `prefix_of` default [] (add_words_for_path m words s p !! k).
Proof.
  unfold add_words_for_path. destruct (decide (k = join "|" p)) as [->|Hne].
  - rewrite lookup_insert_eq. apply add_words_prefix.
  - by rewrite lookup_insert_ne by done.
Qed.

Lemma fold_paths_prefix m words starting s k :
  default [] (s !! k) `prefix_of` default [] (fold_left (add_words_for_path m words) starting s !! k).
Proof.
  revert s. induction starting as [|p starting IH]; intros s; [done|]. cbn [fold_left].
  etrans; [apply add_words_for_path_prefix|apply IH].
Qed.

Lemma add_words_contains m path words bs w :
  In w words -> exists nb, In (quick_block m path nb w) (fold_left (add_word m path) words bs).
Proof.
  revert bs. induction words as [|w' words IH]; intros bs Hw; [done|]. cbn [fold_left].
  destruct Hw as [<-|Hw]; [|by apply IH].
  exists (next_block bs). apply list_elem_of_In. eapply elem_of_prefix; [|apply add_words_prefix].
  apply list_elem_of_In, in_or_app. by right; left.
Qed.

(** A word of a quick-add gets a block in the store of every starting
    path, whatever the other iterations add. *)
Lemma fold_paths_contains m words starting s p w :
  In p starting -> In w words ->
  exists nb, In (quick_block m p nb w)
    (default [] (fold_left (add_words_for_path m words) starting s !! join "|" p)).
Proof.
  revert s. induction starting as [|p' starting IH]; intros s Hp Hw; [done|]. cbn [fold_left].
  destruct Hp as [->|Hp]; [|by apply IH].
  destruct (add_words_contains m p words (default [] (s !! join "|" p)) w Hw) as [nb Hin].
  exists nb. apply list_elem_of_In. eapply elem_of_prefix; [|apply fold_paths_prefix].
  unfold add_words_for_path. rewrite lookup_insert_eq. by apply list_elem_of_In.
Qed.

(** A quick-added block in a sequence's store exports its word. *)
Lemma quick_block_exported P m bk rest nb w blocks tokens :
  isFilledOutput P w = true -> In (quick_block m (bk :: rest) nb w) blocks ->
  In (w, w) (collectPairs P blocks tokens).
Proof.
  intros Hw Hb. eapply Permutation_in; [symmetry; apply collectPairs_rows|].
  apply in_flat_map. eexists; split; [exact Hb|]. rewrite quick_block_headword by done.
  apply in_flat_map. eexists; split; [by left|].
  apply export_row_spec. cbn. by rewrite Hw.
Qed.

Lemma quickAdd_added bKey w path seqs cat store :
  parseWords w = [w] -> In path seqs -> head path = Some bKey ->
  let starting := List.filter (fun p => bool_decide (head p = Some bKey)) seqs in
  quickAddWordsForRow bKey (Some w) seqs cat store =
    (fold_left (add_words_for_path (catalogMap cat) [w]) starting store,
     Some (AddedAlert 1 (length starting))).
Proof.
  intros Hwords Hin Hhead starting. unfold quickAddWordsForRow. rewrite Hwords.
  rewrite bool_decide_eq_false_2 by done. fold starting.
  rewrite bool_decide_eq_false_2; [done|]. intros Hnil.
  assert (In path starting) as Hp by (apply filter_In; split; [done|by apply bool_decide_eq_true_2]).
  by rewrite Hnil in Hp.
Qed.

(** ** Properties *)

(** C26: a headword quick-added in the B/C editor reaches the CSV of
    Entry-Face: when the Sequences page has saved a path starting at the
    row and both writes fit the quota, the Entry-Face page mounted
    afterwards lists the path's sequence, and reading its exported CSV
    back gives the line [w, w] for the word. *)
Theorem quickAdd_reaches_entryface_csv P slug ls st bKey rest w :
  In (bKey :: rest) (sequences st) -> parseWords w = [w] -> isFilledOutput P w = true ->
  ls_fits ls (Storage.sequences (LS_FOR slug)) (enc_seqs (sequences st)) ->
  quickAdd_fits slug (seq_persist slug ls st) bKey (Some w) ->
  let ls' := (quickAdd_ls slug (seq_persist slug ls st) bKey (Some w)).1 in
  exists sm, In sm (seq_models slug ls') /\ seqKey sm = join "|" (bKey :: rest) /\
    In [w; w] (csv_read (export_csv_click slug P (read_store slug ls') sm).2).
Proof.
  intros Hin Hwords Hw Hfit1 Hfit2. cbv zeta.
  destruct (seq_persist_reads slug ls st Hfit1) as (Hs1 & _ & _).
  unfold quickAdd_fits in Hfit2. unfold quickAdd_ls.
  rewrite Hs1 in Hfit2 |- *. rewrite (quickAdd_added bKey w (bKey :: rest)) in Hfit2 |- * by done.
  cbv beta iota zeta in Hfit2 |- *. cbn [fst] in Hfit2 |- *.
  destruct (store_write_reads slug _ _ Hfit2) as (Hs2 & _ & ->). unfold seq_models. rewrite Hs2, Hs1.
  eexists; split; [apply in_map, Hin|]. split; [done|].
  unfold export_csv_click. cbn [snd]. rewrite csv_read_entry_csv. right.
  apply in_map_iff. exists (w, w). split; [done|].
  destruct (fold_paths_contains (catalogMap (read_catalog slug (seq_persist slug ls st))) [w]
              (List.filter (fun p => bool_decide (head p = Some bKey)) (sequences st))
              (read_store slug (seq_persist slug ls st)) (bKey :: rest) w) as [nb Hnb].
  - apply filter_In. split; [done|by apply bool_decide_eq_true_2].
  - by left.
  - eapply quick_block_exported; [exact Hw|exact Hnb].
Qed.

(** ** The entry store the pages write *)

(** Every row carries the number of its block, as the rows
    [quickAddWordsForRow] creates do. *)
Definition rows_numbered (bs : list Block.t) : Prop :=
  Forall (fun b => Forall (fun r => BlockRow.block r = Block.block b) (Block.rows b)) bs.

Definition store_ok (s : EntryStore) : Prop :=
  map_Forall (fun _ bs => blocks_incr bs /\ rows_numbered bs) s.

(** The writers of the store: a quick-add of the B/C editor, a toggle of
    the Entry page. *)
Inductive store_step : EntryStore -> EntryStore -> Prop :=
  | store_quickAdd bKey input seqs cat s : store_step s (quickAddWordsForRow bKey input seqs cat s).1
  | store_toggle k blockNum rowIndex s : store_step s (toggleRowDb k blockNum rowIndex s).

Lemma quick_block_numbered m path nb w :
  Forall (fun r => BlockRow.block r = nb) (Block.rows (quick_block m path nb w)).
Proof. apply Forall_forall. by intros r (i & y & -> & _)%elem_of_lookup_imap_1. Qed.

Lemma add_words_numbered m path words bs :
  rows_numbered bs -> rows_numbered (fold_left (add_word m path) words bs).
Proof.
  revert bs. induction words as [|w words IH]; intros bs H; [done|]. apply IH.
  apply Forall_app. split; [done|]. repeat constructor. apply quick_block_numbered.
Qed.

Lemma add_words_for_path_ok m words s path :
  store_ok s -> store_ok (add_words_for_path m words s path).
Proof.
  intros H. apply map_Forall_insert_2; [|done].
  destruct (s !! join "|" path) as [bs|] eqn:E; cbn [default id].
  - destruct (map_Forall_lookup_1 _ _ _ _ H E).
    split; [by apply add_words_incr|by apply add_words_numbered].
  - split; [apply add_words_incr; split; constructor|apply add_words_numbered; constructor].
Qed.

Lemma quickAdd_ok bKey input seqs cat s :
  store_ok s -> store_ok (quickAddWordsForRow bKey input seqs cat s).1.
Proof.
  intros H. unfold quickAddWordsForRow. repeat case_match; try done. cbn [fst].
  clear - H. revert s H. induction (List.filter _ seqs) as [|p ps IH]; intros s H; [done|].
  apply IH, add_words_for_path_ok, H.
Qed.

Lemma map_insert_list {A B} (f : A -> B) (l : list A) i x :
  map f (<[i := x]> l) = <[i := f x]> (map f l).
Proof. revert i. induction l as [|y l IH]; intros [|i]; cbn; f_equal; auto. Qed.

Lemma toggle_ok k blockNum rowIndex s :
  store_ok s -> store_ok (toggleRowDb k blockNum rowIndex s).
Proof.
  intros H. destruct (toggleRowDb_cases k blockNum rowIndex s)
    as [-> | (list & bi & b & row & Ek & _ & Eb & Er & ->)]; [done|].
  destruct (map_Forall_lookup_1 _ _ _ _ H Ek) as [[Hs Hp] Hn].
  apply map_Forall_insert_2; [|done]. split; [split|].
  - rewrite map_insert_list. cbn [Block.block]. rewrite list_insert_id; [done|].
    by rewrite list_lookup_fmap, Eb.
  - rewrite map_insert_list, list_insert_id; [done|]. by rewrite list_lookup_fmap, Eb.
  - apply Forall_insert; [done|]. cbn [Block.rows Block.block].
    pose proof (Forall_lookup_1 _ _ _ _ Hn Eb) as Hb.
    apply Forall_insert; [done|]. exact (Forall_lookup_1 _ _ _ _ Hb Er).
Qed.

Lemma store_reachable_ok s : star store_step ∅ s -> store_ok s.
Proof.
  intros Hr. eapply (star_invariant store_step store_ok); [|exact Hr|apply map_Forall_empty].
  intros s1 s2 [] Hok; [apply quickAdd_ok|apply toggle_ok]; done.
Qed.

Lemma map_flat_map_comm {A B C} (f : B -> C) (g : A -> list B) (l : list A) :
  flat_map (fun x => map f (g x)) l = map f (flat_map g l).
Proof. induction l as [|x l IH]; [done|]. cbn. by rewrite map_app, IH. Qed.

Section listing_lemmas.
Context (PLACEHOLDER : string).

(** The listing of a block shows every row once: grouping by token
    index and sorting permute the rows. *)
Lemma block_view_perm tokens b :
  Permutation (block_view PLACEHOLDER tokens b)
    (map (row_view tokens (headwordOverride PLACEHOLDER b)) (imap pair (Block.rows b))).
Proof.
  unfold block_view. set (f := row_view tokens (headwordOverride PLACEHOLDER b)).
  set (l := imap pair (Block.rows b)).
  destruct (first_keys_spec (fun ir : nat * BlockRow.t => BlockRow.tokenIndex ir.2) l) as [Hnd Hcov].
  transitivity (flat_map (fun k => map f (List.filter (fun ir => BlockRow.tokenIndex ir.2 =? k) l))
                  (first_keys (fun ir : nat * BlockRow.t => BlockRow.tokenIndex ir.2) l)).
  - rewrite (sort_by_key_perm (fun k => k)). apply flat_map_perm_ext.
    intros k _. by rewrite sort_by_key_perm.
  - rewrite map_flat_map_comm. f_equiv. by apply group_by_key_perm.
Qed.

Lemma block_view_elem tokens b v :
  In v (block_view PLACEHOLDER tokens b) ->
  exists idx r, Block.rows b !! idx = Some r /\ v = row_view tokens (headwordOverride PLACEHOLDER b) (idx, r).
Proof.
  intros Hv. eapply Permutation_in in Hv; [|apply block_view_perm].
  apply in_map_iff in Hv as ([idx r] & <- & Hin). apply list_elem_of_In in Hin.
  apply elem_of_lookup_imap_1 in Hin as (i & y & [= -> ->] & Hl). eauto.
Qed.

End listing_lemmas.

(** In a list of blocks with increasing numbers, [findIndex] by a
    block's number finds that block. *)
Lemma find_index_block bs bi b :
  blocks_incr bs -> bs !! bi = Some b ->
  find_index (fun b' => Block.block b' =? Block.block b) bs = Some bi.
Proof.
  intros [Hs _]. revert bi. induction bs as [|x bs IH]; intros [|bi] Hb; try done.
  - injection Hb as ->. cbn. by rewrite Nat.eqb_refl.
  - cbn [map] in Hs. apply StronglySorted_inv in Hs as [Hs Hx]. cbn.
    assert (Block.block x < Block.block b).
    { eapply Forall_forall; [exact Hx|]. apply list_elem_of_In, in_map, list_elem_of_In.
      by eapply list_elem_of_lookup_2. }
    rewrite (proj2 (Nat.eqb_neq _ _)) by lia. by rewrite (IH Hs bi Hb).
Qed.

(** A toggle that finds its row changes the store. *)
Lemma toggle_changes (s : EntryStore) k (list : list Block.t) bi b row rowIndex :
  s !! k = Some list -> list !! bi = Some b -> Block.rows b !! rowIndex = Some row ->
  <[k := <[bi := Block.mk (Block.block b) (<[rowIndex := toggle_row row]> (Block.rows b))]> list]> s <> s.
Proof.
  intros Ek Eb Er Heq. pose proof (lookup_lt_Some _ _ _ Eb). pose proof (lookup_lt_Some _ _ _ Er).
  assert (Hk := f_equal (.!! k) Heq). cbn beta in Hk. rewrite lookup_insert_eq, Ek in Hk.
  injection Hk as Hk. assert (Hb := f_equal (.!! bi) Hk). cbn beta in Hb.
  rewrite list_lookup_insert_eq, Eb in Hb by done. injection Hb as Hb.
  assert (Hr := f_equal (fun b => Block.rows b !! rowIndex) Hb). cbn beta in Hr.
  cbn [Block.rows] in Hr. rewrite list_lookup_insert_eq, Er in Hr by done. injection Hr as Hr.
  destruct row as [? ? ? ? ? []]; discriminate.
Qed.

(** C27: on the Entry page, the button of every line the listing shows
    toggles exactly that line's row: in every store the B/C editor's
    quick-adds and the page's toggles produce, a line of block [bi] is
    the view of the row at the index its button passes (label, block,
    decimal, identifier and flag are that row's), and clicking the
    button, which also passes the row's [block], flips that row's flag
    and changes nothing else. *)
Theorem entry_click_toggles_shown_row P slug p ls k bi b tokens v :
  star store_step ∅ (en_store p) ->
  default [] (en_store p !! k) !! bi = Some b ->
  In v (block_view P tokens b) ->
  exists r, Block.rows b !! rv_idx v = Some r /\ v = row_view tokens (headwordOverride P b) (rv_idx v, r) /\
    en_store (entry_toggle slug p ls k (rv_block v) (rv_idx v)).1 =
      <[k := <[bi := Block.mk (Block.block b) (<[rv_idx v := toggle_row r]> (Block.rows b))]>
               (default [] (en_store p !! k))]> (en_store p).
Proof.
  intros Hreach Hb Hv. pose proof (store_reachable_ok _ Hreach) as Hok.
  destruct (en_store p !! k) as [list|] eqn:Ek; [|done]. cbn [default id] in Hb |- *.
  destruct (map_Forall_lookup_1 _ _ _ _ Hok Ek) as [Hincr Hnum].
  destruct (block_view_elem P tokens b v Hv) as (idx & r & Hr & ->).
  exists r. split; [done|]. split; [done|]. cbn [row_view rv_block rv_idx].
  rewrite (Forall_lookup_1 _ _ _ _ (Forall_lookup_1 _ _ _ _ Hnum Hb) Hr).
  assert (toggleRowDb k (Block.block b) idx (en_store p) =
          <[k := <[bi := Block.mk (Block.block b) (<[idx := toggle_row r]> (Block.rows b))]> list]>
            (en_store p)) as Ht.
  { unfold toggleRowDb. rewrite Ek. cbn [default id].
    by rewrite (find_index_block _ _ _ Hincr Hb), Hb, Hr. }
  unfold entry_toggle. rewrite Ht, bool_decide_eq_false_2; [done|].
  by apply (toggle_changes _ _ _ _ _ _ _ Ek Hb Hr).
Qed.

(** ** What the application keeps under the entry key *)

(** Every write of the application to localStorage: the Sequences
    page's mirror, a quick-add, the entry store written by the Entry and
    Entry-Face pages (mount effects and toggles), a step of the B/C
    editor, the shell's two effects, and the upload queue. *)
Inductive app_write : Storage -> Storage -> Prop :=
  | aw_sequences slug st ls : app_write ls (seq_persist slug ls st)
  | aw_quickAdd slug bKey input ls : app_write ls (quickAdd_ls slug ls bKey input).1
  | aw_store slug store ls : app_write ls (store_write slug ls store)
  | aw_bc slug p db e ls : app_write ls (w_ls (bc_step slug (mkWorld p ls db) e).1)
  | aw_app rs a ls : app_write ls (persist rs a ls)
  | aw_queue batch ls ls' : queuePush ls batch = inr ls' -> app_write ls ls'
  | aw_queue_clear ls : app_write ls (queueClear ls).

(** Every reason's entry key reads as a [Record<string, Block[]>]. *)
Definition entry_typed (ls : Storage) : Prop :=
  forall s, store_shape (readJSON ls (entry (LS_FOR s)) (JObj [])) = true.

Lemma entry_typed_same ls ls' :
  (forall s, getItem ls' (entry (LS_FOR s)) = getItem ls (entry (LS_FOR s))) ->
  entry_typed ls -> entry_typed ls'.
Proof. intros Hsame H s. unfold readJSON. rewrite Hsame. apply H. Qed.

Lemma entry_typed_write_other ls k v :
  (forall s, k <> entry (LS_FOR s)) -> entry_typed ls -> entry_typed (writeJSON ls k v).
Proof. intros Hk. apply entry_typed_same. intros s. by apply writeJSON_getItem_other. Qed.

Lemma entry_key_not_app s k : k ∈ app_keys -> k <> entry (LS_FOR s).
Proof. intros Hk ->. by apply (ls_key_not_app_key s KEntry). Qed.

Lemma entry_key_other_kind s s' kd : kd <> KEntry -> ls_key s' kd <> entry (LS_FOR s).
Proof. intros Hkd H. by apply (ls_key_inj s' s kd KEntry) in H as [_ ?]. Qed.

Lemma entry_typed_store_write s0 ls store : entry_typed ls -> entry_typed (store_write s0 ls store).
Proof.
  intros H s. unfold store_write.
  destruct (decide (entry (LS_FOR s0) = entry (LS_FOR s))) as [E|E].
  - rewrite <- E. unfold writeJSON.
    destruct (setItem ls _ _) as [ls1|] eqn:Es; cbn [default id]; [|rewrite E; apply H].
    apply setItem_Some in Es as [Es _]. rewrite (readJSON_stringify _ _ (enc_store store)).
    + apply store_shape_enc.
    + unfold getItem. rewrite Es. apply lookup_insert_eq.
  - rewrite readJSON_writeJSON_other by done. apply H.
Qed.

Lemma bc_step_ls slug w e :
  w_ls (bc_step slug w e).1 = w_ls w \/
  exists c, w_ls (bc_step slug w e).1 = writeJSON (w_ls w) (catalog (LS_FOR slug)) (enc_catalog c).
Proof.
  destruct e; cbn; unfold on_get_served, on_get_arrive, on_get_fail, on_edit, on_tick, manualSave;
    repeat case_match; simplify_eq/=; eauto.
Qed.

Lemma queuePush_getItem ls batch ls' k :
  queuePush ls batch = inr ls' -> k <> QUEUE_KEY -> getItem ls' k = getItem ls k.
Proof.
  unfold queuePush. intros H Hk. destruct (queueRead ls) as [| | | |l|]; try discriminate.
  destruct (setItem ls _ _) as [ls1|] eqn:Es; [|discriminate]. injection H as <-.
  apply setItem_Some in Es as [Es _]. unfold getItem. rewrite Es. by apply lookup_insert_ne.
Qed.

Lemma app_write_typed ls ls' : app_write ls ls' -> entry_typed ls -> entry_typed ls'.
Proof.
  intros [slug st ls0|slug bKey input ls0|slug store ls0|slug p db e ls0|rs a ls0
         |batch ls0 ls1 Hq|ls0] H.
  - apply entry_typed_write_other, H. intros s. apply (entry_key_other_kind s slug KSequences). done.
  - unfold quickAdd_ls. repeat case_match; cbn [fst]; try done. by apply entry_typed_store_write.
  - by apply entry_typed_store_write.
  - destruct (bc_step_ls slug (mkWorld p ls0 db) e) as [-> | [c ->]]; [done|].
    apply entry_typed_write_other, H. intros s. apply (entry_key_other_kind s slug KCatalog). done.
  - unfold persist. apply entry_typed_write_other; [|apply entry_typed_write_other, H];
      intros s; apply entry_key_not_app; unfold app_keys; set_solver.
  - apply (entry_typed_same ls0); [|done]. intros s. apply (queuePush_getItem _ _ _ _ Hq).
    apply not_eq_sym, entry_key_not_app. unfold app_keys. set_solver.
  - apply (entry_typed_same ls0); [|done]. intros s. unfold getItem, queueClear, removeItem. cbn.
    apply lookup_delete_ne, entry_key_not_app. unfold app_keys. set_solver.
Qed.

(** C31: whatever the pages, the editor, the shell and the queue write,
    every reason's entry key keeps reading as a [Record<string, Block[]>]
    (an object of arrays of blocks whose rows have the fields and field
    types of [BlockRow]), the type every reader of the key assumes. *)
Theorem entry_key_typed ls ls' s :
  entry_typed ls -> star app_write ls ls' ->
  store_shape (readJSON ls' (entry (LS_FOR s)) (JObj [])) = true.
Proof.
  intros H Hr. revert s. exact (star_invariant app_write entry_typed app_write_typed _ _ Hr H).
Qed.

(** C32: the file of Entry-Face's "Export CSV" button is named
    [<slug>-entry.csv] and reads back, as CSV, as its header and exactly
    the pairs [collectPairs] gives for the sequence, in order, whatever
    quotes, commas or line feeds the identifiers and values hold. *)
Theorem export_csv_roundtrip slug P store sm :
  (export_csv_click slug P store sm).1 = slug +:+ "-entry.csv" /\
  csv_read (export_csv_click slug P store sm).2 =
    ["identifiercode"; "output value"] :: map (fun q => [q.1; q.2]) (face_rows P store sm).
Proof. split; [done|apply csv_read_entry_csv]. Qed.

(** ** Concrete runs *)

Definition ex_seq_page : SeqPage := mkSeqPage [["column B-1"; "column B-2"]] [] None.

Definition ex_store : EntryStore :=
  (quickAddWordsForRow "column B-1" (Some "cat") [["column B-1"; "column B-2"]] [] ∅).1.

Lemma quickAdd_reaches_entryface_csv_witness :
  let ls := mkStorage ∅ 4000 in
  In ("column B-1" :: ["column B-2"]) (sequences ex_seq_page) /\ parseWords "cat" = ["cat"] /\
  isFilledOutput "placeholder" "cat" = true /\
  ls_fits ls (Storage.sequences (LS_FOR "dictionary")) (enc_seqs (sequences ex_seq_page)) /\
  quickAdd_fits "dictionary" (seq_persist "dictionary" ls ex_seq_page) "column B-1" (Some "cat") /\
  let ls' := (quickAdd_ls "dictionary" (seq_persist "dictionary" ls ex_seq_page) "column B-1" (Some "cat")).1 in
  exists sm, In sm (seq_models "dictionary" ls') /\ seqKey sm = join "|" ("column B-1" :: ["column B-2"]) /\
    In ["cat"; "cat"] (csv_read (export_csv_click "dictionary" "placeholder" (read_store "dictionary" ls') sm).2).
Proof.
  intros ls.
  assert (In ("column B-1" :: ["column B-2"]) (sequences ex_seq_page)) as H1 by (left; reflexivity).
  assert (parseWords "cat" = ["cat"]) as H2 by reflexivity.
  assert (isFilledOutput "placeholder" "cat" = true) as H3 by reflexivity.
  assert (ls_fits ls (Storage.sequences (LS_FOR "dictionary")) (enc_seqs (sequences ex_seq_page))) as H4
    by (apply Nat.leb_le; vm_compute; reflexivity).
  assert (quickAdd_fits "dictionary" (seq_persist "dictionary" ls ex_seq_page) "column B-1" (Some "cat"))
    as H5 by (apply Nat.leb_le; vm_compute; reflexivity).
  do 5 (split; [assumption|]).
  exact (quickAdd_reaches_entryface_csv "placeholder" "dictionary" ls ex_seq_page "column B-1"
           ["column B-2"] "cat" H1 H2 H3 H4 H5).
Defined.

Lemma entry_click_toggles_shown_row_witness :
  let p := mkEntryPage [] ex_store None in
  let b := quick_block ∅ ["column B-1"; "column B-2"] 1 "cat" in
  let v := mkRowView "column B-2" 1 (Some 1) "cat-Form-1" false 1 in
  star store_step ∅ (en_store p) /\
  default [] (en_store p !! "column B-1|column B-2") !! 0 = Some b /\
  In v (block_view "placeholder" ["Animal"; "Form"] b) /\
  exists r, Block.rows b !! rv_idx v = Some r /\
    v = row_view ["Animal"; "Form"] (headwordOverride "placeholder" b) (rv_idx v, r) /\
    en_store (entry_toggle "dictionary" p (mkStorage ∅ 1000) "column B-1|column B-2" (rv_block v) (rv_idx v)).1 =
      <["column B-1|column B-2" := <[0 := Block.mk (Block.block b) (<[rv_idx v := toggle_row r]> (Block.rows b))]>
               (default [] (en_store p !! "column B-1|column B-2"))]> (en_store p).
Proof.
  intros p b v.
  assert (star store_step ∅ (en_store p)) as H1
    by exact (star_one _ _ _ (store_quickAdd "column B-1" (Some "cat") [["column B-1"; "column B-2"]] [] ∅)).
  assert (default [] (en_store p !! "column B-1|column B-2") !! 0 = Some b) as H2
    by (vm_compute; reflexivity).
  assert (In v (block_view "placeholder" ["Animal"; "Form"] b)) as H3
    by (vm_compute; right; left; reflexivity).
  split; [exact H1|]. split; [exact H2|]. split; [exact H3|].
  exact (entry_click_toggles_shown_row "placeholder" "dictionary" p (mkStorage ∅ 1000)
           "column B-1|column B-2" 0 b ["Animal"; "Form"] v H1 H2 H3).
Defined.

Lemma entry_key_typed_witness :
  let ls := mkStorage ∅ 1000 in
  entry_typed ls /\ star app_write ls (store_write "dictionary" ls ex_store) /\
  store_shape (readJSON (store_write "dictionary" ls ex_store) (entry (LS_FOR "dictionary")) (JObj [])) = true.
Proof.
  intros ls.
  assert (entry_typed ls) as H1 by (intros s; reflexivity).
  assert (star app_write ls (store_write "dictionary" ls ex_store)) as H2
    by exact (star_one _ _ _ (aw_store "dictionary" ex_store ls)).
  split; [exact H1|]. split; [exact H2|].
  exact (entry_key_typed ls _ "dictionary" H1 H2).
Defined.
