(* ===== verification/Windows.v ===== *)
(** * The pages of a reason in browser windows

    [src/src/pages/ReasonDetail.tsx] renders one of four pages at a time
    ([tab === "bc" && <BCEditor/>], ...): switching the tab unmounts the
    page shown and mounts the other one, whose [useState] initialisers
    read localStorage and whose mirror effect writes its data back.  A
    mounted page then keeps its data in React state and writes all of it
    back on every change: the B/C editor its catalog, the Sequences page
    its saved paths (and it re-reads the catalog on a [storage] event),
    the Entry page its entry store.  Several browser windows (or tabs) of
    the application share one localStorage.

    A handler's effect on localStorage is the list of its [writeJSON]
    calls, in order ([writes]); a window's step returns the new window
    and those writes, and the browser applies them.  The two windows of a
    browser are independent: only the storage is shared.  The B/C page's
    server requests are those of [CatalogSync].  Switching away from the
    B/C tab while its [bc:get] is in flight or its debounced save is
    pending leaves these continuations running: the browser keeps the
    unmounted page as an orphan, whose answer still runs
    [writeJSON(LS.catalog, r.items)] ([setCatalog] of an unmounted
    component does nothing) and whose timer still posts [bc:save]. *)

From S2P Require Import Prelude JsString Json Storage Catalog Sequences EntryModel Identifier Export EntryOps Stage1 CatalogSync Reasons Shell Persist.

(** ** Writes *)

(** The [writeJSON] calls of a handler, in order. *)
Definition writes := list (string * json).

Definition apply_writes (ls : Storage) (ws : writes) : Storage :=
  fold_left (fun ls kv => writeJSON ls kv.1 kv.2) ws ls.

(** Every write of the list fits the quota when it is made. *)
Fixpoint writes_fit (ls : Storage) (ws : writes) : Prop :=
  match ws with
  | [] => True
  | (k, v) :: ws' => ls_fits ls k v /\ writes_fit (writeJSON ls k v) ws'
  end.

(** ** The Sequences page *)

(** The page's buttons: the chips' arrows and crosses, Save/Update,
    Clear, Del (confirmed), Edit and Import CSV (the prompt's text). *)
Inductive SeqEvent :=
  | SeAddStep (k : string)
  | SeMove (i : nat) (d : Z)
  | SeRemove (i : nat)
  | SeClear
  | SeSave
  | SeDel (i : nat)
  | SeEdit (i : nat)
  | SeImport (txt : option string).

(** A handler and whether it called [commit] (which writes the paths
    and sets them, so the mirror effect writes them again). *)
Definition seq_handle (e : SeqEvent) (st : SeqPage) : SeqPage * bool :=
  match e with
  | SeAddStep k => (addStep k st, false)
  | SeMove i d => (move i d st, false)
  | SeRemove i => (remove i st, false)
  | SeClear => (clear st, false)
  | SeSave =>
      let '(st', a) := save st in
      (st', match a with None => negb (bool_decide (working st = [])) | Some _ => false end)
  | SeDel i => (del i st, true)
  | SeEdit i => (edit i st, false)
  | SeImport txt => (importCSV txt st, match txt with Some t => js_truthy t | None => false end)
  end.

(** The page's state: its paths and editor, and the catalog it reads. *)
Record SeqTab := mkSeqTab {
  sq_page : SeqPage;
  sq_catalog : list CatalogRow
}.

(** ** A window *)

#[export] Instance Tab_eq_dec : EqDecision Tab.
Proof. solve_decision. Defined.

(** The page the tab shows, with its React state. *)
Inductive TabState :=
  | TsBC (p : BCPage)
  | TsSeq (t : SeqTab)
  | TsEntry (p : EntryPage)
  | TsFace (models : list SeqModel) (store : EntryStore).

Record Win := mkWin {
  win_slug : string;
  win_tab : Tab;
  win_state : TabState
}.

Inductive WinEvent :=
  | WSetTab (t : Tab)                               (** a tab button: [setTab(t)] *)
  | WBC (e : BCEvent)                               (** an event of the B/C editor *)
  | WQuickAdd (bKey : string) (input : option string) (** its "+ words" button *)
  | WSeq (e : SeqEvent)                             (** a button of the Sequences page *)
  | WToggle (k : string) (blockNum rowIndex : nat)  (** a row button of the Entry page *)
  | WPreview (k : string)                           (** its Preview button *)
  | WStorage (k : string).                          (** a [storage] event for key [k] *)

Section window.
Variable slug : string.

(** Mounting a tab's page: its reads, then its mirror effect. *)
Definition mount_tab (t : Tab) (ls : Storage) : TabState * writes :=
  match t with
  | TabBC =>
      let p := page_init slug ls in
      (TsBC p, [(catalog (LS_FOR slug), enc_catalog (pg_catalog p))])
  | TabSeq =>
      (TsSeq (mkSeqTab (mkSeqPage (read_seqs slug ls) [] None) (read_catalog slug ls)),
       [(Storage.sequences (LS_FOR slug), enc_seqs (read_seqs slug ls))])
  | TabEntry =>
      (TsEntry (entry_mount slug ls).1, [(entry (LS_FOR slug), enc_store (read_store slug ls))])
  | TabEntryFace =>
      (TsFace (seq_models slug ls) (read_store slug ls),
       [(entry (LS_FOR slug), enc_store (read_store slug ls))])
  end.

(** The writes of a B/C editor event: the catalog mirrored by [commit]
    when the answer of [bc:get] is applied or an edit is accepted. *)
Definition bc_writes (w : World) (e : BCEvent) : writes :=
  let p := w_page w in
  match e with
  | EvGetArrive =>
      match pg_fetch p with
      | FetchServed (ROkItems items) => [(catalog (LS_FOR slug), enc_catalog (map row_of_item items))]
      | _ => []
      end
  | EvEdit k which val _ =>
      let r := updateVal (pg_caseSensitive p) (pg_enforceNoMatch p) (pg_catalog p) k which val in
      match uv_save r with
      | Some _ => [(catalog (LS_FOR slug), enc_catalog (uv_next r))]
      | None => []
      end
  | _ => []
  end.

(** The write of [quickAdd_ls]. *)
Definition quickAdd_writes (ls : Storage) (bKey : string) (input : option string) : writes :=
  match quickAddWordsForRow bKey input (read_seqs slug ls) (read_catalog slug ls) (read_store slug ls) with
  | (store, Some (AddedAlert _ _)) => [(entry (LS_FOR slug), enc_store store)]
  | _ => []
  end.

(** The writes of a toggle: the updater's own [writeJSON] and the
    effect's, both of the new store. *)
Definition toggle_writes (p : EntryPage) (k : string) (blockNum rowIndex : nat) : writes :=
  let next := toggleRowDb k blockNum rowIndex (en_store p) in
  if bool_decide (next = en_store p) then []
  else [(entry (LS_FOR slug), enc_store next); (entry (LS_FOR slug), enc_store next)].

(** [Sequences.tsx]'s listener: [if (e.key === LS.catalog)
    setCatalog(readJSON(LS.catalog, []))]. *)
Definition seq_on_storage (k : string) (ls : Storage) (t : SeqTab) : SeqTab :=
  if bool_decide (k = catalog (LS_FOR slug)) then mkSeqTab (sq_page t) (read_catalog slug ls) else t.

(** One event in a window showing a page of the reason [slug]: the new
    page state, the database, and the writes.  An event of another page
    than the one shown cannot happen and changes nothing; [setTab] to
    the tab shown does not re-render. *)
Definition win_step (t : Tab) (st : TabState) (ls : Storage) (db : Db) (e : WinEvent)
    : Tab * TabState * Db * writes :=
  match e, st with
  | WSetTab t', _ =>
      if bool_decide (t' = t) then (t, st, db, [])
      else let '(st', ws) := mount_tab t' ls in (t', st', db, ws)
  | WBC e, TsBC p =>
      let w := mkWorld p ls db in
      let w' := (bc_step slug w e).1 in
      (t, TsBC (w_page w'), w_db w', bc_writes w e)
  | WQuickAdd bKey input, TsBC p => (t, st, db, quickAdd_writes ls bKey input)
  | WSeq e, TsSeq sq =>
      let '(p', c) := seq_handle e (sq_page sq) in
      (t, TsSeq (mkSeqTab p' (sq_catalog sq)), db,
       if c then [(Storage.sequences (LS_FOR slug), enc_seqs (sequences p'));
                  (Storage.sequences (LS_FOR slug), enc_seqs (sequences p'))] else [])
  | WToggle k bn ri, TsEntry p =>
      (t, TsEntry (entry_toggle slug p ls k bn ri).1, db, toggle_writes p k bn ri)
  | WPreview k, TsEntry p => (t, TsEntry (entry_preview_click p k), db, [])
  | WStorage k, TsSeq sq => (t, TsSeq (seq_on_storage k ls sq), db, [])
  | _, _ => (t, st, db, [])
  end.

(** Opening the reason ([openReason] in [App.tsx]): [ReasonDetail]
    mounts with the tab [bc]. *)
Definition win_open (ls : Storage) : Win * writes :=
  let '(st, ws) := mount_tab tab_init ls in (mkWin slug tab_init st, ws).

End window.

(** ** The browser *)

(** The windows of the application and what they share: localStorage
    and the server's database; and the B/C pages unmounted with their
    continuations still pending, with their slugs. *)
Record Browser := mkBrowser {
  br_wins : list Win;
  br_ls : Storage;
  br_db : Db;
  br_orphans : list (string * BCPage)
}.

(** The B/C page has its mount request in flight or a save pending. *)
Definition bc_pending (p : BCPage) : bool :=
  match pg_fetch p, pg_timer p with
  | FetchSettled, None => false
  | _, _ => true
  end.

(** What a tab switch leaves running: the unmounted B/C page, when its
    request or its save is pending. *)
Definition orphans_of (w : Win) (e : WinEvent) : list (string * BCPage) :=
  match e, win_state w with
  | WSetTab t, TsBC p => if bool_decide (t = win_tab w) then [] else if bc_pending p then [(win_slug w, p)] else []
  | _, _ => []
  end.

(** The step of window [i] on event [e], with its writes. *)
Definition br_event (b : Browser) (i : nat) (e : WinEvent) : Browser * writes :=
  match br_wins b !! i with
  | Some w =>
      let '(t', st', db', ws) := win_step (win_slug w) (win_tab w) (win_state w) (br_ls b) (br_db b) e in
      (mkBrowser (<[i := mkWin (win_slug w) t' st']> (br_wins b)) (apply_writes (br_ls b) ws) db'
                 (br_orphans b ++ orphans_of w e), ws)
  | None => (b, [])
  end.

(** The events an unmounted B/C page still gets: the server answering
    or failing its request, the answer arriving, the clock firing its
    timer. *)
Definition orphan_event (e : BCEvent) : bool :=
  match e with
  | EvGetServed | EvGetArrive | EvGetFail | EvTick _ => true
  | _ => false
  end.

(** Event [e] of the orphan [j]: the page's handlers run on the shared
    storage and database; only their writes and requests are seen. *)
Definition br_orphan (b : Browser) (j : nat) (e : BCEvent) : Browser * writes :=
  match br_orphans b !! j with
  | Some (slug, p) =>
      if orphan_event e then
        let w := mkWorld p (br_ls b) (br_db b) in
        let w' := (bc_step slug w e).1 in
        let ws := bc_writes slug w e in
        (mkBrowser (br_wins b) (apply_writes (br_ls b) ws) (w_db w') (<[j := (slug, w_page w')]> (br_orphans b)), ws)
      else (b, [])
  | None => (b, [])
  end.

(** The runs of the browser in which every write fits the quota. *)
Inductive br_step : Browser -> Browser -> Prop :=
  | br_step_event b i w e :
      br_wins b !! i = Some w -> writes_fit (br_ls b) (br_event b i e).2 ->
      br_step b (br_event b i e).1
  | br_step_orphan b j e :
      is_Some (br_orphans b !! j) -> orphan_event e = true -> writes_fit (br_ls b) (br_orphan b j e).2 ->
      br_step b (br_orphan b j e).1.

(** A second window opened on the reason ([window.open] of the same
    URL): it mounts [ReasonDetail] on the storage the others left. *)
Definition br_add_window (b : Browser) (slug : string) : Browser :=
  let '(w, ws) := win_open slug (br_ls b) in
  mkBrowser (br_wins b ++ [w]) (apply_writes (br_ls b) ws) (br_db b) (br_orphans b).

(** *** Executable checks of a run *)

Fixpoint writes_fitb (ls : Storage) (ws : writes) : bool :=
  match ws with
  | [] => true
  | (k, v) :: ws' => Nat.leb (ls_size (<[k := stringify v]> (ls_items ls))) (ls_quota ls) && writes_fitb (writeJSON ls k v) ws'
  end.

(** Event [e] of window [i] is a step of [br_step]. *)
Definition br_can (b : Browser) (i : nat) (e : WinEvent) : bool :=
  match br_wins b !! i with
  | Some w => writes_fitb (br_ls b) (br_event b i e).2
  | None => false
  end.

(** A scripted sequence of events, each of a window. *)
Fixpoint br_run (b : Browser) (evs : list (nat * WinEvent)) : Browser :=
  match evs with
  | [] => b
  | (i, e) :: evs' => br_run (br_event b i e).1 evs'
  end.

Fixpoint br_run_ok (b : Browser) (evs : list (nat * WinEvent)) : bool :=
  match evs with
  | [] => true
  | (i, e) :: evs' => br_can b i e && br_run_ok (br_event b i e).1 evs'
  end.

(** ** Reading what the writes left *)

(** The value of the last write to [k], if any. *)
Definition last_write (k : string) (ws : writes) : option json :=
  (fun kv => kv.2) <$> find_first (fun kv => bool_decide (kv.1 = k)) (rev ws).

Lemma apply_writes_read ls ws k fb :
  writes_fit ls ws ->
  readJSON (apply_writes ls ws) k fb = default (readJSON ls k fb) (last_write k ws).
Proof.
  revert ls. induction ws as [|[k' v] ws IH]; intros ls Hfit; [done|].
  destruct Hfit as [Hk Hfit].
  change (apply_writes ls ((k', v) :: ws)) with (apply_writes (writeJSON ls k' v) ws).
  rewrite IH by done. unfold last_write. cbn [rev]. rewrite find_first_app.
  destruct (find_first _ (rev ws)) as [kv|]; [done|]. cbn.
  case_bool_decide as E; cbn.
  - subst. by apply writeJSON_fits_read.
  - by apply readJSON_writeJSON_other.
Qed.

(** Compute [last_write] on a list of writes to keys of one reason. *)
Ltac last_write_simp :=
  unfold last_write; cbn [rev app find_first fst snd];
  repeat match goal with
         | |- context [@bool_decide (?a = ?b) ?d] => rewrite (@bool_decide_eq_true_2 (a = b) d) by reflexivity
         | |- context [@bool_decide (?a = ?b) ?d] => rewrite (@bool_decide_eq_false_2 (a = b) d) by ls_key_ne
         end; cbn [fmap option_fmap option_map default fst snd].

(** ** Handlers and their writes *)

(** The writes of a B/C event are the ones [bc_step] makes. *)
Lemma bc_writes_ls slug w e : w_ls (bc_step slug w e).1 = apply_writes (w_ls w) (bc_writes slug w e).
Proof.
  destruct e; cbn; unfold on_get_served, on_get_arrive, on_get_fail, on_edit, on_tick, manualSave;
    repeat case_match; simplify_eq/=; done.
Qed.

(** A B/C event leaves the catalog, or commits a catalog and writes it. *)
Lemma bc_step_catalog slug w e :
  (bc_writes slug w e = [] /\ pg_catalog (w_page (bc_step slug w e).1) = pg_catalog (w_page w)) \/
  exists c, bc_writes slug w e = [(catalog (LS_FOR slug), enc_catalog c)] /\
            pg_catalog (w_page (bc_step slug w e).1) = c.
Proof.
  destruct e; cbn; unfold on_get_served, on_get_arrive, on_get_fail, on_edit, on_tick, manualSave;
    repeat case_match; simplify_eq/=; eauto.
Qed.

Lemma quickAdd_writes_ls slug ls bKey input :
  (quickAdd_ls slug ls bKey input).1 = apply_writes ls (quickAdd_writes slug ls bKey input).
Proof. unfold quickAdd_ls, quickAdd_writes. by repeat case_match. Qed.

Lemma toggle_writes_ls slug p ls k bn ri :
  (entry_toggle slug p ls k bn ri).2 = apply_writes ls (toggle_writes slug p k bn ri).
Proof. unfold entry_toggle, toggle_writes. by case_bool_decide. Qed.

(** A Sequences handler that does not commit keeps the saved paths. *)
Lemma seq_handle_keeps e st : (seq_handle e st).2 = false -> sequences (seq_handle e st).1 = sequences st.
Proof.
  destruct e as [k|i d|i| | |i|i|txt]; cbn -[save]; intros H; try discriminate;
    try solve [unfold addStep, move, remove, clear, edit; repeat case_match; done].
  - destruct (save st) as [st' [a|]] eqn:Es; cbn in H |- *.
    + unfold save in Es. repeat case_match; simplify_eq/=; done.
    + apply negb_false_iff, bool_decide_eq_true in H.
      unfold save in Es. rewrite bool_decide_eq_true_2 in Es by done. by simplify_eq.
  - unfold importCSV. destruct txt as [t|]; [|done]. by rewrite H.
Qed.

(** ** One window: the page agrees with localStorage *)

(** The data of the page shown is what localStorage holds for it. *)
Definition coherent (slug : string) (ls : Storage) (st : TabState) : Prop :=
  match st with
  | TsBC p => pg_catalog p = read_catalog slug ls
  | TsSeq t => sequences (sq_page t) = read_seqs slug ls /\ sq_catalog t = read_catalog slug ls
  | TsEntry p => en_store p = read_store slug ls
  | TsFace _ store => store = read_store slug ls
  end.

Lemma reads_after_writes slug ls ws :
  writes_fit ls ws ->
  read_catalog slug (apply_writes ls ws) =
    default (read_catalog slug ls) (dec_catalog <$> last_write (catalog (LS_FOR slug)) ws) /\
  read_seqs slug (apply_writes ls ws) =
    default (read_seqs slug ls) (dec_seqs <$> last_write (Storage.sequences (LS_FOR slug)) ws) /\
  read_store slug (apply_writes ls ws) =
    default (read_store slug ls) (dec_store <$> last_write (entry (LS_FOR slug)) ws).
Proof.
  intros Hfit. unfold read_catalog, read_seqs, read_store. rewrite !apply_writes_read by done.
  split; [|split]; by destruct (last_write _ ws).
Qed.

(** Rewrite the reads after a step's writes. *)
Ltac reads_after slug Hfit :=
  let H1 := fresh in let H2 := fresh in let H3 := fresh in
  destruct (reads_after_writes slug _ _ Hfit) as (H1 & H2 & H3);
  rewrite ?H1, ?H2, ?H3; clear H1 H2 H3; last_write_simp;
  rewrite ?dec_catalog_enc, ?dec_enc_seqs, ?dec_enc_store.

(** A page mounts with the data it has just mirrored to localStorage. *)
Lemma mount_tab_coherent slug t ls :
  writes_fit ls (mount_tab slug t ls).2 ->
  coherent slug (apply_writes ls (mount_tab slug t ls).2) (mount_tab slug t ls).1.
Proof. intros Hfit. destruct t; cbn -[LS_FOR writes_fit apply_writes] in Hfit |- *; reads_after slug Hfit; done. Qed.

Lemma win_step_coherent slug t st ls db e t' st' db' ws :
  win_step slug t st ls db e = (t', st', db', ws) ->
  coherent slug ls st -> writes_fit ls ws -> coherent slug (apply_writes ls ws) st'.
Proof.
  intros Hstep Hcoh Hfit.
  destruct e as [t0|e|bKey input|e|k bn ri|k|k].
  - cbn -[LS_FOR mount_tab] in Hstep. case_bool_decide; [simplify_eq; exact Hcoh|].
    pose proof (mount_tab_coherent slug t0 ls) as Hm.
    destruct (mount_tab slug t0 ls); simplify_eq. by apply Hm.
  - destruct st as [p|sq|p|models store]; cbn -[LS_FOR] in Hstep; simplify_eq; [|exact Hcoh..].
    destruct (bc_step_catalog slug (mkWorld p ls db) e) as [[Hw Hc]|(c & Hw & Hc)];
      rewrite Hw in Hfit |- *; cbn [coherent]; rewrite Hc; [exact Hcoh|]. by reads_after slug Hfit.
  - destruct st as [p|sq|p|models store]; cbn -[LS_FOR] in Hstep; simplify_eq; [|exact Hcoh..].
    cbn [coherent]. unfold quickAdd_writes in Hfit |- *.
    repeat case_match; try exact Hcoh; reads_after slug Hfit; exact Hcoh.
  - destruct st as [p|sq|p|models store]; cbn -[LS_FOR] in Hstep; simplify_eq; try exact Hcoh.
    destruct (seq_handle e (sq_page sq)) as [p' []] eqn:Eh; simplify_eq; cbn [coherent];
      reads_after slug Hfit; destruct Hcoh as [Hs Hc]; split; try done.
    rewrite <- Hs. pose proof (seq_handle_keeps e (sq_page sq)) as Hk. rewrite Eh in Hk. by apply Hk.
  - destruct st as [p|sq|p|models store]; cbn -[LS_FOR] in Hstep; simplify_eq; try exact Hcoh.
    cbn [coherent]. unfold toggle_writes, entry_toggle in *. case_bool_decide; cbn [coherent]; [exact Hcoh|].
    by reads_after slug Hfit.
  - destruct st as [p|sq|p|models store]; cbn -[LS_FOR] in Hstep; simplify_eq; exact Hcoh.
  - destruct st as [p|sq|p|models store]; cbn -[LS_FOR] in Hstep; simplify_eq; try exact Hcoh.
    cbn [coherent]. unfold seq_on_storage. destruct Hcoh as [Hs Hc]. by case_bool_decide.
Qed.

(** The browser of one window, just opened on a reason. *)
Definition br_open (slug : string) (ls : Storage) (db : Db) : Browser :=
  let '(w, ws) := win_open slug ls in mkBrowser [w] (apply_writes ls ws) db [].

(** Orphans are only added. *)
Lemma br_step_orphans b b' : br_step b b' -> br_orphans b = [] -> br_orphans b' = [] ->
  exists i w e, br_wins b !! i = Some w /\ orphans_of w e = [] /\ writes_fit (br_ls b) (br_event b i e).2 /\
                b' = (br_event b i e).1.
Proof.
  intros [b0 i w e Hi Hfit|b0 j e [x Hj] _ _] H0 H1.
  - exists i, w, e. split; [done|]. split; [|by split].
    unfold br_event in H1. rewrite Hi in H1. destruct (win_step _ _ _ _ _ e) as [[[? ?] ?] ?].
    cbn in H1. rewrite H0 in H1. exact H1.
  - by rewrite H0 in Hj.
Qed.

Lemma br_event_solo b i w e :
  br_wins b = [w] -> br_wins b !! i = Some w -> coherent (win_slug w) (br_ls b) (win_state w) ->
  writes_fit (br_ls b) (br_event b i e).2 ->
  exists w', br_wins (br_event b i e).1 = [w'] /\
             coherent (win_slug w') (br_ls (br_event b i e).1) (win_state w').
Proof.
  intros Hw Hi Hcoh Hfit. rewrite Hw in Hi.
  destruct i as [|[]]; cbn in Hi; simplify_eq. unfold br_event in *. rewrite Hw in Hfit |- *. cbn in Hfit |- *.
  destruct (win_step _ _ _ _ _ e) as [[[t' st'] db'] ws] eqn:Hs. cbn in *.
  eexists; split; [reflexivity|]. cbn. by eapply win_step_coherent.
Qed.

(** C28: In a browser with one window of the application, opened on a
    reason and then driven by any sequence of events of its pages, tab
    buttons and continuations (every write fitting the quota), the page
    shown holds what localStorage holds for it (the B/C editor's
    catalog, the Sequences page's paths and catalog, the Entry pages'
    store) as long as the B/C tab was never left with its mount request
    in flight or its save pending, i.e. no unmounted page has a
    continuation left. *)
Theorem solo_window_coherent slug ls db b :
  writes_fit ls (win_open slug ls).2 -> star br_step (br_open slug ls db) b -> br_orphans b = [] ->
  exists w, br_wins b = [w] /\ coherent (win_slug w) (br_ls b) (win_state w).
Proof.
  intros Hfit Hrun.
  eapply (star_invariant br_step (fun b => br_orphans b = [] ->
            exists w, br_wins b = [w] /\ coherent (win_slug w) (br_ls b) (win_state w))); [|exact Hrun|].
  - intros b1 b2 H12 IH H2.
    assert (br_orphans b1 = []) as H1.
    { destruct H12 as [b0 i w e _ _|b0 j e _ _ _].
      - unfold br_event in H2. destruct (br_wins b0 !! i); [|done].
        destruct (win_step _ _ _ _ _ e) as [[[? ?] ?] ?]. cbn in H2. by apply app_nil in H2 as [? _].
      - unfold br_orphan in H2. destruct (br_orphans b0 !! j) as [[? ?]|] eqn:Ej; [|done].
        destruct (orphan_event e); [|done]. cbn in H2.
        apply (f_equal length) in H2. rewrite length_insert in H2. by destruct (br_orphans b0). }
    destruct (br_step_orphans b1 b2 H12 H1 H2) as (i & w & e & Hi & _ & Hfit' & ->).
    destruct (IH H1) as (w1 & Hw1 & Hc1). rewrite Hw1 in Hi.
    destruct i as [|[]]; cbn in Hi; simplify_eq. apply (br_event_solo b1 0 _ e Hw1); [by rewrite Hw1|done|done].
  - intros _. unfold br_open, win_open in *. pose proof (mount_tab_coherent slug tab_init ls Hfit) as Hm.
    destruct (mount_tab slug tab_init ls) as [st ws]. by eexists.
Qed.

(** ** Checking a scripted run *)

Lemma writes_fitb_sound ls ws : writes_fitb ls ws = true -> writes_fit ls ws.
Proof.
  revert ls. induction ws as [|[k v] ws IH]; intros ls; cbn; [done|].
  intros [Hk Hws]%andb_prop. split; [by apply Nat.leb_le|auto].
Qed.

Lemma br_can_step b i e : br_can b i e = true -> br_step b (br_event b i e).1.
Proof.
  unfold br_can. destruct (br_wins b !! i) as [w|] eqn:Hw; [|done].
  intros Hf. econstructor; eauto using writes_fitb_sound.
Qed.

Lemma br_run_star b evs : br_run_ok b evs = true -> star br_step b (br_run b evs).
Proof.
  revert b. induction evs as [|[i e] evs IH]; intros b; cbn; [constructor|].
  intros [Hc Hr]%andb_prop. eapply star_step; [by apply br_can_step|auto].
Qed.

(** ** Two windows: the last writer wins *)

Lemma br_event_other b c e a :
  a <> c -> br_wins (br_event b c e).1 !! a = br_wins b !! a.
Proof.
  intros Hac. unfold br_event. destruct (br_wins b !! c); [|done].
  destruct (win_step _ _ _ _ _ e) as [[[? ?] ?] ?]. cbn. by rewrite list_lookup_insert_ne.
Qed.

(** The store after a toggle of the Entry page of window [a]. *)
Lemma br_toggle_store b a wa p k bn ri :
  br_wins b !! a = Some wa -> win_state wa = TsEntry p ->
  toggleRowDb k bn ri (en_store p) <> en_store p ->
  writes_fit (br_ls b) (br_event b a (WToggle k bn ri)).2 ->
  read_store (win_slug wa) (br_ls (br_event b a (WToggle k bn ri)).1) = toggleRowDb k bn ri (en_store p).
Proof.
  intros Ha Hst Hne. unfold br_event. rewrite Ha, Hst. cbn -[LS_FOR writes_fit apply_writes].
  unfold toggle_writes. rewrite bool_decide_eq_false_2 by done.
  intros Hfit. unfold read_store. rewrite apply_writes_read by done. last_write_simp. apply dec_enc_store.
Qed.

(** C29: The Entry page of a window keeps the store it read when it
    mounted and writes all of it back on a row click: whatever another
    window [c] of the same browser did meanwhile (a quick-add of words
    from its B/C page, a toggle of its own Entry page), the entry store
    left in localStorage after window [a]'s toggle is the toggle of
    [a]'s stale copy, so the other window's change is lost. *)
Theorem stale_entry_toggle_overwrites b a c wa p e k bn ri :
  a <> c -> br_wins b !! a = Some wa -> win_state wa = TsEntry p ->
  toggleRowDb k bn ri (en_store p) <> en_store p ->
  writes_fit (br_ls (br_event b c e).1) (br_event (br_event b c e).1 a (WToggle k bn ri)).2 ->
  read_store (win_slug wa) (br_ls (br_event (br_event b c e).1 a (WToggle k bn ri)).1) =
    toggleRowDb k bn ri (en_store p).
Proof.
  intros Hac Ha Hst Hne Hfit. eapply br_toggle_store; [|exact Hst|exact Hne|exact Hfit].
  by rewrite br_event_other.
Qed.

Definition ex_run_solo : list (nat * WinEvent) :=
  [(0, WBC EvGetServed); (0, WBC EvGetArrive); (0, WSetTab TabSeq); (0, WSeq (SeAddStep "column B-1"));
   (0, WSeq (SeAddStep "column B-2")); (0, WSeq SeSave); (0, WSetTab TabEntry)].

Lemma solo_window_coherent_witness :
  let ls := mkStorage ∅ 100000 in
  let b := br_run (br_open "animals" ls db_init) ex_run_solo in
  writes_fit ls (win_open "animals" ls).2 /\ star br_step (br_open "animals" ls db_init) b /\ br_orphans b = [] /\
  exists w, br_wins b = [w] /\ coherent (win_slug w) (br_ls b) (win_state w).
Proof.
  intros ls b.
  assert (writes_fit ls (win_open "animals" ls).2) as H1 by (apply writes_fitb_sound; vm_compute; reflexivity).
  assert (star br_step (br_open "animals" ls db_init) b) as H2 by (apply br_run_star; vm_compute; reflexivity).
  assert (br_orphans b = []) as H3 by (vm_compute; reflexivity).
  split; [exact H1|]. split; [exact H2|]. split; [exact H3|].
  exact (solo_window_coherent "animals" ls db_init b H1 H2 H3).
Defined.

(** The storage of a reason whose path [column B-1 > column B-2] is
    saved and whose entry store holds one block of words. *)
Definition ex_ls : Storage :=
  apply_writes (mkStorage ∅ 100000)
    [(Storage.sequences (LS_FOR "animals"), enc_seqs [["column B-1"; "column B-2"]]);
     (entry (LS_FOR "animals"), enc_store ex_store)].

(** Two windows on the reason; window 0 goes to the Entry page,
    window 1 stays on the B/C editor. *)
Definition ex_two : Browser :=
  br_run (br_add_window (br_open "animals" ex_ls db_init) "animals")
    [(0, WBC EvGetServed); (0, WBC EvGetArrive); (0, WSetTab TabEntry)].

Definition ex_win0 : Win := default (mkWin "" TabBC (TsFace [] ∅)) (br_wins ex_two !! 0).
Definition ex_page0 : EntryPage :=
  match win_state ex_win0 with TsEntry p => p | _ => mkEntryPage [] ∅ None end.

Lemma stale_entry_toggle_overwrites_witness :
  let e := WQuickAdd "column B-1" (Some "dog") in
  let b1 := (br_event ex_two 1 e).1 in
  let b2 := (br_event b1 0 (WToggle "column B-1|column B-2" 1 1)).1 in
  br_run_ok (br_add_window (br_open "animals" ex_ls db_init) "animals")
    [(0, WBC EvGetServed); (0, WBC EvGetArrive); (0, WSetTab TabEntry)] = true /\
  br_can ex_two 1 e = true /\ br_can b1 0 (WToggle "column B-1|column B-2" 1 1) = true /\
  length (default [] (read_store "animals" (br_ls b1) !! "column B-1|column B-2")) = 2 /\
  length (default [] (read_store "animals" (br_ls b2) !! "column B-1|column B-2")) = 1 /\
  read_store (win_slug ex_win0) (br_ls b2) = toggleRowDb "column B-1|column B-2" 1 1 (en_store ex_page0).
Proof.
  intros e b1 b2.
  assert (br_wins ex_two !! 0 = Some ex_win0) as H1 by (vm_compute; reflexivity).
  assert (win_state ex_win0 = TsEntry ex_page0) as H2 by (vm_compute; reflexivity).
  assert (toggleRowDb "column B-1|column B-2" 1 1 (en_store ex_page0) <> en_store ex_page0) as H3
    by (apply (bool_decide_eq_false _); vm_compute; reflexivity).
  assert (writes_fit (br_ls b1) (br_event b1 0 (WToggle "column B-1|column B-2" 1 1)).2) as H4
    by (apply writes_fitb_sound; vm_compute; reflexivity).
  do 5 (split; [vm_compute; reflexivity|]).
  exact (stale_entry_toggle_overwrites ex_two 0 1 ex_win0 ex_page0 e "column B-1|column B-2" 1 1
           ltac:(discriminate) H1 H2 H3 H4).
Defined.

(** ** A B/C page left while its request is in flight *)

(** Leaving the B/C tab for the Sequences tab while [bc:get] is
    answered but not arrived: the Sequences page mounts with the catalog
    of localStorage and the B/C page is left as the last orphan. *)
Lemma br_leave_bc_pending b i w p t :
  br_wins b !! i = Some w -> win_tab w = TabBC -> win_state w = TsBC p -> t <> TabBC -> bc_pending p = true ->
  br_orphans (br_event b i (WSetTab t)).1 = br_orphans b ++ [(win_slug w, p)] /\
  br_wins (br_event b i (WSetTab t)).1 !! i =
    Some (mkWin (win_slug w) t (mount_tab (win_slug w) t (br_ls b)).1) /\
  (br_event b i (WSetTab t)).2 = (mount_tab (win_slug w) t (br_ls b)).2.
Proof.
  intros Hi Ht Hs Hne Hp. unfold br_event, orphans_of. rewrite Hi, Hs, Ht. cbn -[mount_tab].
  rewrite !bool_decide_false by done. rewrite Hp.
  destruct (mount_tab _ t _) as [st ws] eqn:Em. cbn.
  split; [done|]. split; [|done]. rewrite list_lookup_insert_eq; [done|]. by eapply lookup_lt_Some.
Qed.

(** C15: the mount request of the B/C editor outlives its page.  When
    window [i] leaves the B/C tab for the Sequences tab after the server
    answered [bc:get] and before the answer arrived, the answer still
    runs [writeJSON(LS.catalog, r.items)]: localStorage then holds the
    server's catalog while the Sequences page shown keeps the catalog it
    read when it mounted, and no [storage] event reaches the window that
    wrote. *)
Theorem bc_late_answer_stale_page b i w p items :
  br_wins b !! i = Some w -> win_tab w = TabBC -> win_state w = TsBC p ->
  pg_fetch p = FetchServed (ROkItems items) ->
  writes_fit (br_ls b) (br_event b i (WSetTab TabSeq)).2 ->
  writes_fit (br_ls (br_event b i (WSetTab TabSeq)).1)
    (br_orphan (br_event b i (WSetTab TabSeq)).1 (length (br_orphans b)) EvGetArrive).2 ->
  let b1 := (br_event b i (WSetTab TabSeq)).1 in
  let b2 := (br_orphan b1 (length (br_orphans b)) EvGetArrive).1 in
  br_step b b1 /\ br_step b1 b2 /\
  read_catalog (win_slug w) (br_ls b2) = map row_of_item items /\
  exists sq, br_wins b2 !! i = Some (mkWin (win_slug w) TabSeq (TsSeq sq)) /\
             sq_catalog sq = read_catalog (win_slug w) (br_ls b).
Proof.
  intros Hi Ht Hs Hf Hfit1 Hfit2 b1 b2.
  assert (bc_pending p = true) as Hp by (unfold bc_pending; by rewrite Hf).
  destruct (br_leave_bc_pending b i w p TabSeq Hi Ht Hs ltac:(discriminate) Hp) as (Ho & Hw & Hws).
  assert (br_orphans b1 !! length (br_orphans b) = Some (win_slug w, p)) as Hj
    by (unfold b1; rewrite Ho, lookup_app_r, Nat.sub_diag by lia; done).
  split; [by eapply br_step_event|]. split; [by apply br_step_orphan; [eexists| |]|].
  fold b1 in Hfit2. unfold b2, br_orphan in Hfit2 |- *. rewrite Hj in Hfit2 |- *. cbn [orphan_event] in Hfit2 |- *.
  unfold bc_writes in Hfit2 |- *. cbn [w_page] in Hfit2 |- *. rewrite Hf in Hfit2 |- *. cbn [fst snd] in Hfit2 |- *.
  split.
  - cbn [br_ls]. destruct (reads_after_writes (win_slug w) _ _ Hfit2) as (-> & _ & _).
    last_write_simp. by rewrite dec_catalog_enc.
  - cbn [br_wins]. fold b1 in Hw. rewrite Hw. eexists. split; [reflexivity|]. cbn.
    rewrite Hws in Hfit1. cbn -[LS_FOR writes_fit apply_writes] in Hfit1 |- *.
    by reads_after (win_slug w) Hfit1.
Qed.

(** One window on the reason [animals], whose server catalog is
    [[column B-1: cat]] and whose localStorage is empty: the server has
    answered the B/C page's [bc:get]. *)
Definition ex_late : Browser := br_run (br_open "animals" (mkStorage ∅ 100000) race_db) [(0, WBC EvGetServed)].
Definition ex_late_win : Win := default (mkWin "" TabBC (TsFace [] ∅)) (br_wins ex_late !! 0).
Definition ex_late_page : BCPage :=
  match win_state ex_late_win with TsBC p => p | _ => page_init "" (mkStorage ∅ 0) end.
Definition ex_late_items : list BCItem :=
  match pg_fetch ex_late_page with FetchServed (ROkItems items) => items | _ => [] end.

Lemma bc_late_answer_stale_page_witness :
  let b1 := (br_event ex_late 0 (WSetTab TabSeq)).1 in
  let b2 := (br_orphan b1 (length (br_orphans ex_late)) EvGetArrive).1 in
  map row_of_item ex_late_items = [mkRow "column B-1" "column C-1" "cat" ""] /\
  read_catalog "animals" (br_ls ex_late) = [] /\
  br_step ex_late b1 /\ br_step b1 b2 /\
  read_catalog (win_slug ex_late_win) (br_ls b2) = map row_of_item ex_late_items /\
  exists sq, br_wins b2 !! 0 = Some (mkWin (win_slug ex_late_win) TabSeq (TsSeq sq)) /\
             sq_catalog sq = read_catalog (win_slug ex_late_win) (br_ls ex_late).
Proof.
  intros b1 b2.
  assert (br_wins ex_late !! 0 = Some ex_late_win) as H1 by (vm_compute; reflexivity).
  assert (win_tab ex_late_win = TabBC) as H2 by (vm_compute; reflexivity).
  assert (win_state ex_late_win = TsBC ex_late_page) as H3 by (vm_compute; reflexivity).
  assert (pg_fetch ex_late_page = FetchServed (ROkItems ex_late_items)) as H4 by (vm_compute; reflexivity).
  assert (writes_fit (br_ls ex_late) (br_event ex_late 0 (WSetTab TabSeq)).2) as H5
    by (apply writes_fitb_sound; vm_compute; reflexivity).
  assert (writes_fit (br_ls (br_event ex_late 0 (WSetTab TabSeq)).1)
            (br_orphan (br_event ex_late 0 (WSetTab TabSeq)).1 (length (br_orphans ex_late)) EvGetArrive).2) as H6
    by (apply writes_fitb_sound; vm_compute; reflexivity).
  split; [vm_compute; reflexivity|]. split; [vm_compute; reflexivity|].
  exact (bc_late_answer_stale_page ex_late 0 ex_late_win ex_late_page ex_late_items H1 H2 H3 H4 H5 H6).
Defined.
