(* ===== verification/FaceView.v ===== *)
(** * The Entry-Face page: its preview, Copy, Download and Export

    [src/src/pages/EntryFace.tsx] after its mount (which is in
    [Persist]): the [joiner] input, the Copy button
    ([navigator.clipboard.writeText(composerText)]), the Download button
    ([downloadBlob(`${slug}-preview.md`, composerText, "text/markdown")]),
    the [<pre>] that shows [composerText], and per sequence its title
    and Export CSV button ([Persist.export_csv_click]).  The page's
    effects on the outside world are values: the text written to the
    clipboard and the files downloaded with their names and types.  The
    preview's format is pinned by a reader ([read_block_line]) that
    recovers each block's number and outputs from its line. *)

From S2P Require Import Prelude JsString Json Storage Catalog Sequences EntryModel Identifier Export EntryOps Persist.

(** ** The page *)

Record FacePage := mkFacePage {
  fp_models : list SeqModel;
  fp_store : EntryStore;
  fp_joiner : string
}.

Inductive FaceEvent :=
  | FeJoiner (j : string)       (** [setJoiner(e.target.value)] *)
  | FeCopy                      (** Copy *)
  | FeDownload                  (** Download *)
  | FeExport (i : nat).         (** Export CSV of the [i]-th sequence *)

Inductive FaceEffect :=
  | Clipboard (text : string)
  | FileDownload (name text mime : string).

Section face.
Variable slug : string.
Context (PLACEHOLDER : string).

(** [useState("; ")] next to the mount's reads. *)
Definition face_init (ls : Storage) : FacePage :=
  let '(models, store, _) := entryface_mount slug ls in mkFacePage models store "; ".

Definition face_text (p : FacePage) : string := composerText (fp_models p) (fp_store p) (fp_joiner p).

(** One event of the page: the new state and its effects. *)
Definition face_step (p : FacePage) (e : FaceEvent) : FacePage * list FaceEffect :=
  match e with
  | FeJoiner j => (mkFacePage (fp_models p) (fp_store p) j, [])
  | FeCopy => (p, [Clipboard (face_text p)])
  | FeDownload => (p, [FileDownload (slug +:+ "-preview.md") (face_text p) "text/markdown"])
  | FeExport i =>
      match fp_models p !! i with
      | Some sm =>
          let '(name, csv) := export_csv_click slug PLACEHOLDER (fp_store p) sm in
          (p, [FileDownload name csv "text/csv;charset=utf-8"])
      | None => (p, [])
      end
  end.

(** What the page shows: the joiner input, the preview, and for each
    sequence its title. *)
Record FaceView := mkFaceView {
  fv_joiner : string;
  fv_preview : string;
  fv_titles : list string
}.

Definition face_view (p : FacePage) : FaceView :=
  mkFaceView (fp_joiner p) (face_text p) (map title (fp_models p)).

End face.

(** The lines of the preview: one per block of every sequence. *)
Definition face_lines (p : FacePage) (j : string) : list string :=
  flat_map (fun sm => map (block_line (title sm) j) (default [] (fp_store p !! seqKey sm))) (fp_models p).

(** No line feed and no carriage return. *)
Definition line_safe (s : string) : bool :=
  all_chars (fun c => negb (Ascii.eqb c newline) && negb (Ascii.eqb c carriage_return)) s.

(** Reading a line of the preview back, for a sequence of title
    [title] and a one-character joiner [c]: the block number, and the
    outputs the line lists. *)
Definition read_block_line (title : string) (c : ascii) (l : string) : option (nat * list string) :=
  match strip_prefix (title +:+ " — Block ") l with
  | Some r =>
      match parse_nat r with
      | Some (n, EmptyString) => Some (n, [])
      | Some (n, String ":" (String " " outs)) => Some (n, split_on c outs)
      | _ => None
      end
  | None => None
  end.

(** The title of each line of the preview, and what the line should
    read back to: the block's number and its truthy outputs. *)
Definition line_titles (p : FacePage) : list string :=
  flat_map (fun sm => map (fun _ => title sm) (default [] (fp_store p !! seqKey sm))) (fp_models p).

Definition line_blocks (p : FacePage) : list (nat * list string) :=
  flat_map (fun sm => map (fun b => (Block.block b, List.filter js_truthy (map BlockRow.output (Block.rows b))))
                          (default [] (fp_store p !! seqKey sm))) (fp_models p).

(** A cell of the preview: no line break and no joiner character. *)
Definition cell_safe (c : ascii) (o : string) : bool :=
  line_safe o && all_chars (fun d => negb (Ascii.eqb d c)) o.

(** ** Lemmas *)

Lemma line_safe_app s1 s2 : line_safe (s1 +:+ s2) = line_safe s1 && line_safe s2.
Proof. apply all_chars_app. Qed.

Lemma line_safe_join sep ws :
  line_safe sep = true -> Forall (fun w => line_safe w = true) ws -> line_safe (join sep ws) = true.
Proof.
  intros Hsep Hws. induction Hws as [|w ws Hw Hws IH]; [done|].
  destruct ws as [|w' ws']; [done|]. rewrite join_cons2, !line_safe_app, Hw, Hsep, IH. done.
Qed.

Lemma line_safe_digits n : line_safe (string_of_nat n) = true.
Proof.
  eapply all_chars_impl; [|apply string_of_uint_digits].
  intros c Hc. unfold digit_char in Hc. apply andb_prop in Hc as [H1 H2].
  apply Nat.leb_le in H1, H2. apply andb_true_intro. split; apply negb_true_iff.
  - destruct (Ascii.eqb_spec c newline) as [->|]; [vm_compute in H1; lia|done].
  - destruct (Ascii.eqb_spec c carriage_return) as [->|]; [vm_compute in H1; lia|done].
Qed.

Lemma line_safe_char_free s : line_safe s = true -> char_free newline s.
Proof.
  intros H. apply all_chars_char_free. eapply all_chars_impl; [|exact H].
  intros c [Hc _]%andb_prop. exact Hc.
Qed.

Lemma line_safe_no_cr s : line_safe s = true -> drop_last_cr s = s.
Proof.
  induction s as [|c s IH]; [done|]. cbn [line_safe all_chars]. intros [[_ Hc]%andb_prop Hs]%andb_prop.
  apply negb_true_iff in Hc. cbn. destruct s as [|d s]; [by rewrite Hc|]. f_equal. by apply IH.
Qed.

Lemma block_line_safe t j b :
  line_safe t = true -> line_safe j = true ->
  Forall (fun r => line_safe (BlockRow.output r) = true) (Block.rows b) ->
  line_safe (block_line t j b) = true.
Proof.
  intros Ht Hj Hr. unfold block_line.
  assert (line_safe (join j (List.filter js_truthy (map BlockRow.output (Block.rows b)))) = true) as Hjn.
  { apply line_safe_join; [done|]. apply Forall_forall. intros w Hw.
    apply list_elem_of_In, filter_In in Hw as [Hw _]. apply in_map_iff in Hw as (r & <- & Hrw).
    apply (proj1 (Forall_forall _ _) Hr). by apply list_elem_of_In. }
  rewrite line_safe_app, Hjn, andb_true_r.
  destruct (js_truthy _); rewrite !line_safe_app, Ht, line_safe_digits; done.
Qed.

(** Every line of the preview is free of line breaks when the titles,
    the joiner and the outputs are. *)
Lemma face_lines_safe p j :
  line_safe j = true ->
  Forall (fun sm => line_safe (title sm) = true /\
            Forall (fun b => Forall (fun r => line_safe (BlockRow.output r) = true) (Block.rows b))
              (default [] (fp_store p !! seqKey sm))) (fp_models p) ->
  Forall (fun l => line_safe l = true) (face_lines p j).
Proof.
  intros Hj Hms. apply Forall_forall. intros l Hl%list_elem_of_In.
  apply in_flat_map in Hl as (sm & Hsm & Hl). apply in_map_iff in Hl as (b & <- & Hb).
  destruct (proj1 (Forall_forall _ _) Hms sm (proj2 (list_elem_of_In _ _) Hsm)) as [Ht Hbs].
  apply block_line_safe; [done|done|].
  exact (proj1 (Forall_forall _ _) Hbs b (proj2 (list_elem_of_In _ _) Hb)).
Qed.

Lemma join_truthy sep ws :
  ws <> [] -> Forall (fun w => js_truthy w = true) ws -> js_truthy (join sep ws) = true.
Proof.
  intros Hne Hws. destruct Hws as [|w ws Hw Hws]; [done|].
  destruct ws as [|w' ws']; [done|]. rewrite join_cons2. by destruct w.
Qed.

Lemma filter_truthy_all l : Forall (fun w => js_truthy w = true) (List.filter js_truthy l).
Proof. apply Forall_forall. intros w Hw%list_elem_of_In. by apply filter_In in Hw as [_ ?]. Qed.

(** A line of the preview reads back to its block's number and outputs. *)
Lemma read_block_line_ok t c b :
  Forall (fun r => all_chars (fun d => negb (Ascii.eqb d c)) (BlockRow.output r) = true) (Block.rows b) ->
  read_block_line t c (block_line t (String c EmptyString) b) =
    Some (Block.block b, List.filter js_truthy (map BlockRow.output (Block.rows b))).
Proof.
  intros Hc. unfold block_line, read_block_line.
  set (outs := List.filter js_truthy (map BlockRow.output (Block.rows b))).
  assert (Forall (char_free c) outs) as Hfree.
  { apply Forall_forall. intros w Hw%list_elem_of_In. apply filter_In in Hw as [Hw _].
    apply in_map_iff in Hw as (r & <- & Hr). apply all_chars_char_free.
    apply (proj1 (Forall_forall _ _) Hc). by apply list_elem_of_In. }
  destruct outs as [|o os] eqn:Eo.
  - change (join (String c EmptyString) []) with EmptyString. cbn [js_truthy].
    rewrite append_empty_r, <- (append_assoc_str t " — Block "), strip_prefix_app.
    rewrite <- (append_empty_r (string_of_nat _)), parse_nat_string_of_nat by done. done.
  - rewrite join_truthy by (done || (rewrite <- Eo; apply filter_truthy_all)).
    rewrite !append_assoc_str, <- (append_assoc_str t " — Block "), strip_prefix_app.
    rewrite parse_nat_string_of_nat by done.
    change (": " +:+ join (String c EmptyString) (o :: os)) with (String ":" (String " " (join (String c EmptyString) (o :: os)))).
    cbv beta iota. by rewrite split_on_join.
Qed.

Lemma zip_with_flat_map {A B C D} (f : A -> B -> C) (g1 : D -> list A) (g2 : D -> list B) (ms : list D) :
  (forall m, length (g1 m) = length (g2 m)) ->
  zip_with f (flat_map g1 ms) (flat_map g2 ms) = flat_map (fun m => zip_with f (g1 m) (g2 m)) ms.
Proof. intros Hl. induction ms as [|m ms IH]; [done|]. cbn. by rewrite zip_with_app, IH. Qed.

Lemma flat_map_map_nil {D X Y Z} (f : D -> X -> Y) (h : D -> X -> Z) (g : D -> list X) ms :
  flat_map (fun m => map (f m) (g m)) ms = [] -> flat_map (fun m => map (h m) (g m)) ms = [].
Proof.
  induction ms as [|m ms IH]; [done|]. cbn. intros [H1 H2]%app_eq_nil.
  apply map_eq_nil in H1. rewrite H1, IH by done. done.
Qed.

(** Every line of every sequence reads back. *)
Lemma read_lines_ok c (store : EntryStore) ms :
  Forall (fun sm => Forall (fun b => Forall (fun r => cell_safe c (BlockRow.output r) = true) (Block.rows b))
                      (default [] (store !! seqKey sm))) ms ->
  flat_map (fun sm => zip_with (fun t l => read_block_line t c l)
                        (map (fun _ => title sm) (default [] (store !! seqKey sm)))
                        (map (block_line (title sm) (String c EmptyString)) (default [] (store !! seqKey sm)))) ms =
  map Some (flat_map (fun sm => map (fun b => (Block.block b, List.filter js_truthy (map BlockRow.output (Block.rows b))))
                                   (default [] (store !! seqKey sm))) ms).
Proof.
  induction 1 as [|sm ms Hbs Hms IH]; [done|]. cbn [flat_map]. rewrite map_app, IH. f_equal.
  clear IH. induction Hbs as [|b bs Hb Hbs IHb]; [done|]. cbn. rewrite IHb, read_block_line_ok; [done|].
  eapply Forall_impl; [exact Hb|]. intros r [_ ?]%andb_prop. done.
Qed.

(** C33: the preview Entry-Face downloads can be read back.  With a
    one-character joiner [c] (set in the joiner input) and no line break
    in the titles, nor a line break or [c] in the outputs, the file the
    Download button saves, split at its line breaks and each line read
    against its sequence's title, gives every block of every sequence
    (in the order of the sequences and of their blocks) with its number
    and its truthy outputs. *)
Theorem preview_download_decodes slug P p c :
  line_safe (String c EmptyString) = true ->
  Forall (fun sm => line_safe (title sm) = true /\
            Forall (fun b => Forall (fun r => cell_safe c (BlockRow.output r) = true) (Block.rows b))
              (default [] (fp_store p !! seqKey sm))) (fp_models p) ->
  line_blocks p <> [] ->
  let p' := (face_step slug P p (FeJoiner (String c EmptyString))).1 in
  exists text, (face_step slug P p' FeDownload).2 = [FileDownload (slug +:+ "-preview.md") text "text/markdown"] /\
    zip_with (fun t l => read_block_line t c l) (line_titles p) (split_lines text) = map Some (line_blocks p).
Proof.
  intros Hj Hms Hne p'. eexists. split; [reflexivity|].
  assert (Forall (fun sm => line_safe (title sm) = true /\
            Forall (fun b => Forall (fun r => line_safe (BlockRow.output r) = true) (Block.rows b))
              (default [] (fp_store p !! seqKey sm))) (fp_models p)) as Hls.
  { eapply Forall_impl; [exact Hms|]. intros sm [Ht Hb]. split; [done|].
    eapply Forall_impl; [exact Hb|]. intros b Hr. eapply Forall_impl; [exact Hr|].
    intros r [? _]%andb_prop. done. }
  pose proof (face_lines_safe p _ Hj Hls) as Hs.
  assert (face_lines p (String c EmptyString) <> []) as Hne'
    by (intros He; apply Hne;
        exact (flat_map_map_nil (fun sm => block_line (title sm) (String c EmptyString))
                 (fun _ b => (Block.block b, List.filter js_truthy (map BlockRow.output (Block.rows b))))
                 (fun sm => default [] (fp_store p !! seqKey sm)) (fp_models p) He)).
  unfold p'. cbn [face_step fst snd]. unfold face_text. cbn [fp_models fp_store fp_joiner].
  change (composerText (fp_models p) (fp_store p) (String c EmptyString)) with
    (join (String newline EmptyString) (face_lines p (String c EmptyString))).
  rewrite split_lines_join; [|exact Hne'| |].
  2: eapply Forall_impl; [exact Hs|]; intros l Hl; by apply line_safe_char_free.
  2: eapply Forall_impl; [exact Hs|]; intros l Hl; by apply line_safe_no_cr.
  unfold line_titles, face_lines, line_blocks. rewrite zip_with_flat_map by (intros sm; by rewrite !length_map).
  apply read_lines_ok. eapply Forall_impl; [exact Hms|]. by intros sm [_ ?].
Qed.

Definition ex_face : FacePage :=
  mkFacePage [mkSeqModel "column B-1|column B-2" "Animal → Form" ["Animal"; "Form"]] ex_store "; ".

Lemma preview_download_decodes_witness :
  line_safe (String ","%char EmptyString) = true /\
  Forall (fun sm => line_safe (title sm) = true /\
            Forall (fun b => Forall (fun r => cell_safe ","%char (BlockRow.output r) = true) (Block.rows b))
              (default [] (fp_store ex_face !! seqKey sm))) (fp_models ex_face) /\
  line_blocks ex_face <> [] /\
  let p' := (face_step "animals" "placeholder" ex_face (FeJoiner (String ","%char EmptyString))).1 in
  exists text, (face_step "animals" "placeholder" p' FeDownload).2 =
                 [FileDownload ("animals" +:+ "-preview.md") text "text/markdown"] /\
    zip_with (fun t l => read_block_line t ","%char l) (line_titles ex_face) (split_lines text) =
    map Some (line_blocks ex_face).
Proof.
  assert (line_safe (String ","%char EmptyString) = true) as H1 by reflexivity.
  assert (Forall (fun sm => line_safe (title sm) = true /\
            Forall (fun b => Forall (fun r => cell_safe ","%char (BlockRow.output r) = true) (Block.rows b))
              (default [] (fp_store ex_face !! seqKey sm))) (fp_models ex_face)) as H2
    by (vm_compute; repeat constructor).
  assert (line_blocks ex_face <> []) as H3 by (vm_compute; discriminate).
  split; [exact H1|]. split; [exact H2|]. split; [exact H3|].
  exact (preview_download_decodes "animals" "placeholder" ex_face ","%char H1 H2 H3).
Defined.
